(** * The credit ledger of colpageapp

    A shallow embedding of the credit ledger (lib/credit-utils.ts in its two
    revisions) and of the routes that drive it: the two webhook routes
    (app/api/credits/route.ts and app/api/groovesell-webhook/route.ts) and
    the image route that charges for a picture
    (app/api/images/replicate/route.ts), together with the properties of
    the ledger stated over that embedding.

    Conventions of the model:
    - The Supabase service is two relational tables and an auth directory
      held in a [World].  A table is the list of its rows, in the order
      the service returns them.  The tables enforce what the schema
      declares: the keys of [users], the foreign key of the log, and the
      INTEGER and NOT NULL columns.  Every remote call consults a script
      of scheduled outages, so that a call can be answered with an error
      object, or run while its reply is lost; row-level security is not
      modelled apart from that.
    - Ledger functions are computations in a state-and-exception monad:
      [try]/[catch] is [try_catch], [throw] is [throw], and what was written
      before a throw stays written.
    - Asynchronous code is sequential: one request runs from beginning to
      end on the world it is given.  Races between requests are outside
      the model.
    - Balances and amounts are integers; a number the store is sent must
      fit its INTEGER column (32 bits).
    - Timestamps are time values in milliseconds, the clock does not move
      while a request runs, and the calendar methods of [Date] work in the
      local time of the host, which the world carries.
    - Texts are the UTF-8 bytes of their characters.
    - Console output is left out. *)

From Stdlib Require Import ZArith List String Ascii Bool Lia QArith.
From Stdlib Require Import DecimalString.
Import ListNotations.

Open Scope string_scope.
Open Scope Z_scope.

(** ** JavaScript runtime pieces the ledger relies on *)

Module Js.

(** *** Date: time values are milliseconds since the epoch. *)

Definition msPerDay : Z := 86400000.

Definition Day (t : Z) : Z := t / msPerDay.
Definition TimeWithinDay (t : Z) : Z := t mod msPerDay.

(** Days since the epoch of the first day of month [m] (1..12) of year [y],
    plus [d - 1]. *)
Definition days_from_civil (y m d : Z) : Z :=
  let y' := if m <=? 2 then y - 1 else y in
  let era := y' / 400 in
  let yoe := y' - era * 400 in
  let mp := if 2 <? m then m - 3 else m + 9 in
  let doy := (153 * mp + 2) / 5 + d - 1 in
  let doe := yoe * 365 + yoe / 4 - yoe / 100 + doy in
  era * 146097 + doe - 719468.

(** Year, month (1..12) and day of month of a day number. *)
Definition civil_from_days (z : Z) : Z * Z * Z :=
  let z' := z + 719468 in
  let era := z' / 146097 in
  let doe := z' - era * 146097 in
  let yoe := (doe - doe / 1460 + doe / 36524 - doe / 146096) / 365 in
  let doy := doe - (365 * yoe + yoe / 4 - yoe / 100) in
  let mp := (5 * doy + 2) / 153 in
  let d := doy - (153 * mp + 2) / 5 + 1 in
  let m := if mp <? 10 then mp + 3 else mp - 9 in
  ((if m <=? 2 then yoe + era * 400 + 1 else yoe + era * 400), m, d).

Definition YearFromTime (t : Z) : Z := fst (fst (civil_from_days (Day t))).
(** Months are numbered from 0, as [Date.prototype.getMonth] does. *)
Definition MonthFromTime (t : Z) : Z := snd (fst (civil_from_days (Day t))) - 1.
Definition DateFromTime (t : Z) : Z := snd (civil_from_days (Day t)).

Definition MakeDay (year month date : Z) : Z :=
  let ym := year + month / 12 in
  let mn := month mod 12 in
  days_from_civil ym (mn + 1) 1 + date - 1.

Definition MakeDate (day time : Z) : Z := day * msPerDay + time.

(** The methods that read or set a calendar field work in the local time
    of the host.  Its time zone is given by the adjustment [tza] (LocalTZA
    of the language specification): [tza t true] is the offset of local
    time from UTC at the UTC time [t], and [tza t false] the offset taken
    for the local time [t]. *)
Definition LocalTime (tza : Z -> bool -> Z) (t : Z) : Z := t + tza t true.
Definition UTC (tza : Z -> bool -> Z) (t : Z) : Z := t - tza t false.

(** The time value a Date holds; [None] is the invalid date. *)
Definition TimeClip (time : Z) : option Z :=
  if Z.abs time <=? 8640000000000000 then Some time else None.

Definition getMonth (tza : Z -> bool -> Z) (t : Z) : Z :=
  MonthFromTime (LocalTime tza t).
Definition getFullYear (tza : Z -> bool -> Z) (t : Z) : Z :=
  YearFromTime (LocalTime tza t).

Definition setMonth (tza : Z -> bool -> Z) (t month : Z) : option Z :=
  let l := LocalTime tza t in
  TimeClip
    (UTC tza
       (MakeDate (MakeDay (YearFromTime l) month (DateFromTime l))
          (TimeWithinDay l))).

Definition setFullYear (tza : Z -> bool -> Z) (t year : Z) : option Z :=
  let l := LocalTime tza t in
  TimeClip
    (UTC tza
       (MakeDate (MakeDay year (MonthFromTime l) (DateFromTime l))
          (TimeWithinDay l))).

(** *** Numbers and [parseFloat] *)

(** The values a JSON field can hold that the routes look at.  A [JNum]
    carries the value of the number. *)
Inductive Value :=
| JUndefined
| JNull
| JBool (b : bool)
| JNum (q : Q)
| JStr (s : string).

Inductive Number :=
| NaN
| Infinity (negative : bool)
| Finite (q : Q).

Definition truthy (v : Value) : bool :=
  match v with
  | JUndefined | JNull => false
  | JBool b => b
  | JNum q => negb (Qeq_bool q 0)
  | JStr s => negb (s =? "")%string
  end.

(** [a || b] on values. *)
Definition or_else (a b : Value) : Value := if truthy a then a else b.

(** White space and line terminators, which [parseFloat] skips: the
    characters U+0009 to U+000D and U+0020, which take one byte, and
    U+00A0, U+1680, U+2000 to U+200A, U+2028, U+2029, U+202F, U+205F,
    U+3000 and U+FEFF, which take two or three. *)
Definition is_white (c : ascii) : bool :=
  let n := nat_of_ascii c in
  ((9 <=? n) && (n <=? 13))%nat || (n =? 32)%nat.

Definition is_white2 (c1 c2 : ascii) : bool :=
  ((nat_of_ascii c1 =? 194) && (nat_of_ascii c2 =? 160))%nat.

Definition is_white3 (c1 c2 c3 : ascii) : bool :=
  let n1 := nat_of_ascii c1 in
  let n2 := nat_of_ascii c2 in
  let n3 := nat_of_ascii c3 in
  ((n1 =? 225) && (n2 =? 154) && (n3 =? 128) ||
   (n1 =? 226) && (n2 =? 128) &&
     ((128 <=? n3) && (n3 <=? 138) || (n3 =? 168) || (n3 =? 169) || (n3 =? 175)) ||
   (n1 =? 226) && (n2 =? 129) && (n3 =? 159) ||
   (n1 =? 227) && (n2 =? 128) && (n3 =? 128) ||
   (n1 =? 239) && (n2 =? 187) && (n3 =? 191))%nat.

Fixpoint trim_start (s : string) : string :=
  match s with
  | String c1 r1 =>
      if is_white c1 then trim_start r1
      else
        match r1 with
        | String c2 r2 =>
            if is_white2 c1 c2 then trim_start r2
            else
              match r2 with
              | String c3 r3 =>
                  if is_white3 c1 c2 c3 then trim_start r3 else s
              | EmptyString => s
              end
        | EmptyString => s
        end
  | EmptyString => s
  end.

Definition digit_of (c : ascii) : option Z :=
  let n := nat_of_ascii c in
  if ((48 <=? n) && (n <=? 57))%nat then Some (Z.of_nat n - 48) else None.

(** Reads the longest run of decimal digits: the number read so far, how
    many digits were read, and the rest of the text. *)
Fixpoint digits (acc : Z) (count : Z) (s : string) : Z * Z * string :=
  match s with
  | String c r =>
      match digit_of c with
      | Some d => digits (10 * acc + d) (count + 1) r
      | None => (acc, count, s)
      end
  | EmptyString => (acc, count, s)
  end.

Definition pow10 (e : Z) : Q := Qpower (10 # 1) e.

(** The exponent part, taken only when at least one digit follows. *)
Definition exponent (s : string) : Z :=
  match s with
  | String c r =>
      if (c =? "e")%char || (c =? "E")%char then
        match r with
        | String "+" r' =>
            let '(e, n, _) := digits 0 0 r' in if 0 <? n then e else 0
        | String "-" r' =>
            let '(e, n, _) := digits 0 0 r' in if 0 <? n then - e else 0
        | _ =>
            let '(e, n, _) := digits 0 0 r in if 0 <? n then e else 0
        end
      else 0
  | EmptyString => 0
  end.

(** Rounding to a double keeps the sign and the order with 0, except that
    magnitudes up to 2^-1075 become 0 and magnitudes from
    2^1024 - 2^970 become infinite. *)
Definition to_double (negative : bool) (q : Q) : Number :=
  if Qle_bool q (Qpower (2 # 1) (-1075)) then Finite 0
  else if Qle_bool (inject_Z (2 ^ 1024 - 2 ^ 970)) q then Infinity negative
  else Finite (if negative then Qopp q else q).

Definition unsigned_literal (negative : bool) (s : string) : Number :=
  if prefix "Infinity" s then Infinity negative
  else
    let '(ip, ni, r) := digits 0 0 s in
    match r with
    | String "." r' =>
        let '(fp, nf, r'') := digits 0 0 r' in
        if (0 <? ni) || (0 <? nf) then
          to_double negative
            (inject_Z (ip * 10 ^ nf + fp) * pow10 (exponent r'' - nf))
        else NaN
    | _ =>
        if 0 <? ni then to_double negative (inject_Z ip * pow10 (exponent r))
        else NaN
    end.

Definition parseFloat_string (s : string) : Number :=
  match trim_start s with
  | String "+" r => unsigned_literal false r
  | String "-" r => unsigned_literal true r
  | t => unsigned_literal false t
  end.

(** [parseFloat] converts its argument to a string first; the text of a
    number reads back as that number. *)
Definition parseFloat (v : Value) : Number :=
  match v with
  | JStr s => parseFloat_string s
  | JNum q => Finite q
  | JUndefined | JNull | JBool _ => NaN
  end.

(** [x > 0]. *)
Definition gt0 (x : Number) : bool :=
  match x with
  | NaN => false
  | Infinity negative => negb negative
  | Finite q => negb (Qle_bool q 0)
  end.

(** [v === 1]. *)
Definition is_one (v : Value) : bool :=
  match v with
  | JNum q => Qeq_bool q 1
  | _ => false
  end.

(** *** Strings *)

(** [s.includes(t)]. *)
Fixpoint includes (s t : string) : bool :=
  prefix t s ||
  match s with
  | String _ r => includes r t
  | EmptyString => false
  end.

(** The decimal text of an integer, as a template literal prints it. *)
Definition show (z : Z) : string := NilZero.string_of_int (Z.to_int z).

End Js.

(** ** Data model (lib/supabase.ts, supabase-setup.sql) *)

Inductive SubscriptionType := monthly | yearly.
Inductive SubscriptionTier := basic | standard | premium.
Inductive TransactionType := purchase | usage | refund.

(** A row of [public.users].  Timestamps are time values; the ISO text the
    code stores is a rendering of them.  [subscription_tier] exists in the
    later schema only and stays [None] where the code never writes it. *)
Record User := mkUser {
  id : string;
  email : string;
  credits : Z;
  subscription_type : option SubscriptionType;
  subscription_tier : option SubscriptionTier;
  subscription_expires_at : option Z;
  created_at : Z;
  updated_at : Z
}.

(** A row of [public.credit_transactions]; the generated row id is left
    out. *)
Record CreditTransaction := mkTransaction {
  user_id : string;
  amount : Z;
  transaction_type : TransactionType;
  description : string;
  tx_created_at : Z
}.

(** A user of the auth directory. *)
Record AuthUser := mkAuthUser {
  auth_id : string;
  auth_email : string
}.

(** A [number] argument of the ledger: an integer, or [undefined] where
    the caller passes on a field that is not there. *)
Inductive Num :=
| Int (z : Z)
| Undefined.

Coercion Int : Z >-> Num.

(** [c + a] on the ledger's numbers; [None] is NaN. *)
Definition plus (c : Z) (a : Num) : option Z :=
  match a with
  | Int z => Some (c + z)
  | Undefined => None
  end.

(** [`${a}`] *)
Definition show_num (a : Num) : string :=
  match a with
  | Int z => Js.show z
  | Undefined => "undefined"
  end.

(** The fields an update sends; an absent field leaves the column as it
    is.  The number of [credits] goes out as JSON, where NaN is [null]:
    [Some None]. *)
Record UserPatch := mkPatch {
  set_credits : option (option Z);
  set_subscription_type : option SubscriptionType;
  set_subscription_tier : option SubscriptionTier;
  set_subscription_expires_at : option Z;
  set_updated_at : option Z
}.

Definition or_keep {A} (new : option A) (old : A) : A :=
  match new with Some a => a | None => old end.

Definition or_keep_opt {A} (new : option A) (old : option A) : option A :=
  match new with Some a => Some a | None => old end.

Definition apply_patch (p : UserPatch) (u : User) : User :=
  {| id := id u;
     email := email u;
     credits :=
       match set_credits p with
       | Some (Some c) => c
       | _ => credits u
       end;
     subscription_type := or_keep_opt (set_subscription_type p) (subscription_type u);
     subscription_tier := or_keep_opt (set_subscription_tier p) (subscription_tier u);
     subscription_expires_at :=
       or_keep_opt (set_subscription_expires_at p) (subscription_expires_at u);
     created_at := created_at u;
     updated_at := or_keep (set_updated_at p) (updated_at u) |}.

(** ** The world a request runs in *)

(** What a scheduled outage does to the call that meets it: the request
    does not reach the service; or the service answers with an error
    object whose code is not the row-count code PGRST116; or the service
    runs the query and its reply does not reach the caller.  The client
    library resolves a failed fetch to an error object and does not
    throw. *)
Inductive Outage :=
| Unreachable
| Refuses (message : string)
| ReplyLost.

Inductive Client := Anon | Admin.

Record World := mkWorld {
  users : list User;
  credit_transactions : list CreditTransaction;
  auth_users : list AuthUser;
  (** one entry per remote call still to come; [None] lets the call through *)
  outages : list (option Outage);
  (** the identifiers the auth service hands out, and how many it has *)
  uuid : nat -> string;
  issued : nat;
  (** the clock, and the time zone of the host (LocalTZA) *)
  now : Z;
  LocalTZA : Z -> bool -> Z;
  (** whether the module-level handles [supabase] and [supabaseAdmin] are set *)
  anon_client : bool;
  admin_client : bool
}.

Definition with_users (us : list User) (w : World) : World :=
  {| users := us; credit_transactions := credit_transactions w;
     auth_users := auth_users w; outages := outages w;
     uuid := uuid w; issued := issued w;
     now := now w; LocalTZA := LocalTZA w;
     anon_client := anon_client w; admin_client := admin_client w |}.

Definition with_transactions (ts : list CreditTransaction) (w : World) : World :=
  {| users := users w; credit_transactions := ts;
     auth_users := auth_users w; outages := outages w;
     uuid := uuid w; issued := issued w;
     now := now w; LocalTZA := LocalTZA w;
     anon_client := anon_client w; admin_client := admin_client w |}.

Definition with_outages (os : list (option Outage)) (w : World) : World :=
  {| users := users w; credit_transactions := credit_transactions w;
     auth_users := auth_users w; outages := os;
     uuid := uuid w; issued := issued w;
     now := now w; LocalTZA := LocalTZA w;
     anon_client := anon_client w; admin_client := admin_client w |}.

Definition with_auth (au : list AuthUser) (n : nat) (w : World) : World :=
  {| users := users w; credit_transactions := credit_transactions w;
     auth_users := au; outages := outages w; uuid := uuid w; issued := n;
     now := now w; LocalTZA := LocalTZA w;
     anon_client := anon_client w; admin_client := admin_client w |}.

(** The world when the clock reads [t]. *)
Definition at_time (t : Z) (w : World) : World :=
  {| users := users w; credit_transactions := credit_transactions w;
     auth_users := auth_users w; outages := outages w;
     uuid := uuid w; issued := issued w;
     now := t; LocalTZA := LocalTZA w;
     anon_client := anon_client w; admin_client := admin_client w |}.

Definition has_client (c : Client) (w : World) : bool :=
  match c with Anon => anon_client w | Admin => admin_client w end.

(** ** Exceptions and the request monad *)

Inductive Exn :=
| CreditError (message : string) (code : string)
| JsError (message : string).

Definition exn_message (e : Exn) : string :=
  match e with CreditError m _ => m | JsError m => m end.

Inductive Outcome (A : Type) :=
| Returns (a : A)
| Throws (e : Exn).
Arguments Returns {A} a.
Arguments Throws {A} e.

(** A computation runs on a world and leaves a world behind, whether it
    returns or throws: what was written before a throw stays written. *)
Definition M (A : Type) : Type := World -> Outcome A * World.

Definition ret {A} (a : A) : M A := fun w => (Returns a, w).

Definition throw {A} (e : Exn) : M A := fun w => (Throws e, w).

Definition bind {A B} (m : M A) (k : A -> M B) : M B := fun w =>
  match m w with
  | (Returns a, w') => k a w'
  | (Throws e, w') => (Throws e, w')
  end.

Definition try_catch {A} (body : M A) (handler : Exn -> M A) : M A := fun w =>
  match body w with
  | (Returns a, w') => (Returns a, w')
  | (Throws e, w') => handler e w'
  end.

Declare Scope ledger_scope.
Delimit Scope ledger_scope with ledger.
Notation "x <- m ;; k" := (bind m (fun x => k))
  (at level 61, m at next level, right associativity) : ledger_scope.
Notation "m ;; k" := (bind m (fun _ => k))
  (at level 61, right associativity) : ledger_scope.
Open Scope ledger_scope.

(** [new Date()]. *)
Definition new_Date : M Z := fun w => (Returns (now w), w).

(** The time zone the calendar methods of [Date] work in. *)
Definition zone : M (Z -> bool -> Z) := fun w => (Returns (LocalTZA w), w).

(** [d.toISOString()]: the ISO text denotes the time value of the date;
    the invalid date has none, and a RangeError is thrown. *)
Definition toISOString (d : option Z) : M Z :=
  match d with
  | Some t => ret t
  | None => throw (JsError "Invalid time value")
  end.

(** The catch clause every ledger function ends with: a [CreditError] is
    thrown again, anything else becomes an UNKNOWN_ERROR. *)
Definition rethrow {A} (unknown : string) (error : Exn) : M A :=
  match error with
  | CreditError _ _ => throw error
  | JsError _ => throw (CreditError unknown "UNKNOWN_ERROR")
  end.

(** ** The Supabase service *)

Record PgError := mkPgError {
  pg_code : string;
  pg_message : string
}.

(** The [{ data, error }] pair a call resolves to. *)
Inductive Reply (A : Type) :=
| Data (a : A)
| Error (e : PgError).
Arguments Data {A} a.
Arguments Error {A} e.

(** The error object a call resolves to when its fetch fails. *)
Definition fetch_failed : PgError := mkPgError "" "TypeError: fetch failed".
Definition auth_fetch_failed : PgError := mkPgError "" "fetch failed".

(** One remote call through handle [c]; [lost] is the error object of a
    failed fetch.  Calling through a handle that is not set throws a
    TypeError; otherwise the next scheduled outage, if any, decides
    whether the query reaches the tables and whether its reply comes
    back. *)
Definition remote {A} (lost : PgError) (c : Client)
    (query : World -> Reply A * World) : M (Reply A) :=
  fun w =>
    if has_client c w then
      match outages w with
      | Some Unreachable :: rest =>
          (Returns (Error lost), with_outages rest w)
      | Some (Refuses m) :: rest =>
          (Returns (Error (mkPgError "XX000" m)), with_outages rest w)
      | Some ReplyLost :: rest =>
          let (r, w') := query (with_outages rest w) in (Returns (Error lost), w')
      | None :: rest =>
          let (r, w') := query (with_outages rest w) in (Returns r, w')
      | [] =>
          let (r, w') := query w in (Returns r, w')
      end
    else (Throws (JsError "Cannot read properties of null (reading 'from')"), w).

(** A query on the tables, and a request to the auth service. *)
Definition call {A} (c : Client) (query : World -> Reply A * World)
  : M (Reply A) := remote fetch_failed c query.

Definition call_auth {A} (c : Client) (query : World -> Reply A * World)
  : M (Reply A) := remote auth_fetch_failed c query.

Definition by_email (e : string) (u : User) : bool := (email u =? e)%string.
Definition by_id (i : string) (u : User) : bool := (id u =? i)%string.

Definition not_single : PgError :=
  mkPgError "PGRST116" "JSON object requested, multiple (or no) rows returned".

(** [.from('users').select('*').eq(...)] *)
Definition select_users (p : User -> bool) (w : World) : Reply (list User) * World :=
  (Data (filter p (users w)), w).

(** [.from('users').select('*').eq(...).single()] *)
Definition select_user_single (p : User -> bool) (w : World) : Reply User * World :=
  match filter p (users w) with
  | [u] => (Data u, w)
  | _ => (Error not_single, w)
  end.

(** The double quote, which the messages of the database put around
    names and values. *)
Definition dq : string := String (ascii_of_nat 34) EmptyString.

Definition quoted (s : string) : string := dq ++ s ++ dq.

(** The INTEGER columns hold 32 bits. *)
Definition in_integer (z : Z) : bool :=
  (-2147483648 <=? z) && (z <=? 2147483647).

Definition out_of_range (z : Z) : PgError :=
  mkPgError "22003"
    ("value " ++ quoted (Js.show z) ++ " is out of range for type integer").

Definition not_null (column relation : string) : PgError :=
  mkPgError "23502"
    ("null value in column " ++ quoted column ++ " of relation " ++
     quoted relation ++ " violates not-null constraint").

(** What the service finds wrong with the body of an update when it reads
    it: a number that does not fit the INTEGER column. *)
Definition patch_error (patch : UserPatch) : option PgError :=
  match set_credits patch with
  | Some (Some c) => if in_integer c then None else Some (out_of_range c)
  | _ => None
  end.

(** What it finds wrong when it writes a row: a null in the NOT NULL
    column. *)
Definition row_error (patch : UserPatch) : option PgError :=
  match set_credits patch with
  | Some None => Some (not_null "credits" "users")
  | _ => None
  end.

Definition update_rows (p : User -> bool) (patch : UserPatch) (w : World) : list User :=
  map (fun u => if p u then apply_patch patch u else u) (users w).

(** [.from('users').update(patch).eq(...).select()]: the rows written, or
    the error of a body the columns do not take, with nothing written. *)
Definition update_users_select (p : User -> bool) (patch : UserPatch) (w : World)
  : Reply (list User) * World :=
  match patch_error patch with
  | Some e => (Error e, w)
  | None =>
      match filter p (users w), row_error patch with
      | _ :: _, Some e => (Error e, w)
      | rows, _ =>
          (Data (map (apply_patch patch) rows),
           with_users (update_rows p patch w) w)
      end
  end.

(** [.from('users').update(patch).eq(...)]; the reply carries no rows. *)
Definition update_users (p : User -> bool) (patch : UserPatch) (w : World)
  : Reply unit * World :=
  match update_users_select p patch w with
  | (Data _, w') => (Data tt, w')
  | (Error e, w') => (Error e, w')
  end.

(** [.from('users').update(patch).eq(...).select().single()]: when the
    update does not touch exactly one row the request is refused and
    nothing is written. *)
Definition update_users_single (p : User -> bool) (patch : UserPatch) (w : World)
  : Reply User * World :=
  match update_users_select p patch w with
  | (Data [u], w') => (Data u, w')
  | (Data _, _) => (Error not_single, w)
  | (Error e, w') => (Error e, w')
  end.

Definition unique_violation (constraint : string) : PgError :=
  mkPgError "23505"
    ("duplicate key value violates unique constraint " ++ quoted constraint).

Definition foreign_key_violation : PgError :=
  mkPgError "23503"
    ("insert or update on table " ++ quoted "credit_transactions" ++
     " violates foreign key constraint " ++
     quoted "credit_transactions_user_id_fkey").

(** [.from('users').insert({...}).select().single()] of a user without
    credits or subscription: [id] is the primary key and [email] is
    unique. *)
Definition new_account (i e : string) (c : Z) (t : Z) : User :=
  {| id := i; email := e; credits := c;
     subscription_type := None; subscription_tier := None;
     subscription_expires_at := None;
     created_at := t; updated_at := t |}.

Definition insert_user (i e : string) (c : Z) (w : World) : Reply User * World :=
  if negb (in_integer c) then (Error (out_of_range c), w)
  else if existsb (by_id i) (users w) then (Error (unique_violation "users_pkey"), w)
  else if existsb (by_email e) (users w) then
    (Error (unique_violation "users_email_key"), w)
  else
    let u := new_account i e c (now w) in
    (Data u, with_users (users w ++ [u]) w).

(** [.from('credit_transactions').insert({...})]: [amount] is an INTEGER
    that is not null, and [user_id] refers to a row of [users]. *)
Definition insert_transaction (uid : string) (a : Num) (k : TransactionType)
    (d : string) (w : World) : Reply unit * World :=
  match a with
  | Undefined => (Error (not_null "amount" "credit_transactions"), w)
  | Int a =>
      if negb (in_integer a) then (Error (out_of_range a), w)
      else if existsb (by_id uid) (users w) then
        (Data tt,
         with_transactions
           (credit_transactions w ++
            [{| user_id := uid; amount := a; transaction_type := k;
                description := d; tx_created_at := now w |}]) w)
      else (Error foreign_key_violation, w)
  end.

Definition by_auth_email (e : string) (a : AuthUser) : bool :=
  (auth_email a =? e)%string.

(** [auth.admin.createUser({ email, password, email_confirm: true })] *)
Definition auth_create_user (e : string) (w : World) : Reply string * World :=
  if existsb (by_auth_email e) (auth_users w) then
    (Error (mkPgError "email_exists"
              "A user with this email address has already been registered"), w)
  else
    let i := uuid w (issued w) in
    (Data i, with_auth (auth_users w ++ [mkAuthUser i e]) (S (issued w)) w).

(** ** Constants (lib/credit-utils.ts) *)

Definition INITIAL_CREDITS : Z := 0.
Definition TRIAL_CREDITS : Z := 3.
Definition MONTHLY_CREDITS : Z := 5.
Definition YEARLY_CREDITS : Z := 60.

Definition show_period (p : option SubscriptionType) : string :=
  match p with
  | Some monthly => "monthly"
  | Some yearly => "yearly"
  | None => "manual"
  end.

(** The expiry [addCredits] computes from a [new Date()] read at [t], in
    the time zone [tza]. *)
Definition expiration (tza : Z -> bool -> Z) (subscriptionType : SubscriptionType)
    (t : Z) : option Z :=
  match subscriptionType with
  | monthly => Js.setMonth tza t (Js.getMonth tza t + 1)
  | yearly => Js.setFullYear tza t (Js.getFullYear tza t + 1)
  end.

(** The expiry [addCredits] adds to its update when a period is given
    (the block that starts with [if (subscriptionType)], the same in both
    revisions). *)
Definition expiry_for (subscriptionType : option SubscriptionType)
  : M (option Z) :=
  match subscriptionType with
  | Some p =>
      expirationDate <- new_Date ;;
      tza <- zone ;;
      iso <- toISOString (expiration tza p expirationDate) ;;
      ret (Some iso)
  | None => ret None
  end.

(** ** lib/credit-utils.ts, the revision the credits route imports

    Every query goes through the [supabase] handle; only [signUpUser] uses
    [supabaseAdmin].  A lookup by email asks for a single row. *)

Module CreditUtils.

Definition getUserByEmail (email : string) : M (option User) :=
  try_catch
    (r <- call Anon (select_user_single (by_email email)) ;;
     match r with
     | Error error =>
         if (pg_code error =? "PGRST116")%string then ret None
         else throw (CreditError ("Failed to get user: " ++ pg_message error)
                                 "GET_USER_ERROR")
     | Data data => ret (Some data)
     end)
    (rethrow "Unknown error getting user").

Definition createUser (id email : string) : M User :=
  try_catch
    (r <- call Anon (insert_user id email INITIAL_CREDITS) ;;
     match r with
     | Error error =>
         throw (CreditError ("Failed to create user: " ++ pg_message error)
                            "CREATE_USER_ERROR")
     | Data data => ret data
     end)
    (rethrow "Unknown error creating user").

Definition getOrCreateUser (id email : string) : M User :=
  try_catch
    (user <- getUserByEmail email ;;
     match user with
     | None => createUser id email
     | Some user => ret user
     end)
    (rethrow "Unknown error getting or creating user").

Definition already_registered (message : string) : bool :=
  Js.includes message "User already registered" ||
  Js.includes message "already exists" ||
  Js.includes message "already registered" ||
  Js.includes message "has already been registered".

(** [existingUser?.id || null] *)
Definition id_or_null (existingUser : option User) : option string :=
  match existingUser with
  | Some u => if (id u =? "")%string then None else Some (id u)
  | None => None
  end.

(** [password] is [None] when absent and falsy when empty. *)
Definition signUpUser (email : string) (password : option string)
  : M (option string) :=
  match password with
  | None | Some "" =>
      existingUser <- getUserByEmail email ;;
      ret (id_or_null existingUser)
  | Some _ =>
      fun w =>
        if negb (admin_client w) then
          throw (CreditError "Admin client not available" "NO_ADMIN_CLIENT") w
        else
          (r <- call_auth Admin (auth_create_user email) ;;
           match r with
           | Error error =>
               if already_registered (pg_message error) then
                 existingUser <- getUserByEmail email ;;
                 ret (id_or_null existingUser)
               else
                 throw (CreditError
                          ("Failed to sign up user: " ++ pg_message error)
                          "SIGNUP_USER_ERROR")
           | Data i => ret (if (i =? "")%string then None else Some i)
           end) w
  end.

Definition hasEnoughCredits (email : string) (requiredCredits : Z) : M bool :=
  try_catch
    (user <- getUserByEmail email ;;
     match user with
     | None => ret false
     | Some user => ret (credits user >=? requiredCredits)
     end)
    (fun _ => ret true).

Definition logCreditTransaction (userId : string) (amount : Num)
    (transactionType : TransactionType) (description : string) : M unit :=
  try_catch
    (r <- call Anon (insert_transaction userId amount transactionType description) ;;
     ret tt)
    (fun _ => ret tt).

Definition useCredits (email : string) (amount : Z) : M User :=
  try_catch
    (user <- getUserByEmail email ;;
     match user with
     | None => throw (CreditError "User not found" "USER_NOT_FOUND")
     | Some user =>
         if credits user <? amount then
           throw (CreditError "Insufficient credits" "INSUFFICIENT_CREDITS")
         else
           t <- new_Date ;;
           r <- call Anon
                  (update_users_single (by_email email)
                     {| set_credits := Some (Some (credits user - amount));
                        set_subscription_type := None;
                        set_subscription_tier := None;
                        set_subscription_expires_at := None;
                        set_updated_at := Some t |}) ;;
           match r with
           | Error error =>
               throw (CreditError ("Failed to use credits: " ++ pg_message error)
                                  "USE_CREDITS_ERROR")
           | Data data =>
               logCreditTransaction (id user) (- amount) usage "Image generation" ;;
               ret data
           end
     end)
    (rethrow "Unknown error using credits").

Definition addCredits (email : string) (amount : Num)
    (subscriptionType : option SubscriptionType) (authUserId : option string)
  : M User :=
  try_catch
    (user <- getUserByEmail email ;;
     userWithCredits <-
       match user, authUserId with
       | Some user, _ => ret user
       | None, Some authUserId =>
           if (authUserId =? "")%string then
             throw (CreditError "User not found and no auth ID provided"
                                "USER_NOT_FOUND")
           else createUser authUserId email
       | None, None =>
           throw (CreditError "User not found and no auth ID provided"
                              "USER_NOT_FOUND")
       end ;;
     t <- new_Date ;;
     expires <- expiry_for subscriptionType ;;
     r <- call Anon
            (update_users_single (by_id (id userWithCredits))
               {| set_credits := Some (plus (credits userWithCredits) amount);
                  set_subscription_type := subscriptionType;
                  set_subscription_tier := None;
                  set_subscription_expires_at := expires;
                  set_updated_at := Some t |}) ;;
     match r with
     | Error error =>
         throw (CreditError ("Failed to add credits: " ++ pg_message error)
                            "ADD_CREDITS_ERROR")
     | Data data =>
         logCreditTransaction (id userWithCredits) amount purchase
           (show_period subscriptionType ++ " credit purchase") ;;
         ret data
     end)
    (rethrow "Unknown error adding credits").

Definition getCreditBalance (email : string) : M Z :=
  try_catch
    (user <- getUserByEmail email ;;
     match user with
     | Some user => ret (credits user)
     | None => ret 0
     end)
    (fun _ => ret 0).

End CreditUtils.

(** ** lib/credit-utils.ts, the later revision, which the GrooveSell
    handler imports

    Reads go through [supabase], writes through [supabaseAdmin]; both
    handles are checked before use, a lookup by email takes the first of
    the rows it finds, and users carry a subscription tier
    ([canAccessMultiplePhotos] reads it). *)

Module CreditUtils2.

Definition id_or_null := CreditUtils.id_or_null.
Definition already_registered := CreditUtils.already_registered.

Definition getUserByEmail (email : string) : M (option User) :=
  try_catch
    (fun w =>
       if negb (anon_client w) then
         throw (CreditError "Supabase client not available" "NO_SUPABASE_CLIENT") w
       else
         (r <- call Anon (select_users (by_email email)) ;;
          match r with
          | Error allUsersError =>
              throw (CreditError ("Failed to get users: " ++ pg_message allUsersError)
                                 "GET_USERS_ERROR")
          | Data [] => ret None
          | Data (first :: _) => ret (Some first)
          end) w)
    (rethrow "Unknown error getting user").

Definition createUser (id email : string) : M User :=
  try_catch
    (fun w =>
       if negb (anon_client w) then
         throw (CreditError "Supabase client not available" "NO_SUPABASE_CLIENT") w
       else
         (r <- call Anon (insert_user id email INITIAL_CREDITS) ;;
          match r with
          | Error error =>
              throw (CreditError ("Failed to create user: " ++ pg_message error)
                                 "CREATE_USER_ERROR")
          | Data data => ret data
          end) w)
    (rethrow "Unknown error creating user").

Definition getOrCreateUser (id email : string) : M User :=
  try_catch
    (user <- getUserByEmail email ;;
     match user with
     | None => createUser id email
     | Some user => ret user
     end)
    (rethrow "Unknown error getting or creating user").

Definition signUpUser (email : string) (password : option string)
  : M (option string) :=
  match password with
  | None | Some "" =>
      existingUser <- getUserByEmail email ;;
      ret (id_or_null existingUser)
  | Some _ =>
      fun w =>
        if negb (admin_client w) then
          throw (CreditError "Admin client not available" "NO_ADMIN_CLIENT") w
        else
          (r <- call_auth Admin (auth_create_user email) ;;
           match r with
           | Error error =>
               if already_registered (pg_message error) then
                 existingUser <- getUserByEmail email ;;
                 ret (id_or_null existingUser)
               else
                 throw (CreditError
                          ("Failed to sign up user: " ++ pg_message error)
                          "SIGNUP_USER_ERROR")
           | Data i => ret (if (i =? "")%string then None else Some i)
           end) w
  end.

Definition hasEnoughCredits (email : string) (requiredCredits : Z) : M bool :=
  try_catch
    (user <- getUserByEmail email ;;
     match user with
     | None => ret false
     | Some user => ret (credits user >=? requiredCredits)
     end)
    (fun _ => ret true).

Definition logCreditTransaction (userId : string) (amount : Num)
    (transactionType : TransactionType) (description : string) : M unit :=
  try_catch
    (fun w =>
       if negb (admin_client w) then ret tt w
       else
         (r <- call Admin
                 (insert_transaction userId amount transactionType description) ;;
          ret tt) w)
    (fun _ => ret tt).

Definition useCredits (email : string) (amount : Z) : M User :=
  try_catch
    (fun w =>
       if negb (anon_client w) then
         throw (CreditError "Supabase client not available" "NO_SUPABASE_CLIENT") w
       else
         (user <- getUserByEmail email ;;
          match user with
          | None => throw (CreditError "User not found" "USER_NOT_FOUND")
          | Some user =>
              if credits user <? amount then
                throw (CreditError "Insufficient credits" "INSUFFICIENT_CREDITS")
              else
                fun w1 =>
                  if negb (admin_client w1) then
                    throw (CreditError
                             "Admin client not available for credit deduction"
                             "NO_ADMIN_CLIENT_DEDUCTION") w1
                  else
                    (t <- new_Date ;;
                     r <- call Admin
                            (update_users_single (by_id (id user))
                               {| set_credits := Some (Some (credits user - amount));
                                  set_subscription_type := None;
                                  set_subscription_tier := None;
                                  set_subscription_expires_at := None;
                                  set_updated_at := Some t |}) ;;
                     match r with
                     | Error error =>
                         throw (CreditError
                                  ("Failed to use credits: " ++ pg_message error)
                                  "USE_CREDITS_ERROR")
                     | Data data =>
                         logCreditTransaction (id user) (- amount) usage
                           "Image generation" ;;
                         ret data
                     end) w1
          end) w)
    (rethrow "Unknown error using credits").

Definition addCredits (email : string) (amount : Num)
    (subscriptionType : option SubscriptionType) (authUserId : option string)
  : M User :=
  try_catch
    (user <- getUserByEmail email ;;
     userWithCredits <-
       match user, authUserId with
       | Some user, _ => ret user
       | None, Some authUserId =>
           if (authUserId =? "")%string then
             throw (CreditError "User not found and no auth ID provided"
                                "USER_NOT_FOUND")
           else createUser authUserId email
       | None, None =>
           throw (CreditError "User not found and no auth ID provided"
                              "USER_NOT_FOUND")
       end ;;
     t <- new_Date ;;
     expires <- expiry_for subscriptionType ;;
     fun w =>
       if negb (anon_client w) then
         throw (CreditError "Supabase client not available" "NO_SUPABASE_CLIENT") w
       else
         (check <- call Anon (select_user_single (by_id (id userWithCredits))) ;;
          match check with
          | Error checkError =>
              throw (CreditError
                       ("User verification failed: " ++ pg_message checkError)
                       "USER_VERIFICATION_ERROR")
          | Data existingUser =>
              fun w1 =>
                if negb (admin_client w1) then
                  throw (CreditError "Admin client not available for update"
                                     "NO_ADMIN_CLIENT_UPDATE") w1
                else
                  (r <- call Admin
                          (update_users_select (by_id (id userWithCredits))
                             {| set_credits := Some (plus (credits userWithCredits) amount);
                                set_subscription_type := subscriptionType;
                                set_subscription_tier := None;
                                set_subscription_expires_at := expires;
                                set_updated_at := Some t |}) ;;
                   match r with
                   | Error error =>
                       throw (CreditError
                                ("Failed to add credits: " ++ pg_message error)
                                "ADD_CREDITS_ERROR")
                   | Data [] =>
                       throw (CreditError "No user record was updated"
                                          "NO_ROWS_UPDATED")
                   | Data (updatedUser :: _) =>
                       logCreditTransaction (id userWithCredits) amount purchase
                         (show_period subscriptionType ++ " credit purchase") ;;
                       ret updatedUser
                   end) w1
          end) w)
    (rethrow "Unknown error adding credits").

Definition canAccessMultiplePhotos (email : string) : M bool :=
  try_catch
    (user <- getUserByEmail email ;;
     match user with
     | None => ret false
     | Some user =>
         match subscription_tier user with
         | Some basic => ret false
         | _ => ret true
         end
     end)
    (fun _ => ret true).

Definition getCreditBalance (email : string) : M Z :=
  try_catch
    (user <- getUserByEmail email ;;
     match user with
     | Some user => ret (credits user)
     | None => ret 0
     end)
    (fun _ => ret 0).

End CreditUtils2.

(** ** HTTP requests and responses of the routes *)

(** The fields of the JSON body the routes read; a text field is [None]
    when absent.  Other fields of the payload are ignored. *)
Record Body := mkBody {
  body_event : option string;
  body_buyer_email : option string;
  body_product_id : option string;
  body_subscription_type : option string;
  body_amount : Js.Value;
  body_trial_transaction : Js.Value;
  body_password : option string;
  body_action : option string
}.

(** The [user] member of a success response. *)
Inductive UserJson :=
| FullUser (u : User)
| UserSummary (email : string) (credits : Z) (tier : option SubscriptionTier)
              (period : option SubscriptionType).

Inductive ResponseBody :=
| ErrorBody (error : string)
| CreditsBody (credits : Z)
| SuccessBody (message : string) (user : option UserJson) (error : option string).

Record Response := mkResponse {
  status : Z;
  json : ResponseBody
}.

(** [NextResponse.json(body)] and [NextResponse.json(body, { status })]. *)
Definition respond (b : ResponseBody) : Response := mkResponse 200 b.
Definition respond_status (s : Z) (b : ResponseBody) : Response := mkResponse s b.

(** A response with [success: true] and no error status. *)
Definition success_shaped (r : Response) : bool :=
  (status r =? 200) &&
  match json r with SuccessBody _ _ _ => true | _ => false end.

(** [await request.json()] followed by the first read of a field: a
    request is [None] when its body is not a JSON object, and reading it
    throws. *)
Definition request_json (request : option Body) : M Body :=
  match request with
  | Some body => ret body
  | None => throw (JsError "Unexpected end of JSON input")
  end.

(** Truthiness of an optional text, and its rendering in a template. *)
Definition truthy_text (s : option string) : bool :=
  match s with
  | Some s => negb (s =? "")%string
  | None => false
  end.

Definition text_is (s : option string) (t : string) : bool :=
  match s with
  | Some s => (s =? t)%string
  | None => false
  end.

Definition show_text (s : option string) : string :=
  match s with
  | Some s => s
  | None => "undefined"
  end.

(** [a || b] on optional texts. *)
Definition text_or (a b : option string) : option string :=
  if truthy_text a then a else b.

(** ** app/api/credits/route.ts *)

Module CreditsRoute.
Import CreditUtils.

Definition POST (request : option Body) : M Response :=
  try_catch
    (body <- request_json request ;;
     let email := body_buyer_email body in
     let subscription_type := body_subscription_type body in
     let event := body_event body in
     let password := body_password body in
     let action := body_action body in
     match email with
     | None | Some "" =>
         ret (respond_status 400 (ErrorBody "Email is required"))
     | Some email =>
         if text_is action "get_balance" then
           balance <- getCreditBalance email ;;
           ret (respond (CreditsBody balance))
         else if truthy_text event || text_is action "add_credits" then
           let grant :=
             if text_is event "subscription-trial-start" then
               Some (TRIAL_CREDITS, None)
             else if text_is event "subscription-payment" &&
                     Js.gt0 (Js.parseFloat
                               (Js.or_else (body_amount body) (Js.JStr "0"))) then
               Some (MONTHLY_CREDITS, Some monthly)
             else if text_is action "add_credits" then
               if text_is subscription_type "trial" then Some (TRIAL_CREDITS, None)
               else if text_is subscription_type "monthly" then
                 Some (MONTHLY_CREDITS, Some monthly)
               else if text_is subscription_type "yearly" then
                 Some (YEARLY_CREDITS, Some yearly)
               else Some (TRIAL_CREDITS, None)
             else None in
           match grant with
           | None =>
               ret (respond
                      (SuccessBody
                         ("Event '" ++ show_text event ++ "' ignored - no credits added")
                         None None))
           | Some (creditsToAdd, subscriptionTypeForDb) =>
               authUserId <- signUpUser email password ;;
               updatedUser <-
                 addCredits email creditsToAdd subscriptionTypeForDb authUserId ;;
               ret (respond
                      (SuccessBody
                         ("Added " ++ Js.show creditsToAdd ++ " credits for " ++
                          show_text
                            (text_or event (text_or subscription_type (Some "purchase"))))
                         (Some (FullUser updatedUser)) None))
           end
         else
           ret (respond_status 400
                  (ErrorBody "Invalid request - no valid action or event found"))
     end)
    (fun error => ret (respond_status 500 (ErrorBody (exn_message error)))).

Definition GET (email : option string) : M Response :=
  try_catch
    (match email with
     | None | Some "" =>
         ret (respond_status 400 (ErrorBody "Email parameter required"))
     | Some email =>
         credits <- getCreditBalance email ;;
         ret (respond (CreditsBody credits))
     end)
    (fun error => ret (respond_status 500 (ErrorBody (exn_message error)))).

End CreditsRoute.

(** ** app/api/groovesell-webhook/route.ts *)

Module GrooveSell.
Import CreditUtils2.

(** What indexing the product table gives: the fields of an entry, each
    [undefined] ([None], [Undefined]) when the value found has no such
    field. *)
Record ProductConfig := mkProduct {
  tier : option SubscriptionTier;
  monthlyCredits : Num;
  yearlyCredits : Num
}.

(** The names under which every object has a member, inherited from
    [Object.prototype]. *)
Definition inherited : list string :=
  ["constructor"; "toString"; "toLocaleString"; "valueOf"; "hasOwnProperty";
   "isPrototypeOf"; "propertyIsEnumerable"; "__proto__";
   "__defineGetter__"; "__defineSetter__"; "__lookupGetter__";
   "__lookupSetter__"].

(** [PRODUCT_TIER_MAPPING[productId]].  The table is a plain object: the
    lookup gives the entry of a product of the table, and for an inherited
    name the inherited member, which is truthy and has none of the fields
    of an entry; any other key gives [undefined], which is [None]. *)
Definition PRODUCT_TIER_MAPPING (productId : string) : option ProductConfig :=
  if (productId =? "90143")%string then Some (mkProduct (Some basic) 5 60)
  else if (productId =? "90211")%string then Some (mkProduct (Some standard) 10 120)
  else if (productId =? "90212")%string then Some (mkProduct (Some premium) 30 360)
  else if existsb (String.eqb productId) inherited then
    Some (mkProduct None Undefined Undefined)
  else None.

(** The tier update both branches run after the grant: skipped without an
    admin handle, its reply not looked at, a throw swallowed.  A tier that
    is [undefined] is left out of the body that is sent. *)
Definition update_tier (userId : string) (t : option SubscriptionTier) : M unit :=
  try_catch
    (fun w =>
       if admin_client w then
         (stamp <- new_Date ;;
          _ <- call Admin
                 (update_users (by_id userId)
                    {| set_credits := None;
                       set_subscription_type := None;
                       set_subscription_tier := t;
                       set_subscription_expires_at := None;
                       set_updated_at := Some stamp |}) ;;
          ret tt) w
       else ret tt w)
    (fun _ => ret tt).

Definition POST (request : option Body) : M Response :=
  try_catch
    (body <- request_json request ;;
     let event := body_event body in
     let subscriptionType := body_subscription_type body in
     let amount := body_amount body in
     let isTrialTransaction := body_trial_transaction body in
     let password := body_password body in
     match body_buyer_email body, body_product_id body with
     | Some buyer_email, Some productId =>
         if (buyer_email =? "")%string || (productId =? "")%string then
           ret (respond_status 400 (ErrorBody "Missing required fields"))
         else
           match PRODUCT_TIER_MAPPING productId with
           | None =>
               ret (respond_status 400
                      (ErrorBody ("Unknown product ID: " ++ productId)))
           | Some productConfig =>
               if text_is event "subscription-trial-start" &&
                  Js.is_one isTrialTransaction then
                 authUserId <-
                   try_catch (signUpUser buyer_email password) (fun _ => ret None) ;;
                 updatedUser <- addCredits buyer_email TRIAL_CREDITS None authUserId ;;
                 update_tier (id updatedUser) (tier productConfig) ;;
                 ret (respond
                        (SuccessBody
                           ("Trial started: " ++ Js.show TRIAL_CREDITS ++ " credits added")
                           (Some (UserSummary (email updatedUser)
                                    (credits updatedUser) (tier productConfig) None))
                           None))
               else if text_is event "subscription-payment" &&
                       Js.gt0 (Js.parseFloat (Js.or_else amount (Js.JStr "0"))) then
                 let creditsToAdd :=
                   if text_is subscriptionType "Yearly"
                   then yearlyCredits productConfig
                   else monthlyCredits productConfig in
                 let subscriptionTypeForDb :=
                   if text_is subscriptionType "Yearly" then yearly else monthly in
                 updatedUser <-
                   addCredits buyer_email creditsToAdd (Some subscriptionTypeForDb) None ;;
                 update_tier (id updatedUser) (tier productConfig) ;;
                 ret (respond
                        (SuccessBody
                           ("Subscription payment: " ++ show_num creditsToAdd ++
                            " credits added")
                           (Some (UserSummary (email updatedUser)
                                    (credits updatedUser) (tier productConfig)
                                    (Some subscriptionTypeForDb)))
                           None))
               else
                 ret (respond
                        (SuccessBody
                           ("Event '" ++ show_text event ++
                            "' acknowledged but not processed")
                           None None))
           end
     | _, _ => ret (respond_status 400 (ErrorBody "Missing required fields"))
     end)
    (fun error =>
       ret (respond
              (SuccessBody "Webhook received (error in processing)" None
                 (Some (exn_message error))))).

End GrooveSell.

(** ** app/api/images/replicate/route.ts

    The route that draws a multi-person colouring page.  It checks the
    caller's credits and tier, has Replicate draw the page and debits two
    credits afterwards.  What lies outside the ledger comes with the
    request: the process environment, the multipart form, and what the
    file system and Replicate do.  The form fields that only feed the text
    of the prompt are left out. *)

Module Replicate.
Import CreditUtils2.

Definition VALID_OUTPUT_FORMATS : list string := ["png"; "jpeg"; "webp"].

(** [String.prototype.toLowerCase] on text: the letters A to Z are
    lowered and every other byte is kept.  The only characters outside
    ASCII that lower to an ASCII letter give k and i, which the names of
    the formats do not contain. *)
Definition lower (c : ascii) : ascii :=
  let n := nat_of_ascii c in
  if ((65 <=? n) && (n <=? 90))%nat then ascii_of_nat (n + 32) else c.

Fixpoint toLowerCase (s : string) : string :=
  match s with
  | EmptyString => EmptyString
  | String c rest => String (lower c) (toLowerCase rest)
  end.

(** [format] is a text, or [None] for [undefined] and [null]. *)
Definition validateOutputFormat (format : option string) : string :=
  let normalized := toLowerCase (show_text (text_or format (Some "png"))) in
  let mapped := if (normalized =? "jpg")%string then "jpeg" else normalized in
  if existsb (String.eqb mapped) VALID_OUTPUT_FORMATS then mapped else "png".

(** The variables of [process.env] the route reads. *)
Record Env := mkEnv {
  REPLICATE_API_TOKEN : option string;
  NEXT_PUBLIC_IMAGE_STORAGE_MODE : option string;
  VERCEL : option string;
  APP_PASSWORD : option string
}.

Inductive StorageMode := fs | indexeddb.

Definition effectiveStorageMode (env : Env) : StorageMode :=
  if text_is (NEXT_PUBLIC_IMAGE_STORAGE_MODE env) "fs" then fs
  else if text_is (NEXT_PUBLIC_IMAGE_STORAGE_MODE env) "indexeddb" then indexeddb
  else if text_is (VERCEL env) "1" then indexeddb
  else fs.

(** The fields of the form the checks read, and the files sent under the
    keys [photo_*]. *)
Record Form := mkForm {
  passwordHash : option string;
  userEmail : option string;
  imageFiles : list string
}.

(** What Replicate does with the request: it draws a picture, or one of
    [createReplicatePrediction], [pollReplicatePrediction], the check of the
    output and the download throws an Error. *)
Inductive Prediction :=
| Drawn (b64_json : string) (metrics : string)
| Failed (message : string).

(** What the file system and Replicate do during the request; an Error is
    given by its message. *)
Record Outside := mkOutside {
  output_dir_error : option string;
  prediction : Prediction;
  write_file_error : option string
}.

Record ImageResult := mkImage {
  filename : string;
  image_b64_json : string;
  path : option string;
  output_format : string
}.

(** The JSON the route answers with: an error with its status, or the
    picture, the usage metrics and possibly a warning, with status 200. *)
Inductive Answer :=
| Refusal (status : Z) (error : string)
| Images (images : list ImageResult) (usage : string) (warning : option string).

Definition answer_status (a : Answer) : Z :=
  match a with
  | Refusal s _ => s
  | Images _ _ _ => 200
  end.

Definition REQUIRED_CREDITS : Z := 2.

Definition ensureOutputDirExists (outside : Outside) : M unit :=
  match output_dir_error outside with
  | Some message => throw (JsError message)
  | None => ret tt
  end.

(** [await request.formData()]: a request is [None] when its body is not
    a form. *)
Definition request_formData (request : option Form) : M Form :=
  match request with
  | Some formData => ret formData
  | None => throw (JsError "Failed to parse body as FormData.")
  end.

(** The calls to Replicate and the download of the picture. *)
Definition completedPrediction (outside : Outside) : M (string * string) :=
  match prediction outside with
  | Drawn b64 metrics => ret (b64, metrics)
  | Failed message => throw (JsError message)
  end.

Definition writeFile (outside : Outside) : M unit :=
  match write_file_error outside with
  | Some message => throw (JsError message)
  | None => ret tt
  end.

Definition credit_warning : string :=
  "Image generated successfully but there was an issue updating your credits. Please contact support if your credit balance is incorrect.".

Section Route.

(** [crypto.createHash('sha256').update(data).digest('hex')] *)
Variable sha256 : string -> string.

Definition POST (env : Env) (outside : Outside) (request : option Form)
  : M Answer :=
  if negb (truthy_text (REPLICATE_API_TOKEN env)) then
    ret (Refusal 500 "Replicate API token not configured")
  else
    try_catch
      (match effectiveStorageMode env with
       | fs => ensureOutputDirExists outside
       | indexeddb => ret tt
       end ;;
       formData <- request_formData request ;;
       let unauthorized :=
         if truthy_text (APP_PASSWORD env) then
           if negb (truthy_text (passwordHash formData)) then
             Some "Unauthorized: Missing password hash."
           else if negb (text_is (passwordHash formData)
                           (sha256 (show_text (APP_PASSWORD env)))) then
             Some "Unauthorized: Invalid password."
           else None
         else None in
       match unauthorized with
       | Some message => ret (Refusal 401 message)
       | None =>
           match userEmail formData with
           | None | Some "" =>
               ret (Refusal 400
                      "User email is required for multi-person coloring pages.")
           | Some userEmail =>
               hasSufficientCredits <- hasEnoughCredits userEmail REQUIRED_CREDITS ;;
               if negb hasSufficientCredits then
                 ret (Refusal 402
                        ("Insufficient credits. Multi-person coloring pages require "
                         ++ Js.show REQUIRED_CREDITS ++ " credits."))
               else
                 canAccess <- canAccessMultiplePhotos userEmail ;;
                 if negb canAccess then
                   ret (Refusal 403
                          "Multi-person coloring pages require Standard or Premium subscription. Please upgrade your plan to access this feature.")
                 else
                   match imageFiles formData with
                   | [] =>
                       ret (Refusal 400
                              "No images provided for multi-person coloring page.")
                   | _ :: _ =>
                       drawn <- completedPrediction outside ;;
                       timestamp <- new_Date ;;
                       let fileExtension := validateOutputFormat (Some "png") in
                       let filename :=
                         Js.show timestamp ++ "-multi-person." ++ fileExtension in
                       path <-
                         match effectiveStorageMode env with
                         | fs =>
                             writeFile outside ;;
                             ret (Some ("/api/image/" ++ filename))
                         | indexeddb => ret None
                         end ;;
                       let imageResult :=
                         mkImage filename (fst drawn) path fileExtension in
                       early <-
                         try_catch
                           (updatedUser <- useCredits userEmail REQUIRED_CREDITS ;;
                            ret None)
                           (fun creditError =>
                              ret (Some (Images [imageResult] (snd drawn)
                                           (Some credit_warning)))) ;;
                       match early with
                       | Some response => ret response
                       | None => ret (Images [imageResult] (snd drawn) None)
                       end
                   end
           end
       end)
      (fun error => ret (Refusal 500 (exn_message error))).

End Route.

End Replicate.

(** ** Vocabulary of the properties *)

(** *** The calendar *)

(** Leap years, the days of month [m] (1 to 12) of year [y], and the days
    from the first of month [m] of year [y] to the first of the same month
    a year on: 366 when a 29 February lies between them. *)
Definition leap_year (y : Z) : bool :=
  (y mod 4 =? 0) && (negb (y mod 100 =? 0) || (y mod 400 =? 0)).

Definition days_in_month (y m : Z) : Z :=
  if m =? 2 then (if leap_year y then 29 else 28)
  else if (m =? 4) || (m =? 6) || (m =? 9) || (m =? 11) then 30
  else 31.

Definition days_in_year_from (y m : Z) : Z :=
  if (if m <=? 2 then leap_year y else leap_year (y + 1)) then 366 else 365.

(** The number of the first day of year [y] and of its month [m], the
    days being numbered from 1970-01-01, which is day 0. *)
Definition first_day_of_year (y : Z) : Z :=
  365 * (y - 1970) + (y - 1969) / 4 - (y - 1901) / 100 + (y - 1601) / 400.

Fixpoint days_of_months (y : Z) (n : nat) : Z :=
  match n with
  | O => 0
  | S k => days_of_months y k + days_in_month y (Z.of_nat (S k))
  end.

Definition first_day_of_month (y m : Z) : Z :=
  first_day_of_year y + days_of_months y (Z.to_nat (m - 1)).

(** The local time [l], in milliseconds, falls in month [m] of year [y];
    a day has 86400000 milliseconds. *)
Definition in_month (l y m : Z) : Prop :=
  1 <= m <= 12 /\
  first_day_of_month y m * 86400000 <= l <
  (first_day_of_month y m + days_in_month y m) * 86400000.

(** *** Checks over one cycle of the calendar *)

(** [f] holds of the [fuel] integers from [z] on. *)
Fixpoint all_from (fuel : nat) (z : Z) (f : Z -> bool) : bool :=
  match fuel with
  | O => true
  | S k => f z && all_from k (z + 1) f
  end.

(** The day number of the first day of the month after month [m] of [y],
    as the runtime counts it. *)
Definition next_month_first (y m : Z) : Z :=
  if m =? 12 then Js.days_from_civil (y + 1) 1 1
  else Js.days_from_civil y (m + 1) 1.

(** The runtime and the calendar agree on month [m] of year [y]: on its
    first day, on its days, and on the days to the same month a year
    on. *)
Definition month_ok (y m : Z) : bool :=
  (Js.days_from_civil y m 1 =? first_day_of_month y m) &&
  (next_month_first y m - Js.days_from_civil y m 1 =? days_in_month y m) &&
  (Js.days_from_civil (y + 1) m 1 - Js.days_from_civil y m 1 =?
   days_in_year_from y m).

Definition months_ok (y : Z) : bool := all_from 12 1 (month_ok y).

(** A number an INTEGER column holds. *)
Definition fits (z : Z) : Prop := -2147483648 <= z <= 2147483647.

(** A host of our days: its clock reads a time between 1970 and the year
    8300 or so, and its local time is less than a day off UTC. *)
Definition ordinary_host (w : World) : Prop :=
  0 <= now w <= 200000000000000 /\
  forall t b, -86400000 < LocalTZA w t b < 86400000.

(** The days of one period from a date in month [m] of year [y]: for a
    month the days of that month, so that the date a month on is the same
    day of the next month, or runs over into the month after when the
    next month is shorter; for a year 365 days, or 366 when a 29 February
    lies in between. *)
Definition period_days (p : SubscriptionType) (y m : Z) : Z :=
  match p with
  | monthly => days_in_month y m
  | yearly => days_in_year_from y m
  end.

(** An [expiry] that lies one period after [now] on a host whose local
    time is [tza]: by the local clock, which reads a time in month [m] of
    year [y], it is the days of the period later, at the same time of
    day, a day being 86400000 milliseconds; the expiry is the time at
    which the local clock reads that. *)
Definition period_on (p : SubscriptionType) (tza : Z -> bool -> Z)
    (now expiry : Z) : Prop :=
  exists y m,
    in_month (now + tza now true) y m /\
    expiry =
      now + tza now true + period_days p y m * 86400000
      - tza (now + tza now true + period_days p y m * 86400000) false.

(** The world a run leaves behind. *)
Definition after {X} (run : X * World) : World := snd run.

(** No outage is scheduled and both handles are set. *)
Definition healthy (w : World) : Prop :=
  outages w = [] /\ anon_client w = true /\ admin_client w = true.

(** The key constraints of [public.users]: [id] is the primary key and
    [email] is unique. *)
Definition keys_unique (w : World) : Prop :=
  NoDup (map id (users w)) /\ NoDup (map email (users w)).

(** Neither table of the ledger differs. *)
Definition same_ledger (w w' : World) : Prop :=
  users w' = users w /\ credit_transactions w' = credit_transactions w.

(** No account carries the email. *)
Definition no_account (e : string) (w : World) : Prop :=
  forall u, In u (users w) -> email u <> e.

(** The row [u] with a new balance, written at [t]. *)
Definition with_balance (c : Z) (t : Z) (u : User) : User :=
  {| id := id u; email := email u; credits := c;
     subscription_type := subscription_type u;
     subscription_tier := subscription_tier u;
     subscription_expires_at := subscription_expires_at u;
     created_at := created_at u; updated_at := t |}.

(** The table with the row of identifier [i] replaced by [u']. *)
Definition replace_row (i : string) (u' : User) (us : list User) : list User :=
  map (fun x => if by_id i x then u' else x) us.

(** The transaction log with one more entry. *)
Definition logged (uid : string) (a : Z) (k : TransactionType) (d : string)
    (t : Z) (ts : list CreditTransaction) : list CreditTransaction :=
  ts ++ [{| user_id := uid; amount := a; transaction_type := k;
            description := d; tx_created_at := t |}].

(** The world a successful debit of [a] from [u] leaves behind. *)
Definition debited (u : User) (a : Z) (w : World) : World :=
  with_transactions
    (logged (id u) (- a) usage "Image generation" (now w) (credit_transactions w))
    (with_users
       (replace_row (id u) (with_balance (credits u - a) (now w) u) (users w)) w).

(** What a debit of [A] from the account [u] must come to, for a debit
    operation [run] and a balance query [balance]: the call returns the
    updated account, the table holds it in place of the old row, the log has
    one more entry, a usage of [- A], and the balance reads [B - A]. *)
Definition debits (run : string -> Z -> M User) (balance : string -> M Z)
    (w : World) (u : User) (A : Z) : Prop :=
  exists u' w',
    run (email u) A w = (Returns u', w') /\
    u' = with_balance (credits u - A) (now w) u /\
    users w' = replace_row (id u) u' (users w) /\
    credit_transactions w' =
      (credit_transactions w ++
       [{| user_id := id u; amount := - A; transaction_type := usage;
           description := "Image generation"; tx_created_at := now w |}])%list /\
    balance (email u) w' = (Returns (credits u - A), w').

(** What failing closed means for a debit operation [run]: the call throws
    exactly when no account carries the email, or the balance is below the
    amount, or the new balance does not fit the INTEGER column, with the
    matching error, and a call that throws leaves the ledger as it was. *)
Definition fails_closed (run : string -> Z -> M User)
    (w : World) (e : string) (A : Z) : Prop :=
  exists o w',
    run e A w = (o, w') /\
    ((exists err, o = Throws err) <->
     (no_account e w \/
      exists u, In u (users w) /\ email u = e /\
                (credits u < A \/ ~ fits (credits u - A)))) /\
    (no_account e w ->
     o = Throws (CreditError "User not found" "USER_NOT_FOUND")) /\
    (forall u, In u (users w) -> email u = e -> credits u < A ->
     o = Throws (CreditError "Insufficient credits" "INSUFFICIENT_CREDITS")) /\
    (forall u, In u (users w) -> email u = e -> A <= credits u ->
     ~ fits (credits u - A) ->
     exists message, o = Throws (CreditError message "USE_CREDITS_ERROR")) /\
    ((exists err, o = Throws err) -> same_ledger w w').

(** Whether the next remote call through [supabase] is answered by the
    tables: the handle is set and no outage meets the call. *)
Definition served (w : World) : bool :=
  anon_client w &&
  match outages w with
  | Some _ :: _ => false
  | _ => true
  end.

(** What an advisory read [run] must come to: it returns whatever the
    store does, never throws and never writes; it answers [on_error] when
    the store does not serve the lookup, [on_absent] when no account
    carries the email, and [on_found u] for the account [u]. *)
Definition advisory {A} (run : string -> M A)
    (on_error on_absent : A) (on_found : User -> A)
    (w : World) (e : string) : Prop :=
  exists a w',
    run e w = (Returns a, w') /\
    same_ledger w w' /\
    (served w = false -> a = on_error) /\
    (served w = true -> no_account e w -> a = on_absent) /\
    (served w = true -> keys_unique w ->
     forall u, In u (users w) -> email u = e -> a = on_found u).

(** The row [u] after a grant of [n] credits at [t], with the subscription
    period [p] and the expiry [x] when they are supplied. *)
Definition topped_up (n : Z) (p : option SubscriptionType) (x : option Z)
    (t : Z) (u : User) : User :=
  {| id := id u; email := email u; credits := credits u + n;
     subscription_type :=
       match p with Some q => Some q | None => subscription_type u end;
     subscription_tier := subscription_tier u;
     subscription_expires_at :=
       match x with Some e => Some e | None => subscription_expires_at u end;
     created_at := created_at u; updated_at := t |}.

(** The expiry [x] a grant with the period [p] writes on the world [w]:
    none without a period, and with one the date [addCredits] computes,
    which must be a date. *)
Definition expiry_written (w : World) (p : option SubscriptionType)
    (x : option Z) : Prop :=
  match p with
  | Some q => exists e, x = Some e /\ expiration (LocalTZA w) q (now w) = Some e
  | None => x = None
  end.

(** The world a successful grant of [n] to [u] leaves behind. *)
Definition granted (u : User) (n : Z) (p : option SubscriptionType)
    (x : option Z) (w : World) : World :=
  with_transactions
    (logged (id u) n purchase (show_period p ++ " credit purchase") (now w)
       (credit_transactions w))
    (with_users (replace_row (id u) (topped_up n p x (now w) u) (users w)) w).

(** What a grant of [N] to the account [u] must come to, for a credit
    operation [run] and a balance query [balance]: the call returns the
    updated account, which holds [N] more credits and is in the table in
    place of the old row, one purchase of [N] is logged, the balance reads
    the sum; with a period the account carries it and an expiry one period
    on, and without one the period and the expiry are as they were; the
    tier is as it was. *)
Definition grants (run : string -> Num -> option SubscriptionType -> option string -> M User)
    (balance : string -> M Z)
    (w : World) (u : User) (N : Z) (p : option SubscriptionType)
    (authUserId : option string) : Prop :=
  exists u' w',
    run (email u) N p authUserId w = (Returns u', w') /\
    id u' = id u /\ email u' = email u /\
    credits u' = credits u + N /\
    users w' = replace_row (id u) u' (users w) /\
    credit_transactions w' =
      (credit_transactions w ++
       [{| user_id := id u; amount := N; transaction_type := purchase;
           description := show_period p ++ " credit purchase";
           tx_created_at := now w |}])%list /\
    balance (email u) w' = (Returns (credits u + N), w') /\
    match p with
    | Some q =>
        subscription_type u' = Some q /\
        exists expiry,
          subscription_expires_at u' = Some expiry /\
          period_on q (LocalTZA w) (now w) expiry
    | None =>
        subscription_type u' = subscription_type u /\
        subscription_expires_at u' = subscription_expires_at u
    end /\
    subscription_tier u' = subscription_tier u.

(** Everything but the auth directory is the same. *)
Definition same_store (w w' : World) : Prop :=
  users w' = users w /\ credit_transactions w' = credit_transactions w /\
  outages w' = outages w /\ now w' = now w /\
  anon_client w' = anon_client w /\ admin_client w' = admin_client w /\
  LocalTZA w' = LocalTZA w.

(** The row [u] with the subscription tier [t], when there is one,
    written at [stamp]. *)
Definition with_tier (t : option SubscriptionTier) (stamp : Z) (u : User) : User :=
  {| id := id u; email := email u; credits := credits u;
     subscription_type := subscription_type u;
     subscription_tier :=
       match t with Some t' => Some t' | None => subscription_tier u end;
     subscription_expires_at := subscription_expires_at u;
     created_at := created_at u; updated_at := stamp |}.

(** What indexing the product table with [productId] finds, by the tier
    that comes with it: one of the three products of the table, or one of
    the members that every object inherits, which carries no tier. *)
Definition product_found (productId : string) (t : option SubscriptionTier)
  : Prop :=
  (productId = "90143" /\ t = Some basic) \/
  (productId = "90211" /\ t = Some standard) \/
  (productId = "90212" /\ t = Some premium) \/
  (In productId
      ["constructor"; "toString"; "toLocaleString"; "valueOf";
       "hasOwnProperty"; "isPrototypeOf"; "propertyIsEnumerable";
       "__proto__"; "__defineGetter__"; "__defineSetter__";
       "__lookupGetter__"; "__lookupSetter__"] /\
   t = None).

(** A trial-start event as the GrooveSell handler takes it: buyer [e],
    a product id that the table lookup finds, the trial flag the
    number 1. *)
Definition groovesell_trial_start (body : Body) (e : string)
    (t : option SubscriptionTier) : Prop :=
  body_buyer_email body = Some e /\ e <> "" /\
  (exists productId, body_product_id body = Some productId /\
                     product_found productId t) /\
  body_event body = Some "subscription-trial-start" /\
  (exists q, body_trial_transaction body = Js.JNum q /\ (q == 1)%Q).

(** A trial-start event as the credits route takes it: buyer [e], and no
    balance query asked for. *)
Definition credits_trial_start (body : Body) (e : string) : Prop :=
  body_buyer_email body = Some e /\ e <> "" /\
  body_event body = Some "subscription-trial-start" /\
  text_is (body_action body) "get_balance" = false.

(** What a replayed trial start comes to, for a handler [post] and a
    balance query [balance]: the first delivery is acknowledged and raises
    the balance of [u] by 3; the same delivery made again, at whatever
    later time, is acknowledged too and raises the balance by 3 once more,
    to 6 above what it was, so that the log has two more purchase entries
    of 3. *)
Definition replay_grants_twice (post : option Body -> M Response)
    (balance : string -> M Z) (w : World) (u : User) (body : Body) : Prop :=
  exists r1 w1,
    post (Some body) w = (Returns r1, w1) /\
    success_shaped r1 = true /\
    balance (email u) w1 = (Returns (credits u + 3), w1) /\
    forall later, exists r2 w2,
      post (Some body) (at_time later w1) = (Returns r2, w2) /\
      success_shaped r2 = true /\
      balance (email u) w2 = (Returns (credits u + 6), w2) /\
      exists t1 t2,
        credit_transactions w2 = (credit_transactions w ++ [t1; t2])%list /\
        user_id t1 = id u /\ amount t1 = 3 /\
        transaction_type t1 = purchase /\
        user_id t2 = id u /\ amount t2 = 3 /\
        transaction_type t2 = purchase.

(** A buyer the ledger and the auth directory do not hold yet, delivered
    with a password: the auth service will hand out an identifier that is
    not empty and not taken. *)
Definition new_buyer (body : Body) (e : string) (w : World) : Prop :=
  no_account e w /\
  existsb (by_auth_email e) (auth_users w) = false /\
  truthy_text (body_password body) = true /\
  uuid w (issued w) <> "" /\
  ~ In (uuid w (issued w)) (map id (users w)).

(** ** A small ledger to run the operations on *)

(** A host that keeps UTC, a host one hour ahead of it, and a host on
    central European time (for the year 2026): one hour ahead, and two
    from 2026-03-29T01:00Z to 2026-10-25T01:00Z.  For a local time the
    offset is the one before the change for a local time that summer time
    skips, and the earlier of the two for one that comes twice. *)
Definition utc (t : Z) (isUTC : bool) : Z := 0.

Definition one_hour_ahead (t : Z) (isUTC : bool) : Z := 3600000.

Definition central_european (t : Z) (isUTC : bool) : Z :=
  if isUTC then
    if (1774746000000 <=? t) && (t <? 1792890000000) then 7200000 else 3600000
  else
    if (1774746000000 + 7200000 <=? t) && (t <? 1792890000000 + 7200000)
    then 7200000 else 3600000.

Definition alice : User :=
  {| id := "7d9f0c1e-0001"; email := "a@x.com"; credits := 3;
     subscription_type := None; subscription_tier := None;
     subscription_expires_at := None;
     created_at := 1790000000000; updated_at := 1790000000000 |}.

Definition bob : User :=
  {| id := "7d9f0c1e-0002"; email := "b@x.com"; credits := 0;
     subscription_type := Some monthly; subscription_tier := Some standard;
     subscription_expires_at := Some 1795000000000;
     created_at := 1780000000000; updated_at := 1792000000000 |}.

(** 2026-11-03T12:00:00Z on a host that keeps UTC, nothing scheduled to
    fail: [shop], and the same ledger with alice's balance at [c]. *)
Definition shop : World :=
  {| users := [alice; bob]; credit_transactions := [];
     auth_users := [mkAuthUser "7d9f0c1e-0001" "a@x.com"];
     outages := [];
     uuid := (fun n => "7d9f0c1e-1" ++ Js.show (Z.of_nat n)); issued := 0;
     now := 1793707200000; LocalTZA := utc;
     anon_client := true; admin_client := true |}.

Definition shop_with (c : Z) : World :=
  with_users [with_balance c (updated_at alice) alice; bob] shop.

(** The same ledger with the next remote call unable to reach the service. *)
Definition shop_down : World := with_outages [Some Unreachable] shop.

(** A GrooveSell trial-start delivery for alice, and the same delivery
    without the trial flag. *)
Definition trial_body : Body :=
  {| body_event := Some "subscription-trial-start";
     body_buyer_email := Some "a@x.com";
     body_product_id := Some "90143";
     body_subscription_type := None;
     body_amount := Js.JStr "0.00";
     body_trial_transaction := Js.JNum 1;
     body_password := None;
     body_action := None |}.

Definition trial_body_unflagged : Body :=
  {| body_event := Some "subscription-trial-start";
     body_buyer_email := Some "a@x.com";
     body_product_id := Some "90143";
     body_subscription_type := None;
     body_amount := Js.JStr "0.00";
     body_trial_transaction := Js.JUndefined;
     body_password := None;
     body_action := None |}.

(** What a trial start must come to for the account [u], for a handler
    [post] that leaves the tier at [tier_after u]: the delivery is
    acknowledged, the balance rises by the trial amount, and the
    subscription period and expiry stay as they were. *)
Definition trial_grant (post : option Body -> M Response)
    (tier_after : User -> option SubscriptionTier)
    (w : World) (u : User) (body : Body) : Prop :=
  exists r w' u',
    post (Some body) w = (Returns r, w') /\
    success_shaped r = true /\
    users w' = replace_row (id u) u' (users w) /\
    id u' = id u /\ email u' = email u /\
    credits u' = credits u + 3 /\
    subscription_type u' = subscription_type u /\
    subscription_expires_at u' = subscription_expires_at u /\
    subscription_tier u' = tier_after u.

(** What a trial start must come to for a buyer [e] who has no account
    yet, for a handler [post] that sets the tier [t]: the delivery is
    acknowledged, and the account the handler creates for [e], under the
    identifier the auth service hands out, holds 3 credits, no
    subscription period and no expiry, and the tier [t]; no other row
    changes. *)
Definition trial_grant_new (post : option Body -> M Response)
    (t : option SubscriptionTier) (w : World) (e : string) (body : Body)
  : Prop :=
  exists r w' u',
    post (Some body) w = (Returns r, w') /\
    success_shaped r = true /\
    users w' = (users w ++ [u'])%list /\
    id u' = uuid w (issued w) /\ email u' = e /\
    credits u' = 3 /\
    subscription_type u' = None /\ subscription_expires_at u' = None /\
    subscription_tier u' = t.

(** A trial start for a buyer who has no account and sends no password. *)
Definition trial_body_ghost : Body :=
  {| body_event := Some "subscription-trial-start";
     body_buyer_email := Some "ghost@x.com";
     body_product_id := Some "90143";
     body_subscription_type := None;
     body_amount := Js.JStr "0.00";
     body_trial_transaction := Js.JNum 1;
     body_password := None;
     body_action := None |}.

(** The events the translator is to ignore: a payment whose amount is not
    positive (0 in particular), and any event that is neither a payment nor
    a trial start. *)
Definition ignorable (body : Body) : bool :=
  if text_is (body_event body) "subscription-payment" then
    negb (Js.gt0 (Js.parseFloat (Js.or_else (body_amount body) (Js.JStr "0"))))
  else negb (text_is (body_event body) "subscription-trial-start").

(** A request the GrooveSell handler accepts: a buyer email and a product
    id that the table lookup finds. *)
Definition groovesell_accepts (body : Body) : Prop :=
  exists e productId t,
    body_buyer_email body = Some e /\ e <> "" /\
    body_product_id body = Some productId /\
    product_found productId t.

(** A request the credits route takes as a webhook event: a buyer email,
    an event type, and no manual action. *)
Definition credits_accepts (body : Body) : Prop :=
  exists e,
    body_buyer_email body = Some e /\ e <> "" /\
    truthy_text (body_event body) = true /\
    text_is (body_action body) "get_balance" = false /\
    text_is (body_action body) "add_credits" = false.

(** A free payment for a product that is not in the table. *)
Definition free_payment_unknown_product : Body :=
  {| body_event := Some "subscription-payment";
     body_buyer_email := Some "a@x.com";
     body_product_id := Some "99999";
     body_subscription_type := Some "Monthly";
     body_amount := Js.JStr "0.00";
     body_trial_transaction := Js.JNum 0;
     body_password := None;
     body_action := None |}.

(** An event of another type sent along with the manual action. *)
Definition sale_with_action : Body :=
  {| body_event := Some "sales";
     body_buyer_email := Some "a@x.com";
     body_product_id := Some "90143";
     body_subscription_type := None;
     body_amount := Js.JStr "0.00";
     body_trial_transaction := Js.JNum 0;
     body_password := None;
     body_action := Some "add_credits" |}.

(** A free payment for a product of the table. *)
Definition free_payment : Body :=
  {| body_event := Some "subscription-payment";
     body_buyer_email := Some "a@x.com";
     body_product_id := Some "90143";
     body_subscription_type := Some "Monthly";
     body_amount := Js.JStr "0.00";
     body_trial_transaction := Js.JNum 0;
     body_password := None;
     body_action := None |}.

(** A trial start that names no product. *)
Definition trial_body_no_product : Body :=
  {| body_event := Some "subscription-trial-start";
     body_buyer_email := Some "a@x.com";
     body_product_id := None;
     body_subscription_type := None;
     body_amount := Js.JStr "0.00";
     body_trial_transaction := Js.JNum 1;
     body_password := None;
     body_action := None |}.

(** What the GrooveSell handler answers with: the status 400 to a request
    it does not accept, and a success response to every other, a body it
    cannot read included. *)
Definition groovesell_answer (request : option Body) (r : Response) : Prop :=
  match request with
  | Some body =>
      (groovesell_accepts body -> success_shaped r = true) /\
      (~ groovesell_accepts body -> status r = 400)
  | None => success_shaped r = true
  end.

(** What the credits route answers with: the status 500 to a body it
    cannot read, the status 400 to a request without a buyer email or
    with neither an event nor a manual action, the status 200 to a balance
    query, and the status 200 or, when processing fails, 500 to an event
    or a manual grant. *)
Definition credits_answer (request : option Body) (r : Response) : Prop :=
  match request with
  | None => status r = 500
  | Some body =>
      if negb (truthy_text (body_buyer_email body)) then status r = 400
      else if text_is (body_action body) "get_balance" then status r = 200
      else if truthy_text (body_event body) ||
              text_is (body_action body) "add_credits"
      then status r = 200 \/ status r = 500
      else status r = 400
  end.

(** A trial-start delivery for a buyer the ledger does not hold yet, with
    the password the auth account is to get. *)
Definition new_buyer_trial : Body :=
  {| body_event := Some "subscription-trial-start";
     body_buyer_email := Some "new@x.com";
     body_product_id := Some "90211";
     body_subscription_type := None;
     body_amount := Js.JStr "0.00";
     body_trial_transaction := Js.JNum 1;
     body_password := Some "s3cret";
     body_action := None |}.

(** The sample ledger after [addCredits('a@x.com', -5)]. *)
Definition overdrawn : World :=
  snd (CreditUtils.addCredits "a@x.com" (-5) None None shop).

(** ** Further vocabulary *)

(** What getting or creating the account of [e] must come to, for an
    operation [run] given the identifier [i] to create it with: an
    existing account is returned and nothing is written; without one, and
    with [i] not taken, an account without credits is appended, and asking
    again, with whatever identifier, returns that account and writes
    nothing more. *)
Definition gets_or_creates (run : string -> string -> M User)
    (w : World) (i e : string) : Prop :=
  (forall u, In u (users w) -> email u = e -> run i e w = (Returns u, w)) /\
  (no_account e w -> ~ In i (map id (users w)) ->
   let u := new_account i e 0 (now w) in
   let w' := with_users (users w ++ [u]) w in
   run i e w = (Returns u, w') /\
   forall i', run i' e w' = (Returns u, w')).

(** What a grant of [n] to a buyer [e] without an account must come to,
    for a credit operation [run] and a balance query [balance]: without an
    identifier for the account the grant is refused and nothing is written;
    with a fresh identifier [i] the account is created and holds [n],
    with the period and an expiry one period on when a period is given. *)
Definition grants_to_newcomer
    (run : string -> Num -> option SubscriptionType -> option string -> M User)
    (balance : string -> M Z)
    (w : World) (e : string) (n : Z) (p : option SubscriptionType) : Prop :=
  run e n p None w =
    (Throws (CreditError "User not found and no auth ID provided" "USER_NOT_FOUND"), w) /\
  run e n p (Some "") w =
    (Throws (CreditError "User not found and no auth ID provided" "USER_NOT_FOUND"), w) /\
  forall i, i <> "" -> ~ In i (map id (users w)) ->
    exists u' w',
      run e n p (Some i) w = (Returns u', w') /\
      id u' = i /\ email u' = e /\ credits u' = n /\
      subscription_type u' = p /\ subscription_tier u' = None /\
      match p with
      | Some q =>
          exists expiry,
            subscription_expires_at u' = Some expiry /\
            period_on q (LocalTZA w) (now w) expiry
      | None => subscription_expires_at u' = None
      end /\
      users w' = (users w ++ [u'])%list /\
      credit_transactions w' =
        (credit_transactions w ++
         [{| user_id := i; amount := n; transaction_type := purchase;
             description := show_period p ++ " credit purchase";
             tx_created_at := now w |}])%list /\
      balance e w' = (Returns n, w').

(** What a grant of [n] followed by a debit of [n] must come to for the
    account [u]: both succeed, the account is as it was but for the time
    of its last update and the subscription period the grant set, and the
    log has a purchase of [n] and a usage of [- n] more. *)
Definition grant_then_debit
    (grant : string -> Num -> option SubscriptionType -> option string -> M User)
    (debit : string -> Z -> M User) (balance : string -> M Z)
    (w : World) (u : User) (n : Z) (p : option SubscriptionType) : Prop :=
  exists u1 w1 u2 w2,
    grant (email u) n p None w = (Returns u1, w1) /\
    debit (email u) n w1 = (Returns u2, w2) /\
    id u2 = id u /\ email u2 = email u /\ credits u2 = credits u /\
    subscription_tier u2 = subscription_tier u /\
    users w2 = replace_row (id u) u2 (users w) /\
    map amount (credit_transactions w2) =
      (map amount (credit_transactions w) ++ [n; - n])%list /\
    balance (email u) w2 = (Returns (credits u), w2).

(** [n] debits of [a] in a row, stopping at the first that throws. *)
Fixpoint debit_times (run : string -> Z -> M User) (e : string) (a : Z) (n : nat)
  : M unit :=
  match n with
  | O => ret tt
  | S k => _ <- run e a ;; debit_times run e a k
  end.

(** What a balance buys, for a debit operation [run] and a balance query
    [balance]: the account [u] pays for [credits u / a] debits of [a] in a
    row, each logged, after which the balance reads the remainder and one
    more debit is refused. *)
Definition buys_exactly (run : string -> Z -> M User) (balance : string -> M Z)
    (w : World) (u : User) (a : Z) : Prop :=
  let n := Z.to_nat (credits u / a) in
  exists w',
    debit_times run (email u) a n w = (Returns tt, w') /\
    balance (email u) w' = (Returns (credits u mod a), w') /\
    run (email u) a w' =
      (Throws (CreditError "Insufficient credits" "INSUFFICIENT_CREDITS"), w') /\
    List.length (credit_transactions w') =
      (List.length (credit_transactions w) + n)%nat.

(** The products of the table: the tier that comes with a product id and
    the credits it grants for a month and for a year. *)
Definition product_of_table (productId : string) (t : SubscriptionTier)
    (for_a_month for_a_year : Z) : Prop :=
  (productId = "90143" /\ t = basic /\ for_a_month = 5 /\ for_a_year = 60) \/
  (productId = "90211" /\ t = standard /\ for_a_month = 10 /\ for_a_year = 120) \/
  (productId = "90212" /\ t = premium /\ for_a_month = 30 /\ for_a_year = 360).

(** A payment above zero from the buyer [e] for a product of the table,
    of tier [t], which grants [n] credits for the period [p]: those of a
    year when the subscription type reads Yearly, those of a month
    otherwise. *)
Definition groovesell_paid (body : Body) (e : string) (t : SubscriptionTier)
    (n : Z) (p : SubscriptionType) : Prop :=
  body_buyer_email body = Some e /\ e <> "" /\
  (exists productId for_a_month for_a_year,
     body_product_id body = Some productId /\
     product_of_table productId t for_a_month for_a_year /\
     ((body_subscription_type body = Some "Yearly" /\
       n = for_a_year /\ p = yearly) \/
      (body_subscription_type body <> Some "Yearly" /\
       n = for_a_month /\ p = monthly))) /\
  body_event body = Some "subscription-payment" /\
  Js.gt0 (Js.parseFloat (Js.or_else (body_amount body) (Js.JStr "0"))) = true.

(** A payment event as the GrooveSell handler takes it: buyer [e], a
    product id the table lookup finds, an amount above zero. *)
Definition groovesell_payment (body : Body) (e : string) : Prop :=
  body_buyer_email body = Some e /\ e <> "" /\
  (exists productId t, body_product_id body = Some productId /\
                       product_found productId t) /\
  body_event body = Some "subscription-payment" /\
  Js.gt0 (Js.parseFloat (Js.or_else (body_amount body) (Js.JStr "0"))) = true.

(** What a handler [post] makes of a delivery [body] for the account [u]
    when it grants [n] credits with the period [p] and leaves the tier at
    [tier_after]: the delivery is acknowledged, the row of [u] holds [n]
    more credits, the period and its expiry when one is given, and one
    purchase of [n] is logged.  The expiry lies one period on. *)
Definition delivery_grants (post : option Body -> M Response)
    (w : World) (u : User) (body : Body)
    (n : Z) (p : option SubscriptionType)
    (tier_after : option SubscriptionTier) : Prop :=
  exists r w' u',
    post (Some body) w = (Returns r, w') /\
    success_shaped r = true /\
    users w' = replace_row (id u) u' (users w) /\
    id u' = id u /\ email u' = email u /\
    credits u' = credits u + n /\
    subscription_type u' =
      match p with Some q => Some q | None => subscription_type u end /\
    match p with
    | Some q =>
        exists expiry,
          subscription_expires_at u' = Some expiry /\
          period_on q (LocalTZA w) (now w) expiry
    | None => subscription_expires_at u' = subscription_expires_at u
    end /\
    subscription_tier u' = tier_after /\
    credit_transactions w' =
      logged (id u) n purchase (show_period p ++ " credit purchase") (now w)
        (credit_transactions w).

(** A payment for alice, for a year of the premium product. *)
Definition yearly_payment : Body :=
  {| body_event := Some "subscription-payment";
     body_buyer_email := Some "a@x.com";
     body_product_id := Some "90212";
     body_subscription_type := Some "Yearly";
     body_amount := Js.JStr "297.00";
     body_trial_transaction := Js.JNum 0;
     body_password := None;
     body_action := None |}.

(** A request that asks the credits route for a manual grant. *)
Definition manual_grant (e : string) (subscription_type : option string) : Body :=
  {| body_event := None;
     body_buyer_email := Some e;
     body_product_id := None;
     body_subscription_type := subscription_type;
     body_amount := Js.JUndefined;
     body_trial_transaction := Js.JUndefined;
     body_password := None;
     body_action := Some "add_credits" |}.

(** The credits and the period the credits route decides on for a request
    (the chain of conditions of its POST handler), [None] when it decides
    to ignore the event. *)
Definition credits_route_grant (body : Body)
  : option (Z * option SubscriptionType) :=
  if text_is (body_event body) "subscription-trial-start" then
    Some (TRIAL_CREDITS, None)
  else if text_is (body_event body) "subscription-payment" &&
          Js.gt0 (Js.parseFloat
                    (Js.or_else (body_amount body) (Js.JStr "0"))) then
    Some (MONTHLY_CREDITS, Some monthly)
  else if text_is (body_action body) "add_credits" then
    if text_is (body_subscription_type body) "trial" then Some (TRIAL_CREDITS, None)
    else if text_is (body_subscription_type body) "monthly" then
      Some (MONTHLY_CREDITS, Some monthly)
    else if text_is (body_subscription_type body) "yearly" then
      Some (YEARLY_CREDITS, Some yearly)
    else Some (TRIAL_CREDITS, None)
  else None.

(** A payment event as the credits route takes it: buyer [e], an amount
    above zero, and no balance query asked for. *)
Definition credits_payment (body : Body) (e : string) : Prop :=
  body_buyer_email body = Some e /\ e <> "" /\
  body_event body = Some "subscription-payment" /\
  Js.gt0 (Js.parseFloat (Js.or_else (body_amount body) (Js.JStr "0"))) = true /\
  text_is (body_action body) "get_balance" = false.

(** A manual grant as the credits route takes it: buyer [e], the action
    [add_credits], and an event, if any, that is neither a trial start nor
    a payment above zero. *)
Definition credits_manual (body : Body) (e : string) : Prop :=
  body_buyer_email body = Some e /\ e <> "" /\
  body_action body = Some "add_credits" /\
  ignorable body = true.

(** A payment for alice as the credits route may receive it: a year of the
    premium product. *)
Definition manual_yearly : Body := manual_grant "a@x.com" (Some "yearly").

(** *** Runs on any world *)

(** [w0] is [w] but for the outages still scheduled. *)
Definition but_outages (w w0 : World) : Prop :=
  users w0 = users w /\ credit_transactions w0 = credit_transactions w /\
  auth_users w0 = auth_users w /\ uuid w0 = uuid w /\ issued w0 = issued w /\
  now w0 = now w /\
  anon_client w0 = anon_client w /\ admin_client w0 = admin_client w /\
  LocalTZA w0 = LocalTZA w.

(** The outcome of a run and the world it leaves satisfy [Q]. *)
Definition ends_in {A} (run : Outcome A * World)
    (Q : Outcome A -> World -> Prop) : Prop :=
  Q (fst run) (snd run).

(** What a debit of [A] from [e] may leave behind on any world [w], as
    the outcome [o] and the world [w'].  A call that returns has taken the
    amount from the account that carries the email, which covered it, has
    touched no other row, and has logged the usage or, when the log could
    not be written, nothing.  A call that throws has logged nothing, and
    has left every balance as it was, but for one case: the update was
    made and its reply was lost, and then the amount is taken from the
    account as in a call that returns. *)
Definition debit_outcome (w : World) (e : string) (A : Z)
    (o : Outcome User) (w' : World) : Prop :=
  match o with
  | Throws _ =>
      credit_transactions w' = credit_transactions w /\
      (users w' = users w \/
       exists u,
         In u (users w) /\ email u = e /\ A <= credits u /\
         fits (credits u - A) /\
         users w' =
           replace_row (id u) (with_balance (credits u - A) (now w) u)
             (users w))
  | Returns u' =>
      exists u,
        In u (users w) /\ email u = e /\ A <= credits u /\
        fits (credits u - A) /\
        u' = with_balance (credits u - A) (now w) u /\
        users w' = replace_row (id u) u' (users w) /\
        (credit_transactions w' = credit_transactions w \/
         credit_transactions w' =
           logged (id u) (- A) usage "Image generation" (now w)
             (credit_transactions w))
  end.

Definition debit_or_nothing (run : string -> Z -> M User)
    (w : World) (e : string) (A : Z) : Prop :=
  exists o w', run e A w = (o, w') /\ debit_outcome w e A o w'.

(** No balance is negative. *)
Definition solvent (w : World) : Prop :=
  forall u, In u (users w) -> 0 <= credits u.

(** What a grant of [n] to [e] may leave behind on any world [w], as the
    outcome [o] and the world [w'].  The accounts the grant works on are
    those of [w], with the account it created for [e] appended when none
    carried the email and an identifier was given.  A call that returns has
    topped up the account that carries the email, with the period and an
    expiry when a period is given, which on a host of our days lies one
    period on, has touched no other row, and has logged the purchase or,
    when the log could not be written, nothing.  A call that throws has logged nothing and has changed none
    of the accounts, but for one case: the update was made and its reply
    was lost, and then the account is topped up as in a call that
    returns. *)
Definition tops_up (w : World) (u u' : User) (n : Z)
    (p : option SubscriptionType) : Prop :=
  fits (credits u + n) /\
  exists x,
    u' = topped_up n p x (now w) u /\
    match p with
    | Some q =>
        exists expiry,
          x = Some expiry /\
          (ordinary_host w -> period_on q (LocalTZA w) (now w) expiry)
    | None => x = None
    end.

Definition grant_outcome (w : World) (e : string) (n : Z)
    (p : option SubscriptionType) (auth : option string)
    (o : Outcome User) (w' : World) : Prop :=
  exists us,
    (us = users w \/
     exists i, auth = Some i /\ no_account e w /\
               us = (users w ++ [new_account i e 0 (now w)])%list) /\
    match o with
    | Throws _ =>
        credit_transactions w' = credit_transactions w /\
        (users w' = us \/
         exists u u',
           In u us /\ email u = e /\ tops_up w u u' n p /\
           users w' = replace_row (id u) u' us)
    | Returns u' =>
        exists u,
          In u us /\ email u = e /\ tops_up w u u' n p /\
          users w' = replace_row (id u) u' us /\
          (credit_transactions w' = credit_transactions w \/
           credit_transactions w' =
             logged (id u) n purchase (show_period p ++ " credit purchase")
               (now w) (credit_transactions w))
    end.

Definition grant_or_nothing
    (run : string -> Num -> option SubscriptionType -> option string -> M User)
    (w : World) (e : string) (n : Z) (p : option SubscriptionType)
    (auth : option string) : Prop :=
  exists o w',
    run e n p auth w = (o, w') /\ grant_outcome w e n p auth o w'.

(** The key constraints hold and no balance is negative. *)
Definition sound (w : World) : Prop := keys_unique w /\ solvent w.

(** A request the image route lets through to its credit checks for the
    caller [e]: the Replicate token is set, the output directory is there
    when pictures are kept on disk, the password, when one is set, is the
    right one, and the form names the caller. *)
Definition reaches_the_gate (sha256 : string -> string)
    (env : Replicate.Env) (outside : Replicate.Outside)
    (form : Replicate.Form) (e : string) : Prop :=
  truthy_text (Replicate.REPLICATE_API_TOKEN env) = true /\
  (Replicate.effectiveStorageMode env = Replicate.fs ->
   Replicate.output_dir_error outside = None) /\
  (truthy_text (Replicate.APP_PASSWORD env) = true ->
   truthy_text (Replicate.passwordHash form) = true /\
   Replicate.passwordHash form =
     Some (sha256 (show_text (Replicate.APP_PASSWORD env)))) /\
  Replicate.userEmail form = Some e /\ e <> "".

(** Replicate draws the picture [b64], with the metrics [metrics], for a
    form that carries photos, and the picture can be stored. *)
Definition draws (env : Replicate.Env) (outside : Replicate.Outside)
    (form : Replicate.Form) (b64 metrics : string) : Prop :=
  Replicate.imageFiles form <> [] /\
  Replicate.prediction outside = Replicate.Drawn b64 metrics /\
  (Replicate.effectiveStorageMode env = Replicate.fs ->
   Replicate.write_file_error outside = None).

(** The picture the route answers with at time [t]. *)
Definition picture (env : Replicate.Env) (b64 : string) (t : Z)
  : Replicate.ImageResult :=
  {| Replicate.filename := Js.show t ++ "-multi-person.png";
     Replicate.image_b64_json := b64;
     Replicate.path :=
       match Replicate.effectiveStorageMode env with
       | Replicate.fs => Some ("/api/image/" ++ Js.show t ++ "-multi-person.png")
       | Replicate.indexeddb => None
       end;
     Replicate.output_format := "png" |}.

(** What an answer of the image route tells about the ledger.  With a
    refusal the ledger is as it was.  The picture without a warning comes
    with a debit of two credits from the account of the caller.  The
    picture with the warning comes with the ledger as it was, but for one
    case: the debit was made and its reply was lost, and then the two
    credits are taken and nothing is logged. *)
Definition two_credits_taken (form : option Replicate.Form) (w w' : World)
  : Prop :=
  exists f e u,
    form = Some f /\ Replicate.userEmail f = Some e /\
    In u (users w) /\ email u = e /\ 2 <= credits u /\
    users w' =
      replace_row (id u) (with_balance (credits u - 2) (now w) u) (users w).

Definition charged_for (a : Replicate.Answer) (form : option Replicate.Form)
    (w w' : World) : Prop :=
  match a with
  | Replicate.Refusal _ _ => same_ledger w w'
  | Replicate.Images [_] _ None => two_credits_taken form w w'
  | Replicate.Images [_] _ (Some _) =>
      same_ledger w w' \/
      (two_credits_taken form w w' /\
       credit_transactions w' = credit_transactions w)
  | Replicate.Images _ _ _ => False
  end.

(** An environment with a token and no password, pictures kept in the
    browser; a Replicate that draws. *)
Definition studio : Replicate.Env :=
  {| Replicate.REPLICATE_API_TOKEN := Some "r8_token";
     Replicate.NEXT_PUBLIC_IMAGE_STORAGE_MODE := Some "indexeddb";
     Replicate.VERCEL := None;
     Replicate.APP_PASSWORD := None |}.

Definition drawing : Replicate.Outside :=
  {| Replicate.output_dir_error := None;
     Replicate.prediction := Replicate.Drawn "iVBORw0KGgo" "{}";
     Replicate.write_file_error := None |}.

(** A form from [e] with two photos. *)
Definition two_photos (e : string) : Replicate.Form :=
  {| Replicate.passwordHash := None;
     Replicate.userEmail := Some e;
     Replicate.imageFiles := ["photo-a"; "photo-b"] |}.

(** What signing up [e] with a password must come to, for a sign-up
    operation [run], against a healthy store: an email the auth directory
    does not hold is registered under the next identifier, which is
    returned, and the ledger is not touched; for an email it holds
    already nothing is registered, and the answer is the identifier of the
    ledger account that carries the email, or null when there is none. *)
Definition registers_once (run : string -> option string -> M (option string))
    (w : World) (e : string) (password : option string) : Prop :=
  (existsb (by_auth_email e) (auth_users w) = false ->
   uuid w (issued w) <> "" ->
   run e password w =
   (Returns (Some (uuid w (issued w))),
    with_auth (auth_users w ++ [mkAuthUser (uuid w (issued w)) e])
      (S (issued w)) w)) /\
  (existsb (by_auth_email e) (auth_users w) = true ->
   (forall u, In u (users w) -> email u = e -> id u <> "" ->
    run e password w = (Returns (Some (id u)), w)) /\
   (no_account e w -> run e password w = (Returns None, w))).

(** What writing an entry of the log must come to on any world, for the
    logging operation [run]: it returns and does not throw, it leaves the
    users as they were, and the log is as it was or has the one entry
    more, which it can only have for the identifier of an account. *)
Definition logs_or_skips
    (run : string -> Num -> TransactionType -> string -> M unit)
    (w : World) (uid : string) (a : Z) (k : TransactionType) (d : string)
  : Prop :=
  exists w',
    run uid a k d w = (Returns tt, w') /\
    users w' = users w /\
    (credit_transactions w' = credit_transactions w \/
     (In uid (map id (users w)) /\
      credit_transactions w' = logged uid a k d (now w) (credit_transactions w))).

(** The sample ledger when the auth directory holds new@x.com already:
    the buyer registered with the application and has no account in the
    ledger yet. *)
Definition registered_only : World :=
  with_auth
    [mkAuthUser "7d9f0c1e-0001" "a@x.com"; mkAuthUser "7d9f0c1e-0009" "new@x.com"]
    0 shop.

(** What the advisory check and the debit have to do with each other, for
    a check [check] and a debit [run], against a healthy store: the check
    answers [true] exactly when the debit of the same amount goes through,
    and [false] exactly when the debit throws. *)
Definition check_agrees_with_debit (check : string -> Z -> M bool)
    (run : string -> Z -> M User) (w : World) (e : string) (n : Z) : Prop :=
  exists b,
    check e n w = (Returns b, w) /\
    (b = true <-> exists u' w', run e n w = (Returns u', w')) /\
    (b = false <-> exists err w', run e n w = (Throws err, w')).

(** What signing up [e] without a password must come to on any world, for
    a sign-up operation [run]: nothing is registered and nothing is
    written, and an identifier it returns is that of an account of the
    ledger that carries the email. *)
Definition looks_up_only (run : string -> option string -> M (option string))
    (w : World) (e : string) (password : option string) : Prop :=
  exists o w',
    run e password w = (o, w') /\
    but_outages w w' /\
    forall i, o = Returns (Some i) ->
      exists u, In u (users w) /\ email u = e /\ id u = i.

(** What a payment for a product of tier [t] opens, for the account [u]
    and the delivery [body]: the handler acknowledges the payment, after
    which the tier check of the multi-person feature passes exactly when
    [t] is not the basic tier, and the check for two credits passes. *)
Definition payment_opens (w : World) (u : User) (body : Body)
    (t : SubscriptionTier) : Prop :=
  exists r w',
    GrooveSell.POST (Some body) w = (Returns r, w') /\
    success_shaped r = true /\
    CreditUtils2.canAccessMultiplePhotos (email u) w' =
      (Returns (match t with basic => false | _ => true end), w') /\
    CreditUtils2.hasEnoughCredits (email u) 2 w' = (Returns true, w').

(** * Properties *)

(** ** The runtime pieces on concrete inputs *)

Example setMonth_mid_month :
  (* 2026-01-15T10:00:00Z, one month later: 2026-02-15T10:00:00Z *)
  Js.setMonth utc 1768471200000 (Js.getMonth utc 1768471200000 + 1)
  = Some 1771149600000.
Proof. reflexivity. Qed.

Example setMonth_overflows_short_month :
  (* 2026-01-31T00:00:00Z, one month later is 2026-03-03T00:00:00Z *)
  Js.setMonth utc 1769817600000 (Js.getMonth utc 1769817600000 + 1)
  = Some 1772496000000.
Proof. reflexivity. Qed.

Example setMonth_december :
  (* 2026-12-10T00:00:00Z, one month later: 2027-01-10T00:00:00Z *)
  Js.setMonth utc 1796860800000 (Js.getMonth utc 1796860800000 + 1)
  = Some 1799539200000.
Proof. reflexivity. Qed.

Example setFullYear_next_year :
  (* 2026-11-03T12:00:00Z, one year later: 2027-11-03T12:00:00Z *)
  Js.setFullYear utc 1793707200000 (Js.getFullYear utc 1793707200000 + 1)
  = Some 1825243200000.
Proof. reflexivity. Qed.

(** The calendar is read in local time: at 2026-01-31T23:30:00Z a host on
    UTC is on the last of January, and a month on is the third of March;
    a host one hour ahead is on the first of February already, and a month
    on is the first of March, three days earlier. *)
Example setMonth_local_time :
  Js.setMonth utc 1769902200000 (Js.getMonth utc 1769902200000 + 1)
  = Some 1772580600000 /\
  Js.setMonth one_hour_ahead 1769902200000
    (Js.getMonth one_hour_ahead 1769902200000 + 1)
  = Some 1772321400000.
Proof. split; reflexivity. Qed.

(** Across the start of summer time a month is an hour short: from
    2026-03-15T12:00 to 2026-04-15T12:00 by the clocks of central Europe
    it is 31 days less one hour. *)
Example setMonth_summer_time :
  Js.setMonth central_european 1773572400000
    (Js.getMonth central_european 1773572400000 + 1)
  = Some 1776247200000 /\
  1776247200000 - 1773572400000 = 31 * 86400000 - 3600000.
Proof. split; reflexivity. Qed.

(** A date too far out is no date. *)
Example setFullYear_invalid :
  Js.setFullYear utc 8640000000000000 (Js.getFullYear utc 8640000000000000 + 1)
  = None.
Proof. reflexivity. Qed.

(** White space before a number is skipped, of whatever kind: a no-break
    space (U+00A0, the bytes 194 and 160) like a space. *)
Example parseFloat_no_break_space :
  Js.parseFloat
    (Js.JStr (String (ascii_of_nat 194) (String (ascii_of_nat 160) "5")))
  = Js.Finite 5 /\
  Js.parseFloat
    (Js.JStr (String (ascii_of_nat 226) (String (ascii_of_nat 128)
                (String (ascii_of_nat 168) " 0.5"))))
  = Js.Finite (5 # 10).
Proof. split; reflexivity. Qed.

Example parseFloat_price : Js.gt0 (Js.parseFloat (Js.JStr "29.99")) = true.
Proof. reflexivity. Qed.

Example parseFloat_free : Js.gt0 (Js.parseFloat (Js.JStr "0.00")) = false.
Proof. reflexivity. Qed.

Example parseFloat_junk : Js.parseFloat (Js.JStr "free") = Js.NaN.
Proof. reflexivity. Qed.

Example parseFloat_exponent : Js.gt0 (Js.parseFloat (Js.JStr " 1.5e2abc")) = true.
Proof. reflexivity. Qed.

Example includes_registered :
  Js.includes "A user with this email address has already been registered"
              "has already been registered" = true.
Proof. reflexivity. Qed.

Example show_three : Js.show 3 = "3".
Proof. reflexivity. Qed.

(** ** The calendar *)

Lemma all_from_spec fuel f :
  forall z0, all_from fuel z0 f = true ->
  forall z, z0 <= z < z0 + Z.of_nat fuel -> f z = true.
Proof.
  induction fuel as [|k IH]; intros z0 H z Hz; [lia|].
  simpl in H. apply andb_true_iff in H. destruct H as [Hk Hrest].
  destruct (Z.eq_dec z z0) as [-> | Hne]; [exact Hk|].
  apply (IH (z0 + 1)); [exact Hrest | lia].
Qed.

(** The year of a day of a 400-year era, and the day of that year, which
    is the last of 366 in a leap year only. *)
Lemma year_of_era doe :
  0 <= doe < 146097 ->
  let yoe := (doe - doe / 1460 + doe / 36524 - doe / 146096) / 365 in
  let doy := doe - (365 * yoe + yoe / 4 - yoe / 100) in
  0 <= yoe <= 399 /\ 0 <= doy <= 365 /\
  (doy = 365 -> (yoe + 1) mod 4 = 0 /\ ((yoe + 1) mod 100 <> 0 \/ yoe = 399)).
Proof.
  intros H. cbv zeta. Z.div_mod_to_equations. lia.
Qed.

Lemma month_of_year doy :
  0 <= doy <= 365 ->
  let mp := (5 * doy + 2) / 153 in
  let d := doy - (153 * mp + 2) / 5 + 1 in
  let m := if mp <? 10 then mp + 3 else mp - 9 in
  1 <= m <= 12 /\ 1 <= d <= 31 /\
  (if 2 <? m then m - 3 else m + 9) = mp /\
  (m = 2 -> d <= 29 /\ (doy <= 364 -> d <= 28)) /\
  (m = 4 \/ m = 6 \/ m = 9 \/ m = 11 -> d <= 30).
Proof.
  intros H. cbv zeta.
  destruct (Z.ltb_spec ((5 * doy + 2) / 153) 10);
    destruct (Z.ltb_spec 2 ((5 * doy + 2) / 153 + 3));
    destruct (Z.ltb_spec 2 ((5 * doy + 2) / 153 - 9));
    Z.div_mod_to_equations; lia.
Qed.

Lemma leap_year_shift y k : leap_year (y + 400 * k) = leap_year y.
Proof.
  unfold leap_year.
  replace ((y + 400 * k) mod 4) with (y mod 4)
    by (replace (y + 400 * k) with (y + (100 * k) * 4) by lia;
        rewrite Z.mod_add by lia; reflexivity).
  replace ((y + 400 * k) mod 100) with (y mod 100)
    by (replace (y + 400 * k) with (y + (4 * k) * 100) by lia;
        rewrite Z.mod_add by lia; reflexivity).
  replace ((y + 400 * k) mod 400) with (y mod 400)
    by (replace (y + 400 * k) with (y + k * 400) by lia;
        rewrite Z.mod_add by lia; reflexivity).
  reflexivity.
Qed.

Lemma days_in_month_shift y m k :
  days_in_month (y + 400 * k) m = days_in_month y m.
Proof. unfold days_in_month. rewrite leap_year_shift. reflexivity. Qed.

Lemma days_of_months_shift y n k :
  days_of_months (y + 400 * k) n = days_of_months y n.
Proof.
  induction n as [|n IH]; [reflexivity|].
  cbn [days_of_months]. rewrite IH, days_in_month_shift. reflexivity.
Qed.

Lemma first_day_of_month_shift y m k :
  first_day_of_month (y + 400 * k) m = first_day_of_month y m + 146097 * k.
Proof.
  unfold first_day_of_month, first_day_of_year.
  rewrite days_of_months_shift.
  replace ((y + 400 * k - 1969) / 4) with ((y - 1969) / 4 + 100 * k)
    by (replace (y + 400 * k - 1969) with (y - 1969 + (100 * k) * 4) by lia;
        rewrite Z.div_add by lia; reflexivity).
  replace ((y + 400 * k - 1901) / 100) with ((y - 1901) / 100 + 4 * k)
    by (replace (y + 400 * k - 1901) with (y - 1901 + (4 * k) * 100) by lia;
        rewrite Z.div_add by lia; reflexivity).
  replace ((y + 400 * k - 1601) / 400) with ((y - 1601) / 400 + k)
    by (replace (y + 400 * k - 1601) with (y - 1601 + k * 400) by lia;
        rewrite Z.div_add by lia; reflexivity).
  lia.
Qed.

Lemma days_in_year_from_shift y m k :
  days_in_year_from (y + 400 * k) m = days_in_year_from y m.
Proof.
  unfold days_in_year_from.
  replace (y + 400 * k + 1) with (y + 1 + 400 * k) by lia.
  rewrite !leap_year_shift. reflexivity.
Qed.

Lemma days_from_civil_day y m d :
  Js.days_from_civil y m d = Js.days_from_civil y m 1 + d - 1.
Proof. unfold Js.days_from_civil. cbv zeta. lia. Qed.

Lemma days_from_civil_shift y m d k :
  Js.days_from_civil (y + 400 * k) m d = Js.days_from_civil y m d + 146097 * k.
Proof.
  unfold Js.days_from_civil. cbv zeta.
  set (y' := if m <=? 2 then y - 1 else y).
  replace (if m <=? 2 then y + 400 * k - 1 else y + 400 * k) with (y' + k * 400)
    by (unfold y'; destruct (m <=? 2); lia).
  rewrite Z.div_add by lia.
  replace (y' + k * 400 - (y' / 400 + k) * 400) with (y' - y' / 400 * 400) by lia.
  lia.
Qed.

Lemma cycle_checked : all_from 400 0 months_ok = true.
Proof. vm_cast_no_check (eq_refl true). Qed.

(** The first day of a month, the days of a month, and the days to the
    same date a year on, as the runtime counts them. *)
Lemma month_year_lengths y m :
  1 <= m <= 12 ->
  Js.days_from_civil y m 1 = first_day_of_month y m /\
  next_month_first y m - Js.days_from_civil y m 1 = days_in_month y m /\
  Js.days_from_civil (y + 1) m 1 - Js.days_from_civil y m 1 =
    days_in_year_from y m.
Proof.
  intros Hm.
  set (k := y / 400). set (y0 := y mod 400).
  assert (Hy : y = y0 + 400 * k) by (unfold y0, k; rewrite Z.mod_eq by lia; lia).
  assert (Hy0 : 0 <= y0 < 400) by (apply Z.mod_pos_bound; lia).
  clearbody y0 k. subst y.
  assert (H : months_ok y0 = true).
  { apply (all_from_spec _ _ 0 cycle_checked). simpl. lia. }
  assert (H' : month_ok y0 m = true).
  { apply (all_from_spec _ _ 1 H). simpl. lia. }
  unfold month_ok in H'.
  apply andb_true_iff in H'. destruct H' as [H' H3].
  apply andb_true_iff in H'. destruct H' as [H1 H2].
  apply Z.eqb_eq in H1, H2, H3.
  assert (Hn : next_month_first (y0 + 400 * k) m =
               next_month_first y0 m + 146097 * k).
  { unfold next_month_first. destruct (m =? 12).
    - replace (y0 + 400 * k + 1) with (y0 + 1 + 400 * k) by lia.
      apply days_from_civil_shift.
    - apply days_from_civil_shift. }
  rewrite Hn, first_day_of_month_shift, days_in_month_shift,
    days_in_year_from_shift.
  replace (y0 + 400 * k + 1) with (y0 + 1 + 400 * k) by lia.
  rewrite !days_from_civil_shift. lia.
Qed.

Lemma leap_year_of_era yoe era :
  (yoe + 1) mod 4 = 0 /\ ((yoe + 1) mod 100 <> 0 \/ yoe = 399) ->
  leap_year (yoe + era * 400 + 1) = true.
Proof.
  intros [H4 H100].
  replace (yoe + era * 400 + 1) with (yoe + 1 + 400 * era) by lia.
  rewrite leap_year_shift. unfold leap_year.
  rewrite H4. cbn [Z.eqb andb].
  destruct H100 as [H | ->]; [|reflexivity].
  destruct (Z.eqb_spec ((yoe + 1) mod 100) 0); [contradiction | reflexivity].
Qed.

(** The date of a day number is a date of the calendar, and it is the
    date of that day. *)
Lemma civil_roundtrip z :
  let '(y, m, d) := Js.civil_from_days z in
  1 <= m <= 12 /\ 1 <= d <= days_in_month y m /\ Js.days_from_civil y m d = z.
Proof.
  unfold Js.civil_from_days. cbv zeta.
  set (z' := z + 719468).
  set (era := z' / 146097).
  set (doe := z' - era * 146097).
  assert (Hdoe : 0 <= doe < 146097).
  { unfold doe, era. pose proof (Z.mod_pos_bound z' 146097 ltac:(lia)) as Hb.
    rewrite Z.mod_eq in Hb by lia. lia. }
  pose proof (year_of_era doe Hdoe) as Hy. cbv zeta in Hy.
  set (yoe := (doe - doe / 1460 + doe / 36524 - doe / 146096) / 365) in *.
  set (doy := doe - (365 * yoe + yoe / 4 - yoe / 100)) in *.
  destruct Hy as (Hyoe & Hdoy & Hleap).
  pose proof (month_of_year doy Hdoy) as Hmd. cbv zeta in Hmd.
  set (mp := (5 * doy + 2) / 153) in *.
  set (d := doy - (153 * mp + 2) / 5 + 1) in *.
  set (m := if mp <? 10 then mp + 3 else mp - 9) in *.
  destruct Hmd as (Hm & Hd & Hmp & Hfeb & H30).
  split; [exact Hm|].
  split.
  { split; [lia|]. unfold days_in_month.
    destruct (Z.eqb_spec m 2) as [E2 | N2].
    - destruct (Hfeb E2) as [H29 H28].
      destruct (Z.leb_spec m 2) as [_ | Hgt]; [|lia].
      destruct (Z.eq_dec doy 365) as [E | N].
      + rewrite (leap_year_of_era yoe era (Hleap E)). exact H29.
      + destruct (leap_year (yoe + era * 400 + 1)); lia.
    - destruct ((m =? 4) || (m =? 6) || (m =? 9) || (m =? 11)) eqn:E; [|lia].
      apply H30.
      repeat (apply orb_true_iff in E; destruct E as [E | E]);
        apply Z.eqb_eq in E; lia. }
  unfold Js.days_from_civil. cbv zeta.
  assert (Hy : (if m <=? 2
                then (if m <=? 2 then yoe + era * 400 + 1 else yoe + era * 400) - 1
                else (if m <=? 2 then yoe + era * 400 + 1 else yoe + era * 400))
               = yoe + era * 400).
  { destruct (m <=? 2); lia. }
  rewrite Hy.
  assert (He : (yoe + era * 400) / 400 = era).
  { rewrite Z.div_add by lia. rewrite Z.div_small by lia. lia. }
  rewrite He.
  replace (yoe + era * 400 - era * 400) with yoe by lia.
  rewrite Hmp. unfold d, doy, doe, z'. lia.
Qed.

(** A time value within the range of a Date is kept. *)
Lemma TimeClip_in_range t :
  -8640000000000000 <= t <= 8640000000000000 -> Js.TimeClip t = Some t.
Proof.
  intros H. unfold Js.TimeClip.
  destruct (Z.leb_spec (Z.abs t) 8640000000000000); [reflexivity | lia].
Qed.

(** [d.setMonth(d.getMonth() + 1)] moves the local date on by the length
    of its month, and [d.setFullYear(d.getFullYear() + 1)] by a year,
    keeping the local time of day; the date is then read back from local
    time. *)
Lemma expiration_period_on p tza t :
  0 <= t <= 200000000000000 ->
  (forall x b, -86400000 < tza x b < 86400000) ->
  exists e, expiration tza p t = Some e /\ period_on p tza t e.
Proof.
  intros Ht Hz.
  pose proof (Hz t true) as Hz0.
  set (l := t + tza t true) in *.
  pose proof (civil_roundtrip (Js.Day l)) as H.
  pose proof (Z.div_mod l Js.msPerDay ltac:(discriminate)) as Hl.
  pose proof (Z.mod_pos_bound l Js.msPerDay eq_refl) as Hs.
  unfold period_on, expiration, Js.setMonth, Js.setFullYear, Js.getMonth,
    Js.getFullYear, Js.LocalTime, Js.UTC, Js.MakeDate, Js.MakeDay,
    Js.TimeWithinDay, Js.YearFromTime, Js.MonthFromTime, Js.DateFromTime.
  fold l. fold (Js.Day l) in Hl.
  destruct (Js.civil_from_days (Js.Day l)) as [[y m] d].
  destruct H as (Hm & Hd & Hday). cbn [fst snd]. cbv zeta.
  rewrite days_from_civil_day in Hday.
  destruct (month_year_lengths y m Hm) as (Hfirst & Hmonth & Hyear).
  unfold Js.msPerDay in *.
  assert (Hin : in_month l y m).
  { split; [exact Hm|]. rewrite <- Hfirst. lia. }
  assert (Hlen : 28 <= days_in_month y m <= 31 /\
                 365 <= days_in_year_from y m <= 366).
  { unfold days_in_month, days_in_year_from.
    destruct (m =? 2), (leap_year y), (leap_year (y + 1)), (m <=? 2),
      ((m =? 4) || (m =? 6) || (m =? 9) || (m =? 11)); lia. }
  destruct p.
  - assert (Hnew :
      (Js.days_from_civil (y + (m - 1 + 1) / 12) ((m - 1 + 1) mod 12 + 1) 1
       + d - 1) * 86400000 + l mod 86400000 =
      l + days_in_month y m * 86400000).
    { replace (m - 1 + 1) with m by lia.
      rewrite <- Hmonth. unfold next_month_first.
      destruct (Z.eqb_spec m 12) as [-> | Hne].
      - change (12 / 12) with 1. change (12 mod 12 + 1) with 1. lia.
      - rewrite Z.div_small by lia. rewrite Z.mod_small by lia.
        replace (y + 0) with y by lia. lia. }
    rewrite Hnew.
    pose proof (Hz (l + days_in_month y m * 86400000) false) as Hz1.
    rewrite TimeClip_in_range by lia.
    eexists. split; [reflexivity|]. exists y, m. split; [exact Hin|].
    reflexivity.
  - assert (Hnew :
      (Js.days_from_civil (y + 1 + (m - 1) / 12) ((m - 1) mod 12 + 1) 1
       + d - 1) * 86400000 + l mod 86400000 =
      l + days_in_year_from y m * 86400000).
    { rewrite Z.div_small by lia. rewrite Z.mod_small by lia.
      replace (y + 1 + 0) with (y + 1) by lia.
      replace (m - 1 + 1) with m by lia. rewrite <- Hyear. lia. }
    rewrite Hnew.
    pose proof (Hz (l + days_in_year_from y m * 86400000) false) as Hz1.
    rewrite TimeClip_in_range by lia.
    eexists. split; [reflexivity|]. exists y, m. split; [exact Hin|].
    reflexivity.
Qed.

(** The days of a period: 28 to 31 for a month, 365 or 366 for a year. *)
Lemma period_days_bounds p y m :
  match p with
  | monthly => 28 <= period_days p y m <= 31
  | yearly => 365 <= period_days p y m <= 366
  end.
Proof.
  destruct p; unfold period_days, days_in_month, days_in_year_from;
    destruct (m =? 2), (leap_year y), (leap_year (y + 1)), (m <=? 2),
      ((m =? 4) || (m =? 6) || (m =? 9) || (m =? 11)); lia.
Qed.

(** ** The monad *)

Lemma bind_returns {A B} (m : M A) (k : A -> M B) w a w' :
  m w = (Returns a, w') -> bind m k w = k a w'.
Proof. intros H. unfold bind. rewrite H. reflexivity. Qed.

Lemma bind_throws {A B} (m : M A) (k : A -> M B) w e w' :
  m w = (Throws e, w') -> bind m k w = (Throws e, w').
Proof. intros H. unfold bind. rewrite H. reflexivity. Qed.

Lemma try_returns {A} (m : M A) h w a w' :
  m w = (Returns a, w') -> try_catch m h w = (Returns a, w').
Proof. intros H. unfold try_catch. rewrite H. reflexivity. Qed.

Lemma try_throws {A} (m : M A) h w e w' :
  m w = (Throws e, w') -> try_catch m h w = h e w'.
Proof. intros H. unfold try_catch. rewrite H. reflexivity. Qed.

(** A call on a world without scheduled outages runs its query. *)
Lemma call_healthy {A} c (q : World -> Reply A * World) w r w' :
  outages w = [] -> has_client c w = true -> q w = (r, w') ->
  call c q w = (Returns r, w').
Proof.
  intros Ho Hc Hq. unfold call, remote. rewrite Hc, Ho, Hq. reflexivity.
Qed.

Lemma call_auth_healthy {A} c (q : World -> Reply A * World) w r w' :
  outages w = [] -> has_client c w = true -> q w = (r, w') ->
  call_auth c q w = (Returns r, w').
Proof.
  intros Ho Hc Hq. unfold call_auth, remote. rewrite Hc, Ho, Hq. reflexivity.
Qed.

(** ** The INTEGER columns *)

Lemma fits_in_integer z : fits z -> in_integer z = true.
Proof.
  unfold fits, in_integer. intros H.
  apply andb_true_iff. split; apply Z.leb_le; lia.
Qed.

Lemma in_integer_fits z : in_integer z = true -> fits z.
Proof.
  unfold fits, in_integer. intros H.
  apply andb_true_iff in H. destruct H as [H1 H2].
  apply Z.leb_le in H1, H2. lia.
Qed.

Lemma not_fits_in_integer z : ~ fits z -> in_integer z = false.
Proof.
  intros H. destruct (in_integer z) eqn:E; [|reflexivity].
  exfalso. apply H. apply in_integer_fits. exact E.
Qed.

Lemma fits_dec z : fits z \/ ~ fits z.
Proof. unfold fits. lia. Qed.

(** ** The tables *)

Lemma filter_unique_key {K} (key : User -> K) (eqb : K -> K -> bool)
    (eqb_eq : forall a b, eqb a b = true <-> a = b) us u :
  NoDup (map key us) -> In u us ->
  filter (fun x => eqb (key x) (key u)) us = [u].
Proof.
  induction us as [|x us IH]; intros Hnd Hin; [destruct Hin|].
  simpl in Hnd. inversion Hnd as [|? ? Hx Hnd']; subst.
  assert (Hnone : forall l, ~ In (key u) (map key l) ->
                  filter (fun x => eqb (key x) (key u)) l = []).
  { induction l as [|y l IHl]; intros Hy; [reflexivity|]. simpl.
    destruct (eqb (key y) (key u)) eqn:E.
    - apply eqb_eq in E. exfalso. apply Hy. left. exact E.
    - apply IHl. intros Hl. apply Hy. right. exact Hl. }
  destruct Hin as [-> | Hin]; simpl.
  - rewrite (proj2 (eqb_eq (key u) (key u)) eq_refl).
    rewrite (Hnone us Hx). reflexivity.
  - destruct (eqb (key x) (key u)) eqn:E.
    + apply eqb_eq in E. exfalso. apply Hx. rewrite E.
      apply in_map. exact Hin.
    + apply IH; assumption.
Qed.

Lemma filter_by_email w u :
  keys_unique w -> In u (users w) ->
  filter (by_email (email u)) (users w) = [u].
Proof.
  intros [_ He] Hin.
  exact (filter_unique_key email String.eqb String.eqb_eq (users w) u He Hin).
Qed.

Lemma filter_by_id w u :
  keys_unique w -> In u (users w) ->
  filter (by_id (id u)) (users w) = [u].
Proof.
  intros [Hi _] Hin.
  exact (filter_unique_key id String.eqb String.eqb_eq (users w) u Hi Hin).
Qed.

Lemma unique_key_inj {K} (key : User -> K) us x y :
  NoDup (map key us) -> In x us -> In y us -> key x = key y -> x = y.
Proof.
  induction us as [|z us IH]; intros Hnd Hx Hy E; [destruct Hx|].
  simpl in Hnd. inversion Hnd as [|? ? Hz Hnd']; subst.
  destruct Hx as [-> | Hx], Hy as [-> | Hy].
  - reflexivity.
  - exfalso. apply Hz. rewrite E. apply in_map. exact Hy.
  - exfalso. apply Hz. rewrite <- E. apply in_map. exact Hx.
  - apply IH; assumption.
Qed.

Lemma apply_patch_id p u : id (apply_patch p u) = id u.
Proof. reflexivity. Qed.

Lemma apply_patch_email p u : email (apply_patch p u) = email u.
Proof. reflexivity. Qed.

(** An update that selects the single row [u] replaces that row. *)
Lemma update_rows_single p patch w u :
  keys_unique w -> filter p (users w) = [u] ->
  update_rows p patch w = replace_row (id u) (apply_patch patch u) (users w).
Proof.
  intros [Hid _] Hf. unfold update_rows, replace_row.
  assert (Hu : In u (users w) /\ p u = true).
  { apply filter_In. rewrite Hf. left. reflexivity. }
  destruct Hu as [Hu Hpu].
  apply map_ext_in. intros x Hx. unfold by_id.
  destruct (p x) eqn:Hp.
  - assert (Hxu : In x (filter p (users w))) by (apply filter_In; auto).
    rewrite Hf in Hxu. destruct Hxu as [<- | []].
    rewrite String.eqb_refl. reflexivity.
  - destruct (String.eqb_spec (id x) (id u)) as [E | E]; [|reflexivity].
    apply (unique_key_inj id (users w) x u Hid Hx Hu) in E. subst x. congruence.
Qed.

Lemma update_rows_ids p patch w :
  map id (update_rows p patch w) = map id (users w).
Proof.
  unfold update_rows. rewrite map_map. apply map_ext. intros x.
  destruct (p x); reflexivity.
Qed.

Lemma update_rows_emails p patch w :
  map email (update_rows p patch w) = map email (users w).
Proof.
  unfold update_rows. rewrite map_map. apply map_ext. intros x.
  destruct (p x); reflexivity.
Qed.

Lemma existsb_by_id i us :
  existsb (by_id i) us = true <-> In i (map id us).
Proof.
  rewrite existsb_exists, in_map_iff. unfold by_id.
  split; intros (x & H1 & H2).
  - exists x. apply String.eqb_eq in H2. auto.
  - exists x. split; [exact H2|]. apply String.eqb_eq. exact H1.
Qed.

Lemma existsb_by_id_member u us : In u us -> existsb (by_id (id u)) us = true.
Proof. intros H. apply existsb_by_id. apply in_map. exact H. Qed.

Lemma existsb_by_id_updated p patch w u :
  In u (users w) -> existsb (by_id (id u)) (update_rows p patch w) = true.
Proof.
  intros H. apply existsb_by_id. rewrite update_rows_ids. apply in_map. exact H.
Qed.

(** Under the key constraints an email selects no row or one row. *)
Lemma filter_by_email_cases w e :
  keys_unique w ->
  (filter (by_email e) (users w) = [] /\ no_account e w) \/
  (exists u, In u (users w) /\ email u = e /\ filter (by_email e) (users w) = [u]).
Proof.
  intros Hk.
  destruct (filter (by_email e) (users w)) as [|u rest] eqn:Hf.
  - left. split; [reflexivity|]. intros u Hu E.
    assert (Hin : In u (filter (by_email e) (users w))).
    { apply filter_In. split; [exact Hu|]. unfold by_email.
      apply String.eqb_eq. exact E. }
    rewrite Hf in Hin. destruct Hin.
  - right. exists u.
    assert (Hu : In u (users w) /\ by_email e u = true).
    { apply filter_In. rewrite Hf. left. reflexivity. }
    destruct Hu as [Hu He]. unfold by_email in He. apply String.eqb_eq in He.
    split; [exact Hu|]. split; [exact He|].
    rewrite <- Hf, <- He. apply filter_by_email; assumption.
Qed.

Lemma no_account_filter w e :
  no_account e w -> filter (by_email e) (users w) = [].
Proof.
  intros Hn. destruct (filter (by_email e) (users w)) as [|u rest] eqn:Hf;
    [reflexivity|].
  assert (Hu : In u (users w) /\ by_email e u = true).
  { apply filter_In. rewrite Hf. left. reflexivity. }
  destruct Hu as [Hu He]. unfold by_email in He. apply String.eqb_eq in He.
  exfalso. exact (Hn u Hu He).
Qed.

(** ** Queries *)

Lemma select_user_single_one p w u :
  filter p (users w) = [u] -> select_user_single p w = (Data u, w).
Proof. intros H. unfold select_user_single. rewrite H. reflexivity. Qed.

(** An update that sends a balance the column holds, to the one row it
    selects, is written. *)
Lemma update_users_select_one p patch w u c :
  set_credits patch = Some (Some c) -> fits c ->
  filter p (users w) = [u] ->
  update_users_select p patch w =
  (Data [apply_patch patch u], with_users (update_rows p patch w) w).
Proof.
  intros Hc Hfit H. unfold update_users_select, patch_error, row_error.
  rewrite Hc, (fits_in_integer c Hfit), H. reflexivity.
Qed.

Lemma update_users_single_one p patch w u c :
  set_credits patch = Some (Some c) -> fits c ->
  filter p (users w) = [u] ->
  update_users_single p patch w =
  (Data (apply_patch patch u), with_users (update_rows p patch w) w).
Proof.
  intros Hc Hfit H. unfold update_users_single.
  rewrite (update_users_select_one p patch w u c Hc Hfit H). reflexivity.
Qed.

(** An update that sends a balance the column does not hold is refused,
    and nothing is written. *)
Lemma update_users_select_refused p patch w c :
  set_credits patch = Some (Some c) -> ~ fits c ->
  update_users_select p patch w = (Error (out_of_range c), w).
Proof.
  intros Hc Hfit. unfold update_users_select, patch_error.
  rewrite Hc, (not_fits_in_integer c Hfit). reflexivity.
Qed.

Lemma update_users_single_refused p patch w c :
  set_credits patch = Some (Some c) -> ~ fits c ->
  update_users_single p patch w = (Error (out_of_range c), w).
Proof.
  intros Hc Hfit. unfold update_users_single.
  rewrite (update_users_select_refused p patch w c Hc Hfit). reflexivity.
Qed.

(** An update that sends no balance is written to the rows it selects. *)
Lemma update_users_plain p patch w :
  set_credits patch = None ->
  update_users p patch w = (Data tt, with_users (update_rows p patch w) w).
Proof.
  intros Hc. unfold update_users, update_users_select, patch_error, row_error.
  rewrite Hc. destruct (filter p (users w)); reflexivity.
Qed.

Lemma insert_transaction_known uid (a : Z) k d w :
  fits a -> existsb (by_id uid) (users w) = true ->
  insert_transaction uid a k d w =
  (Data tt, with_transactions (logged uid a k d (now w) (credit_transactions w)) w).
Proof.
  intros Hfit H. unfold insert_transaction.
  rewrite (fits_in_integer a Hfit), H. reflexivity.
Qed.

(** An entry whose amount the column does not hold is refused. *)
Lemma insert_transaction_refused uid (a : Z) k d w :
  ~ fits a -> insert_transaction uid a k d w = (Error (out_of_range a), w).
Proof.
  intros Hfit. unfold insert_transaction.
  rewrite (not_fits_in_integer a Hfit). reflexivity.
Qed.

(** ** Lookups on a world without scheduled outages *)

Lemma getUserByEmail_healthy w e :
  outages w = [] -> anon_client w = true ->
  CreditUtils.getUserByEmail e w =
  (Returns (match filter (by_email e) (users w) with
            | [u] => Some u
            | _ => None
            end), w).
Proof.
  intros Ho Ha. unfold CreditUtils.getUserByEmail.
  apply try_returns. unfold bind, call, remote, select_user_single.
  simpl has_client. rewrite Ha, Ho.
  destruct (filter (by_email e) (users w)) as [|u [|v rest]]; reflexivity.
Qed.

Lemma getUserByEmail2_healthy w e :
  outages w = [] -> anon_client w = true ->
  CreditUtils2.getUserByEmail e w =
  (Returns (hd_error (filter (by_email e) (users w))), w).
Proof.
  intros Ho Ha. unfold CreditUtils2.getUserByEmail.
  apply try_returns. rewrite Ha. unfold bind, call, remote, select_users.
  simpl. rewrite Ha, Ho.
  destruct (filter (by_email e) (users w)) as [|u rest]; reflexivity.
Qed.

Lemma getUserByEmail_found w u :
  outages w = [] -> anon_client w = true ->
  keys_unique w -> In u (users w) ->
  CreditUtils.getUserByEmail (email u) w = (Returns (Some u), w).
Proof.
  intros Ho Ha Hk Hu. rewrite getUserByEmail_healthy by assumption.
  rewrite (filter_by_email w u Hk Hu). reflexivity.
Qed.

Lemma getUserByEmail2_found w u :
  outages w = [] -> anon_client w = true ->
  keys_unique w -> In u (users w) ->
  CreditUtils2.getUserByEmail (email u) w = (Returns (Some u), w).
Proof.
  intros Ho Ha Hk Hu. rewrite getUserByEmail2_healthy by assumption.
  rewrite (filter_by_email w u Hk Hu). reflexivity.
Qed.

Lemma getUserByEmail_absent w e :
  outages w = [] -> anon_client w = true -> no_account e w ->
  CreditUtils.getUserByEmail e w = (Returns None, w).
Proof.
  intros Ho Ha Hn. rewrite getUserByEmail_healthy by assumption.
  rewrite (no_account_filter w e Hn). reflexivity.
Qed.

Lemma getUserByEmail2_absent w e :
  outages w = [] -> anon_client w = true -> no_account e w ->
  CreditUtils2.getUserByEmail e w = (Returns None, w).
Proof.
  intros Ho Ha Hn. rewrite getUserByEmail2_healthy by assumption.
  rewrite (no_account_filter w e Hn). reflexivity.
Qed.

(** ** Debits *)

Lemma logCreditTransaction_healthy w uid (a : Z) k d :
  outages w = [] -> anon_client w = true -> fits a ->
  existsb (by_id uid) (users w) = true ->
  CreditUtils.logCreditTransaction uid a k d w =
  (Returns tt, with_transactions (logged uid a k d (now w) (credit_transactions w)) w).
Proof.
  intros Ho Ha Hfit Hex. unfold CreditUtils.logCreditTransaction.
  apply try_returns.
  erewrite bind_returns
    by (apply call_healthy; auto using insert_transaction_known).
  reflexivity.
Qed.

Lemma logCreditTransaction2_healthy w uid (a : Z) k d :
  outages w = [] -> admin_client w = true -> fits a ->
  existsb (by_id uid) (users w) = true ->
  CreditUtils2.logCreditTransaction uid a k d w =
  (Returns tt, with_transactions (logged uid a k d (now w) (credit_transactions w)) w).
Proof.
  intros Ho Ha Hfit Hex. unfold CreditUtils2.logCreditTransaction.
  apply try_returns. rewrite Ha. cbv beta iota delta [negb].
  erewrite bind_returns
    by (apply call_healthy; auto using insert_transaction_known).
  reflexivity.
Qed.

Lemma useCredits_success w u a :
  healthy w -> keys_unique w -> In u (users w) -> a <= credits u ->
  fits (credits u - a) -> fits (- a) ->
  CreditUtils.useCredits (email u) a w =
  (Returns (with_balance (credits u - a) (now w) u), debited u a w).
Proof.
  intros (Ho & Ha & Hd) Hk Hu Hle Hfit Hlog. unfold CreditUtils.useCredits.
  pose proof (filter_by_email w u Hk Hu) as Hf.
  apply try_returns.
  erewrite bind_returns by (apply getUserByEmail_found; assumption).
  cbv beta iota.
  destruct (Z.ltb_spec (credits u) a) as [Hlt | _]; [lia|].
  erewrite bind_returns by reflexivity.
  erewrite bind_returns
    by (apply call_healthy;
        [assumption | assumption
        | eapply update_users_single_one; [reflexivity | exact Hfit | exact Hf]]).
  cbv beta iota.
  erewrite bind_returns.
  2:{ apply logCreditTransaction_healthy; simpl; auto.
      apply existsb_by_id_updated. exact Hu. }
  unfold ret, debited. simpl.
  rewrite (update_rows_single _ _ w u Hk Hf).
  reflexivity.
Qed.

Lemma useCredits2_success w u a :
  healthy w -> keys_unique w -> In u (users w) -> a <= credits u ->
  fits (credits u - a) -> fits (- a) ->
  CreditUtils2.useCredits (email u) a w =
  (Returns (with_balance (credits u - a) (now w) u), debited u a w).
Proof.
  intros (Ho & Ha & Hd) Hk Hu Hle Hfit Hlog. unfold CreditUtils2.useCredits.
  pose proof (filter_by_id w u Hk Hu) as Hf.
  apply try_returns. rewrite Ha. cbv beta iota delta [negb].
  erewrite bind_returns by (apply getUserByEmail2_found; assumption).
  cbv beta iota.
  destruct (Z.ltb_spec (credits u) a) as [Hlt | _]; [lia|].
  rewrite Hd. cbv beta iota delta [negb].
  erewrite bind_returns by reflexivity.
  erewrite bind_returns
    by (apply call_healthy;
        [assumption | assumption
        | eapply update_users_single_one; [reflexivity | exact Hfit | exact Hf]]).
  cbv beta iota.
  erewrite bind_returns.
  2:{ apply logCreditTransaction2_healthy; simpl; auto.
      apply existsb_by_id_updated. exact Hu. }
  unfold ret, debited. simpl.
  rewrite (update_rows_single _ _ w u Hk Hf).
  reflexivity.
Qed.

Lemma useCredits_not_found w e a :
  healthy w -> no_account e w ->
  CreditUtils.useCredits e a w =
  (Throws (CreditError "User not found" "USER_NOT_FOUND"), w).
Proof.
  intros (Ho & Ha & Hd) Hn. unfold CreditUtils.useCredits.
  erewrite try_throws.
  2:{ erewrite bind_returns by (apply getUserByEmail_absent; assumption).
      reflexivity. }
  reflexivity.
Qed.

Lemma useCredits2_not_found w e a :
  healthy w -> no_account e w ->
  CreditUtils2.useCredits e a w =
  (Throws (CreditError "User not found" "USER_NOT_FOUND"), w).
Proof.
  intros (Ho & Ha & Hd) Hn. unfold CreditUtils2.useCredits.
  erewrite try_throws.
  2:{ rewrite Ha. cbv beta iota delta [negb].
      erewrite bind_returns by (apply getUserByEmail2_absent; assumption).
      reflexivity. }
  reflexivity.
Qed.

Lemma useCredits_insufficient w u a :
  healthy w -> keys_unique w -> In u (users w) -> credits u < a ->
  CreditUtils.useCredits (email u) a w =
  (Throws (CreditError "Insufficient credits" "INSUFFICIENT_CREDITS"), w).
Proof.
  intros (Ho & Ha & Hd) Hk Hu Hlt. unfold CreditUtils.useCredits.
  erewrite try_throws.
  2:{ erewrite bind_returns by (apply getUserByEmail_found; assumption).
      cbv beta iota.
      destruct (Z.ltb_spec (credits u) a) as [_ | Hle]; [|lia].
      reflexivity. }
  reflexivity.
Qed.

Lemma useCredits2_insufficient w u a :
  healthy w -> keys_unique w -> In u (users w) -> credits u < a ->
  CreditUtils2.useCredits (email u) a w =
  (Throws (CreditError "Insufficient credits" "INSUFFICIENT_CREDITS"), w).
Proof.
  intros (Ho & Ha & Hd) Hk Hu Hlt. unfold CreditUtils2.useCredits.
  erewrite try_throws.
  2:{ rewrite Ha. cbv beta iota delta [negb].
      erewrite bind_returns by (apply getUserByEmail2_found; assumption).
      cbv beta iota.
      destruct (Z.ltb_spec (credits u) a) as [_ | Hle]; [|lia].
      reflexivity. }
  reflexivity.
Qed.

(** A debit the balance covers, whose new balance the column does not
    hold, is refused by the store, and nothing is written. *)
Lemma useCredits_out_of_range w u a :
  healthy w -> keys_unique w -> In u (users w) -> a <= credits u ->
  ~ fits (credits u - a) ->
  CreditUtils.useCredits (email u) a w =
  (Throws (CreditError
             ("Failed to use credits: " ++ pg_message (out_of_range (credits u - a)))
             "USE_CREDITS_ERROR"), w).
Proof.
  intros (Ho & Ha & Hd) Hk Hu Hle Hfit. unfold CreditUtils.useCredits.
  erewrite try_throws.
  2:{ erewrite bind_returns by (apply getUserByEmail_found; assumption).
      cbv beta iota.
      destruct (Z.ltb_spec (credits u) a) as [Hlt | _]; [lia|].
      erewrite bind_returns by reflexivity.
      erewrite bind_returns
        by (apply call_healthy;
            [assumption | assumption
            | eapply update_users_single_refused; [reflexivity | exact Hfit]]).
      reflexivity. }
  reflexivity.
Qed.

Lemma useCredits2_out_of_range w u a :
  healthy w -> keys_unique w -> In u (users w) -> a <= credits u ->
  ~ fits (credits u - a) ->
  CreditUtils2.useCredits (email u) a w =
  (Throws (CreditError
             ("Failed to use credits: " ++ pg_message (out_of_range (credits u - a)))
             "USE_CREDITS_ERROR"), w).
Proof.
  intros (Ho & Ha & Hd) Hk Hu Hle Hfit. unfold CreditUtils2.useCredits.
  erewrite try_throws.
  2:{ rewrite Ha. cbv beta iota delta [negb].
      erewrite bind_returns by (apply getUserByEmail2_found; assumption).
      cbv beta iota.
      destruct (Z.ltb_spec (credits u) a) as [Hlt | _]; [lia|].
      rewrite Hd. cbv beta iota delta [negb].
      erewrite bind_returns by reflexivity.
      erewrite bind_returns
        by (apply call_healthy;
            [assumption | assumption
            | eapply update_users_single_refused; [reflexivity | exact Hfit]]).
      reflexivity. }
  reflexivity.
Qed.

(** ** Rows replaced in place *)

Lemma replace_row_ids i u' us :
  id u' = i -> map id (replace_row i u' us) = map id us.
Proof.
  intros E. unfold replace_row. rewrite map_map.
  apply map_ext. intros x. unfold by_id.
  destruct (String.eqb_spec (id x) i); congruence.
Qed.

Lemma replace_row_emails us u u' :
  NoDup (map id us) -> In u us -> email u' = email u ->
  map email (replace_row (id u) u' us) = map email us.
Proof.
  intros Hnd Hu E. unfold replace_row. rewrite map_map.
  apply map_ext_in. intros x Hx. unfold by_id.
  destruct (String.eqb_spec (id x) (id u)) as [Hid | _]; [|reflexivity].
  apply (unique_key_inj id us x u Hnd Hx Hu) in Hid. congruence.
Qed.

Lemma replace_row_In us u u' : In u us -> In u' (replace_row (id u) u' us).
Proof.
  intros Hu. unfold replace_row. apply in_map_iff. exists u.
  split; [|exact Hu]. unfold by_id. rewrite String.eqb_refl. reflexivity.
Qed.

Lemma keys_unique_replaced w w' u u' :
  keys_unique w -> In u (users w) -> id u' = id u -> email u' = email u ->
  users w' = replace_row (id u) u' (users w) ->
  keys_unique w' /\ In u' (users w').
Proof.
  intros [Hi He] Hu Eid Eem Hus. unfold keys_unique. rewrite Hus.
  rewrite (replace_row_ids (id u) u' (users w) Eid).
  rewrite (replace_row_emails (users w) u u' Hi Hu Eem).
  split; [split; assumption|]. apply replace_row_In. exact Hu.
Qed.

(** ** Balance queries on a world without scheduled outages *)

Lemma getCreditBalance_found w u :
  outages w = [] -> anon_client w = true -> keys_unique w -> In u (users w) ->
  CreditUtils.getCreditBalance (email u) w = (Returns (credits u), w).
Proof.
  intros Ho Ha Hk Hu. unfold CreditUtils.getCreditBalance.
  apply try_returns.
  erewrite bind_returns by (apply getUserByEmail_found; assumption).
  reflexivity.
Qed.

Lemma getCreditBalance2_found w u :
  outages w = [] -> anon_client w = true -> keys_unique w -> In u (users w) ->
  CreditUtils2.getCreditBalance (email u) w = (Returns (credits u), w).
Proof.
  intros Ho Ha Hk Hu. unfold CreditUtils2.getCreditBalance.
  apply try_returns.
  erewrite bind_returns by (apply getUserByEmail2_found; assumption).
  reflexivity.
Qed.

Lemma debited_keys w u a :
  keys_unique w -> In u (users w) ->
  keys_unique (debited u a w) /\
  In (with_balance (credits u - a) (now w) u) (users (debited u a w)).
Proof.
  intros Hk Hu.
  apply (keys_unique_replaced w (debited u a w) u); auto.
Qed.

(** A debit the balance covers and the columns hold goes through, in both
    revisions. *)
Lemma debits_hold w u A :
  healthy w -> keys_unique w -> In u (users w) -> A <= credits u ->
  fits (credits u - A) -> fits (- A) ->
  debits CreditUtils.useCredits CreditUtils.getCreditBalance w u A /\
  debits CreditUtils2.useCredits CreditUtils2.getCreditBalance w u A.
Proof.
  intros Hh Hk Hu Hle Hfit Hlog.
  destruct (debited_keys w u A Hk Hu) as [Hk' Hu'].
  destruct Hh as (Ho & Ha & Hd).
  split.
  - exists (with_balance (credits u - A) (now w) u), (debited u A w).
    split; [apply useCredits_success; unfold healthy; auto|].
    split; [reflexivity|]. split; [reflexivity|]. split; [reflexivity|].
    apply (getCreditBalance_found (debited u A w) _ Ho Ha Hk' Hu').
  - exists (with_balance (credits u - A) (now w) u), (debited u A w).
    split; [apply useCredits2_success; unfold healthy; auto|].
    split; [reflexivity|]. split; [reflexivity|]. split; [reflexivity|].
    apply (getCreditBalance2_found (debited u A w) _ Ho Ha Hk' Hu').
Qed.

(** ** C1 *)

(** C1, as amended.  For every account with balance B and every amount A
    with B >= A for which the new balance B - A and the logged amount - A
    are numbers the INTEGER columns of the store hold (from -2147483648 to
    2147483647), against a store that answers and keeps its key
    constraints, [useCredits(email, A)] succeeds, persists the balance
    B - A, appends exactly one usage transaction of amount - A and returns
    the updated account; this holds for both revisions of the ledger. *)
Theorem useCredits_debits :
  forall (w : World) (u : User) (A : Z),
    healthy w -> keys_unique w -> In u (users w) -> credits u >= A ->
    fits (credits u - A) -> fits (- A) ->
    debits CreditUtils.useCredits CreditUtils.getCreditBalance w u A /\
    debits CreditUtils2.useCredits CreditUtils2.getCreditBalance w u A.
Proof.
  intros w u A Hh Hk Hu Hge Hfit Hlog. apply debits_hold; try assumption. lia.
Qed.

Lemma shop_healthy : healthy shop.
Proof. repeat split. Qed.

Lemma shop_keys_unique : keys_unique shop.
Proof.
  split; simpl; repeat constructor; simpl; intuition discriminate.
Qed.

Lemma useCredits_debits_witness :
  healthy shop /\ keys_unique shop /\ In alice (users shop) /\
  credits alice >= 1 /\ fits (credits alice - 1) /\ fits (- 1) /\
  debits CreditUtils.useCredits CreditUtils.getCreditBalance shop alice 1 /\
  debits CreditUtils2.useCredits CreditUtils2.getCreditBalance shop alice 1.
Proof.
  assert (Hh : healthy shop) by (repeat split).
  assert (Hk : keys_unique shop)
    by (split; simpl; repeat constructor; simpl; intuition discriminate).
  assert (Hu : In alice (users shop)) by (simpl; auto).
  assert (Hge : credits alice >= 1) by (simpl; lia).
  assert (Hfit : fits (credits alice - 1)) by (unfold fits; simpl; lia).
  assert (Hlog : fits (- 1)) by (unfold fits; lia).
  split; [exact Hh|]. split; [exact Hk|]. split; [exact Hu|].
  split; [exact Hge|]. split; [exact Hfit|]. split; [exact Hlog|].
  exact (useCredits_debits shop alice 1 Hh Hk Hu Hge Hfit Hlog).
Defined.

(** Without the condition on the columns the statement fails.  Alice holds
    3 credits, which is not less than -2147483647; the new balance would be
    2147483650, the store refuses it, and the call throws.  And on an
    account at -2147483648 the amount -2147483653 gives the balance 5,
    which is written, while the log does not take the amount 2147483653:
    no transaction is appended. *)
Lemma useCredits_debit_refused :
  healthy shop /\ keys_unique shop /\ In alice (users shop) /\
  credits alice = 3 /\ credits alice >= -2147483647 /\
  CreditUtils.useCredits "a@x.com" (-2147483647) shop =
    (Throws (CreditError
               ("Failed to use credits: value " ++ quoted "2147483650" ++
                " is out of range for type integer")
               "USE_CREDITS_ERROR"), shop) /\
  CreditUtils2.useCredits "a@x.com" (-2147483647) shop =
    (Throws (CreditError
               ("Failed to use credits: value " ++ quoted "2147483650" ++
                " is out of range for type integer")
               "USE_CREDITS_ERROR"), shop) /\
  healthy (shop_with (-2147483648)) /\ keys_unique (shop_with (-2147483648)) /\
  map (fun u => (email u, credits u)) (users (shop_with (-2147483648))) =
    [("a@x.com", -2147483648); ("b@x.com", 0)] /\
  -2147483648 >= -2147483653 /\
  (let r := CreditUtils.useCredits "a@x.com" (-2147483653)
              (shop_with (-2147483648)) in
   (exists u', fst r = Returns u' /\ credits u' = 5) /\
   map (fun u => (email u, credits u)) (users (snd r)) =
     [("a@x.com", 5); ("b@x.com", 0)] /\
   credit_transactions (snd r) = []) /\
  (let r := CreditUtils2.useCredits "a@x.com" (-2147483653)
              (shop_with (-2147483648)) in
   (exists u', fst r = Returns u' /\ credits u' = 5) /\
   map (fun u => (email u, credits u)) (users (snd r)) =
     [("a@x.com", 5); ("b@x.com", 0)] /\
   credit_transactions (snd r) = []).
Proof.
  split; [repeat split|].
  split; [split; simpl; repeat constructor; simpl; intuition discriminate|].
  split; [simpl; auto|].
  split; [reflexivity|]. split; [simpl; lia|].
  split; [vm_compute; reflexivity|]. split; [vm_compute; reflexivity|].
  split; [repeat split|].
  split; [split; simpl; repeat constructor; simpl; intuition discriminate|].
  split; [reflexivity|]. split; [lia|].
  split; vm_compute; (split; [eexists; split; reflexivity|]);
    split; reflexivity.
Qed.

(** ** C2 *)

Lemma fails_closed_of (run : string -> Z -> M User) w e A :
  keys_unique w ->
  (no_account e w ->
   run e A w = (Throws (CreditError "User not found" "USER_NOT_FOUND"), w)) ->
  (forall u, In u (users w) -> credits u < A ->
   run (email u) A w =
   (Throws (CreditError "Insufficient credits" "INSUFFICIENT_CREDITS"), w)) ->
  (forall u, In u (users w) -> A <= credits u -> ~ fits (credits u - A) ->
   exists message,
     run (email u) A w = (Throws (CreditError message "USE_CREDITS_ERROR"), w)) ->
  (forall u, In u (users w) -> A <= credits u -> fits (credits u - A) ->
   exists u' w', run (email u) A w = (Returns u', w')) ->
  fails_closed run w e A.
Proof.
  intros Hk Hnone Hlow Hout Hok. unfold fails_closed.
  destruct (filter_by_email_cases w e Hk) as [[_ Hn] | (u & Hu & He & _)].
  - exists (Throws (CreditError "User not found" "USER_NOT_FOUND")), w.
    split; [apply Hnone; exact Hn|].
    split; [split; [intros _; left; exact Hn | intros _; eexists; reflexivity]|].
    split; [reflexivity|].
    split; [intros u Hu He _; exfalso; exact (Hn u Hu He)|].
    split; [intros u Hu He _ _; exfalso; exact (Hn u Hu He)|].
    intros _. split; reflexivity.
  - subst e.
    assert (Hsame : forall v, In v (users w) -> email v = email u -> v = u).
    { intros v Hv Hev. destruct Hk as [_ Hem].
      exact (unique_key_inj email (users w) v u Hem Hv Hu Hev). }
    destruct (Z.lt_ge_cases (credits u) A) as [Hlt | Hge].
    + exists (Throws (CreditError "Insufficient credits" "INSUFFICIENT_CREDITS")), w.
      split; [apply Hlow; assumption|].
      split.
      { split; [|intros _; eexists; reflexivity].
        intros _. right. exists u. auto. }
      split; [intros Hn; exfalso; exact (Hn u Hu eq_refl)|].
      split; [reflexivity|].
      split.
      { intros v Hv Hev Hle _. apply Hsame in Hev; [|exact Hv]. subst v. lia. }
      intros _. split; reflexivity.
    + destruct (fits_dec (credits u - A)) as [Hfit | Hfit].
      * destruct (Hok u Hu Hge Hfit) as (u' & w' & Hrun).
        exists (Returns u'), w'.
        split; [exact Hrun|].
        split.
        { split; [intros [err Herr]; discriminate|].
          intros [Hn | (v & Hv & Hev & Hbad)].
          - exfalso. exact (Hn u Hu eq_refl).
          - apply Hsame in Hev; [|exact Hv]. subst v.
            destruct Hbad as [Hlt | Hnot]; [lia | contradiction]. }
        split; [intros Hn; exfalso; exact (Hn u Hu eq_refl)|].
        split.
        { intros v Hv Hev Hlt. apply Hsame in Hev; [|exact Hv]. subst v. lia. }
        split.
        { intros v Hv Hev _ Hnot. apply Hsame in Hev; [|exact Hv]. subst v.
          contradiction. }
        intros [err Herr]. discriminate.
      * destruct (Hout u Hu Hge Hfit) as (message & Hrun).
        exists (Throws (CreditError message "USE_CREDITS_ERROR")), w.
        split; [exact Hrun|].
        split.
        { split; [|intros _; eexists; reflexivity].
          intros _. right. exists u. auto. }
        split; [intros Hn; exfalso; exact (Hn u Hu eq_refl)|].
        split.
        { intros v Hv Hev Hlt. apply Hsame in Hev; [|exact Hv]. subst v. lia. }
        split; [intros v Hv Hev _ _; exists message; reflexivity|].
        intros _. split; reflexivity.
Qed.

(** A debit the balance covers and whose new balance the column holds
    returns, whether the log takes its entry or not. *)
Lemma useCredits_returns w u a :
  healthy w -> keys_unique w -> In u (users w) -> a <= credits u ->
  fits (credits u - a) ->
  (exists u' w', CreditUtils.useCredits (email u) a w = (Returns u', w')) /\
  (exists u' w', CreditUtils2.useCredits (email u) a w = (Returns u', w')).
Proof.
  intros Hh Hk Hu Hle Hfit.
  destruct (fits_dec (- a)) as [Hlog | Hlog].
  { split; eexists _, _;
      [apply useCredits_success | apply useCredits2_success]; assumption. }
  destruct Hh as (Ho & Ha & Hd).
  pose proof (filter_by_email w u Hk Hu) as Hfe.
  pose proof (filter_by_id w u Hk Hu) as Hfi.
  split.
  - unfold CreditUtils.useCredits. eexists _, _.
    apply try_returns.
    erewrite bind_returns by (apply getUserByEmail_found; assumption).
    cbv beta iota.
    destruct (Z.ltb_spec (credits u) a) as [Hlt | _]; [lia|].
    erewrite bind_returns by reflexivity.
    erewrite bind_returns
      by (apply call_healthy;
          [assumption | assumption
          | eapply update_users_single_one; [reflexivity | exact Hfit | exact Hfe]]).
    cbv beta iota.
    erewrite bind_returns.
    2:{ unfold CreditUtils.logCreditTransaction. apply try_returns.
        erewrite bind_returns
          by (apply call_healthy;
              [assumption | assumption
              | apply insert_transaction_refused; exact Hlog]).
        reflexivity. }
    reflexivity.
  - unfold CreditUtils2.useCredits. eexists _, _.
    apply try_returns. rewrite Ha. cbv beta iota delta [negb].
    erewrite bind_returns by (apply getUserByEmail2_found; assumption).
    cbv beta iota.
    destruct (Z.ltb_spec (credits u) a) as [Hlt | _]; [lia|].
    rewrite Hd. cbv beta iota delta [negb].
    erewrite bind_returns by reflexivity.
    erewrite bind_returns
      by (apply call_healthy;
          [assumption | assumption
          | eapply update_users_single_one; [reflexivity | exact Hfit | exact Hfi]]).
    cbv beta iota.
    erewrite bind_returns.
    2:{ unfold CreditUtils2.logCreditTransaction. apply try_returns.
        cbn [admin_client with_users]. rewrite Hd. cbv beta iota delta [negb].
        erewrite bind_returns
          by (apply call_healthy;
              [assumption | assumption
              | apply insert_transaction_refused; exact Hlog]).
        reflexivity. }
    reflexivity.
Qed.

(** C2, as amended.  Against a healthy store, [useCredits(email, A)] fails
    if and only if no account carries the email (USER_NOT_FOUND), or the
    balance B satisfies B < A (INSUFFICIENT_CREDITS), or the new balance
    B - A is not a number the INTEGER column holds, so that the store
    refuses the update (USE_CREDITS_ERROR); a failing call changes no
    balance, creates no account and appends no transaction.  Both
    revisions of the ledger. *)
Theorem useCredits_fails_closed :
  forall (w : World) (e : string) (A : Z),
    healthy w -> keys_unique w ->
    fails_closed CreditUtils.useCredits w e A /\
    fails_closed CreditUtils2.useCredits w e A.
Proof.
  intros w e A Hh Hk. split; apply fails_closed_of; try assumption.
  - intros Hn. apply useCredits_not_found; assumption.
  - intros u Hu Hlt. apply useCredits_insufficient; assumption.
  - intros u Hu Hle Hfit. eexists. apply useCredits_out_of_range; assumption.
  - intros u Hu Hle Hfit.
    exact (proj1 (useCredits_returns w u A Hh Hk Hu Hle Hfit)).
  - intros Hn. apply useCredits2_not_found; assumption.
  - intros u Hu Hlt. apply useCredits2_insufficient; assumption.
  - intros u Hu Hle Hfit. eexists. apply useCredits2_out_of_range; assumption.
  - intros u Hu Hle Hfit.
    exact (proj2 (useCredits_returns w u A Hh Hk Hu Hle Hfit)).
Qed.

Lemma useCredits_fails_closed_witness :
  healthy shop /\ keys_unique shop /\
  fails_closed CreditUtils.useCredits shop "a@x.com" 10 /\
  fails_closed CreditUtils2.useCredits shop "a@x.com" 10.
Proof.
  assert (Hh : healthy shop) by (repeat split).
  assert (Hk : keys_unique shop)
    by (split; simpl; repeat constructor; simpl; intuition discriminate).
  split; [exact Hh|]. split; [exact Hk|].
  exact (useCredits_fails_closed shop "a@x.com" 10 Hh Hk).
Defined.

(** With the two causes of the claim alone the equivalence fails: alice
    has an account, and her 3 credits are not less than -2147483647, yet
    the call throws, because the store does not take the new balance
    2147483650. *)
Lemma useCredits_fails_for_a_third_reason :
  healthy shop /\ keys_unique shop /\
  ~ no_account "a@x.com" shop /\
  (forall u, In u (users shop) -> email u = "a@x.com" ->
   ~ credits u < -2147483647) /\
  (exists message,
     CreditUtils.useCredits "a@x.com" (-2147483647) shop =
       (Throws (CreditError message "USE_CREDITS_ERROR"), shop)) /\
  (exists message,
     CreditUtils2.useCredits "a@x.com" (-2147483647) shop =
       (Throws (CreditError message "USE_CREDITS_ERROR"), shop)).
Proof.
  split; [repeat split|].
  split; [split; simpl; repeat constructor; simpl; intuition discriminate|].
  split; [intros Hn; apply (Hn alice); simpl; auto|].
  split.
  { intros u [<- | [<- | []]] He; simpl in *; [lia | discriminate]. }
  split; eexists; vm_compute; reflexivity.
Qed.

(** ** Lookups on any world *)

(** The lookup of the first revision throws when the store does not serve
    it, and otherwise returns the row the email selects, if it selects
    exactly one; it writes nothing either way. *)
Lemma getUserByEmail_outcome w e :
  exists w', same_ledger w w' /\
    ((served w = false /\ exists err, CreditUtils.getUserByEmail e w = (Throws err, w')) \/
     (served w = true /\
      CreditUtils.getUserByEmail e w =
      (Returns (match filter (by_email e) (users w) with
                | [u] => Some u
                | _ => None
                end), w'))).
Proof.
  unfold CreditUtils.getUserByEmail, try_catch, bind, call, remote, served,
    select_user_single, has_client.
  destruct (anon_client w) eqn:Ha.
  - destruct (outages w) as [|[[|m|]|] rest] eqn:Ho.
    + exists w. split; [split; reflexivity|]. right. split; [reflexivity|].
      destruct (filter (by_email e) (users w)) as [|u [|v l]]; reflexivity.
    + exists (with_outages rest w). split; [split; reflexivity|].
      left. split; [reflexivity|]. eexists. reflexivity.
    + exists (with_outages rest w). split; [split; reflexivity|].
      left. split; [reflexivity|]. eexists. reflexivity.
    + exists (with_outages rest w). split; [split; reflexivity|].
      left. split; [reflexivity|]. simpl.
      destruct (filter (by_email e) (users w)) as [|u [|v l]];
        eexists; reflexivity.
    + exists (with_outages rest w). split; [split; reflexivity|].
      right. split; [reflexivity|]. simpl.
      destruct (filter (by_email e) (users w)) as [|u [|v l]]; reflexivity.
  - exists w. split; [split; reflexivity|]. left. split; [reflexivity|].
    eexists. reflexivity.
Qed.

(** The lookup of the later revision likewise, returning the first row the
    email selects. *)
Lemma getUserByEmail2_outcome w e :
  exists w', same_ledger w w' /\
    ((served w = false /\ exists err, CreditUtils2.getUserByEmail e w = (Throws err, w')) \/
     (served w = true /\
      CreditUtils2.getUserByEmail e w =
      (Returns (hd_error (filter (by_email e) (users w))), w'))).
Proof.
  unfold CreditUtils2.getUserByEmail, try_catch, bind, call, remote, served,
    select_users, has_client.
  destruct (anon_client w) eqn:Ha; simpl negb; cbv iota.
  - destruct (outages w) as [|[[|m|]|] rest] eqn:Ho.
    + exists w. split; [split; reflexivity|]. right. split; [reflexivity|].
      destruct (filter (by_email e) (users w)) as [|u l]; reflexivity.
    + exists (with_outages rest w). split; [split; reflexivity|].
      left. split; [reflexivity|]. eexists. reflexivity.
    + exists (with_outages rest w). split; [split; reflexivity|].
      left. split; [reflexivity|]. eexists. reflexivity.
    + exists (with_outages rest w). split; [split; reflexivity|].
      left. split; [reflexivity|]. eexists. reflexivity.
    + exists (with_outages rest w). split; [split; reflexivity|].
      right. split; [reflexivity|]. simpl.
      destruct (filter (by_email e) (users w)) as [|u l]; reflexivity.
  - exists w. split; [split; reflexivity|]. left. split; [reflexivity|].
    eexists. reflexivity.
Qed.

(** An advisory read built on a lookup: a catch clause that answers
    [on_error] around a body that answers from the row found. *)
Lemma advisory_of {A} (lookup : string -> M (option User))
    (pick : list User -> option User)
    (on_error on_absent : A) (on_found : User -> A) w e :
  (exists w', same_ledger w w' /\
     ((served w = false /\ exists err, lookup e w = (Throws err, w')) \/
      (served w = true /\
       lookup e w = (Returns (pick (filter (by_email e) (users w))), w')))) ->
  pick [] = None -> (forall u, pick [u] = Some u) ->
  advisory
    (fun e =>
       try_catch
         (user <- lookup e ;;
          match user with
          | Some user => ret (on_found user)
          | None => ret on_absent
          end)
         (fun _ => ret on_error))
    on_error on_absent on_found w e.
Proof.
  intros (w' & Hsame & Hcase) Hnil Hone. unfold advisory.
  destruct Hcase as [(Hs & err & Hrun) | (Hs & Hrun)].
  - exists on_error, w'. unfold try_catch, bind. rewrite Hrun.
    split; [reflexivity|]. split; [exact Hsame|].
    split; [reflexivity|]. split; intros; congruence.
  - exists (match pick (filter (by_email e) (users w)) with
            | Some user => on_found user
            | None => on_absent
            end), w'.
    unfold try_catch, bind. rewrite Hrun.
    split; [destruct (pick _); reflexivity|]. split; [exact Hsame|].
    split; [intros; congruence|].
    split.
    + intros _ Hn. rewrite (no_account_filter w e Hn), Hnil. reflexivity.
    + intros _ Hk u Hu He. subst e.
      rewrite (filter_by_email w u Hk Hu), Hone. reflexivity.
Qed.

(** ** C3 *)

(** C3. For every email and required amount, on every world, whatever the
    store does, [hasEnoughCredits] returns and does not raise: it answers
    (balance >= required) for the account carrying the email, [false] when
    the store answers and no account carries the email, and [true] when the
    store errors or cannot be reached.  Both revisions of the ledger. *)
Theorem hasEnoughCredits_fails_open :
  forall (w : World) (e : string) (required : Z),
    advisory (fun e => CreditUtils.hasEnoughCredits e required)
      true false (fun u => credits u >=? required) w e /\
    advisory (fun e => CreditUtils2.hasEnoughCredits e required)
      true false (fun u => credits u >=? required) w e.
Proof.
  intros w e required. split.
  - exact (advisory_of CreditUtils.getUserByEmail
             (fun l => match l with [u] => Some u | _ => None end)
             true false (fun u => credits u >=? required) w e
             (getUserByEmail_outcome w e) eq_refl (fun u => eq_refl)).
  - exact (advisory_of CreditUtils2.getUserByEmail (@hd_error User)
             true false (fun u => credits u >=? required) w e
             (getUserByEmail2_outcome w e) eq_refl (fun u => eq_refl)).
Qed.

Example hasEnoughCredits_ghost_healthy :
  fst (CreditUtils.hasEnoughCredits "ghost@x.com" 1 shop) = Returns false /\
  fst (CreditUtils2.hasEnoughCredits "ghost@x.com" 1 shop) = Returns false.
Proof. split; reflexivity. Qed.

Example hasEnoughCredits_ghost_outage :
  fst (CreditUtils.hasEnoughCredits "ghost@x.com" 1 shop_down) = Returns true /\
  fst (CreditUtils2.hasEnoughCredits "ghost@x.com" 1 shop_down) = Returns true.
Proof. split; reflexivity. Qed.

Example hasEnoughCredits_alice :
  fst (CreditUtils.hasEnoughCredits "a@x.com" 3 shop) = Returns true /\
  fst (CreditUtils2.hasEnoughCredits "a@x.com" 4 shop) = Returns false.
Proof. split; reflexivity. Qed.

(** ** C4 *)

(** C4. For every email, on every world, whatever the store does,
    [getCreditBalance] returns and does not throw: it answers the balance
    of the account carrying the email, and 0 both when no account carries
    it and when the store errors or cannot be reached.  Both revisions of
    the ledger. *)
Theorem getCreditBalance_fails_safe :
  forall (w : World) (e : string),
    advisory CreditUtils.getCreditBalance 0 0 credits w e /\
    advisory CreditUtils2.getCreditBalance 0 0 credits w e.
Proof.
  intros w e. split.
  - exact (advisory_of CreditUtils.getUserByEmail
             (fun l => match l with [u] => Some u | _ => None end)
             0 0 credits w e
             (getUserByEmail_outcome w e) eq_refl (fun u => eq_refl)).
  - exact (advisory_of CreditUtils2.getUserByEmail (@hd_error User)
             0 0 credits w e
             (getUserByEmail2_outcome w e) eq_refl (fun u => eq_refl)).
Qed.

Example getCreditBalance_outage :
  fst (CreditUtils.getCreditBalance "a@x.com" shop_down) = Returns 0 /\
  fst (CreditUtils2.getCreditBalance "a@x.com" shop_down) = Returns 0.
Proof. split; reflexivity. Qed.

Example getCreditBalance_alice :
  fst (CreditUtils.getCreditBalance "a@x.com" shop) = Returns 3 /\
  fst (CreditUtils2.getCreditBalance "ghost@x.com" shop) = Returns 0.
Proof. split; reflexivity. Qed.

(** ** Grants *)

Lemma topped_up_patch n p x t u :
  apply_patch
    {| set_credits := Some (Some (credits u + n));
       set_subscription_type := p;
       set_subscription_tier := None;
       set_subscription_expires_at := x;
       set_updated_at := Some t |} u = topped_up n p x t u.
Proof. destruct p, x; reflexivity. Qed.

(** The expiry a grant computes is the one it writes. *)
Lemma expiry_for_run w p x :
  expiry_written w p x -> expiry_for p w = (Returns x, w).
Proof.
  unfold expiry_written, expiry_for. destruct p as [q|].
  - intros (e & -> & He).
    erewrite bind_returns by reflexivity.
    erewrite bind_returns by reflexivity.
    cbn [now]. rewrite He. reflexivity.
  - intros ->. reflexivity.
Qed.

(** On an ordinary host a grant with a period finds an expiry, which lies
    one period on. *)
Lemma expiry_on_ordinary_host w p :
  ordinary_host w ->
  exists x,
    expiry_written w p x /\
    match p with
    | Some q => exists e, x = Some e /\ period_on q (LocalTZA w) (now w) e
    | None => x = None
    end.
Proof.
  intros [Hclock Hzone]. destruct p as [q|].
  - destruct (expiration_period_on q (LocalTZA w) (now w) Hclock Hzone)
      as (e & He & Hp).
    exists (Some e). split.
    + exists e. split; [reflexivity | exact He].
    + exists e. split; [reflexivity | exact Hp].
  - exists None. split; reflexivity.
Qed.

Lemma addCredits_success w u (n : Z) p auth x :
  healthy w -> keys_unique w -> In u (users w) ->
  fits (credits u + n) -> fits n -> expiry_written w p x ->
  CreditUtils.addCredits (email u) n p auth w =
  (Returns (topped_up n p x (now w) u), granted u n p x w).
Proof.
  intros (Ho & Ha & Hd) Hk Hu Hfit Hlog Hx. unfold CreditUtils.addCredits.
  pose proof (filter_by_id w u Hk Hu) as Hf.
  apply try_returns.
  erewrite bind_returns by (apply getUserByEmail_found; assumption).
  cbv beta iota.
  erewrite bind_returns by reflexivity.
  erewrite bind_returns by reflexivity.
  erewrite bind_returns by (apply expiry_for_run; exact Hx).
  erewrite bind_returns
    by (apply call_healthy;
        [assumption | assumption
        | eapply update_users_single_one; [reflexivity | exact Hfit | exact Hf]]).
  cbv beta iota.
  erewrite bind_returns.
  2:{ apply logCreditTransaction_healthy; simpl; auto.
      apply existsb_by_id_updated. exact Hu. }
  unfold ret, granted. simpl.
  rewrite (update_rows_single _ _ w u Hk Hf), topped_up_patch.
  reflexivity.
Qed.

Lemma addCredits2_success w u (n : Z) p auth x :
  healthy w -> keys_unique w -> In u (users w) ->
  fits (credits u + n) -> fits n -> expiry_written w p x ->
  CreditUtils2.addCredits (email u) n p auth w =
  (Returns (topped_up n p x (now w) u), granted u n p x w).
Proof.
  intros (Ho & Ha & Hd) Hk Hu Hfit Hlog Hx. unfold CreditUtils2.addCredits.
  pose proof (filter_by_id w u Hk Hu) as Hf.
  apply try_returns.
  erewrite bind_returns by (apply getUserByEmail2_found; assumption).
  cbv beta iota.
  erewrite bind_returns by reflexivity.
  erewrite bind_returns by reflexivity.
  erewrite bind_returns by (apply expiry_for_run; exact Hx).
  rewrite Ha. cbv beta iota delta [negb].
  erewrite bind_returns
    by (apply call_healthy;
        [assumption | assumption | apply select_user_single_one; exact Hf]).
  cbv beta iota. rewrite Hd. cbv beta iota delta [negb].
  erewrite bind_returns
    by (apply call_healthy;
        [assumption | assumption
        | eapply update_users_select_one; [reflexivity | exact Hfit | exact Hf]]).
  cbv beta iota.
  erewrite bind_returns.
  2:{ apply logCreditTransaction2_healthy; simpl; auto.
      apply existsb_by_id_updated. exact Hu. }
  unfold ret, granted. simpl.
  rewrite (update_rows_single _ _ w u Hk Hf), topped_up_patch.
  reflexivity.
Qed.

Lemma granted_keys w u n p x :
  keys_unique w -> In u (users w) ->
  keys_unique (granted u n p x w) /\
  In (topped_up n p x (now w) u) (users (granted u n p x w)).
Proof.
  intros Hk Hu.
  apply (keys_unique_replaced w (granted u n p x w) u); auto.
Qed.

Lemma grants_of
    (run : string -> Num -> option SubscriptionType -> option string -> M User)
    (balance : string -> M Z) w u (N : Z) p auth x :
  keys_unique w -> In u (users w) ->
  match p with
  | Some q => exists e, x = Some e /\ period_on q (LocalTZA w) (now w) e
  | None => x = None
  end ->
  run (email u) N p auth w =
    (Returns (topped_up N p x (now w) u), granted u N p x w) ->
  balance (email u) (granted u N p x w) =
    (Returns (credits u + N), granted u N p x w) ->
  grants run balance w u N p auth.
Proof.
  intros Hk Hu Hx Hrun Hbal.
  exists (topped_up N p x (now w) u), (granted u N p x w).
  split; [exact Hrun|]. split; [reflexivity|]. split; [reflexivity|].
  split; [reflexivity|]. split; [reflexivity|]. split; [reflexivity|].
  split; [exact Hbal|].
  split; [|reflexivity].
  destruct p as [q|].
  - destruct Hx as (e & -> & Hp). split; [reflexivity|].
    exists e. split; [reflexivity | exact Hp].
  - subst x. split; reflexivity.
Qed.

(** ** C5 *)

(** C5, as amended.  For every existing account with prior balance B and
    every amount N for which B + N and N are numbers the INTEGER columns
    of the store hold (from -2147483648 to 2147483647), against a store
    that answers and keeps its key constraints, on a host whose clock and
    time zone are ordinary, [addCredits(email, N, subscriptionPeriod?)]
    persists the balance B + N and appends one purchase transaction of
    amount + N; with a period it also sets the subscription period and an
    expiry of now plus one calendar month (monthly) or one calendar year
    (yearly) by the local clock of the host: the same local time of day,
    as many days on as the month has in which the local clock stands (so
    that the day of the month is the same in the next month, or runs over
    into the month after), or 365 days on, 366 when a 29 February lies in
    between; without a period the subscription fields stay as they were.
    Both revisions of the ledger. *)
Theorem addCredits_grants :
  forall (w : World) (u : User) (N : Z) (p : option SubscriptionType)
         (authUserId : option string),
    healthy w -> keys_unique w -> ordinary_host w -> In u (users w) ->
    fits (credits u + N) -> fits N ->
    grants CreditUtils.addCredits CreditUtils.getCreditBalance w u N p authUserId /\
    grants CreditUtils2.addCredits CreditUtils2.getCreditBalance w u N p authUserId.
Proof.
  intros w u N p auth Hh Hk Hhost Hu Hfit Hlog.
  destruct (expiry_on_ordinary_host w p Hhost) as (x & Hx & Hperiod).
  destruct (granted_keys w u N p x Hk Hu) as [Hk' Hu'].
  pose proof Hh as (Ho & Ha & Hd).
  split; apply (grants_of _ _ w u N p auth x); try assumption.
  - apply addCredits_success; assumption.
  - apply (getCreditBalance_found (granted u N p x w) _ Ho Ha Hk' Hu').
  - apply addCredits2_success; assumption.
  - apply (getCreditBalance2_found (granted u N p x w) _ Ho Ha Hk' Hu').
Qed.

Lemma shop_ordinary_host : ordinary_host shop.
Proof. split; [simpl; lia | intros t b; unfold shop, utc; simpl; lia]. Qed.

Lemma addCredits_grants_witness :
  healthy shop /\ keys_unique shop /\ ordinary_host shop /\
  In alice (users shop) /\ fits (credits alice + 5) /\ fits 5 /\
  grants CreditUtils.addCredits CreditUtils.getCreditBalance
    shop alice 5 (Some monthly) None /\
  grants CreditUtils2.addCredits CreditUtils2.getCreditBalance
    shop alice 5 (Some monthly) None.
Proof.
  assert (Hh : healthy shop) by (repeat split).
  assert (Hk : keys_unique shop)
    by (split; simpl; repeat constructor; simpl; intuition discriminate).
  assert (Hhost : ordinary_host shop)
    by (split; [simpl; lia | intros t b; unfold shop, utc; simpl; lia]).
  assert (Hu : In alice (users shop)) by (simpl; auto).
  assert (Hfit : fits (credits alice + 5)) by (unfold fits; simpl; lia).
  assert (Hlog : fits 5) by (unfold fits; lia).
  split; [exact Hh|]. split; [exact Hk|]. split; [exact Hhost|].
  split; [exact Hu|]. split; [exact Hfit|]. split; [exact Hlog|].
  exact (addCredits_grants shop alice 5 (Some monthly) None
           Hh Hk Hhost Hu Hfit Hlog).
Defined.

(** Without the condition on the columns the statement fails.  Alice holds
    3 credits; a grant of 2147483647 would raise the balance to
    2147483650, the store refuses the update, and the call throws with
    nothing written.  And on an account at -2 a grant of 2147483649 raises
    the balance to 2147483647, while the log does not take the amount: no
    transaction is appended.  And on a host whose clock stands at the last
    time a Date holds, a grant with a period finds no date for the expiry
    and throws. *)
Lemma addCredits_grant_refused :
  healthy shop /\ keys_unique shop /\ ordinary_host shop /\
  In alice (users shop) /\ credits alice = 3 /\
  CreditUtils.addCredits "a@x.com" 2147483647 None None shop =
    (Throws (CreditError
               ("Failed to add credits: value " ++ quoted "2147483650" ++
                " is out of range for type integer")
               "ADD_CREDITS_ERROR"), shop) /\
  CreditUtils2.addCredits "a@x.com" 2147483647 None None shop =
    (Throws (CreditError
               ("Failed to add credits: value " ++ quoted "2147483650" ++
                " is out of range for type integer")
               "ADD_CREDITS_ERROR"), shop) /\
  healthy (shop_with (-2)) /\ keys_unique (shop_with (-2)) /\
  map (fun u => (email u, credits u)) (users (shop_with (-2))) =
    [("a@x.com", -2); ("b@x.com", 0)] /\
  (let r := CreditUtils.addCredits "a@x.com" 2147483649 None None
              (shop_with (-2)) in
   (exists u', fst r = Returns u' /\ credits u' = 2147483647) /\
   map (fun u => (email u, credits u)) (users (snd r)) =
     [("a@x.com", 2147483647); ("b@x.com", 0)] /\
   credit_transactions (snd r) = []) /\
  (let r := CreditUtils2.addCredits "a@x.com" 2147483649 None None
              (shop_with (-2)) in
   (exists u', fst r = Returns u' /\ credits u' = 2147483647) /\
   map (fun u => (email u, credits u)) (users (snd r)) =
     [("a@x.com", 2147483647); ("b@x.com", 0)] /\
   credit_transactions (snd r) = []) /\
  CreditUtils.addCredits "a@x.com" 5 (Some monthly) None
    (at_time 8640000000000000 shop) =
    (Throws (CreditError "Unknown error adding credits" "UNKNOWN_ERROR"),
     at_time 8640000000000000 shop) /\
  CreditUtils2.addCredits "a@x.com" 5 (Some monthly) None
    (at_time 8640000000000000 shop) =
    (Throws (CreditError "Unknown error adding credits" "UNKNOWN_ERROR"),
     at_time 8640000000000000 shop).
Proof.
  split; [repeat split|].
  split; [split; simpl; repeat constructor; simpl; intuition discriminate|].
  split; [exact shop_ordinary_host|].
  split; [simpl; auto|]. split; [reflexivity|].
  split; [vm_compute; reflexivity|]. split; [vm_compute; reflexivity|].
  split; [repeat split|].
  split; [split; simpl; repeat constructor; simpl; intuition discriminate|].
  split; [reflexivity|].
  split; [vm_compute; (split; [eexists; split; reflexivity|]);
          split; reflexivity|].
  split; [vm_compute; (split; [eexists; split; reflexivity|]);
          split; reflexivity|].
  split; vm_compute; reflexivity.
Qed.

(** The calendar of the expiry on the sample ledger: a month from
    2026-11-03T12:00:00Z is 2026-12-03T12:00:00Z, and a year from it
    2027-11-03T12:00:00Z. *)
Example addCredits_expiry_on_the_shop :
  option_map subscription_expires_at
    (hd_error (users (snd (CreditUtils.addCredits "a@x.com" 5 (Some monthly)
                             None shop)))) =
    Some (Some 1796299200000) /\
  option_map subscription_expires_at
    (hd_error (users (snd (CreditUtils2.addCredits "a@x.com" 60 (Some yearly)
                             None shop)))) =
    Some (Some 1825243200000).
Proof. split; vm_compute; reflexivity. Qed.

(** A month from 2027-01-31T12:00:00Z is 2027-03-03T12:00:00Z, since
    February has 28 days in 2027, and a year from 2028-02-29T12:00:00Z is
    2029-03-01T12:00:00Z. *)
Example addCredits_expiry_at_the_end_of_a_month :
  option_map subscription_expires_at
    (hd_error (users (snd (CreditUtils.addCredits "a@x.com" 5 (Some monthly)
                             None (at_time 1801396800000 shop))))) =
    Some (Some 1804075200000) /\
  option_map subscription_expires_at
    (hd_error (users (snd (CreditUtils.addCredits "a@x.com" 60 (Some yearly)
                             None (at_time 1835438400000 shop))))) =
    Some (Some 1867060800000) /\
  in_month 1801396800000 2027 1 /\ days_in_month 2027 1 = 31 /\
  in_month 1835438400000 2028 2 /\ days_in_year_from 2028 2 = 366.
Proof.
  split; [vm_compute; reflexivity|]. split; [vm_compute; reflexivity|].
  unfold in_month. vm_compute. intuition discriminate.
Qed.

(** ** C10 *)

(** C10, as amended.  [useCredits] does not check that the amount is
    positive: for every existing account with balance B and every negative
    amount A with B >= A for which B - A and - A are numbers the INTEGER
    columns of the store hold, [useCredits(email, A)] succeeds and
    persists B - A, which is greater than B, and logs a usage transaction
    whose amount - A is positive. *)
Theorem useCredits_negative_amount :
  forall (w : World) (u : User) (A : Z),
    healthy w -> keys_unique w -> In u (users w) ->
    A < 0 -> A <= credits u -> fits (credits u - A) -> fits (- A) ->
    (debits CreditUtils.useCredits CreditUtils.getCreditBalance w u A /\
     debits CreditUtils2.useCredits CreditUtils2.getCreditBalance w u A) /\
    credits u - A > credits u /\ - A > 0.
Proof.
  intros w u A Hh Hk Hu Hneg Hcover Hfit Hlog.
  split; [apply debits_hold; assumption | lia].
Qed.

Lemma useCredits_negative_amount_witness :
  healthy shop /\ keys_unique shop /\ In alice (users shop) /\ -2 < 0 /\
  -2 <= credits alice /\ fits (credits alice - -2) /\ fits (- -2) /\
  (debits CreditUtils.useCredits CreditUtils.getCreditBalance shop alice (-2) /\
   debits CreditUtils2.useCredits CreditUtils2.getCreditBalance shop alice (-2)) /\
  credits alice - -2 > credits alice /\ - -2 > 0.
Proof.
  assert (Hh : healthy shop) by (repeat split).
  assert (Hk : keys_unique shop)
    by (split; simpl; repeat constructor; simpl; intuition discriminate).
  assert (Hu : In alice (users shop)) by (simpl; auto).
  assert (Hneg : -2 < 0) by lia.
  assert (Hc : -2 <= credits alice) by (simpl; lia).
  assert (Hfit : fits (credits alice - -2)) by (unfold fits; simpl; lia).
  assert (Hlog : fits (- -2)) by (unfold fits; lia).
  split; [exact Hh|]. split; [exact Hk|]. split; [exact Hu|].
  split; [exact Hneg|]. split; [exact Hc|].
  split; [exact Hfit|]. split; [exact Hlog|].
  exact (useCredits_negative_amount shop alice (-2) Hh Hk Hu Hneg Hc Hfit Hlog).
Defined.

(** Without the conditions the statement fails.  On an overdrawn account
    (after [addCredits('a@x.com', -5)] the balance is -2) the negative
    amount -1 is refused, since -2 < -1.  And on the account with 3
    credits the negative amount -2147483647 passes the check of the
    balance, but the store does not take the new balance 2147483650, and
    the call throws. *)
Lemma useCredits_negative_amount_refused :
  healthy overdrawn /\ keys_unique overdrawn /\
  map (fun u => (email u, credits u)) (users overdrawn) =
    [("a@x.com", -2); ("b@x.com", 0)] /\
  -1 < 0 /\
  CreditUtils.useCredits "a@x.com" (-1) overdrawn =
    (Throws (CreditError "Insufficient credits" "INSUFFICIENT_CREDITS"), overdrawn) /\
  CreditUtils2.useCredits "a@x.com" (-1) overdrawn =
    (Throws (CreditError "Insufficient credits" "INSUFFICIENT_CREDITS"), overdrawn) /\
  healthy shop /\ keys_unique shop /\
  map (fun u => (email u, credits u)) (users shop) =
    [("a@x.com", 3); ("b@x.com", 0)] /\
  -2147483647 < 0 /\
  CreditUtils.useCredits "a@x.com" (-2147483647) shop =
    (Throws (CreditError
               ("Failed to use credits: value " ++ quoted "2147483650" ++
                " is out of range for type integer")
               "USE_CREDITS_ERROR"), shop) /\
  CreditUtils2.useCredits "a@x.com" (-2147483647) shop =
    (Throws (CreditError
               ("Failed to use credits: value " ++ quoted "2147483650" ++
                " is out of range for type integer")
               "USE_CREDITS_ERROR"), shop).
Proof.
  split; [repeat split|].
  split; [split; vm_compute; repeat constructor; simpl; intuition discriminate|].
  split; [reflexivity|]. split; [lia|].
  split; [reflexivity|]. split; [reflexivity|].
  split; [repeat split|].
  split; [split; simpl; repeat constructor; simpl; intuition discriminate|].
  split; [reflexivity|]. split; [lia|].
  split; vm_compute; reflexivity.
Qed.

(** ** Sign-up for an account the ledger already holds *)

Lemma same_store_refl w : same_store w w.
Proof. repeat split. Qed.

Lemma same_store_healthy w w' : same_store w w' -> healthy w -> healthy w'.
Proof.
  intros (_ & _ & Ho & _ & Ha & Hd & _) (Ho' & Ha' & Hd'). unfold healthy.
  rewrite Ho, Ha, Hd. auto.
Qed.

Lemma same_store_keys w w' : same_store w w' -> keys_unique w -> keys_unique w'.
Proof. intros (Hu & _) Hk. unfold keys_unique. rewrite Hu. exact Hk. Qed.

Lemma already_registered_reply :
  CreditUtils.already_registered
    "A user with this email address has already been registered" = true.
Proof. reflexivity. Qed.

Lemma signUpUser_existing w u password :
  healthy w -> keys_unique w -> In u (users w) ->
  exists a w1,
    CreditUtils.signUpUser (email u) password w = (Returns a, w1) /\
    same_store w w1.
Proof.
  intros (Ho & Ha & Hd) Hk Hu. unfold CreditUtils.signUpUser.
  assert (Hlookup :
    (existingUser <- CreditUtils.getUserByEmail (email u) ;;
     ret (CreditUtils.id_or_null existingUser)) w =
    (Returns (CreditUtils.id_or_null (Some u)), w)).
  { erewrite bind_returns by (apply getUserByEmail_found; assumption).
    reflexivity. }
  destruct password as [[|c s]|].
  - eexists _, w. split; [exact Hlookup | apply same_store_refl].
  - rewrite Hd. cbv beta iota delta [negb].
    unfold bind at 1. unfold call_auth, remote. simpl has_client. rewrite Hd, Ho.
    unfold auth_create_user.
    destruct (existsb (by_auth_email (email u)) (auth_users w)).
    + cbv beta iota. cbn [pg_message]. rewrite already_registered_reply.
      eexists _, w. split; [exact Hlookup | apply same_store_refl].
    + cbv beta iota zeta. eexists _, _. split; [reflexivity|].
      repeat split.
  - eexists _, w. split; [exact Hlookup | apply same_store_refl].
Qed.

Lemma signUpUser2_existing w u password :
  healthy w -> keys_unique w -> In u (users w) ->
  exists a w1,
    CreditUtils2.signUpUser (email u) password w = (Returns a, w1) /\
    same_store w w1.
Proof.
  intros (Ho & Ha & Hd) Hk Hu. unfold CreditUtils2.signUpUser.
  assert (Hlookup :
    (existingUser <- CreditUtils2.getUserByEmail (email u) ;;
     ret (CreditUtils2.id_or_null existingUser)) w =
    (Returns (CreditUtils2.id_or_null (Some u)), w)).
  { erewrite bind_returns by (apply getUserByEmail2_found; assumption).
    reflexivity. }
  destruct password as [[|c s]|].
  - eexists _, w. split; [exact Hlookup | apply same_store_refl].
  - rewrite Hd. cbv beta iota delta [negb].
    unfold bind at 1. unfold call_auth, remote. simpl has_client. rewrite Hd, Ho.
    unfold auth_create_user.
    destruct (existsb (by_auth_email (email u)) (auth_users w)).
    + cbv beta iota. cbn [pg_message].
      unfold CreditUtils2.already_registered.
      rewrite already_registered_reply.
      eexists _, w. split; [exact Hlookup | apply same_store_refl].
    + cbv beta iota zeta. eexists _, _. split; [reflexivity|].
      repeat split.
  - eexists _, w. split; [exact Hlookup | apply same_store_refl].
Qed.

(** ** The GrooveSell handler on a trial start *)

Lemma replace_row_twice i x y us :
  id y = i -> replace_row i x (replace_row i y us) = replace_row i x us.
Proof.
  intros E. unfold replace_row. rewrite map_map. apply map_ext. intros z.
  destruct (by_id i z) eqn:Hz; [|rewrite Hz; reflexivity].
  unfold by_id. rewrite E, String.eqb_refl. reflexivity.
Qed.

Lemma update_tier_healthy w i t :
  outages w = [] -> admin_client w = true ->
  GrooveSell.update_tier i t w =
  (Returns tt,
   with_users
     (update_rows (by_id i)
        {| set_credits := None; set_subscription_type := None;
           set_subscription_tier := t;
           set_subscription_expires_at := None;
           set_updated_at := Some (now w) |} w) w).
Proof.
  intros Ho Hd. unfold GrooveSell.update_tier.
  apply try_returns. rewrite Hd.
  erewrite bind_returns by reflexivity.
  erewrite bind_returns
    by (apply call_healthy;
        [assumption | assumption | apply update_users_plain; reflexivity]).
  reflexivity.
Qed.

(** What the lookup in the product table finds is what [product_found]
    lists, and nothing else. *)
Lemma product_found_lookup productId t :
  product_found productId t ->
  exists cfg,
    GrooveSell.PRODUCT_TIER_MAPPING productId = Some cfg /\
    GrooveSell.tier cfg = t /\ (productId =? "")%string = false.
Proof.
  intros [[-> ->] | [[-> ->] | [[-> ->] | [Hin ->]]]];
    try (eexists; split; [reflexivity|]; split; reflexivity).
  simpl in Hin.
  repeat (destruct Hin as [<- | Hin];
          [eexists; split; [reflexivity|]; split; reflexivity|]).
  destruct Hin.
Qed.

Lemma lookup_product_found productId cfg :
  GrooveSell.PRODUCT_TIER_MAPPING productId = Some cfg ->
  product_found productId (GrooveSell.tier cfg).
Proof.
  unfold GrooveSell.PRODUCT_TIER_MAPPING, product_found.
  destruct (String.eqb_spec productId "90143") as [-> | _].
  { intros H. inversion H. left. split; reflexivity. }
  destruct (String.eqb_spec productId "90211") as [-> | _].
  { intros H. inversion H. right; left. split; reflexivity. }
  destruct (String.eqb_spec productId "90212") as [-> | _].
  { intros H. inversion H. right; right; left. split; reflexivity. }
  destruct (existsb (String.eqb productId) GrooveSell.inherited) eqn:E;
    [|discriminate].
  intros H. inversion H. right; right; right. split; [|reflexivity].
  apply existsb_exists in E. destruct E as (x & Hx & Heq).
  apply String.eqb_eq in Heq. subst x. exact Hx.
Qed.

Lemma lookup_not_found productId :
  GrooveSell.PRODUCT_TIER_MAPPING productId = None ->
  forall t, ~ product_found productId t.
Proof.
  intros Hnone t Hfound.
  destruct (product_found_lookup productId t Hfound) as (cfg & Hcfg & _).
  congruence.
Qed.

Lemma is_one_of v :
  (exists q, v = Js.JNum q /\ (q == 1)%Q) -> Js.is_one v = true.
Proof.
  intros (q & -> & Hq). simpl. apply Qeq_bool_iff. exact Hq.
Qed.

(** The world the GrooveSell handler leaves after a trial start for [u]. *)
Lemma GrooveSell_trial_start w u body t :
  healthy w -> keys_unique w -> In u (users w) -> fits (credits u + 3) ->
  groovesell_trial_start body (email u) t ->
  exists w',
    GrooveSell.POST (Some body) w =
    (Returns
       (respond
          (SuccessBody "Trial started: 3 credits added"
             (Some (UserSummary (email u) (credits u + 3) t None))
             None)), w') /\
    healthy w' /\ now w' = now w /\
    users w' =
      replace_row (id u)
        (with_tier t (now w) (topped_up 3 None None (now w) u)) (users w) /\
    credit_transactions w' =
      logged (id u) 3 purchase "manual credit purchase" (now w)
        (credit_transactions w).
Proof.
  intros Hh Hk Hu Hfit (Hmail & Hne & (productId & Hpid & Hfound) & Hev & Hone).
  destruct (product_found_lookup productId t Hfound) as (cfg & Hcfg & Htier & Hpne).
  apply is_one_of in Hone.
  destruct (signUpUser2_existing w u (body_password body) Hh Hk Hu)
    as (auth & w1 & Hsign & Hsame).
  pose proof (same_store_healthy w w1 Hsame Hh) as Hh1.
  pose proof (same_store_keys w w1 Hsame Hk) as Hk1.
  destruct Hsame as (Hus & Htx & _ & Hnow & _ & _ & _).
  assert (Hu1 : In u (users w1)) by (rewrite Hus; exact Hu).
  destruct (granted_keys w1 u 3 None None Hk1 Hu1) as [Hk2 Hu2].
  pose proof Hh1 as (Ho1 & Ha1 & Hd1).
  assert (Hlog : fits 3) by (unfold fits; lia).
  unfold GrooveSell.POST. eexists.
  split.
  - apply try_returns.
    erewrite bind_returns by reflexivity.
    cbv beta zeta. rewrite Hmail, Hpid. cbv beta iota.
    rewrite (proj2 (String.eqb_neq _ _) Hne).
    rewrite Hpne, Hcfg.
    cbv beta iota delta [orb].
    rewrite Hev, Hone. cbv beta iota delta [text_is andb].
    rewrite String.eqb_refl. cbv beta iota.
    erewrite bind_returns by (apply try_returns; exact Hsign).
    erewrite bind_returns
      by (apply (addCredits2_success w1 u 3 None auth None);
          [assumption | assumption | assumption | exact Hfit | exact Hlog
          | reflexivity]).
    erewrite bind_returns
      by (apply update_tier_healthy; [exact Ho1 | exact Hd1]).
    rewrite Htier. reflexivity.
  - split; [repeat split; assumption|].
    split; [exact Hnow|].
    split.
    + cbn [users with_users granted with_transactions].
      rewrite (update_rows_single _ _ (granted u 3 None None w1)
                 (topped_up 3 None None (now w1) u) Hk2
                 (filter_by_id _ _ Hk2 Hu2)).
      cbn [users with_users granted with_transactions id topped_up now].
      rewrite replace_row_twice by reflexivity.
      rewrite Hus, Hnow. reflexivity.
    + cbn [credit_transactions with_users granted with_transactions].
      rewrite Htx, Hnow. reflexivity.
Qed.

(** ** The credits route on a trial start *)

Lemma CreditsRoute_trial_start w u body :
  healthy w -> keys_unique w -> In u (users w) -> fits (credits u + 3) ->
  credits_trial_start body (email u) ->
  exists w',
    CreditsRoute.POST (Some body) w =
    (Returns
       (respond
          (SuccessBody
             "Added 3 credits for subscription-trial-start"
             (Some (FullUser (topped_up 3 None None (now w) u)))
             None)), w') /\
    healthy w' /\ now w' = now w /\
    users w' =
      replace_row (id u) (topped_up 3 None None (now w) u) (users w) /\
    credit_transactions w' =
      logged (id u) 3 purchase "manual credit purchase" (now w)
        (credit_transactions w).
Proof.
  intros Hh Hk Hu Hfit (Hmail & Hne & Hev & Hact).
  destruct (signUpUser_existing w u (body_password body) Hh Hk Hu)
    as (auth & w1 & Hsign & Hsame).
  pose proof (same_store_healthy w w1 Hsame Hh) as Hh1.
  pose proof (same_store_keys w w1 Hsame Hk) as Hk1.
  destruct Hsame as (Hus & Htx & _ & Hnow & _ & _ & _).
  assert (Hu1 : In u (users w1)) by (rewrite Hus; exact Hu).
  assert (Hlog : fits 3) by (unfold fits; lia).
  unfold CreditsRoute.POST. eexists.
  split.
  - apply try_returns.
    erewrite bind_returns by reflexivity.
    cbv beta zeta. rewrite Hmail, Hev, Hact.
    destruct (email u) as [|c s] eqn:E; [congruence|].
    cbv beta iota. rewrite <- E in *.
    change (text_is (Some "subscription-trial-start") "subscription-trial-start")
      with true.
    change (truthy_text (Some "subscription-trial-start")) with true.
    cbv beta iota delta [orb].
    erewrite bind_returns by exact Hsign.
    erewrite bind_returns
      by (apply (addCredits_success w1 u 3 None auth None);
          [assumption | assumption | assumption | exact Hfit | exact Hlog
          | reflexivity]).
    rewrite Hnow. reflexivity.
  - destruct Hh1 as (Ho1 & Ha1 & Hd1).
    split; [repeat split; assumption|].
    split; [exact Hnow|].
    cbn [users credit_transactions with_users granted with_transactions].
    rewrite Hus, Htx, Hnow. split; reflexivity.
Qed.

(** ** Replay of a trial start *)

Section Replay.

Variable post : option Body -> M Response.
Variable balance : string -> M Z.
Variable event_for : string -> Prop.
Variable body : Body.
(** the row a delivery leaves for the account *)
Variable next : Z -> User -> User.

Hypothesis next_id : forall t u, id (next t u) = id u.
Hypothesis next_email : forall t u, email (next t u) = email u.
Hypothesis next_credits : forall t u, credits (next t u) = credits u + 3.

Hypothesis balance_found :
  forall w u, healthy w -> keys_unique w -> In u (users w) ->
    balance (email u) w = (Returns (credits u), w).

Hypothesis delivery :
  forall w u, healthy w -> keys_unique w -> In u (users w) ->
    fits (credits u + 3) -> event_for (email u) ->
    exists r w',
      post (Some body) w = (Returns r, w') /\ success_shaped r = true /\
      healthy w' /\ now w' = now w /\
      users w' = replace_row (id u) (next (now w) u) (users w) /\
      credit_transactions w' =
        logged (id u) 3 purchase "manual credit purchase" (now w)
          (credit_transactions w).

Lemma replay_of w u :
  healthy w -> keys_unique w -> In u (users w) ->
  fits (credits u + 3) -> fits (credits u + 6) -> event_for (email u) ->
  replay_grants_twice post balance w u body.
Proof.
  intros Hh Hk Hu Hfit3 Hfit6 Hev.
  destruct (delivery w u Hh Hk Hu Hfit3 Hev)
    as (r1 & w1 & Hp1 & Hs1 & Hh1 & Hn1 & Hus1 & Htx1).
  destruct (keys_unique_replaced w w1 u (next (now w) u) Hk Hu
              (next_id _ _) (next_email _ _) Hus1) as [Hk1 Hu1].
  assert (Hev1 : event_for (email (next (now w) u)))
    by (rewrite next_email; exact Hev).
  assert (Hfit1 : fits (credits (next (now w) u) + 3))
    by (rewrite next_credits; unfold fits in *; lia).
  exists r1, w1.
  split; [exact Hp1|]. split; [exact Hs1|].
  split.
  { rewrite <- (next_email (now w) u), <- next_credits with (t := now w).
    apply balance_found; assumption. }
  intros later.
  assert (Hh1' : healthy (at_time later w1)) by exact Hh1.
  assert (Hk1' : keys_unique (at_time later w1)) by exact Hk1.
  assert (Hu1' : In (next (now w) u) (users (at_time later w1))) by exact Hu1.
  destruct (delivery (at_time later w1) (next (now w) u) Hh1' Hk1' Hu1' Hfit1 Hev1)
    as (r2 & w2 & Hp2 & Hs2 & Hh2 & Hn2 & Hus2 & Htx2).
  destruct (keys_unique_replaced (at_time later w1) w2 _
              (next (now (at_time later w1)) (next (now w) u))
              Hk1' Hu1' (next_id _ _) (next_email _ _) Hus2) as [Hk2 Hu2].
  exists r2, w2.
  split; [exact Hp2|]. split; [exact Hs2|].
  split.
  { replace (credits u + 6) with (credits u + 3 + 3) by lia.
    rewrite <- (next_email (now w) u).
    rewrite <- (next_email (now (at_time later w1)) (next (now w) u)).
    rewrite <- next_credits with (t := now w).
    rewrite <- next_credits with (t := now (at_time later w1)).
    apply balance_found; assumption. }
  eexists _, _. split.
  { rewrite Htx2. cbn [credit_transactions at_time]. rewrite Htx1.
    unfold logged. rewrite <- app_assoc. reflexivity. }
  cbn. rewrite next_id. repeat split; reflexivity.
Qed.

End Replay.

Lemma trial_body_groovesell :
  groovesell_trial_start trial_body "a@x.com" (Some basic).
Proof.
  split; [reflexivity|]. split; [discriminate|].
  split; [exists "90143"; split; [reflexivity | left; split; reflexivity]|].
  split; [reflexivity|]. exists 1%Q. split; reflexivity.
Qed.

Lemma trial_body_credits : credits_trial_start trial_body "a@x.com".
Proof.
  split; [reflexivity|]. split; [discriminate|]. split; reflexivity.
Qed.

(** ** C8 *)

Lemma text_is_other ev a b :
  text_is ev a = true -> a <> b -> text_is ev b = false.
Proof.
  destruct ev as [s|]; simpl; [|discriminate].
  intros Ha Hab. apply String.eqb_eq in Ha. subst s.
  apply String.eqb_neq. exact Hab.
Qed.

Lemma ignorable_not_trial body :
  ignorable body = true ->
  text_is (body_event body) "subscription-trial-start" = false.
Proof.
  unfold ignorable.
  destruct (text_is (body_event body) "subscription-payment") eqn:Hp.
  - intros _. apply (text_is_other _ _ _ Hp). discriminate.
  - intros H. apply negb_true_iff in H. exact H.
Qed.

Lemma ignorable_not_paid body :
  ignorable body = true ->
  text_is (body_event body) "subscription-payment" &&
  Js.gt0 (Js.parseFloat (Js.or_else (body_amount body) (Js.JStr "0"))) = false.
Proof.
  unfold ignorable.
  destruct (text_is (body_event body) "subscription-payment") eqn:Hp.
  - intros H. apply negb_true_iff in H. rewrite H. reflexivity.
  - intros _. reflexivity.
Qed.

Lemma GrooveSell_ignores w body :
  ignorable body = true ->
  exists r,
    GrooveSell.POST (Some body) w = (Returns r, w) /\
    (groovesell_accepts body -> success_shaped r = true) /\
    (~ groovesell_accepts body -> status r = 400).
Proof.
  intros Hig.
  pose proof (ignorable_not_trial body Hig) as Ht.
  pose proof (ignorable_not_paid body Hig) as Hp.
  unfold GrooveSell.POST, try_catch, bind, request_json, ret.
  cbv beta iota zeta. rewrite Ht, Hp. cbv beta iota delta [andb].
  unfold groovesell_accepts.
  destruct (body_buyer_email body) as [e|];
    [|eexists; split; [reflexivity|]; split; [|reflexivity];
      intros (e & p & t & He & _); discriminate].
  destruct (body_product_id body) as [p|];
    [|eexists; split; [reflexivity|]; split; [|reflexivity];
      intros (e' & p & t & _ & _ & Hp' & _); discriminate].
  destruct (String.eqb_spec e "") as [He | He].
  { eexists; split; [reflexivity|]. split; [|reflexivity].
    intros (e' & p' & t & He' & Hne & _). congruence. }
  destruct (String.eqb_spec p "") as [Hpe | Hpe].
  { eexists; split; [reflexivity|]. split; [|reflexivity].
    intros (e' & p' & t & _ & _ & Hp' & Hfound).
    inversion Hp'; subst.
    destruct (product_found_lookup _ _ Hfound) as (cfg & _ & _ & Hne).
    discriminate. }
  cbv beta iota delta [orb].
  destruct (GrooveSell.PRODUCT_TIER_MAPPING p) as [cfg|] eqn:Hcfg.
  - eexists; split; [reflexivity|]. split; [reflexivity|].
    intros Hn. exfalso. apply Hn. exists e, p, (GrooveSell.tier cfg).
    split; [reflexivity|]. split; [exact He|]. split; [reflexivity|].
    apply lookup_product_found. exact Hcfg.
  - eexists; split; [reflexivity|]. split; [|reflexivity].
    intros (e' & p' & t & _ & _ & Hp' & Hfound).
    inversion Hp'; subst.
    exfalso. exact (lookup_not_found _ Hcfg _ Hfound).
Qed.

Lemma CreditsRoute_ignores w body :
  ignorable body = true ->
  text_is (body_action body) "get_balance" = false ->
  text_is (body_action body) "add_credits" = false ->
  exists r,
    CreditsRoute.POST (Some body) w = (Returns r, w) /\
    (credits_accepts body -> success_shaped r = true) /\
    (~ credits_accepts body -> status r = 400).
Proof.
  intros Hig Hg Ha.
  pose proof (ignorable_not_trial body Hig) as Ht.
  pose proof (ignorable_not_paid body Hig) as Hp.
  unfold CreditsRoute.POST, try_catch, bind, request_json, ret.
  cbv beta iota zeta. rewrite Ht, Hp, Hg, Ha. cbv beta iota.
  unfold credits_accepts.
  destruct (body_buyer_email body) as [[|c e]|].
  - eexists; split; [reflexivity|]. split; [|reflexivity].
    intros (e' & He & Hne & _). congruence.
  - destruct (truthy_text (body_event body)) eqn:Hev.
    + eexists; split; [reflexivity|]. split; [reflexivity|].
      intros Hn. exfalso. apply Hn. exists (String c e).
      split; [reflexivity|]. split; [discriminate|]. auto.
    + eexists; split; [reflexivity|]. split; [|reflexivity].
      intros (e' & _ & _ & Hev' & _). congruence.
  - eexists; split; [reflexivity|]. split; [|reflexivity].
    intros (e' & He & _). discriminate.
Qed.

(** C8, as amended.  For every payment event whose amount is not positive
    (0 in particular) and every event that is neither a payment nor a
    trial start, on every world: the GrooveSell handler leaves the world
    as it was; it acknowledges the event with a success response when the
    request carries a buyer email and a product id that the lookup in its
    table finds (one of its three products, or a name every object has a
    member under), and answers status 400 otherwise.  The credits route,
    when the request asks for no manual action, leaves the world as it
    was; it acknowledges the event with a success response when the
    request carries a buyer email and an event type, and answers status
    400 otherwise. *)
Theorem ignored_events_acknowledged :
  forall (w : World) (body : Body),
    ignorable body = true ->
    (exists r,
       GrooveSell.POST (Some body) w = (Returns r, w) /\
       (groovesell_accepts body -> success_shaped r = true) /\
       (~ groovesell_accepts body -> status r = 400)) /\
    (text_is (body_action body) "get_balance" = false ->
     text_is (body_action body) "add_credits" = false ->
     exists r,
       CreditsRoute.POST (Some body) w = (Returns r, w) /\
       (credits_accepts body -> success_shaped r = true) /\
       (~ credits_accepts body -> status r = 400)).
Proof.
  intros w body Hig. split.
  - apply GrooveSell_ignores. exact Hig.
  - intros Hg Ha. apply CreditsRoute_ignores; assumption.
Qed.

Lemma ignored_events_acknowledged_witness :
  ignorable free_payment = true /\
  (exists r,
     GrooveSell.POST (Some free_payment) shop_down = (Returns r, shop_down) /\
     (groovesell_accepts free_payment -> success_shaped r = true) /\
     (~ groovesell_accepts free_payment -> status r = 400)) /\
  (text_is (body_action free_payment) "get_balance" = false ->
   text_is (body_action free_payment) "add_credits" = false ->
   exists r,
     CreditsRoute.POST (Some free_payment) shop_down = (Returns r, shop_down) /\
     (credits_accepts free_payment -> success_shaped r = true) /\
     (~ credits_accepts free_payment -> status r = 400)).
Proof.
  assert (Hig : ignorable free_payment = true) by reflexivity.
  split; [exact Hig|].
  exact (ignored_events_acknowledged shop_down free_payment Hig).
Defined.

(** Without the conditions on the request the statement fails on both
    routes: the GrooveSell handler answers a free payment for a product
    outside its table with status 400, and the credits route grants the
    trial amount for an event of another type that comes with the manual
    action. *)
Lemma ignored_events_refused_or_granted :
  ignorable free_payment_unknown_product = true /\
  GrooveSell.POST (Some free_payment_unknown_product) shop =
    (Returns (respond_status 400 (ErrorBody "Unknown product ID: 99999")), shop) /\
  success_shaped (respond_status 400 (ErrorBody "Unknown product ID: 99999")) = false /\
  ignorable sale_with_action = true /\
  map (fun u => (email u, credits u)) (users shop) =
    [("a@x.com", 3); ("b@x.com", 0)] /\
  map (fun u => (email u, credits u))
      (users (snd (CreditsRoute.POST (Some sale_with_action) shop))) =
    [("a@x.com", 6); ("b@x.com", 0)].
Proof. vm_compute. repeat split; reflexivity. Qed.

(** The product table is a plain object, and a product id that names a
    member every object inherits passes for a product: a free payment for
    the product id [constructor] is acknowledged, not refused. *)
Example free_payment_for_an_inherited_name :
  let body :=
    {| body_event := Some "subscription-payment";
       body_buyer_email := Some "a@x.com";
       body_product_id := Some "constructor";
       body_subscription_type := Some "Monthly";
       body_amount := Js.JStr "0.00";
       body_trial_transaction := Js.JNum 0;
       body_password := None;
       body_action := None |} in
  ignorable body = true /\
  GrooveSell.POST (Some body) shop =
  (Returns
     (respond
        (SuccessBody "Event 'subscription-payment' acknowledged but not processed"
           None None)), shop).
Proof. vm_compute. split; reflexivity. Qed.

(** An amount that starts with a no-break space is read like any other:
    the payment is not ignored, and the credits route grants the credits
    of a month. *)
Example payment_after_a_no_break_space :
  let body :=
    {| body_event := Some "subscription-payment";
       body_buyer_email := Some "a@x.com";
       body_product_id := Some "90143";
       body_subscription_type := Some "Monthly";
       body_amount :=
         Js.JStr (String (ascii_of_nat 194) (String (ascii_of_nat 160) "5"));
       body_trial_transaction := Js.JNum 0;
       body_password := None;
       body_action := None |} in
  ignorable body = false /\
  map (fun u => (email u, credits u))
      (users (snd (CreditsRoute.POST (Some body) shop))) =
    [("a@x.com", 8); ("b@x.com", 0)].
Proof. vm_compute. split; reflexivity. Qed.

(** ** C9 *)

Lemma bind_returns_inv {A B} (m : M A) (k : A -> M B) w b w' :
  bind m k w = (Returns b, w') ->
  exists a w1, m w = (Returns a, w1) /\ k a w1 = (Returns b, w').
Proof.
  unfold bind. destruct (m w) as [[a | e] w1]; intros H.
  - exists a, w1. split; [reflexivity | exact H].
  - discriminate.
Qed.

Lemma ret_inv {A} (a b : A) w w' : ret a w = (Returns b, w') -> a = b.
Proof. unfold ret. intros H. inversion H. reflexivity. Qed.

(** A handler whose catch clause answers with a response answers either
    what its body returns or that response. *)
Lemma try_catch_answers (m : M Response) (h : Exn -> Response) w :
  exists r w',
    try_catch m (fun error => ret (h error)) w = (Returns r, w') /\
    (m w = (Returns r, w') \/ exists error, r = h error).
Proof.
  unfold try_catch. destruct (m w) as [[r | e] w1].
  - exists r, w1. split; [reflexivity | left; reflexivity].
  - exists (h e), w1. split; [reflexivity | right; exists e; reflexivity].
Qed.

(** The GrooveSell handler turns away a request without a buyer email,
    without a product id, or with a product id the lookup does not find;
    it does so before it touches the store. *)
Lemma GrooveSell_rejects w body :
  ~ groovesell_accepts body ->
  exists message,
    GrooveSell.POST (Some body) w =
    (Returns (respond_status 400 (ErrorBody message)), w).
Proof.
  intros Hn.
  unfold GrooveSell.POST, try_catch, bind, request_json, ret.
  cbv beta iota zeta.
  destruct (body_buyer_email body) as [e|] eqn:He; [|eexists; reflexivity].
  destruct (body_product_id body) as [p|] eqn:Hp; [|eexists; reflexivity].
  destruct (String.eqb_spec e "") as [Hee | Hee]; [eexists; reflexivity|].
  destruct (String.eqb_spec p "") as [Hpe | Hpe]; [eexists; reflexivity|].
  cbv beta iota delta [orb].
  destruct (GrooveSell.PRODUCT_TIER_MAPPING p) as [cfg|] eqn:Hcfg;
    [|eexists; reflexivity].
  exfalso. apply Hn. exists e, p, (GrooveSell.tier cfg).
  split; [exact He|]. split; [exact Hee|]. split; [exact Hp|].
  apply lookup_product_found. exact Hcfg.
Qed.

(** A request it accepts is answered with a success response, whatever
    becomes of the processing. *)
Lemma GrooveSell_acknowledges w body :
  groovesell_accepts body ->
  exists r w',
    GrooveSell.POST (Some body) w = (Returns r, w') /\ success_shaped r = true.
Proof.
  intros (e & p & t & He & Hne & Hp & Hfound).
  destruct (product_found_lookup p t Hfound) as (cfg & Hcfg & _ & Hpne).
  unfold GrooveSell.POST.
  match goal with
  | |- exists r w', try_catch ?m (fun error => ret (@?h error)) w = _ /\ _ =>
      destruct (try_catch_answers m h w) as (r & w' & Hrun & Hcase)
  end.
  exists r, w'. split; [exact Hrun|].
  destruct Hcase as [Hbody | [error ->]]; [|reflexivity].
  apply bind_returns_inv in Hbody.
  destruct Hbody as (body0 & w1 & Hreq & Hk).
  apply ret_inv in Hreq. subst body0.
  cbv beta zeta in Hk. rewrite He, Hp in Hk. cbv beta iota in Hk.
  rewrite (proj2 (String.eqb_neq _ _) Hne), Hpne, Hcfg in Hk.
  cbv beta iota delta [orb] in Hk.
  destruct (text_is (body_event body) "subscription-trial-start" &&
            Js.is_one (body_trial_transaction body)).
  { apply bind_returns_inv in Hk. destruct Hk as (a1 & w2 & _ & Hk).
    apply bind_returns_inv in Hk. destruct Hk as (a2 & w3 & _ & Hk).
    apply bind_returns_inv in Hk. destruct Hk as (a3 & w4 & _ & Hk).
    apply ret_inv in Hk. subst r. reflexivity. }
  destruct (text_is (body_event body) "subscription-payment" &&
            Js.gt0 (Js.parseFloat (Js.or_else (body_amount body) (Js.JStr "0")))).
  { cbv zeta in Hk.
    apply bind_returns_inv in Hk. destruct Hk as (a2 & w3 & _ & Hk).
    apply bind_returns_inv in Hk. destruct Hk as (a3 & w4 & _ & Hk).
    apply ret_inv in Hk. subst r. reflexivity. }
  apply ret_inv in Hk. subst r. reflexivity.
Qed.

Lemma groovesell_accepts_dec body :
  groovesell_accepts body \/ ~ groovesell_accepts body.
Proof.
  unfold groovesell_accepts.
  destruct (body_buyer_email body) as [e|];
    [|right; intros (e & p & t & He & _); discriminate].
  destruct (body_product_id body) as [p|];
    [|right; intros (e' & p & t & _ & _ & Hp & _); discriminate].
  destruct (String.eqb_spec e "") as [Hee | Hee].
  { right. intros (e' & p' & t & He' & Hne & _). congruence. }
  destruct (GrooveSell.PRODUCT_TIER_MAPPING p) as [cfg|] eqn:Hcfg.
  - left. exists e, p, (GrooveSell.tier cfg).
    split; [reflexivity|]. split; [exact Hee|]. split; [reflexivity|].
    apply lookup_product_found. exact Hcfg.
  - right. intros (e' & p' & t & _ & _ & Hp' & Hfound).
    inversion Hp'; subst. exact (lookup_not_found _ Hcfg _ Hfound).
Qed.

Lemma GrooveSell_answers w request :
  exists r w',
    GrooveSell.POST request w = (Returns r, w') /\ groovesell_answer request r.
Proof.
  destruct request as [body|].
  2:{ eexists _, _. split; reflexivity. }
  unfold groovesell_answer.
  destruct (groovesell_accepts_dec body) as [Hacc | Hn].
  - destruct (GrooveSell_acknowledges w body Hacc) as (r & w' & Hrun & Hs).
    exists r, w'. split; [exact Hrun|].
    split; [intros _; exact Hs | intros Hn; contradiction].
  - destruct (GrooveSell_rejects w body Hn) as (message & Hrun).
    eexists _, _. split; [exact Hrun|].
    split; [intros Hacc; contradiction | intros _; reflexivity].
Qed.

(** The balance query returns on every world. *)
Lemma getCreditBalance_returns w e :
  exists a w', CreditUtils.getCreditBalance e w = (Returns a, w').
Proof.
  unfold CreditUtils.getCreditBalance, try_catch, bind.
  destruct (CreditUtils.getUserByEmail e w) as [[[u|]|err] w1];
    eexists _, _; reflexivity.
Qed.

Lemma CreditsRoute_answers w request :
  exists r w',
    CreditsRoute.POST request w = (Returns r, w') /\ credits_answer request r.
Proof.
  destruct request as [body|].
  2:{ eexists _, _. split; reflexivity. }
  unfold credits_answer.
  unfold CreditsRoute.POST.
  match goal with
  | |- exists r w', try_catch ?m (fun error => ret (@?h error)) w = _ /\ _ =>
      destruct (try_catch_answers m h w) as (r & w' & Hrun & Hcase);
      assert (Hm : exists o w0, m w = (o, w0) /\
                   ((o = Returns r /\ w0 = w') \/
                    (exists e1, o = Throws e1) /\ exists error, r = h error))
  end.
  { destruct Hcase as [Hbody | Herr].
    - eexists _, _. split; [exact Hbody|]. left. split; reflexivity.
    - unfold try_catch in Hrun.
      match type of Hrun with
      | match ?run with _ => _ end = _ =>
          destruct run as [[r0 | e0] w0] eqn:Hr
      end.
      + inversion Hrun; subst. eexists _, _. split; [reflexivity|].
        left. split; reflexivity.
      + eexists _, _. split; [reflexivity|]. right.
        split; [eexists; reflexivity | exact Herr]. }
  clear Hcase.
  exists r, w'. split; [exact Hrun|]. clear Hrun.
  destruct Hm as (o & w0 & Hm & Hcase).
  unfold bind at 1 in Hm. unfold request_json, ret in Hm.
  cbv beta iota zeta in Hm.
  assert (Hplain : forall r0, (Returns r0, w) = (o, w0) -> r = r0).
  { intros r0 H. inversion H; subst.
    destruct Hcase as [[Ho _] | [[e1 He1] _]]; [|discriminate He1].
    inversion Ho. reflexivity. }
  destruct (body_buyer_email body) as [[|c e]|]; cbn [truthy_text negb String.eqb].
  - rewrite (Hplain _ Hm). reflexivity.
  - change (negb (negb (String c e =? "")%string)) with false. cbv iota.
    destruct (text_is (body_action body) "get_balance").
    { destruct (getCreditBalance_returns w (String c e)) as (a & w2 & Hbal).
      unfold bind in Hm. rewrite Hbal in Hm. inversion Hm; subst.
      destruct Hcase as [[Ho _] | [[e1 He1] _]]; [|discriminate He1].
      inversion Ho. reflexivity. }
    destruct (truthy_text (body_event body) || text_is (body_action body) "add_credits").
    2:{ rewrite (Hplain _ Hm). reflexivity. }
    destruct Hcase as [[-> ->] | [_ [error ->]]]; [|right; reflexivity].
    left.
    match type of Hm with
    | match ?g with _ => _ end _ = _ => destruct g as [[n p]|]
    end.
    + apply bind_returns_inv in Hm. destruct Hm as (a1 & w2 & _ & Hm).
      apply bind_returns_inv in Hm. destruct Hm as (a2 & w3 & _ & Hm).
      apply ret_inv in Hm. subst r. reflexivity.
    + apply ret_inv in Hm. subst r. reflexivity.
  - rewrite (Hplain _ Hm). reflexivity.
Qed.


Example groovesell_acknowledges_during_outage :
  fst (GrooveSell.POST (Some trial_body)
         (with_outages [Some Unreachable; Some Unreachable] shop)) =
  Returns
    (respond
       (SuccessBody "Webhook received (error in processing)" None
          (Some "Failed to get users: TypeError: fetch failed"))).
Proof. reflexivity. Qed.

Example groovesell_acknowledges_refused_update :
  fst (GrooveSell.POST (Some trial_body)
         (with_outages [None; None; None; Some (Refuses "connection reset")] shop)) =
  Returns
    (respond
       (SuccessBody "Webhook received (error in processing)" None
          (Some "Failed to add credits: connection reset"))).
Proof. reflexivity. Qed.

Example groovesell_acknowledges_broken_json :
  GrooveSell.POST None shop =
  (Returns
     (respond
        (SuccessBody "Webhook received (error in processing)" None
           (Some "Unexpected end of JSON input"))), shop).
Proof. reflexivity. Qed.


(** ** The ledger on concrete runs *)

(** The scenario of the specification, on bob's account: 0 credits, a
    trial grant, a debit, a monthly grant, a debit the balance does not
    cover. *)
Example ledger_scenario :
  let w1 := snd (CreditUtils.addCredits "b@x.com" 3 None None shop) in
  let w2 := snd (CreditUtils.useCredits "b@x.com" 1 w1) in
  let w3 := snd (CreditUtils.addCredits "b@x.com" 5 (Some monthly) None w2) in
  let r4 := CreditUtils.useCredits "b@x.com" 10 w3 in
  fst (CreditUtils.getCreditBalance "b@x.com" w1) = Returns 3 /\
  fst (CreditUtils.getCreditBalance "b@x.com" w2) = Returns 2 /\
  map (fun t => (amount t, transaction_type t)) (credit_transactions w2) =
    [(3, purchase); (-1, usage)] /\
  fst (CreditUtils.getCreditBalance "b@x.com" w3) = Returns 7 /\
  map (fun u => (subscription_type u, subscription_expires_at u))
      (filter (by_email "b@x.com") (users w3)) =
    [(Some monthly, Some 1796299200000)] /\
  fst r4 = Throws (CreditError "Insufficient credits" "INSUFFICIENT_CREDITS") /\
  fst (CreditUtils.getCreditBalance "b@x.com" (snd r4)) = Returns 7.
Proof. vm_compute. repeat split; reflexivity. Qed.

Example ledger_scenario_later_revision :
  let w1 := snd (CreditUtils2.addCredits "b@x.com" 3 None None shop) in
  let w2 := snd (CreditUtils2.useCredits "b@x.com" 1 w1) in
  let w3 := snd (CreditUtils2.addCredits "b@x.com" 5 (Some yearly) None w2) in
  let r4 := CreditUtils2.useCredits "b@x.com" 10 w3 in
  fst (CreditUtils2.getCreditBalance "b@x.com" w2) = Returns 2 /\
  fst (CreditUtils2.getCreditBalance "b@x.com" w3) = Returns 7 /\
  map (fun u => (subscription_type u, subscription_expires_at u))
      (filter (by_email "b@x.com") (users w3)) =
    [(Some yearly, Some 1825243200000)] /\
  fst r4 = Throws (CreditError "Insufficient credits" "INSUFFICIENT_CREDITS") /\
  fst (CreditUtils2.getCreditBalance "b@x.com" (snd r4)) = Returns 7.
Proof. vm_compute. repeat split; reflexivity. Qed.

(** A debit whose log entry cannot be written still goes through: the
    balance is written and the log is left as it was. *)
Example log_failure_is_swallowed :
  let w := with_outages [None; None; Some Unreachable] shop in
  let r := CreditUtils.useCredits "a@x.com" 1 w in
  (exists u, fst r = Returns u /\ credits u = 2) /\
  fst (CreditUtils.getCreditBalance "a@x.com" (snd r)) = Returns 2 /\
  credit_transactions (snd r) = [].
Proof.
  vm_compute. split; [eexists; split; reflexivity|]. split; reflexivity.
Qed.

(** A debit whose balance write is refused fails and writes nothing. *)
Example refused_update_fails_the_debit :
  let w := with_outages [None; Some (Refuses "permission denied")] shop in
  let r := CreditUtils2.useCredits "a@x.com" 1 w in
  fst r = Throws (CreditError "Failed to use credits: permission denied"
                              "USE_CREDITS_ERROR") /\
  users (snd r) = users shop /\ credit_transactions (snd r) = [].
Proof. vm_compute. repeat split; reflexivity. Qed.

(** A trial start delivered twice for a buyer who has no account yet: the
    first delivery creates the account under the identifier the auth
    service hands out and grants the trial amount, the second grants it
    again. *)
Example trial_start_twice_for_a_new_buyer :
  let w1 := snd (GrooveSell.POST (Some new_buyer_trial) shop) in
  let w2 := snd (GrooveSell.POST (Some new_buyer_trial) w1) in
  fst (CreditUtils2.getCreditBalance "new@x.com" shop) = Returns 0 /\
  map (fun u => (id u, email u, credits u, subscription_tier u)) (users w1) =
    [("7d9f0c1e-0001", "a@x.com", 3, None);
     ("7d9f0c1e-0002", "b@x.com", 0, Some standard);
     ("7d9f0c1e-10", "new@x.com", 3, Some standard)] /\
  fst (CreditUtils2.getCreditBalance "new@x.com" w2) = Returns 6 /\
  map (fun t => (user_id t, amount t, transaction_type t)) (credit_transactions w2) =
    [("7d9f0c1e-10", 3, purchase); ("7d9f0c1e-10", 3, purchase)].
Proof. vm_compute. repeat split; reflexivity. Qed.

(** Without a password and without an account the GrooveSell handler
    acknowledges the trial start but grants nothing. *)
Example trial_start_for_an_unknown_buyer_without_password :
  let body :=
    {| body_event := Some "subscription-trial-start";
       body_buyer_email := Some "ghost@x.com";
       body_product_id := Some "90143";
       body_subscription_type := None;
       body_amount := Js.JStr "0.00";
       body_trial_transaction := Js.JNum 1;
       body_password := None;
       body_action := None |} in
  GrooveSell.POST (Some body) shop =
  (Returns
     (respond
        (SuccessBody "Webhook received (error in processing)" None
           (Some "User not found and no auth ID provided"))), shop).
Proof. vm_compute. reflexivity. Qed.

(** ** The key constraints are an invariant of the ledger *)

Section Invariant.

Variable I : World -> Prop.
Hypothesis I_outages : forall os w, I w -> I (with_outages os w).

Lemma preserves_ret {A} (a : A) w : I w -> I (after (ret a w)).
Proof. intros H. exact H. Qed.

Lemma preserves_throw {A} e w : I w -> I (after (@throw A e w)).
Proof. intros H. exact H. Qed.

Lemma preserves_bind {A B} (m : M A) (k : A -> M B) w :
  (forall w0, I w0 -> I (after (m w0))) ->
  (forall a w0, I w0 -> I (after (k a w0))) ->
  I w -> I (after (bind m k w)).
Proof.
  intros Hm Hk Hw. unfold bind. specialize (Hm w Hw).
  destruct (m w) as [[a | e] w1]; simpl in *.
  - apply Hk. exact Hm.
  - exact Hm.
Qed.

Lemma preserves_try {A} (m : M A) (h : Exn -> M A) w :
  (forall w0, I w0 -> I (after (m w0))) ->
  (forall e w0, I w0 -> I (after (h e w0))) ->
  I w -> I (after (try_catch m h w)).
Proof.
  intros Hm Hh Hw. unfold try_catch. specialize (Hm w Hw).
  destruct (m w) as [[a | e] w1]; simpl in *.
  - exact Hm.
  - apply Hh. exact Hm.
Qed.

Lemma preserves_remote {A} lost c (q : World -> Reply A * World) w :
  (forall w0, I w0 -> I (after (q w0))) ->
  I w -> I (after (remote lost c q w)).
Proof.
  intros Hq Hw. unfold remote.
  destruct (has_client c w); [|exact Hw].
  destruct (outages w) as [|[[|m|]|] rest].
  - specialize (Hq w Hw). destruct (q w); exact Hq.
  - apply I_outages. exact Hw.
  - apply I_outages. exact Hw.
  - specialize (Hq _ (I_outages rest w Hw)).
    destruct (q (with_outages rest w)); exact Hq.
  - specialize (Hq _ (I_outages rest w Hw)).
    destruct (q (with_outages rest w)); exact Hq.
Qed.

Lemma preserves_call {A} c (q : World -> Reply A * World) w :
  (forall w0, I w0 -> I (after (q w0))) ->
  I w -> I (after (call c q w)).
Proof. apply preserves_remote. Qed.

Lemma preserves_call_auth {A} c (q : World -> Reply A * World) w :
  (forall w0, I w0 -> I (after (q w0))) ->
  I w -> I (after (call_auth c q w)).
Proof. apply preserves_remote. Qed.

Lemma preserves_rethrow {A} msg e w : I w -> I (after (@rethrow A msg e w)).
Proof. intros H. destruct e; exact H. Qed.

End Invariant.

Lemma keys_unique_outages os w : keys_unique w -> keys_unique (with_outages os w).
Proof. intros H. exact H. Qed.

Lemma keys_unique_select p w : keys_unique w -> keys_unique (after (select_users p w)).
Proof. intros H. exact H. Qed.

Lemma keys_unique_select_single p w :
  keys_unique w -> keys_unique (after (select_user_single p w)).
Proof.
  intros H. unfold select_user_single.
  destruct (filter p (users w)) as [|u [|v l]]; exact H.
Qed.

Lemma keys_unique_updated p patch w :
  keys_unique w -> keys_unique (with_users (update_rows p patch w) w).
Proof.
  intros [Hi He]. unfold keys_unique. simpl.
  rewrite update_rows_ids, update_rows_emails. split; assumption.
Qed.

Lemma keys_unique_update_select p patch w :
  keys_unique w -> keys_unique (after (update_users_select p patch w)).
Proof.
  intros H. unfold update_users_select.
  destruct (patch_error patch); [exact H|].
  destruct (filter p (users w)) as [|u l], (row_error patch);
    try exact H; apply keys_unique_updated; exact H.
Qed.

Lemma keys_unique_update p patch w :
  keys_unique w -> keys_unique (after (update_users p patch w)).
Proof.
  intros H. pose proof (keys_unique_update_select p patch w H) as H'.
  unfold update_users. destruct (update_users_select p patch w) as [[l | e] w'];
    exact H'.
Qed.

Lemma keys_unique_update_single p patch w :
  keys_unique w -> keys_unique (after (update_users_single p patch w)).
Proof.
  intros H. pose proof (keys_unique_update_select p patch w H) as H'.
  unfold update_users_single.
  destruct (update_users_select p patch w) as [[[|u [|v l]] | e] w'];
    try exact H'; exact H.
Qed.

Lemma existsb_by_email e us :
  existsb (by_email e) us = false -> ~ In e (map email us).
Proof.
  intros H Hin. apply in_map_iff in Hin. destruct Hin as (x & Hx & Hin).
  assert (Ht : existsb (by_email e) us = true).
  { apply existsb_exists. exists x. split; [exact Hin|].
    unfold by_email. apply String.eqb_eq. exact Hx. }
  congruence.
Qed.

(** An insert that passes the constraint checks keeps the keys unique. *)
Lemma keys_unique_insert i e c w :
  keys_unique w -> keys_unique (after (insert_user i e c w)).
Proof.
  intros [Hi He]. unfold insert_user.
  destruct (in_integer c); cbn [negb]; [|split; assumption].
  destruct (existsb (by_id i) (users w)) eqn:Ei; [split; assumption|].
  destruct (existsb (by_email e) (users w)) eqn:Ee; [split; assumption|].
  unfold keys_unique. simpl. rewrite !map_app. simpl.
  assert (Hone : forall (x : string), NoDup [x]).
  { intros x. constructor; [intros [] | constructor]. }
  split; apply NoDup_app; try assumption; try apply Hone.
  - intros x Hx [<- | []].
    apply existsb_by_id in Hx. congruence.
  - intros x Hx [<- | []].
    exact (existsb_by_email _ _ Ee Hx).
Qed.

Lemma keys_unique_insert_transaction uid a k d w :
  keys_unique w -> keys_unique (after (insert_transaction uid a k d w)).
Proof.
  intros H. unfold insert_transaction. destruct a as [a|]; [|exact H].
  destruct (in_integer a); cbn [negb]; [|exact H].
  destruct (existsb (by_id uid) (users w)); exact H.
Qed.

Lemma keys_unique_new_Date w : keys_unique w -> keys_unique (after (new_Date w)).
Proof. intros H. exact H. Qed.

Lemma keys_unique_auth e w :
  keys_unique w -> keys_unique (after (auth_create_user e w)).
Proof.
  intros H. unfold auth_create_user.
  destruct (existsb (by_auth_email e) (auth_users w)); exact H.
Qed.

Create HintDb keys.

#[local] Hint Resolve keys_unique_new_Date keys_unique_select
  keys_unique_select_single keys_unique_update keys_unique_update_select
  keys_unique_update_single keys_unique_insert keys_unique_insert_transaction
  keys_unique_auth : keys.

(** Walks through a computation of the request monad, one construct at a
    time, to show that it keeps the key constraints; what the walk does
    not open is looked up among the lemmas already proved. *)
Ltac keeps_keys_step :=
  lazymatch goal with
  | |- forall _, _ => intros
  | H : keys_unique ?w |- keys_unique ?w => exact H
  | |- keys_unique (after (try_catch _ _ _)) => apply (preserves_try keys_unique)
  | |- keys_unique (after (bind _ _ _)) => apply (preserves_bind keys_unique)
  | |- keys_unique (after (call _ _ _)) =>
      apply (preserves_call keys_unique keys_unique_outages)
  | |- keys_unique (after (call_auth _ _ _)) =>
      apply (preserves_call_auth keys_unique keys_unique_outages)
  | |- keys_unique (after (ret _ _)) => apply (preserves_ret keys_unique)
  | |- keys_unique (after (throw _ _)) => apply (preserves_throw keys_unique)
  | |- keys_unique (after (rethrow _ _ _)) => apply (preserves_rethrow keys_unique)
  | |- keys_unique (after ((if ?b then _ else _) _)) => destruct b
  | |- keys_unique (after ((match ?x with _ => _ end) _)) => destruct x
  | |- keys_unique (after (if ?b then _ else _)) => destruct b
  | |- keys_unique (after (match ?x with _ => _ end)) => destruct x
  | |- keys_unique (after ((fun _ => _) _)) => cbv beta
  | |- keys_unique (after ((fun _ => _) _ _)) => cbv beta
  | |- _ => solve [auto with keys]
  end.

Ltac keeps_keys := repeat keeps_keys_step.

Lemma getUserByEmail_keeps_keys e w :
  keys_unique w -> keys_unique (after (CreditUtils.getUserByEmail e w)).
Proof. unfold CreditUtils.getUserByEmail. keeps_keys. Qed.

Lemma getUserByEmail2_keeps_keys e w :
  keys_unique w -> keys_unique (after (CreditUtils2.getUserByEmail e w)).
Proof. unfold CreditUtils2.getUserByEmail. keeps_keys. Qed.

Lemma createUser_keeps_keys i e w :
  keys_unique w -> keys_unique (after (CreditUtils.createUser i e w)).
Proof. unfold CreditUtils.createUser. keeps_keys. Qed.

Lemma createUser2_keeps_keys i e w :
  keys_unique w -> keys_unique (after (CreditUtils2.createUser i e w)).
Proof. unfold CreditUtils2.createUser. keeps_keys. Qed.

Lemma logCreditTransaction_keeps_keys uid a k d w :
  keys_unique w ->
  keys_unique (after (CreditUtils.logCreditTransaction uid a k d w)).
Proof. unfold CreditUtils.logCreditTransaction. keeps_keys. Qed.

Lemma logCreditTransaction2_keeps_keys uid a k d w :
  keys_unique w ->
  keys_unique (after (CreditUtils2.logCreditTransaction uid a k d w)).
Proof. unfold CreditUtils2.logCreditTransaction. keeps_keys. Qed.

#[local] Hint Resolve getUserByEmail_keeps_keys getUserByEmail2_keeps_keys
  createUser_keeps_keys createUser2_keeps_keys
  logCreditTransaction_keeps_keys logCreditTransaction2_keeps_keys : keys.

(** Computing the expiry leaves the world as it is. *)
Lemma expiry_for_world p w : snd (expiry_for p w) = w.
Proof.
  unfold expiry_for. destruct p as [q|]; [|reflexivity].
  unfold bind, new_Date, zone, toISOString. cbn [fst snd].
  destruct (expiration (LocalTZA w) q (now w)); reflexivity.
Qed.

Lemma expiry_for_keeps_keys p w :
  keys_unique w -> keys_unique (after (expiry_for p w)).
Proof. intros H. unfold after. rewrite expiry_for_world. exact H. Qed.

#[local] Hint Resolve expiry_for_keeps_keys : keys.

Lemma signUpUser_keeps_keys e password w :
  keys_unique w -> keys_unique (after (CreditUtils.signUpUser e password w)).
Proof. unfold CreditUtils.signUpUser. keeps_keys. Qed.

Lemma signUpUser2_keeps_keys e password w :
  keys_unique w -> keys_unique (after (CreditUtils2.signUpUser e password w)).
Proof. unfold CreditUtils2.signUpUser. keeps_keys. Qed.

Lemma useCredits_keeps_keys e a w :
  keys_unique w -> keys_unique (after (CreditUtils.useCredits e a w)).
Proof. unfold CreditUtils.useCredits. keeps_keys. Qed.

Lemma useCredits2_keeps_keys e a w :
  keys_unique w -> keys_unique (after (CreditUtils2.useCredits e a w)).
Proof. unfold CreditUtils2.useCredits. keeps_keys. Qed.

Lemma addCredits_keeps_keys e n p auth w :
  keys_unique w -> keys_unique (after (CreditUtils.addCredits e n p auth w)).
Proof. unfold CreditUtils.addCredits. keeps_keys. Qed.

Lemma addCredits2_keeps_keys e n p auth w :
  keys_unique w -> keys_unique (after (CreditUtils2.addCredits e n p auth w)).
Proof. unfold CreditUtils2.addCredits. keeps_keys. Qed.

Lemma getCreditBalance_keeps_keys e w :
  keys_unique w -> keys_unique (after (CreditUtils.getCreditBalance e w)).
Proof. unfold CreditUtils.getCreditBalance. keeps_keys. Qed.

#[local] Hint Resolve signUpUser_keeps_keys signUpUser2_keeps_keys
  useCredits_keeps_keys useCredits2_keeps_keys
  addCredits_keeps_keys addCredits2_keeps_keys
  getCreditBalance_keeps_keys : keys.

Lemma update_tier_keeps_keys i t w :
  keys_unique w -> keys_unique (after (GrooveSell.update_tier i t w)).
Proof. unfold GrooveSell.update_tier. keeps_keys. Qed.

#[local] Hint Resolve update_tier_keeps_keys : keys.

(** Whatever the request and whatever the store does, both routes leave
    the key constraints of the users table in force. *)
Lemma routes_keep_keys request w :
  keys_unique w ->
  keys_unique (after (GrooveSell.POST request w)) /\
  keys_unique (after (CreditsRoute.POST request w)).
Proof.
  intros H. split.
  - unfold GrooveSell.POST, request_json. keeps_keys.
  - unfold CreditsRoute.POST, request_json. keeps_keys.
Qed.

(** ** A trial start for a buyer without an account *)

Lemma try_rethrow_returns_inv {A} (m : M A) msg w a w' :
  try_catch m (rethrow msg) w = (Returns a, w') -> m w = (Returns a, w').
Proof.
  unfold try_catch. destruct (m w) as [[x | e] w1]; intros H.
  - exact H.
  - destruct e; discriminate.
Qed.

Lemma no_account_existsb e w :
  no_account e w -> existsb (by_email e) (users w) = false.
Proof.
  intros Hn. destruct (existsb (by_email e) (users w)) eqn:E; [|reflexivity].
  apply existsb_exists in E. destruct E as (u & Hu & He).
  unfold by_email in He. apply String.eqb_eq in He.
  exfalso. exact (Hn u Hu He).
Qed.

Lemma fresh_id_existsb i w :
  ~ In i (map id (users w)) -> existsb (by_id i) (users w) = false.
Proof.
  intros Hf. destruct (existsb (by_id i) (users w)) eqn:E; [|reflexivity].
  apply existsb_by_id in E. contradiction.
Qed.

Lemma replace_row_fresh i u' us :
  ~ In i (map id us) -> replace_row i u' us = us.
Proof.
  intros Hf. unfold replace_row. rewrite <- (map_id us) at 2.
  apply map_ext_in. intros x Hx. unfold by_id.
  destruct (String.eqb_spec (id x) i) as [E | _]; [|reflexivity].
  exfalso. apply Hf. rewrite <- E. apply in_map. exact Hx.
Qed.

Lemma replace_row_app i u' us vs :
  replace_row i u' (us ++ vs) = (replace_row i u' us ++ replace_row i u' vs)%list.
Proof. unfold replace_row. apply map_app. Qed.

(** Replacing the row that was appended last. *)
Lemma replace_row_last us u u' :
  ~ In (id u) (map id us) ->
  replace_row (id u) u' (us ++ [u]) = (us ++ [u'])%list.
Proof.
  intros Hf. rewrite replace_row_app, (replace_row_fresh _ _ _ Hf).
  unfold replace_row, by_id. simpl. rewrite String.eqb_refl. reflexivity.
Qed.

Lemma insert_user_fresh w i e :
  no_account e w -> ~ In i (map id (users w)) ->
  insert_user i e INITIAL_CREDITS w =
  (Data (new_account i e INITIAL_CREDITS (now w)),
   with_users (users w ++ [new_account i e INITIAL_CREDITS (now w)]) w).
Proof.
  intros Hn Hf. unfold insert_user.
  change (negb (in_integer INITIAL_CREDITS)) with false. cbv iota.
  rewrite (fresh_id_existsb i w Hf), (no_account_existsb e w Hn).
  reflexivity.
Qed.

Lemma createUser2_fresh w i e :
  healthy w -> no_account e w -> ~ In i (map id (users w)) ->
  CreditUtils2.createUser i e w =
  (Returns (new_account i e INITIAL_CREDITS (now w)),
   with_users (users w ++ [new_account i e INITIAL_CREDITS (now w)]) w).
Proof.
  intros (Ho & Ha & Hd) Hn Hf. unfold CreditUtils2.createUser.
  apply try_returns. rewrite Ha. cbv beta iota delta [negb].
  erewrite bind_returns
    by (apply call_healthy;
        [assumption | assumption | apply insert_user_fresh; assumption]).
  reflexivity.
Qed.

Lemma created_keys w i e :
  keys_unique w -> no_account e w -> ~ In i (map id (users w)) ->
  keys_unique (with_users (users w ++ [new_account i e INITIAL_CREDITS (now w)]) w) /\
  In (new_account i e INITIAL_CREDITS (now w))
     (users (with_users (users w ++ [new_account i e INITIAL_CREDITS (now w)]) w)).
Proof.
  intros Hk Hn Hf. split.
  - pose proof (keys_unique_insert i e INITIAL_CREDITS w Hk) as H.
    rewrite (insert_user_fresh w i e Hn Hf) in H. exact H.
  - simpl. apply in_or_app. right. left. reflexivity.
Qed.

(** A grant for a buyer without an account, given the identifier of the
    auth user: the account is created with no credits and then topped
    up. *)
Lemma addCredits2_creates w i e (n : Z) p x :
  healthy w -> keys_unique w -> no_account e w ->
  i <> "" -> ~ In i (map id (users w)) ->
  fits n -> expiry_written w p x ->
  CreditUtils2.addCredits e n p (Some i) w =
  (Returns (topped_up n p x (now w) (new_account i e INITIAL_CREDITS (now w))),
   granted (new_account i e INITIAL_CREDITS (now w)) n p x
     (with_users (users w ++ [new_account i e INITIAL_CREDITS (now w)]) w)).
Proof.
  intros Hh Hk Hn Hi Hf Hfit Hx.
  set (u0 := new_account i e INITIAL_CREDITS (now w)).
  set (wc := with_users (users w ++ [u0]) w).
  destruct (created_keys w i e Hk Hn Hf) as [Hkc Huc].
  fold u0 in Hkc, Huc. fold wc in Hkc, Huc.
  assert (Hhc : healthy wc) by exact Hh.
  assert (Hxc : expiry_written wc p x) by exact Hx.
  assert (Hfit0 : fits (credits u0 + n))
    by (unfold fits in *; simpl; unfold INITIAL_CREDITS; lia).
  pose proof (addCredits2_success wc u0 n p None x Hhc Hkc Huc Hfit0 Hfit Hxc) as Hs.
  pose proof Hh as (Ho & Ha & Hd).
  unfold CreditUtils2.addCredits in *.
  apply try_rethrow_returns_inv in Hs.
  erewrite bind_returns in Hs
    by (apply getUserByEmail2_found; [exact Ho | exact Ha | exact Hkc | exact Huc]).
  cbv beta iota in Hs.
  erewrite bind_returns in Hs by reflexivity.
  apply try_returns.
  erewrite bind_returns by (apply getUserByEmail2_absent; assumption).
  cbv beta iota. rewrite (proj2 (String.eqb_neq _ _) Hi).
  erewrite bind_returns by (apply createUser2_fresh; assumption).
  exact Hs.
Qed.

Lemma createUser_fresh w i e :
  healthy w -> no_account e w -> ~ In i (map id (users w)) ->
  CreditUtils.createUser i e w =
  (Returns (new_account i e INITIAL_CREDITS (now w)),
   with_users (users w ++ [new_account i e INITIAL_CREDITS (now w)]) w).
Proof.
  intros (Ho & Ha & Hd) Hn Hf. unfold CreditUtils.createUser.
  apply try_returns.
  erewrite bind_returns
    by (apply call_healthy;
        [assumption | assumption | apply insert_user_fresh; assumption]).
  reflexivity.
Qed.

Lemma addCredits_creates w i e (n : Z) p x :
  healthy w -> keys_unique w -> no_account e w ->
  i <> "" -> ~ In i (map id (users w)) ->
  fits n -> expiry_written w p x ->
  CreditUtils.addCredits e n p (Some i) w =
  (Returns (topped_up n p x (now w) (new_account i e INITIAL_CREDITS (now w))),
   granted (new_account i e INITIAL_CREDITS (now w)) n p x
     (with_users (users w ++ [new_account i e INITIAL_CREDITS (now w)]) w)).
Proof.
  intros Hh Hk Hn Hi Hf Hfit Hx.
  set (u0 := new_account i e INITIAL_CREDITS (now w)).
  set (wc := with_users (users w ++ [u0]) w).
  destruct (created_keys w i e Hk Hn Hf) as [Hkc Huc].
  fold u0 in Hkc, Huc. fold wc in Hkc, Huc.
  assert (Hhc : healthy wc) by exact Hh.
  assert (Hxc : expiry_written wc p x) by exact Hx.
  assert (Hfit0 : fits (credits u0 + n))
    by (unfold fits in *; simpl; unfold INITIAL_CREDITS; lia).
  pose proof (addCredits_success wc u0 n p None x Hhc Hkc Huc Hfit0 Hfit Hxc) as Hs.
  pose proof Hh as (Ho & Ha & Hd).
  unfold CreditUtils.addCredits in *.
  apply try_rethrow_returns_inv in Hs.
  erewrite bind_returns in Hs
    by (apply getUserByEmail_found; [exact Ho | exact Ha | exact Hkc | exact Huc]).
  cbv beta iota in Hs.
  erewrite bind_returns in Hs by reflexivity.
  apply try_returns.
  erewrite bind_returns by (apply getUserByEmail_absent; assumption).
  cbv beta iota. rewrite (proj2 (String.eqb_neq _ _) Hi).
  erewrite bind_returns by (apply createUser_fresh; assumption).
  exact Hs.
Qed.

(** Sign-up with a password for an email the auth directory does not hold:
    the auth service creates the user and hands out its identifier. *)
Lemma signUpUser_new w e password :
  healthy w -> truthy_text password = true ->
  existsb (by_auth_email e) (auth_users w) = false ->
  uuid w (issued w) <> "" ->
  CreditUtils.signUpUser e password w =
  (Returns (Some (uuid w (issued w))),
   with_auth (auth_users w ++ [mkAuthUser (uuid w (issued w)) e])
     (S (issued w)) w) /\
  CreditUtils2.signUpUser e password w =
  (Returns (Some (uuid w (issued w))),
   with_auth (auth_users w ++ [mkAuthUser (uuid w (issued w)) e])
     (S (issued w)) w).
Proof.
  intros (Ho & Ha & Hd) Hpw Hauth Hid.
  destruct password as [[|c s]|]; try discriminate.
  unfold CreditUtils.signUpUser, CreditUtils2.signUpUser.
  rewrite Hd. cbv beta iota delta [negb].
  assert (Hcall :
    call_auth Admin (auth_create_user e) w =
    (Returns (Data (uuid w (issued w))),
     with_auth (auth_users w ++ [mkAuthUser (uuid w (issued w)) e])
       (S (issued w)) w)).
  { apply call_auth_healthy; [assumption | assumption |].
    unfold auth_create_user. rewrite Hauth. reflexivity. }
  split.
  - erewrite bind_returns by exact Hcall. cbv beta iota.
    rewrite (proj2 (String.eqb_neq _ _) Hid). reflexivity.
  - erewrite bind_returns by exact Hcall. cbv beta iota.
    rewrite (proj2 (String.eqb_neq _ _) Hid). reflexivity.
Qed.

(** The first delivery of a trial start for a new buyer: the GrooveSell
    handler creates the account, grants the trial amount and sets the
    tier. *)
Lemma GrooveSell_trial_start_new_buyer w e body t :
  healthy w -> keys_unique w ->
  groovesell_trial_start body e t -> new_buyer body e w ->
  exists r w',
    GrooveSell.POST (Some body) w = (Returns r, w') /\
    success_shaped r = true /\
    healthy w' /\ keys_unique w' /\
    users w' =
      (users w ++
       [with_tier t (now w)
          (topped_up 3 None None (now w)
             (new_account (uuid w (issued w)) e 0 (now w)))])%list /\
    credit_transactions w' =
      logged (uuid w (issued w)) 3 purchase "manual credit purchase"
        (now w) (credit_transactions w).
Proof.
  intros Hh Hk (Hmail & Hne & (productId & Hpid & Hfound) & Hev & Hone)
    (Hn & Hauth & Hpw & Hid & Hfresh).
  destruct (product_found_lookup productId t Hfound) as (cfg & Hcfg & Htier & Hpne).
  apply is_one_of in Hone.
  set (i := uuid w (issued w)) in *.
  set (wa := with_auth (auth_users w ++ [mkAuthUser i e]) (S (issued w)) w).
  set (u0 := new_account i e INITIAL_CREDITS (now w)).
  set (wc := with_users (users w ++ [u0]) wa).
  set (u' := topped_up 3 None None (now w) u0).
  destruct (signUpUser_new w e (body_password body) Hh Hpw Hauth Hid)
    as [_ Hsign].
  fold i in Hsign. fold wa in Hsign.
  assert (Hha : healthy wa) by exact Hh.
  assert (Hka : keys_unique wa) by exact Hk.
  assert (Hna : no_account e wa) by exact Hn.
  assert (Hfa : ~ In i (map id (users wa))) by exact Hfresh.
  assert (Hlog : fits 3) by (unfold fits; lia).
  pose proof (addCredits2_creates wa i e 3 None None Hha Hka Hna Hid Hfa Hlog eq_refl)
    as Hadd.
  destruct (created_keys wa i e Hka Hna Hfa) as [Hkc Huc].
  change (keys_unique wc) in Hkc. change (In u0 (users wc)) in Huc.
  destruct (granted_keys wc u0 3 None None Hkc Huc) as [Hkg Hug].
  pose proof Hh as (Ho & Ha & Hd).
  assert (Hpost :
    GrooveSell.POST (Some body) w =
    (Returns
       (respond
          (SuccessBody "Trial started: 3 credits added"
             (Some (UserSummary e 3 t None))
             None)),
     with_users
       (update_rows (by_id i)
          {| set_credits := None; set_subscription_type := None;
             set_subscription_tier := t;
             set_subscription_expires_at := None;
             set_updated_at := Some (now w) |}
          (granted u0 3 None None wc))
       (granted u0 3 None None wc))).
  { unfold GrooveSell.POST. apply try_returns.
    erewrite bind_returns by reflexivity.
    cbv beta zeta. rewrite Hmail, Hpid. cbv beta iota.
    rewrite (proj2 (String.eqb_neq _ _) Hne).
    rewrite Hpne, Hcfg.
    cbv beta iota delta [orb].
    rewrite Hev, Hone. cbv beta iota delta [text_is andb].
    rewrite String.eqb_refl. cbv beta iota.
    erewrite bind_returns by (apply try_returns; exact Hsign).
    erewrite bind_returns by exact Hadd.
    erewrite bind_returns by (apply update_tier_healthy; [exact Ho | exact Hd]).
    rewrite Htier. reflexivity. }
  eexists _, _.
  split; [exact Hpost|]. split; [reflexivity|].
  split; [exact Hh|].
  split.
  { pose proof (proj1 (routes_keep_keys (Some body) w Hk)) as Hkeep.
    rewrite Hpost in Hkeep. exact Hkeep. }
  split; [|reflexivity].
  cbn [users with_users].
  rewrite (update_rows_single _ _ (granted u0 3 None None wc) u' Hkg
             (filter_by_id _ _ Hkg Hug)).
  cbn [users with_users granted with_transactions].
  change (id u') with (id u0).
  rewrite replace_row_twice by reflexivity.
  rewrite (replace_row_last (users w) u0 _ Hfresh).
  reflexivity.
Qed.

(** The first delivery of a trial start for a new buyer on the credits
    route: the account is created and granted the trial amount. *)
Lemma CreditsRoute_trial_start_new_buyer w e body :
  healthy w -> keys_unique w ->
  credits_trial_start body e -> new_buyer body e w ->
  exists r w',
    CreditsRoute.POST (Some body) w = (Returns r, w') /\
    success_shaped r = true /\
    healthy w' /\ keys_unique w' /\
    users w' =
      (users w ++
       [topped_up 3 None None (now w)
          (new_account (uuid w (issued w)) e 0 (now w))])%list /\
    credit_transactions w' =
      logged (uuid w (issued w)) 3 purchase "manual credit purchase"
        (now w) (credit_transactions w).
Proof.
  intros Hh Hk (Hmail & Hne & Hev & Hact) (Hn & Hauth & Hpw & Hid & Hfresh).
  set (i := uuid w (issued w)) in *.
  set (wa := with_auth (auth_users w ++ [mkAuthUser i e]) (S (issued w)) w).
  set (u0 := new_account i e INITIAL_CREDITS (now w)).
  set (wc := with_users (users w ++ [u0]) wa).
  set (u' := topped_up 3 None None (now w) u0).
  destruct (signUpUser_new w e (body_password body) Hh Hpw Hauth Hid)
    as [Hsign _].
  fold i in Hsign. fold wa in Hsign.
  assert (Hha : healthy wa) by exact Hh.
  assert (Hka : keys_unique wa) by exact Hk.
  assert (Hna : no_account e wa) by exact Hn.
  assert (Hfa : ~ In i (map id (users wa))) by exact Hfresh.
  assert (Hlog : fits 3) by (unfold fits; lia).
  pose proof (addCredits_creates wa i e 3 None None Hha Hka Hna Hid Hfa Hlog eq_refl)
    as Hadd.
  destruct (created_keys wa i e Hka Hna Hfa) as [Hkc Huc].
  change (keys_unique wc) in Hkc. change (In u0 (users wc)) in Huc.
  destruct (granted_keys wc u0 3 None None Hkc Huc) as [Hkg Hug].
  assert (Hpost :
    CreditsRoute.POST (Some body) w =
    (Returns
       (respond
          (SuccessBody
             "Added 3 credits for subscription-trial-start"
             (Some (FullUser u')) None)),
     granted u0 3 None None wc)).
  { unfold CreditsRoute.POST. apply try_returns.
    erewrite bind_returns by reflexivity.
    cbv beta zeta. rewrite Hmail, Hev, Hact.
    destruct e as [|c s]; [congruence|].
    cbv beta iota.
    change (text_is (Some "subscription-trial-start") "subscription-trial-start")
      with true.
    change (truthy_text (Some "subscription-trial-start")) with true.
    cbv beta iota delta [orb].
    erewrite bind_returns by exact Hsign.
    erewrite bind_returns by exact Hadd.
    reflexivity. }
  eexists _, _.
  split; [exact Hpost|]. split; [reflexivity|].
  split; [exact Hh|]. split; [exact Hkg|].
  split; [|reflexivity].
  cbn [users with_users granted with_transactions].
  exact (replace_row_last (users w) u0 u' Hfresh).
Qed.

Section ReplayNewBuyer.

Variable post : option Body -> M Response.
Variable balance : string -> M Z.
Variable event_for : string -> Prop.
Variable body : Body.
Variable next : Z -> User -> User.

Hypothesis next_id : forall t u, id (next t u) = id u.
Hypothesis next_email : forall t u, email (next t u) = email u.
Hypothesis next_credits : forall t u, credits (next t u) = credits u + 3.

Hypothesis balance_found :
  forall w u, healthy w -> keys_unique w -> In u (users w) ->
    balance (email u) w = (Returns (credits u), w).

Hypothesis first_delivery :
  forall w e, healthy w -> keys_unique w -> event_for e -> new_buyer body e w ->
    exists r w',
      post (Some body) w = (Returns r, w') /\ success_shaped r = true /\
      healthy w' /\ keys_unique w' /\
      users w' =
        (users w ++
         [next (now w) (new_account (uuid w (issued w)) e 0 (now w))])%list /\
      credit_transactions w' =
        logged (uuid w (issued w)) 3 purchase
          "manual credit purchase" (now w) (credit_transactions w).

Hypothesis delivery :
  forall w u, healthy w -> keys_unique w -> In u (users w) ->
    fits (credits u + 3) -> event_for (email u) ->
    exists r w',
      post (Some body) w = (Returns r, w') /\ success_shaped r = true /\
      healthy w' /\ now w' = now w /\
      users w' = replace_row (id u) (next (now w) u) (users w) /\
      credit_transactions w' =
        logged (id u) 3 purchase "manual credit purchase" (now w)
          (credit_transactions w).

Lemma replay_of_new_buyer w e :
  healthy w -> keys_unique w -> event_for e -> new_buyer body e w ->
  replay_grants_twice post balance w
    (new_account (uuid w (issued w)) e INITIAL_CREDITS (now w)) body.
Proof.
  intros Hh Hk Hev Hnew.
  destruct (first_delivery w e Hh Hk Hev Hnew)
    as (r1 & w1 & Hp1 & Hs1 & Hh1 & Hk1 & Hus1 & Htx1).
  set (u1 := next (now w) (new_account (uuid w (issued w)) e 0 (now w))) in *.
  assert (Hu1 : In u1 (users w1))
    by (rewrite Hus1; apply in_or_app; right; left; reflexivity).
  assert (He1 : email u1 = e) by (unfold u1; rewrite next_email; reflexivity).
  assert (Hi1 : id u1 = uuid w (issued w))
    by (unfold u1; rewrite next_id; reflexivity).
  assert (Hc1 : credits u1 = 3) by (unfold u1; rewrite next_credits; reflexivity).
  exists r1, w1. cbn [email credits id new_account].
  split; [exact Hp1|]. split; [exact Hs1|].
  split.
  { change (INITIAL_CREDITS + 3) with 3. rewrite <- He1, <- Hc1.
    apply balance_found; assumption. }
  intros later.
  assert (Hh1' : healthy (at_time later w1)) by exact Hh1.
  assert (Hk1' : keys_unique (at_time later w1)) by exact Hk1.
  assert (Hu1' : In u1 (users (at_time later w1))) by exact Hu1.
  assert (Hev1 : event_for (email u1)) by (rewrite He1; exact Hev).
  assert (Hfit1 : fits (credits u1 + 3)) by (rewrite Hc1; unfold fits; lia).
  destruct (delivery (at_time later w1) u1 Hh1' Hk1' Hu1' Hfit1 Hev1)
    as (r2 & w2 & Hp2 & Hs2 & Hh2 & Hn2 & Hus2 & Htx2).
  destruct (keys_unique_replaced (at_time later w1) w2 u1
              (next (now (at_time later w1)) u1)
              Hk1' Hu1' (next_id _ _) (next_email _ _) Hus2) as [Hk2 Hu2].
  exists r2, w2.
  split; [exact Hp2|]. split; [exact Hs2|].
  split.
  { assert (Hc2 : credits (next (now (at_time later w1)) u1) = 6)
      by (rewrite next_credits, Hc1; reflexivity).
    assert (He2 : email (next (now (at_time later w1)) u1) = e)
      by (rewrite next_email; exact He1).
    change (INITIAL_CREDITS + 6) with 6. rewrite <- He2, <- Hc2.
    apply balance_found; assumption. }
  eexists _, _. split.
  { rewrite Htx2. cbn [credit_transactions at_time]. rewrite Htx1.
    unfold logged. rewrite <- app_assoc. reflexivity. }
  cbn. rewrite Hi1. repeat split; reflexivity.
Qed.

End ReplayNewBuyer.

Lemma new_buyer_on_the_shop : new_buyer new_buyer_trial "new@x.com" shop.
Proof.
  split.
  { intros u [<- | [<- | []]]; discriminate. }
  split; [reflexivity|]. split; [reflexivity|].
  split; [discriminate|].
  simpl. intros [H | [H | []]]; discriminate.
Qed.

Lemma new_buyer_trial_groovesell :
  groovesell_trial_start new_buyer_trial "new@x.com" (Some standard).
Proof.
  split; [reflexivity|]. split; [discriminate|].
  split; [exists "90211"; split; [reflexivity | right; left; split; reflexivity]|].
  split; [reflexivity|]. exists 1%Q. split; reflexivity.
Qed.

Lemma new_buyer_trial_credits : credits_trial_start new_buyer_trial "new@x.com".
Proof.
  split; [reflexivity|]. split; [discriminate|]. split; reflexivity.
Qed.

(** ** C7 *)




(** The product table is a plain object: a trial start whose product id is
    [toString] is taken like one for a product, grants the 3 credits, and
    leaves the tier as it was. *)
Example trial_start_for_an_inherited_name :
  let body :=
    {| body_event := Some "subscription-trial-start";
       body_buyer_email := Some "b@x.com";
       body_product_id := Some "toString";
       body_subscription_type := None;
       body_amount := Js.JStr "0.00";
       body_trial_transaction := Js.JNum 1;
       body_password := None;
       body_action := None |} in
  groovesell_trial_start body "b@x.com" None /\
  fst (GrooveSell.POST (Some body) shop) =
    Returns
      (respond
         (SuccessBody "Trial started: 3 credits added"
            (Some (UserSummary "b@x.com" 3 None None)) None)) /\
  map (fun u => (email u, credits u, subscription_tier u))
      (users (snd (GrooveSell.POST (Some body) shop))) =
    [("a@x.com", 3, None); ("b@x.com", 3, Some standard)].
Proof.
  split.
  { split; [reflexivity|]. split; [discriminate|].
    split.
    { exists "toString". split; [reflexivity|].
      right; right; right. split; [simpl; auto | reflexivity]. }
    split; [reflexivity|]. exists 1%Q. split; reflexivity. }
  vm_compute. split; reflexivity.
Qed.

(** ** C6 *)




Example trial_start_twice_on_the_shop :
  let w1 := snd (GrooveSell.POST (Some trial_body) shop) in
  let w2 := snd (GrooveSell.POST (Some trial_body) (at_time 1793710800000 w1)) in
  fst (CreditUtils2.getCreditBalance "a@x.com" shop) = Returns 3 /\
  fst (CreditUtils2.getCreditBalance "a@x.com" w1) = Returns 6 /\
  fst (CreditUtils2.getCreditBalance "a@x.com" w2) = Returns 9 /\
  map amount (credit_transactions w2) = [3; 3].
Proof. vm_compute. repeat split; reflexivity. Qed.


(** * Further properties of the ledger *)

(** ** The tier check of the multi-person feature *)

(** X1. On every world, whatever the store does, [canAccessMultiplePhotos]
    returns and does not throw, and it writes nothing: it answers [false]
    for an account of the basic tier and [true] for an account of any other
    tier or of none, [false] when the store answers and no account carries
    the email, and [true] when the store errors or cannot be reached. *)
Theorem canAccessMultiplePhotos_fails_open :
  forall (w : World) (e : string),
    advisory CreditUtils2.canAccessMultiplePhotos true false
      (fun u => match subscription_tier u with
                | Some basic => false
                | _ => true
                end) w e.
Proof.
  intros w e.
  destruct (advisory_of CreditUtils2.getUserByEmail (@hd_error User)
              true false
              (fun u => match subscription_tier u with
                        | Some basic => false
                        | _ => true
                        end) w e
              (getUserByEmail2_outcome w e) eq_refl (fun u => eq_refl))
    as (a & w' & Hrun & Hrest).
  exists a, w'. split; [|exact Hrest].
  rewrite <- Hrun.
  unfold CreditUtils2.canAccessMultiplePhotos, try_catch, bind.
  destruct (CreditUtils2.getUserByEmail e w) as [[[u|]|err] w1];
    try reflexivity.
  destruct (subscription_tier u) as [[| |]|]; reflexivity.
Qed.

(** ** Accounts got or created *)

Lemma existsb_by_email_member e us :
  In e (map email us) -> existsb (by_email e) us = true.
Proof.
  intros H. apply in_map_iff in H. destruct H as (x & Hx & Hin).
  apply existsb_exists. exists x. split; [exact Hin|].
  unfold by_email. apply String.eqb_eq. exact Hx.
Qed.

Lemma getOrCreateUser_found w u i :
  healthy w -> keys_unique w -> In u (users w) ->
  CreditUtils.getOrCreateUser i (email u) w = (Returns u, w) /\
  CreditUtils2.getOrCreateUser i (email u) w = (Returns u, w).
Proof.
  intros (Ho & Ha & Hd) Hk Hu.
  unfold CreditUtils.getOrCreateUser, CreditUtils2.getOrCreateUser.
  split; apply try_returns.
  - erewrite bind_returns by (apply getUserByEmail_found; assumption).
    reflexivity.
  - erewrite bind_returns by (apply getUserByEmail2_found; assumption).
    reflexivity.
Qed.

Lemma getOrCreateUser_fresh w i e :
  healthy w -> no_account e w -> ~ In i (map id (users w)) ->
  CreditUtils.getOrCreateUser i e w =
    (Returns (new_account i e 0 (now w)),
     with_users (users w ++ [new_account i e 0 (now w)]) w) /\
  CreditUtils2.getOrCreateUser i e w =
    (Returns (new_account i e 0 (now w)),
     with_users (users w ++ [new_account i e 0 (now w)]) w).
Proof.
  intros Hh Hn Hf. pose proof Hh as (Ho & Ha & Hd).
  unfold CreditUtils.getOrCreateUser, CreditUtils2.getOrCreateUser.
  split; apply try_returns.
  - erewrite bind_returns by (apply getUserByEmail_absent; assumption).
    apply createUser_fresh; assumption.
  - erewrite bind_returns by (apply getUserByEmail2_absent; assumption).
    apply createUser2_fresh; assumption.
Qed.

(** X2. Against a healthy store that keeps its key constraints,
    [getOrCreateUser(id, email)] returns the account that carries the email
    and writes nothing; when there is none and the identifier is not taken
    it appends an account with that identifier, the email and no credits,
    and a second call, with whatever identifier, returns the same account
    and creates nothing more.  Both revisions of the ledger. *)
Theorem getOrCreateUser_gets_or_creates :
  forall (w : World) (i e : string),
    healthy w -> keys_unique w ->
    gets_or_creates CreditUtils.getOrCreateUser w i e /\
    gets_or_creates CreditUtils2.getOrCreateUser w i e.
Proof.
  intros w i e Hh Hk.
  assert (Hagain : no_account e w -> ~ In i (map id (users w)) ->
            forall i',
              CreditUtils.getOrCreateUser i' e
                (with_users (users w ++ [new_account i e 0 (now w)]) w) =
              (Returns (new_account i e 0 (now w)),
               with_users (users w ++ [new_account i e 0 (now w)]) w) /\
              CreditUtils2.getOrCreateUser i' e
                (with_users (users w ++ [new_account i e 0 (now w)]) w) =
              (Returns (new_account i e 0 (now w)),
               with_users (users w ++ [new_account i e 0 (now w)]) w)).
  { intros Hn Hf i'.
    destruct (created_keys w i e Hk Hn Hf) as [Hk' Hu'].
    exact (getOrCreateUser_found
             (with_users (users w ++ [new_account i e 0 (now w)]) w)
             (new_account i e 0 (now w)) i' Hh Hk' Hu'). }
  split; split.
  - intros u Hu <-. apply getOrCreateUser_found; assumption.
  - intros Hn Hf. cbv zeta. split.
    + apply getOrCreateUser_fresh; assumption.
    + intros i'. apply Hagain; assumption.
  - intros u Hu <-. apply getOrCreateUser_found; assumption.
  - intros Hn Hf. cbv zeta. split.
    + apply getOrCreateUser_fresh; assumption.
    + intros i'. apply Hagain; assumption.
Qed.

Lemma getOrCreateUser_gets_or_creates_witness :
  healthy shop /\ keys_unique shop /\
  gets_or_creates CreditUtils.getOrCreateUser shop "7d9f0c1e-0003" "c@x.com" /\
  gets_or_creates CreditUtils2.getOrCreateUser shop "7d9f0c1e-0003" "c@x.com".
Proof.
  assert (Hh : healthy shop) by (repeat split).
  assert (Hk : keys_unique shop)
    by (split; simpl; repeat constructor; simpl; intuition discriminate).
  split; [exact Hh|]. split; [exact Hk|].
  exact (getOrCreateUser_gets_or_creates shop "7d9f0c1e-0003" "c@x.com" Hh Hk).
Defined.

(** X3. Against a healthy store, [createUser(id, email)] with an
    identifier or an email that an account already carries throws
    CREATE_USER_ERROR with the message of the unique-key violation, which
    names the constraint of the key that is taken (users_pkey for the
    identifier, users_email_key for the email), and leaves the world as it
    was: no account is added or overwritten.  Both revisions of the
    ledger. *)
Theorem createUser_refuses_duplicates :
  forall (w : World) (i e : string),
    healthy w ->
    In i (map id (users w)) \/ In e (map email (users w)) ->
    exists constraint,
      ((constraint = "users_pkey" /\ In i (map id (users w))) \/
       (constraint = "users_email_key" /\ In e (map email (users w)))) /\
      CreditUtils.createUser i e w =
        (Throws (CreditError
                   ("Failed to create user: duplicate key value violates unique constraint "
                    ++ quoted constraint)
                   "CREATE_USER_ERROR"), w) /\
      CreditUtils2.createUser i e w =
        (Throws (CreditError
                   ("Failed to create user: duplicate key value violates unique constraint "
                    ++ quoted constraint)
                   "CREATE_USER_ERROR"), w).
Proof.
  intros w i e (Ho & Ha & Hd) Htaken.
  assert (Hq : exists constraint,
            ((constraint = "users_pkey" /\ In i (map id (users w))) \/
             (constraint = "users_email_key" /\ In e (map email (users w)))) /\
            insert_user i e INITIAL_CREDITS w =
              (Error (unique_violation constraint), w)).
  { unfold insert_user. cbn [INITIAL_CREDITS in_integer Z.leb Z.compare andb negb].
    destruct (existsb (by_id i) (users w)) eqn:Ei.
    - exists "users_pkey". split; [|reflexivity].
      left. split; [reflexivity|]. apply existsb_by_id. exact Ei.
    - destruct Htaken as [Hi | He].
      + apply existsb_by_id in Hi. congruence.
      + exists "users_email_key". split; [right; split; [reflexivity | exact He]|].
        rewrite (existsb_by_email_member e (users w) He). reflexivity. }
  destruct Hq as (constraint & Hc & Hq).
  exists constraint. split; [exact Hc|].
  unfold CreditUtils.createUser, CreditUtils2.createUser. split.
  - erewrite try_throws.
    2:{ erewrite bind_returns by (apply call_healthy; [assumption | assumption | exact Hq]).
        reflexivity. }
    reflexivity.
  - erewrite try_throws.
    2:{ rewrite Ha. cbv beta iota delta [negb].
        erewrite bind_returns by (apply call_healthy; [assumption | assumption | exact Hq]).
        reflexivity. }
    reflexivity.
Qed.

Lemma createUser_refuses_duplicates_witness :
  healthy shop /\
  (In "7d9f0c1e-0009" (map id (users shop)) \/ In "a@x.com" (map email (users shop))) /\
  exists constraint,
    ((constraint = "users_pkey" /\ In "7d9f0c1e-0009" (map id (users shop))) \/
     (constraint = "users_email_key" /\ In "a@x.com" (map email (users shop)))) /\
    CreditUtils.createUser "7d9f0c1e-0009" "a@x.com" shop =
      (Throws (CreditError
                 ("Failed to create user: duplicate key value violates unique constraint "
                  ++ quoted constraint)
                 "CREATE_USER_ERROR"), shop) /\
    CreditUtils2.createUser "7d9f0c1e-0009" "a@x.com" shop =
      (Throws (CreditError
                 ("Failed to create user: duplicate key value violates unique constraint "
                  ++ quoted constraint)
                 "CREATE_USER_ERROR"), shop).
Proof.
  assert (Hh : healthy shop) by (repeat split).
  assert (Ht : In "7d9f0c1e-0009" (map id (users shop)) \/
               In "a@x.com" (map email (users shop)))
    by (right; simpl; auto).
  split; [exact Hh|]. split; [exact Ht|].
  exact (createUser_refuses_duplicates shop "7d9f0c1e-0009" "a@x.com" Hh Ht).
Defined.

Example createUser_with_a_taken_email :
  fst (CreditUtils.createUser "7d9f0c1e-0009" "a@x.com" shop) =
  Throws (CreditError
            ("Failed to create user: duplicate key value violates unique constraint "
             ++ quoted "users_email_key")
            "CREATE_USER_ERROR").
Proof. reflexivity. Qed.


(** ** Grants to a buyer without an account *)

Lemma grants_to_newcomer_of
    (run : string -> Num -> option SubscriptionType -> option string -> M User)
    (balance : string -> M Z) w e (n : Z) p :
  keys_unique w -> no_account e w -> ordinary_host w ->
  run e n p None w =
    (Throws (CreditError "User not found and no auth ID provided" "USER_NOT_FOUND"), w) ->
  run e n p (Some "") w =
    (Throws (CreditError "User not found and no auth ID provided" "USER_NOT_FOUND"), w) ->
  (forall i x, i <> "" -> ~ In i (map id (users w)) -> expiry_written w p x ->
   run e n p (Some i) w =
   (Returns (topped_up n p x (now w) (new_account i e INITIAL_CREDITS (now w))),
    granted (new_account i e INITIAL_CREDITS (now w)) n p x
      (with_users (users w ++ [new_account i e INITIAL_CREDITS (now w)]) w))) ->
  (forall w0 u, outages w0 = [] -> anon_client w0 = true -> keys_unique w0 ->
   In u (users w0) -> balance (email u) w0 = (Returns (credits u), w0)) ->
  healthy w ->
  grants_to_newcomer run balance w e n p.
Proof.
  intros Hk Hn Hhost Hnone Hempty Hsome Hbal (Ho & Ha & Hd).
  split; [exact Hnone|]. split; [exact Hempty|].
  intros i Hi Hf.
  destruct (expiry_on_ordinary_host w p Hhost) as (x & Hx & Hperiod).
  set (u0 := new_account i e INITIAL_CREDITS (now w)).
  set (wc := with_users (users w ++ [u0]) w).
  destruct (created_keys w i e Hk Hn Hf) as [Hkc Huc].
  fold u0 in Hkc, Huc. fold wc in Hkc, Huc.
  destruct (granted_keys wc u0 n p x Hkc Huc) as [Hkg Hug].
  exists (topped_up n p x (now w) u0), (granted u0 n p x wc).
  split; [apply Hsome; assumption|].
  split; [reflexivity|]. split; [reflexivity|]. split; [reflexivity|].
  split; [destruct p; reflexivity|]. split; [reflexivity|].
  split.
  { destruct p as [q|].
    - destruct Hperiod as (expiry & -> & Hp). exists expiry.
      split; [reflexivity | exact Hp].
    - rewrite Hperiod. reflexivity. }
  split.
  { cbn [users granted with_transactions with_users wc].
    change (replace_row (id u0) (topped_up n p x (now w) u0) (users w ++ [u0]) =
            (users w ++ [topped_up n p x (now w) u0])%list).
    rewrite replace_row_app, (replace_row_fresh (id u0) _ (users w) Hf).
    unfold replace_row, by_id. cbn [map]. rewrite String.eqb_refl. reflexivity. }
  split; [reflexivity|].
  exact (Hbal (granted u0 n p x wc) (topped_up n p x (now w) u0) Ho Ha Hkg Hug).
Qed.

(** X4. Against a healthy store that keeps its key constraints, on a host
    of our days, a grant of an amount the INTEGER column holds for an
    email no account carries is refused with USER_NOT_FOUND when
    [addCredits] is given no identifier (or an empty one), and then nothing
    is written; given an identifier that is not empty and not taken, it
    creates the account with that identifier and the email, which then
    holds exactly the granted amount, the period given and an expiry one
    period on, and logs one purchase.  Both revisions of the ledger. *)
Theorem addCredits_for_a_newcomer :
  forall (w : World) (e : string) (n : Z) (p : option SubscriptionType),
    healthy w -> keys_unique w -> ordinary_host w -> no_account e w ->
    -2147483648 <= n <= 2147483647 ->
    grants_to_newcomer CreditUtils.addCredits CreditUtils.getCreditBalance w e n p /\
    grants_to_newcomer CreditUtils2.addCredits CreditUtils2.getCreditBalance w e n p.
Proof.
  intros w e n p Hh Hk Hhost Hn Hfit. pose proof Hh as (Ho & Ha & Hd).
  split; apply grants_to_newcomer_of; try assumption.
  - unfold CreditUtils.addCredits. erewrite try_throws.
    2:{ erewrite bind_returns by (apply getUserByEmail_absent; assumption).
        reflexivity. }
    reflexivity.
  - unfold CreditUtils.addCredits. erewrite try_throws.
    2:{ erewrite bind_returns by (apply getUserByEmail_absent; assumption).
        reflexivity. }
    reflexivity.
  - intros i x Hi Hf Hx. apply addCredits_creates; assumption.
  - intros w0 u. apply getCreditBalance_found.
  - unfold CreditUtils2.addCredits. erewrite try_throws.
    2:{ erewrite bind_returns by (apply getUserByEmail2_absent; assumption).
        reflexivity. }
    reflexivity.
  - unfold CreditUtils2.addCredits. erewrite try_throws.
    2:{ erewrite bind_returns by (apply getUserByEmail2_absent; assumption).
        reflexivity. }
    reflexivity.
  - intros i x Hi Hf Hx. apply addCredits2_creates; assumption.
  - intros w0 u. apply getCreditBalance2_found.
Qed.

Lemma addCredits_for_a_newcomer_witness :
  healthy shop /\ keys_unique shop /\ ordinary_host shop /\
  no_account "new@x.com" shop /\ -2147483648 <= 5 <= 2147483647 /\
  grants_to_newcomer CreditUtils.addCredits CreditUtils.getCreditBalance
    shop "new@x.com" 5 (Some monthly) /\
  grants_to_newcomer CreditUtils2.addCredits CreditUtils2.getCreditBalance
    shop "new@x.com" 5 (Some monthly).
Proof.
  assert (Hh : healthy shop) by (repeat split).
  assert (Hk : keys_unique shop)
    by (split; simpl; repeat constructor; simpl; intuition discriminate).
  assert (Hn : no_account "new@x.com" shop)
    by (intros u [<- | [<- | []]]; discriminate).
  assert (Hfit : -2147483648 <= 5 <= 2147483647) by lia.
  split; [exact Hh|]. split; [exact Hk|]. split; [exact shop_ordinary_host|].
  split; [exact Hn|]. split; [exact Hfit|].
  exact (addCredits_for_a_newcomer shop "new@x.com" 5 (Some monthly)
           Hh Hk shop_ordinary_host Hn Hfit).
Defined.

(** A grant beyond the column to a buyer without an account leaves the
    account behind, with no credits. *)
Example grant_beyond_the_column_to_a_newcomer :
  let r := CreditUtils.addCredits "new@x.com" 2147483648 None (Some "7d9f0c1e-0003") shop in
  (exists m, fst r = Throws (CreditError m "ADD_CREDITS_ERROR")) /\
  map email (users (snd r)) = ["a@x.com"; "b@x.com"; "new@x.com"] /\
  map credits (users (snd r)) = [3; 0; 0] /\
  credit_transactions (snd r) = [].
Proof. vm_compute. split; [eexists; reflexivity|]. repeat split; reflexivity. Qed.

(** ** A grant followed by a debit *)

Lemma grant_then_debit_of
    (grant : string -> Num -> option SubscriptionType -> option string -> M User)
    (debit : string -> Z -> M User) (balance : string -> M Z) w u (n : Z) p :
  (forall w0 u0 (n0 : Z) p0 auth x, healthy w0 -> keys_unique w0 -> In u0 (users w0) ->
   fits (credits u0 + n0) -> fits n0 -> expiry_written w0 p0 x ->
   grant (email u0) n0 p0 auth w0 =
   (Returns (topped_up n0 p0 x (now w0) u0), granted u0 n0 p0 x w0)) ->
  (forall w0 u0 a, healthy w0 -> keys_unique w0 -> In u0 (users w0) ->
   a <= credits u0 -> fits (credits u0 - a) -> fits (- a) ->
   debit (email u0) a w0 =
   (Returns (with_balance (credits u0 - a) (now w0) u0), debited u0 a w0)) ->
  (forall w0 u0, outages w0 = [] -> anon_client w0 = true -> keys_unique w0 ->
   In u0 (users w0) -> balance (email u0) w0 = (Returns (credits u0), w0)) ->
  healthy w -> keys_unique w -> ordinary_host w -> In u (users w) ->
  0 <= credits u -> fits (credits u) -> fits (credits u + n) ->
  fits n -> fits (- n) ->
  grant_then_debit grant debit balance w u n p.
Proof.
  intros Hgrant Hdebit Hbal Hh Hk Hhost Hu Hpos Hfit Hfit1 Hfitn Hfitm.
  destruct (expiry_on_ordinary_host w p Hhost) as (x & Hx & _).
  set (u1 := topped_up n p x (now w) u).
  set (w1 := granted u n p x w).
  destruct (granted_keys w u n p x Hk Hu) as [Hk1 Hu1].
  fold u1 in Hu1. fold w1 in Hk1, Hu1.
  assert (Hh1 : healthy w1) by exact Hh.
  assert (Hle : n <= credits u1) by (simpl; lia).
  assert (Hback : fits (credits u1 - n))
    by (unfold fits in *; cbn [u1 credits topped_up]; lia).
  set (u2 := with_balance (credits u1 - n) (now w1) u1).
  set (w2 := debited u1 n w1).
  destruct (debited_keys w1 u1 n Hk1 Hu1) as [Hk2 Hu2].
  fold u2 in Hu2. fold w2 in Hk2, Hu2.
  assert (Hc : credits u2 = credits u) by (simpl; lia).
  exists u1, w1, u2, w2.
  split; [apply Hgrant; assumption|].
  split; [exact (Hdebit w1 u1 n Hh1 Hk1 Hu1 Hle Hback Hfitm)|].
  split; [reflexivity|]. split; [reflexivity|]. split; [exact Hc|].
  split; [reflexivity|].
  split.
  { cbn [users w2 debited with_transactions with_users w1 granted].
    apply (replace_row_twice (id u) u2 u1 (users w)). reflexivity. }
  split.
  { cbn [credit_transactions w2 debited with_transactions with_users w1 granted].
    unfold logged. rewrite !map_app, <- app_assoc. reflexivity. }
  destruct Hh as (Ho & Ha & Hd).
  rewrite <- Hc. exact (Hbal w2 u2 Ho Ha Hk2 Hu2).
Qed.

(** X5. Against a healthy store that keeps its key constraints, on a host
    of our days, for an account whose balance B is not negative, and for
    an amount N such that B, B + N, N and - N are all numbers the INTEGER
    columns hold, a grant of N credits followed by a debit of N both
    succeed and cancel: the account holds the balance it had, its tier is
    as it was, no other row is touched, and the log has two more entries,
    a purchase of N and a usage of - N.  Both revisions of the ledger. *)
Theorem addCredits_then_useCredits :
  forall (w : World) (u : User) (n : Z) (p : option SubscriptionType),
    healthy w -> keys_unique w -> ordinary_host w -> In u (users w) ->
    0 <= credits u -> fits (credits u) -> fits (credits u + n) ->
    fits n -> fits (- n) ->
    grant_then_debit CreditUtils.addCredits CreditUtils.useCredits
      CreditUtils.getCreditBalance w u n p /\
    grant_then_debit CreditUtils2.addCredits CreditUtils2.useCredits
      CreditUtils2.getCreditBalance w u n p.
Proof.
  intros w u n p Hh Hk Hhost Hu Hpos Hfit Hfit1 Hfitn Hfitm. split.
  - apply grant_then_debit_of; try assumption.
    + intros. apply addCredits_success; assumption.
    + intros. apply useCredits_success; assumption.
    + intros. apply getCreditBalance_found; assumption.
  - apply grant_then_debit_of; try assumption.
    + intros. apply addCredits2_success; assumption.
    + intros. apply useCredits2_success; assumption.
    + intros. apply getCreditBalance2_found; assumption.
Qed.

Lemma addCredits_then_useCredits_witness :
  healthy shop /\ keys_unique shop /\ ordinary_host shop /\
  In alice (users shop) /\
  0 <= credits alice /\ fits (credits alice) /\ fits (credits alice + 60) /\
  fits 60 /\ fits (- 60) /\
  grant_then_debit CreditUtils.addCredits CreditUtils.useCredits
    CreditUtils.getCreditBalance shop alice 60 (Some yearly) /\
  grant_then_debit CreditUtils2.addCredits CreditUtils2.useCredits
    CreditUtils2.getCreditBalance shop alice 60 (Some yearly).
Proof.
  assert (Hh : healthy shop) by (repeat split).
  assert (Hk : keys_unique shop)
    by (split; simpl; repeat constructor; simpl; intuition discriminate).
  assert (Hu : In alice (users shop)) by (simpl; auto).
  assert (Hpos : 0 <= credits alice) by (simpl; lia).
  assert (Hfit : fits (credits alice)) by (unfold fits; simpl; lia).
  assert (Hfit1 : fits (credits alice + 60)) by (unfold fits; simpl; lia).
  assert (Hfitn : fits 60) by (unfold fits; lia).
  assert (Hfitm : fits (- 60)) by (unfold fits; lia).
  split; [exact Hh|]. split; [exact Hk|]. split; [exact shop_ordinary_host|].
  split; [exact Hu|]. split; [exact Hpos|]. split; [exact Hfit|].
  split; [exact Hfit1|]. split; [exact Hfitn|]. split; [exact Hfitm|].
  exact (addCredits_then_useCredits shop alice 60 (Some yearly)
           Hh Hk shop_ordinary_host Hu Hpos Hfit Hfit1 Hfitn Hfitm).
Defined.

(** ** What a balance buys *)

Section Debits.

Variable run : string -> Z -> M User.
Variable balance : string -> M Z.

Hypothesis run_success : forall w u a,
  healthy w -> keys_unique w -> In u (users w) -> a <= credits u ->
  fits (credits u - a) -> fits (- a) ->
  run (email u) a w =
  (Returns (with_balance (credits u - a) (now w) u), debited u a w).

Hypothesis run_insufficient : forall w u a,
  healthy w -> keys_unique w -> In u (users w) -> credits u < a ->
  run (email u) a w =
  (Throws (CreditError "Insufficient credits" "INSUFFICIENT_CREDITS"), w).

Hypothesis balance_found : forall w u,
  outages w = [] -> anon_client w = true -> keys_unique w -> In u (users w) ->
  balance (email u) w = (Returns (credits u), w).

(** [n] debits the balance covers all go through. *)
Lemma debit_times_covered a n :
  0 <= a ->
  forall w u,
    healthy w -> keys_unique w -> In u (users w) ->
    Z.of_nat n * a <= credits u -> credits u <= 2147483647 ->
    exists w' u',
      debit_times run (email u) a n w = (Returns tt, w') /\
      healthy w' /\ keys_unique w' /\ In u' (users w') /\
      email u' = email u /\
      credits u' = credits u - Z.of_nat n * a /\
      List.length (credit_transactions w') =
        (List.length (credit_transactions w) + n)%nat.
Proof.
  intros Ha. induction n as [|n IH]; intros w u Hh Hk Hu Hle Hmax.
  - exists w, u. split; [reflexivity|].
    repeat (split; [assumption || reflexivity|]).
    split; [simpl; lia|]. rewrite Nat.add_0_r. reflexivity.
  - assert (Hfirst : a <= credits u) by nia.
    destruct (debited_keys w u a Hk Hu) as [Hk1 Hu1].
    set (u1 := with_balance (credits u - a) (now w) u) in *.
    assert (Hh1 : healthy (debited u a w)) by exact Hh.
    assert (Hle1 : Z.of_nat n * a <= credits u1) by (simpl; nia).
    assert (Hmax1 : credits u1 <= 2147483647) by (simpl; lia).
    destruct (IH (debited u a w) u1 Hh1 Hk1 Hu1 Hle1 Hmax1)
      as (w' & u' & Hrun & Hh' & Hk' & Hu' & He' & Hc' & Hlen).
    exists w', u'.
    split.
    { cbn [debit_times].
      erewrite bind_returns
        by (apply run_success; try assumption; unfold fits; lia).
      exact Hrun. }
    split; [exact Hh'|]. split; [exact Hk'|]. split; [exact Hu'|].
    split; [exact He'|].
    split; [rewrite Hc', Nat2Z.inj_succ; unfold u1; cbn [credits with_balance]; lia|].
    rewrite Hlen. cbn [credit_transactions debited with_transactions].
    unfold logged. rewrite length_app. simpl. lia.
Qed.

Lemma buys_exactly_of w u a :
  healthy w -> keys_unique w -> In u (users w) ->
  0 < a -> 0 <= credits u -> credits u <= 2147483647 ->
  buys_exactly run balance w u a.
Proof.
  intros Hh Hk Hu Ha Hpos Hmax. unfold buys_exactly. cbv zeta.
  assert (Hq : 0 <= credits u / a) by (apply Z.div_pos; lia).
  assert (Hn : Z.of_nat (Z.to_nat (credits u / a)) = credits u / a)
    by (apply Z2Nat.id; exact Hq).
  assert (Hmod : credits u mod a = credits u - credits u / a * a)
    by (rewrite Z.mod_eq by lia; lia).
  assert (Hbound : 0 <= credits u mod a < a) by (apply Z.mod_pos_bound; lia).
  destruct (debit_times_covered a (Z.to_nat (credits u / a)) (Z.lt_le_incl _ _ Ha)
              w u Hh Hk Hu)
    as (w' & u' & Hrun & Hh' & Hk' & Hu' & He' & Hc' & Hlen).
  { rewrite Hn. lia. }
  { exact Hmax. }
  rewrite Hn, <- Hmod in Hc'.
  exists w'. split; [exact Hrun|].
  pose proof Hh' as (Ho' & Ha' & Hd').
  rewrite <- He', <- Hc'.
  split; [apply balance_found; assumption|].
  split; [apply run_insufficient; try assumption; lia|].
  exact Hlen.
Qed.

End Debits.

(** X6. Against a healthy store that keeps its key constraints, an account
    with a balance B >= 0, a number the INTEGER column holds, pays for
    exactly B / A debits of A > 0 credits made in a row (integer
    division): they all succeed and each is logged, the balance then reads
    the remainder of B by A, and one more debit of A is refused with
    INSUFFICIENT_CREDITS.  Both revisions of the ledger. *)
Theorem useCredits_until_exhausted :
  forall (w : World) (u : User) (A : Z),
    healthy w -> keys_unique w -> In u (users w) ->
    0 < A -> 0 <= credits u -> credits u <= 2147483647 ->
    buys_exactly CreditUtils.useCredits CreditUtils.getCreditBalance w u A /\
    buys_exactly CreditUtils2.useCredits CreditUtils2.getCreditBalance w u A.
Proof.
  intros w u A Hh Hk Hu HA Hpos Hmax. split.
  - apply buys_exactly_of; try assumption.
    + apply useCredits_success.
    + apply useCredits_insufficient.
    + apply getCreditBalance_found.
  - apply buys_exactly_of; try assumption.
    + apply useCredits2_success.
    + apply useCredits2_insufficient.
    + apply getCreditBalance2_found.
Qed.

Lemma useCredits_until_exhausted_witness :
  healthy shop /\ keys_unique shop /\ In alice (users shop) /\
  0 < 2 /\ 0 <= credits alice /\ credits alice <= 2147483647 /\
  buys_exactly CreditUtils.useCredits CreditUtils.getCreditBalance shop alice 2 /\
  buys_exactly CreditUtils2.useCredits CreditUtils2.getCreditBalance shop alice 2.
Proof.
  assert (Hh : healthy shop) by (repeat split).
  assert (Hk : keys_unique shop)
    by (split; simpl; repeat constructor; simpl; intuition discriminate).
  assert (Hu : In alice (users shop)) by (simpl; auto).
  assert (HA : 0 < 2) by lia.
  assert (Hpos : 0 <= credits alice) by (simpl; lia).
  assert (Hmax : credits alice <= 2147483647) by (simpl; lia).
  split; [exact Hh|]. split; [exact Hk|]. split; [exact Hu|].
  split; [exact HA|]. split; [exact Hpos|]. split; [exact Hmax|].
  exact (useCredits_until_exhausted shop alice 2 Hh Hk Hu HA Hpos Hmax).
Defined.

Example three_credits_buy_one_double_debit :
  let w1 := snd (debit_times CreditUtils2.useCredits "a@x.com" 2 1 shop) in
  fst (CreditUtils2.getCreditBalance "a@x.com" w1) = Returns 1 /\
  fst (CreditUtils2.useCredits "a@x.com" 2 w1) =
    Throws (CreditError "Insufficient credits" "INSUFFICIENT_CREDITS").
Proof. vm_compute. split; reflexivity. Qed.

(** ** Payments *)

Lemma found_not_empty productId cfg :
  GrooveSell.PRODUCT_TIER_MAPPING productId = Some cfg ->
  (productId =? "")%string = false.
Proof.
  intros H.
  destruct (product_found_lookup productId _ (lookup_product_found _ _ H))
    as (_ & _ & _ & Hne).
  exact Hne.
Qed.

(** The entry of a product of the table. *)
Lemma product_of_table_lookup productId t m y :
  product_of_table productId t m y ->
  GrooveSell.PRODUCT_TIER_MAPPING productId =
    Some (GrooveSell.mkProduct (Some t) m y).
Proof.
  intros [(-> & -> & -> & ->) | [(-> & -> & -> & ->) | (-> & -> & -> & ->)]];
    reflexivity.
Qed.

(** The answer to a payment for [u] and the world it leaves. *)
Lemma GrooveSell_payment_run w u body t n p x :
  healthy w -> keys_unique w -> In u (users w) ->
  fits (credits u + n) -> fits n -> expiry_written w (Some p) x ->
  groovesell_paid body (email u) t n p ->
  GrooveSell.POST (Some body) w =
  (Returns
     (respond
        (SuccessBody
           ("Subscription payment: " ++ Js.show n ++ " credits added")
           (Some (UserSummary (email u) (credits u + n) (Some t) (Some p)))
           None)),
   with_users
     (update_rows (by_id (id u))
        {| set_credits := None; set_subscription_type := None;
           set_subscription_tier := Some t;
           set_subscription_expires_at := None;
           set_updated_at := Some (now w) |} (granted u n (Some p) x w))
     (granted u n (Some p) x w)).
Proof.
  intros Hh Hk Hu Hfit Hfitn Hx
    (Hmail & Hne & (productId & m & y & Hpid & Htable & Hnp) & Hev & Hpaid).
  pose proof Hh as (Ho & Ha & Hd).
  pose proof (product_of_table_lookup _ _ _ _ Htable) as Hcfg.
  unfold GrooveSell.POST. apply try_returns.
  erewrite bind_returns by reflexivity.
  cbv beta zeta. rewrite Hmail, Hpid. cbv beta iota.
  rewrite (proj2 (String.eqb_neq _ _) Hne).
  rewrite (found_not_empty _ _ Hcfg), Hcfg.
  cbv beta iota delta [orb].
  rewrite Hev, Hpaid.
  change (text_is (Some "subscription-payment") "subscription-trial-start")
    with false.
  change (text_is (Some "subscription-payment") "subscription-payment")
    with true.
  cbv beta iota delta [andb].
  assert (Hy : text_is (body_subscription_type body) "Yearly" =
               match p with yearly => true | monthly => false end).
  { destruct Hnp as [(Hst & _ & ->) | (Hst & _ & ->)].
    - rewrite Hst. reflexivity.
    - destruct (body_subscription_type body) as [s|]; [|reflexivity].
      simpl. apply String.eqb_neq. congruence. }
  rewrite Hy.
  destruct Hnp as [(_ & -> & ->) | (_ & -> & ->)];
    cbn [GrooveSell.yearlyCredits GrooveSell.monthlyCredits GrooveSell.tier];
    (erewrite bind_returns by (apply addCredits2_success; eassumption));
    (erewrite bind_returns
       by (apply update_tier_healthy; [exact Ho | exact Hd]));
    reflexivity.
Qed.

(** The row of [u] after a payment. *)
Lemma GrooveSell_payment_row w u n p x t :
  keys_unique w -> In u (users w) ->
  update_rows (by_id (id u))
    {| set_credits := None; set_subscription_type := None;
       set_subscription_tier := Some t;
       set_subscription_expires_at := None;
       set_updated_at := Some (now w) |} (granted u n (Some p) x w) =
  replace_row (id u)
    (with_tier (Some t) (now w) (topped_up n (Some p) x (now w) u))
    (users w).
Proof.
  intros Hk Hu.
  destruct (granted_keys w u n (Some p) x Hk Hu) as [Hk2 Hu2].
  rewrite (update_rows_single _ _ (granted u n (Some p) x w)
             (topped_up n (Some p) x (now w) u) Hk2 (filter_by_id _ _ Hk2 Hu2)).
  cbn [users with_users granted with_transactions id topped_up].
  rewrite replace_row_twice by reflexivity. reflexivity.
Qed.

(** X7. Against a healthy store that keeps its key constraints, on a host
    of our days, the GrooveSell handler answers a payment above zero for
    the email of an existing account, for a product of its table, with a
    success acknowledgment, and grants the credits of the product: those
    of a year, with the period yearly, when the subscription type reads
    'Yearly', those of a month, with the period monthly, otherwise,
    provided the new balance is a number the INTEGER column holds.  The
    expiry is set one period on, the tier becomes the tier of the product,
    and one purchase is logged.  The products are 90143 (basic, 5 credits
    a month, 60 a year), 90211 (standard, 10 and 120) and 90212 (premium,
    30 and 360). *)
Theorem groovesell_payment_grants :
  forall (w : World) (u : User) (body : Body)
         (t : SubscriptionTier) (n : Z) (p : SubscriptionType),
    healthy w -> keys_unique w -> ordinary_host w -> In u (users w) ->
    fits (credits u + n) ->
    groovesell_paid body (email u) t n p ->
    delivery_grants GrooveSell.POST w u body n (Some p) (Some t).
Proof.
  intros w u body t n p Hh Hk Hhost Hu Hfit Hpaid.
  destruct (expiry_on_ordinary_host w (Some p) Hhost)
    as (x & Hx & expiry & -> & Hperiod).
  assert (Hfitn : fits n).
  { destruct Hpaid as (_ & _ & (productId & m & y & _ & Htable & Hnp) & _).
    unfold fits.
    destruct Htable as [(_ & _ & -> & ->) | [(_ & _ & -> & ->) | (_ & _ & -> & ->)]];
      destruct Hnp as [(_ & -> & _) | (_ & -> & _)]; lia. }
  eexists _, _, (with_tier (Some t) (now w)
                   (topped_up n (Some p) (Some expiry) (now w) u)).
  split; [apply (GrooveSell_payment_run w u body t n p (Some expiry));
          assumption|].
  split; [reflexivity|].
  split; [cbn [users with_users]; apply GrooveSell_payment_row; assumption|].
  split; [reflexivity|]. split; [reflexivity|]. split; [reflexivity|].
  split; [reflexivity|].
  split; [exists expiry; split; [reflexivity | exact Hperiod]|].
  split; reflexivity.
Qed.

Lemma yearly_payment_groovesell :
  groovesell_paid yearly_payment "a@x.com" premium 360 yearly.
Proof.
  split; [reflexivity|]. split; [discriminate|].
  split.
  { exists "90212", 30, 360. split; [reflexivity|].
    split; [right; right; repeat split; reflexivity|].
    left. repeat split; reflexivity. }
  split; reflexivity.
Qed.

Lemma groovesell_payment_grants_witness :
  healthy shop /\ keys_unique shop /\ ordinary_host shop /\
  In alice (users shop) /\ fits (credits alice + 360) /\
  groovesell_paid yearly_payment (email alice) premium 360 yearly /\
  delivery_grants GrooveSell.POST shop alice yearly_payment 360 (Some yearly)
    (Some premium).
Proof.
  assert (Hh : healthy shop) by (repeat split).
  assert (Hk : keys_unique shop)
    by (split; simpl; repeat constructor; simpl; intuition discriminate).
  assert (Hu : In alice (users shop)) by (simpl; auto).
  assert (Hfit : fits (credits alice + 360)) by (unfold fits; simpl; lia).
  split; [exact Hh|]. split; [exact Hk|]. split; [exact shop_ordinary_host|].
  split; [exact Hu|]. split; [exact Hfit|].
  split; [exact yearly_payment_groovesell|].
  exact (groovesell_payment_grants shop alice yearly_payment premium 360 yearly
           Hh Hk shop_ordinary_host Hu Hfit yearly_payment_groovesell).
Defined.

(** A payment for a product id that only names an inherited member grants
    nothing: no number of credits comes with it, the store refuses the
    null balance, and the handler acknowledges the payment all the same;
    and so does a payment that would carry the balance beyond the
    column. *)
Example payment_for_an_inherited_name :
  GrooveSell.POST
    (Some {| body_event := Some "subscription-payment";
             body_buyer_email := Some "a@x.com";
             body_product_id := Some "valueOf";
             body_subscription_type := Some "Monthly";
             body_amount := Js.JStr "9.99";
             body_trial_transaction := Js.JNum 0;
             body_password := None;
             body_action := None |}) shop =
  (Returns
     (respond
        (SuccessBody "Webhook received (error in processing)" None
           (Some ("Failed to add credits: null value in column " ++
                  quoted "credits" ++ " of relation " ++ quoted "users" ++
                  " violates not-null constraint")))), shop).
Proof. reflexivity. Qed.

Example payment_beyond_the_column :
  let r := GrooveSell.POST (Some yearly_payment) (shop_with 2147483647) in
  (exists a, fst r = Returns a /\ success_shaped a = true) /\
  snd r = shop_with 2147483647.
Proof. vm_compute. split; [eexists; split; reflexivity | reflexivity]. Qed.

Lemma addCredits2_not_found w e n p :
  healthy w -> no_account e w ->
  CreditUtils2.addCredits e n p None w =
  (Throws (CreditError "User not found and no auth ID provided" "USER_NOT_FOUND"), w).
Proof.
  intros (Ho & Ha & Hd) Hn. unfold CreditUtils2.addCredits.
  erewrite try_throws.
  2:{ erewrite bind_returns by (apply getUserByEmail2_absent; assumption).
      reflexivity. }
  reflexivity.
Qed.

(** X8. Against a healthy store, a payment above zero for an email that no
    account carries, for a product id the lookup in the table finds,
    grants nothing: the GrooveSell handler hands no identifier to
    [addCredits], which refuses with USER_NOT_FOUND, and the handler still
    answers with a success acknowledgment that carries the error; no
    account is created and the world is left as it was. *)
Theorem groovesell_payment_without_account :
  forall (w : World) (e : string) (body : Body),
    healthy w -> no_account e w -> groovesell_payment body e ->
    GrooveSell.POST (Some body) w =
    (Returns
       (respond
          (SuccessBody "Webhook received (error in processing)" None
             (Some "User not found and no auth ID provided"))), w).
Proof.
  intros w e body Hh Hn
    (Hmail & Hne & (productId & t & Hpid & Hfound) & Hev & Hpaid).
  destruct (product_found_lookup productId t Hfound)
    as (cfg & Hcfg & _ & Hpne).
  unfold GrooveSell.POST.
  erewrite try_throws.
  2:{ erewrite bind_returns by reflexivity.
      cbv beta zeta. rewrite Hmail, Hpid. cbv beta iota.
      rewrite (proj2 (String.eqb_neq _ _) Hne).
      rewrite Hpne, Hcfg.
      cbv beta iota delta [orb].
      rewrite Hev, Hpaid.
      change (text_is (Some "subscription-payment") "subscription-trial-start")
        with false.
      change (text_is (Some "subscription-payment") "subscription-payment")
        with true.
      cbv beta iota delta [andb].
      apply bind_throws. apply addCredits2_not_found; assumption. }
  reflexivity.
Qed.

Lemma groovesell_payment_without_account_witness :
  healthy shop /\ no_account "ghost@x.com" shop /\
  GrooveSell.POST
    (Some {| body_event := Some "subscription-payment";
             body_buyer_email := Some "ghost@x.com";
             body_product_id := Some "90143";
             body_subscription_type := Some "Monthly";
             body_amount := Js.JStr "9.99";
             body_trial_transaction := Js.JNum 0;
             body_password := Some "s3cret";
             body_action := None |}) shop =
  (Returns
     (respond
        (SuccessBody "Webhook received (error in processing)" None
           (Some "User not found and no auth ID provided"))), shop).
Proof.
  assert (Hh : healthy shop) by (repeat split).
  assert (Hn : no_account "ghost@x.com" shop)
    by (intros u [<- | [<- | []]]; discriminate).
  split; [exact Hh|]. split; [exact Hn|].
  apply (groovesell_payment_without_account shop "ghost@x.com" _ Hh Hn).
  split; [reflexivity|]. split; [discriminate|].
  split; [exists "90143", (Some basic); split; [reflexivity|];
          left; split; reflexivity|].
  split; reflexivity.
Defined.

(** ** Grants by the credits route *)

Lemma CreditsRoute_grant w u body n p :
  healthy w -> keys_unique w -> ordinary_host w -> In u (users w) ->
  fits (credits u + n) -> fits n ->
  body_buyer_email body = Some (email u) -> email u <> "" ->
  text_is (body_action body) "get_balance" = false ->
  truthy_text (body_event body) || text_is (body_action body) "add_credits" = true ->
  credits_route_grant body = Some (n, p) ->
  delivery_grants CreditsRoute.POST w u body n p (subscription_tier u).
Proof.
  intros Hh Hk Hhost Hu Hfit Hfitn Hmail Hne Hact Hany Hgrant.
  destruct (signUpUser_existing w u (body_password body) Hh Hk Hu)
    as (auth & w1 & Hsign & Hsame).
  pose proof (same_store_healthy w w1 Hsame Hh) as Hh1.
  pose proof (same_store_keys w w1 Hsame Hk) as Hk1.
  destruct Hsame as (Hus & Htx & _ & Hnow & _ & _ & Hzone).
  assert (Hu1 : In u (users w1)) by (rewrite Hus; exact Hu).
  destruct (expiry_on_ordinary_host w p Hhost) as (x & Hx & Hperiod).
  assert (Hx1 : expiry_written w1 p x).
  { unfold expiry_written in *. rewrite Hzone, Hnow. exact Hx. }
  unfold credits_route_grant in Hgrant.
  exists (respond
            (SuccessBody
               ("Added " ++ Js.show n ++ " credits for " ++
                show_text
                  (text_or (body_event body)
                     (text_or (body_subscription_type body) (Some "purchase"))))
               (Some (FullUser (topped_up n p x (now w) u))) None)),
    (granted u n p x w1), (topped_up n p x (now w) u).
  split.
  { unfold CreditsRoute.POST. apply try_returns.
    erewrite bind_returns by reflexivity.
    cbv beta zeta. rewrite Hmail, Hact, Hany, Hgrant.
    destruct (email u) as [|c s] eqn:E; [congruence|].
    cbv beta iota. rewrite <- E in *.
    erewrite bind_returns by exact Hsign.
    erewrite bind_returns by (apply addCredits_success; eassumption).
    rewrite Hnow. reflexivity. }
  split; [reflexivity|].
  cbn [users credit_transactions with_users granted with_transactions].
  rewrite Hus, Htx, Hnow.
  split; [reflexivity|]. split; [reflexivity|]. split; [reflexivity|].
  split; [reflexivity|]. split; [destruct p; reflexivity|].
  split.
  { destruct p as [q|].
    - destruct Hperiod as (expiry & -> & Hp). exists expiry.
      split; [reflexivity | exact Hp].
    - rewrite Hperiod. reflexivity. }
  split; reflexivity.
Qed.



Lemma ignorable_grant body :
  ignorable body = true ->
  credits_route_grant body =
  if text_is (body_action body) "add_credits" then
    if text_is (body_subscription_type body) "trial" then Some (TRIAL_CREDITS, None)
    else if text_is (body_subscription_type body) "monthly" then
      Some (MONTHLY_CREDITS, Some monthly)
    else if text_is (body_subscription_type body) "yearly" then
      Some (YEARLY_CREDITS, Some yearly)
    else Some (TRIAL_CREDITS, None)
  else None.
Proof.
  unfold ignorable, credits_route_grant. intros H.
  destruct (text_is (body_event body) "subscription-payment") eqn:Hpay.
  - destruct (text_is (body_event body) "subscription-trial-start") eqn:Htrial.
    + destruct (body_event body) as [ev|]; [|discriminate].
      simpl in Hpay, Htrial.
      apply String.eqb_eq in Hpay. apply String.eqb_eq in Htrial.
      congruence.
    + apply negb_true_iff in H. rewrite H. reflexivity.
  - apply negb_true_iff in H. rewrite H. reflexivity.
Qed.

(** X10. Against a healthy store that keeps its key constraints, on a
    host of our days, the credits route answers a request with the action
    [add_credits] for the email of an existing account, whose event, if
    any, is neither a trial start nor a payment above zero, with a success
    acknowledgment and a grant chosen by the subscription type: 5 credits
    and the period monthly for 'monthly', 60 credits and the period yearly
    for 'yearly', and 3 credits without a period for 'trial', for any other
    text and for none, each provided the new balance is a number the
    INTEGER column holds.  The expiry is set one period on when there is a
    period, the tier is left as it was and one purchase is logged. *)
Theorem credits_route_manual_grant :
  forall (w : World) (u : User) (body : Body),
    healthy w -> keys_unique w -> ordinary_host w -> In u (users w) ->
    credits_manual body (email u) ->
    (body_subscription_type body = Some "monthly" ->
     fits (credits u + 5) ->
     delivery_grants CreditsRoute.POST w u body 5 (Some monthly)
       (subscription_tier u)) /\
    (body_subscription_type body = Some "yearly" ->
     fits (credits u + 60) ->
     delivery_grants CreditsRoute.POST w u body 60 (Some yearly)
       (subscription_tier u)) /\
    (body_subscription_type body <> Some "monthly" ->
     body_subscription_type body <> Some "yearly" ->
     fits (credits u + 3) ->
     delivery_grants CreditsRoute.POST w u body 3 None (subscription_tier u)).
Proof.
  intros w u body Hh Hk Hhost Hu (Hmail & Hne & Haction & Hign).
  assert (Hact : text_is (body_action body) "get_balance" = false)
    by (rewrite Haction; reflexivity).
  assert (Hadd : text_is (body_action body) "add_credits" = true)
    by (rewrite Haction; reflexivity).
  assert (Hany : truthy_text (body_event body) ||
                 text_is (body_action body) "add_credits" = true)
    by (rewrite Hadd; apply orb_true_r).
  pose proof (ignorable_grant body Hign) as Hgrant. rewrite Hadd in Hgrant.
  split; [|split].
  - intros Hst Hfit. apply CreditsRoute_grant; try assumption.
    + unfold fits; lia.
    + rewrite Hgrant, Hst. reflexivity.
  - intros Hst Hfit. apply CreditsRoute_grant; try assumption.
    + unfold fits; lia.
    + rewrite Hgrant, Hst. reflexivity.
  - intros Hm Hy Hfit. apply CreditsRoute_grant; try assumption.
    + unfold fits; lia.
    + rewrite Hgrant.
      destruct (text_is (body_subscription_type body) "trial"); [reflexivity|].
      destruct (text_is (body_subscription_type body) "monthly") eqn:Em.
      { exfalso. apply Hm. destruct (body_subscription_type body) as [s|];
          [|discriminate]. simpl in Em. apply String.eqb_eq in Em. congruence. }
      destruct (text_is (body_subscription_type body) "yearly") eqn:Ey.
      { exfalso. apply Hy. destruct (body_subscription_type body) as [s|];
          [|discriminate]. simpl in Ey. apply String.eqb_eq in Ey. congruence. }
      reflexivity.
Qed.

Lemma credits_route_manual_grant_witness :
  healthy shop /\ keys_unique shop /\ ordinary_host shop /\
  In alice (users shop) /\
  credits_manual manual_yearly (email alice) /\
  body_subscription_type manual_yearly = Some "yearly" /\
  fits (credits alice + 60) /\
  delivery_grants CreditsRoute.POST shop alice manual_yearly 60 (Some yearly)
    (subscription_tier alice).
Proof.
  assert (Hh : healthy shop) by (repeat split).
  assert (Hk : keys_unique shop)
    by (split; simpl; repeat constructor; simpl; intuition discriminate).
  assert (Hu : In alice (users shop)) by (simpl; auto).
  assert (Hfit : fits (credits alice + 60)) by (unfold fits; simpl; lia).
  assert (Hm : credits_manual manual_yearly (email alice)).
  { split; [reflexivity|]. split; [discriminate|]. split; reflexivity. }
  split; [exact Hh|]. split; [exact Hk|]. split; [exact shop_ordinary_host|].
  split; [exact Hu|]. split; [exact Hm|]. split; [reflexivity|].
  split; [exact Hfit|].
  destruct (credits_route_manual_grant shop alice manual_yearly
              Hh Hk shop_ordinary_host Hu Hm) as (_ & Hy & _).
  exact (Hy eq_refl Hfit).
Defined.

(** ** Balance queries of the credits route *)

Lemma getCreditBalance_advisory w e :
  advisory CreditUtils.getCreditBalance 0 0 credits w e.
Proof.
  exact (advisory_of CreditUtils.getUserByEmail
           (fun l => match l with [u] => Some u | _ => None end)
           0 0 credits w e
           (getUserByEmail_outcome w e) eq_refl (fun u => eq_refl)).
Qed.

Lemma balance_response_advisory (post : M Response) w e :
  (forall w0,
     post w0 =
     try_catch
       (balance <- CreditUtils.getCreditBalance e ;;
        ret (respond (CreditsBody balance)))
       (fun error => ret (respond_status 500 (ErrorBody (exn_message error)))) w0) ->
  advisory (fun _ => post)
    (respond (CreditsBody 0)) (respond (CreditsBody 0))
    (fun u => respond (CreditsBody (credits u))) w e.
Proof.
  intros Hpost.
  destruct (getCreditBalance_advisory w e)
    as (a & w' & Hrun & Hsame & Herr & Habsent & Hfound).
  exists (respond (CreditsBody a)), w'.
  split.
  { rewrite Hpost. unfold try_catch, bind. rewrite Hrun. reflexivity. }
  split; [exact Hsame|].
  split; [intros Hs; rewrite (Herr Hs); reflexivity|].
  split; [intros Hs Hn; rewrite (Habsent Hs Hn); reflexivity|].
  intros Hs Hk u Hu He. rewrite (Hfound Hs Hk u Hu He). reflexivity.
Qed.

(** X11. On every world, whatever the store does, a balance query to the
    credits route, by GET with an email or by POST with the action
    [get_balance] (whatever event the request carries besides), answers
    with status 200 and writes nothing: the answer carries the balance of
    the account, and 0 both when no account carries the email and when the
    store errors or cannot be reached; the route never answers such a
    query with an error status. *)
Theorem credits_route_balance_queries :
  forall (w : World) (e : string),
    e <> "" ->
    advisory (fun e => CreditsRoute.GET (Some e))
      (respond (CreditsBody 0)) (respond (CreditsBody 0))
      (fun u => respond (CreditsBody (credits u))) w e /\
    forall body,
      body_buyer_email body = Some e ->
      body_action body = Some "get_balance" ->
      advisory (fun _ => CreditsRoute.POST (Some body))
        (respond (CreditsBody 0)) (respond (CreditsBody 0))
        (fun u => respond (CreditsBody (credits u))) w e.
Proof.
  intros w e Hne. split.
  - apply (balance_response_advisory (CreditsRoute.GET (Some e)) w e).
    intros w0. unfold CreditsRoute.GET.
    destruct e as [|c s]; [congruence|]. reflexivity.
  - intros body Hmail Haction.
    apply (balance_response_advisory (CreditsRoute.POST (Some body)) w e).
    intros w0. unfold CreditsRoute.POST, try_catch, bind, request_json, ret.
    cbv beta zeta iota. rewrite Hmail, Haction.
    destruct e as [|c s]; [congruence|]. reflexivity.
Qed.

Lemma credits_route_balance_queries_witness :
  "a@x.com" <> "" /\
  advisory (fun e => CreditsRoute.GET (Some e))
    (respond (CreditsBody 0)) (respond (CreditsBody 0))
    (fun u => respond (CreditsBody (credits u))) shop_down "a@x.com".
Proof.
  assert (Hne : "a@x.com" <> "") by discriminate.
  split; [exact Hne|].
  exact (proj1 (credits_route_balance_queries shop_down "a@x.com" Hne)).
Defined.


(** ** Runs on any world *)

Lemma but_outages_refl w : but_outages w w.
Proof. repeat split. Qed.

Lemma but_outages_trans w w0 w1 :
  but_outages w w0 -> but_outages w0 w1 -> but_outages w w1.
Proof.
  unfold but_outages. intros H H0.
  repeat match goal with H : _ /\ _ |- _ => destruct H end.
  repeat split; congruence.
Qed.

Lemma but_outages_with os w : but_outages w (with_outages os w).
Proof. repeat split. Qed.

Lemma ends_ret {A} (a : A) w (Q : Outcome A -> World -> Prop) :
  Q (Returns a) w -> ends_in (ret a w) Q.
Proof. intros H. exact H. Qed.

Lemma ends_throw {A} e w (Q : Outcome A -> World -> Prop) :
  Q (Throws e) w -> ends_in (throw e w) Q.
Proof. intros H. exact H. Qed.

Lemma ends_bind {A B} (m : M A) (k : A -> M B) w (Q : Outcome B -> World -> Prop) :
  ends_in (m w)
    (fun o w1 =>
       match o with
       | Returns a => ends_in (k a w1) Q
       | Throws e => Q (Throws e) w1
       end) ->
  ends_in (bind m k w) Q.
Proof.
  unfold ends_in, bind. destruct (m w) as [[a | e] w1]; intros H; exact H.
Qed.

Lemma ends_try {A} (m : M A) (h : Exn -> M A) w (Q : Outcome A -> World -> Prop) :
  ends_in (m w)
    (fun o w1 =>
       match o with
       | Returns a => Q (Returns a) w1
       | Throws e => ends_in (h e w1) Q
       end) ->
  ends_in (try_catch m h w) Q.
Proof.
  unfold ends_in, try_catch. destruct (m w) as [[a | e] w1]; intros H; exact H.
Qed.

Lemma ends_rethrow {A} msg e w (Q : Outcome A -> World -> Prop) :
  (forall e', Q (Throws e') w) -> ends_in (rethrow msg e w) Q.
Proof. intros H. destruct e; apply H. Qed.

Lemma ends_new_Date w (Q : Outcome Z -> World -> Prop) :
  Q (Returns (now w)) w -> ends_in (new_Date w) Q.
Proof. intros H. exact H. Qed.

Lemma ends_zone w (Q : Outcome (Z -> bool -> Z) -> World -> Prop) :
  Q (Returns (LocalTZA w)) w -> ends_in (zone w) Q.
Proof. intros H. exact H. Qed.

(** The expiry of a grant is computed or the computation throws; it
    writes nothing. *)
Lemma ends_expiry_for p w (Q : Outcome (option Z) -> World -> Prop) :
  (forall e, Q (Throws e) w) ->
  (forall x, expiry_written w p x -> Q (Returns x) w) ->
  ends_in (expiry_for p w) Q.
Proof.
  intros Hthrow Hret. unfold ends_in, expiry_for.
  destruct p as [q|]; [|apply Hret; reflexivity].
  unfold bind, new_Date, zone, toISOString.
  destruct (expiration (LocalTZA w) q (now w)) as [e|] eqn:E.
  - apply Hret. exists e. split; [reflexivity | exact E].
  - apply Hthrow.
Qed.

(** A remote call throws, or resolves to an error with nothing run, or
    runs its query, whose reply then arrives or is lost; the error of an
    outage does not carry the row-count code.  The world the query runs on
    differs from the present one in its outages at most. *)
Lemma ends_remote {A} lost c (q : World -> Reply A * World) w
    (Q : Outcome (Reply A) -> World -> Prop) :
  pg_code lost <> "PGRST116" ->
  (forall w0, but_outages w w0 ->
     (forall e, Q (Throws e) w0) /\
     (forall err, pg_code err <> "PGRST116" -> Q (Returns (Error err)) w0) /\
     (forall r w1, q w0 = (r, w1) ->
        Q (Returns r) w1 /\
        (forall err, pg_code err <> "PGRST116" -> Q (Returns (Error err)) w1))) ->
  ends_in (remote lost c q w) Q.
Proof.
  intros Hlost H. unfold ends_in, remote.
  destruct (has_client c w).
  - destruct (outages w) as [|[[|m|]|] rest].
    + destruct (H w (but_outages_refl w)) as (_ & _ & Hq).
      destruct (q w) as [r w1] eqn:E. exact (proj1 (Hq r w1 eq_refl)).
    + exact (proj1 (proj2 (H _ (but_outages_with rest w))) _ Hlost).
    + apply (proj1 (proj2 (H _ (but_outages_with rest w)))). discriminate.
    + destruct (H _ (but_outages_with rest w)) as (_ & _ & Hq).
      destruct (q (with_outages rest w)) as [r w1] eqn:E.
      exact (proj2 (Hq r w1 eq_refl) _ Hlost).
    + destruct (H _ (but_outages_with rest w)) as (_ & _ & Hq).
      destruct (q (with_outages rest w)) as [r w1] eqn:E.
      exact (proj1 (Hq r w1 eq_refl)).
  - exact (proj1 (H w (but_outages_refl w)) _).
Qed.

Lemma ends_call {A} c (q : World -> Reply A * World) w
    (Q : Outcome (Reply A) -> World -> Prop) :
  (forall w0, but_outages w w0 ->
     (forall e, Q (Throws e) w0) /\
     (forall err, pg_code err <> "PGRST116" -> Q (Returns (Error err)) w0) /\
     (forall r w1, q w0 = (r, w1) ->
        Q (Returns r) w1 /\
        (forall err, pg_code err <> "PGRST116" -> Q (Returns (Error err)) w1))) ->
  ends_in (call c q w) Q.
Proof. apply ends_remote. discriminate. Qed.

Lemma ends_call_auth {A} c (q : World -> Reply A * World) w
    (Q : Outcome (Reply A) -> World -> Prop) :
  (forall w0, but_outages w w0 ->
     (forall e, Q (Throws e) w0) /\
     (forall err, pg_code err <> "PGRST116" -> Q (Returns (Error err)) w0) /\
     (forall r w1, q w0 = (r, w1) ->
        Q (Returns r) w1 /\
        (forall err, pg_code err <> "PGRST116" -> Q (Returns (Error err)) w1))) ->
  ends_in (call_auth c q w) Q.
Proof. apply ends_remote. discriminate. Qed.

Lemma ends_mono {A} (run : Outcome A * World) (Q Q' : Outcome A -> World -> Prop) :
  ends_in run Q -> (forall o w, Q o w -> Q' o w) -> ends_in run Q'.
Proof. unfold ends_in. intros H HQ. apply HQ. exact H. Qed.

(** Walks through a computation of the request monad, one construct at a
    time, and leaves what is to be shown of its outcomes; it stops at an
    update of a balance. *)
Ltac walk_call :=
  let w0 := fresh "w" in
  let H := fresh "Hw" in
  let r := fresh "r" in
  let w1 := fresh "w" in
  let Hq := fresh "Hq" in
  intros w0 H;
  split; [intros ?
         | split; [intros ? ?
                  | intros r w1 Hq; split; [| intros ? ?]]].

Ltac walk_step :=
  lazymatch goal with
  | |- ends_in (try_catch _ _ _) _ => apply ends_try
  | |- ends_in (bind _ _ _) _ => apply ends_bind
  | |- ends_in (ret _ _) _ => apply ends_ret
  | |- ends_in (throw _ _) _ => apply ends_throw
  | |- ends_in (rethrow _ _ _) _ => apply ends_rethrow; intros ?
  | |- ends_in (new_Date _) _ => apply ends_new_Date
  | |- ends_in (zone _) _ => apply ends_zone
  | |- ends_in (expiry_for _ _) _ =>
      apply ends_expiry_for; [intros ? | intros ? ?]
  | |- ends_in (call _ (update_users_single _ _) _) _ => fail
  | |- ends_in (call _ (update_users_select _ _) _) _ => fail
  | |- ends_in (call _ _ _) _ => apply ends_call; walk_call
  | |- ends_in (call_auth _ _ _) _ => apply ends_call_auth; walk_call
  | |- ends_in ((if ?b then _ else _) _) _ => destruct b eqn:?
  | |- ends_in ((match ?x with _ => _ end) _) _ => destruct x eqn:?
  | |- ends_in (if ?b then _ else _) _ => destruct b eqn:?
  | |- ends_in (match ?x with _ => _ end) _ => destruct x eqn:?
  | |- ends_in ((fun _ => _) _) _ => cbv beta
  | |- ends_in ((fun _ => _) _ _) _ => cbv beta
  end; cbv beta iota.

Ltac walk := repeat walk_step.

(** Splits what is known of the worlds met on the way into equations. *)
Ltac worlds :=
  repeat match goal with
         | H : but_outages _ _ |- _ =>
             destruct H as (? & ? & ? & ? & ? & ? & ? & ? & ?)
         end.

(** Opens a query that has run: each reply it can give, with the world it
    leaves. *)
Tactic Notation "answered" hyp(H) :=
  unfold select_users, select_user_single, update_users, update_users_single,
    update_users_select, patch_error, row_error,
    insert_user, insert_transaction, auth_create_user in H;
  cbn [set_credits] in H;
  repeat match type of H with
         | (match ?x with _ => _ end) = _ => destruct x eqn:?
         | (if ?b then _ else _) = _ => destruct b eqn:?
         | (let (_, _) := ?x in _) = _ => destruct x eqn:?
         end;
  try discriminate H;
  inversion H; subst; clear H.

(** Opens every query that has run. *)
Ltac queries :=
  repeat match goal with
         | H : select_users _ _ = (_, _) |- _ => answered H
         | H : select_user_single _ _ = (_, _) |- _ => answered H
         | H : update_users _ _ _ = (_, _) |- _ => answered H
         | H : update_users_select _ _ _ = (_, _) |- _ => answered H
         | H : update_users_single _ _ _ = (_, _) |- _ => answered H
         | H : insert_user _ _ _ _ = (_, _) |- _ => answered H
         | H : insert_transaction _ _ _ _ _ = (_, _) |- _ => answered H
         | H : auth_create_user _ _ = (_, _) |- _ => answered H
         end.

(** ** The lookup, the log and the insert on any world *)

Lemma ends_getUserByEmail e w (Q : Outcome (option User) -> World -> Prop) :
  (forall w0, but_outages w w0 ->
     (forall err, Q (Throws err) w0) /\
     Q (Returns None) w0 /\
     (forall u, filter (by_email e) (users w) = [u] -> Q (Returns (Some u)) w0)) ->
  ends_in (CreditUtils.getUserByEmail e w) Q.
Proof.
  intros H. unfold CreditUtils.getUserByEmail. walk; queries;
    try (apply (H _ Hw));
    try (exfalso;
         match goal with
         | Hc : pg_code ?err <> _, E : (pg_code ?err =? _)%string = true |- _ =>
             apply String.eqb_eq in E; exact (Hc E)
         end).
  destruct Hw as (Hus & _). rewrite <- Hus. assumption.
Qed.

Lemma ends_getUserByEmail2 e w (Q : Outcome (option User) -> World -> Prop) :
  (forall w0, but_outages w w0 ->
     (forall err, Q (Throws err) w0) /\
     (filter (by_email e) (users w) = [] -> Q (Returns None) w0) /\
     (forall u rest, filter (by_email e) (users w) = u :: rest ->
                     Q (Returns (Some u)) w0)) ->
  ends_in (CreditUtils2.getUserByEmail e w) Q.
Proof.
  intros H. unfold CreditUtils2.getUserByEmail. walk; queries;
    first [ exact (proj1 (H _ (but_outages_refl w)) _)
          | exact (proj1 (H _ Hw) _)
          | apply (proj1 (proj2 (H _ Hw))); rewrite <- (proj1 Hw); assumption
          | eapply (proj2 (proj2 (H _ Hw))); rewrite <- (proj1 Hw); eassumption ].
Qed.

Lemma ends_logCreditTransaction uid (a : Z) k d w (Q : Outcome unit -> World -> Prop) :
  (forall w0, but_outages w w0 ->
     Q (Returns tt) w0 /\
     (fits a -> existsb (by_id uid) (users w) = true ->
      Q (Returns tt)
        (with_transactions (logged uid a k d (now w) (credit_transactions w)) w0))) ->
  ends_in (CreditUtils.logCreditTransaction uid a k d w) Q /\
  ends_in (CreditUtils2.logCreditTransaction uid a k d w) Q.
Proof.
  intros H.
  unfold CreditUtils.logCreditTransaction, CreditUtils2.logCreditTransaction.
  split; walk; queries;
    first [ exact (proj1 (H _ (but_outages_refl w)))
          | exact (proj1 (H _ Hw))
          | pose proof Hw as (Hus & Htx & _ & _ & _ & Hnow & _);
            rewrite Htx, Hnow; apply (proj2 (H _ Hw));
            [ apply in_integer_fits;
              match goal with
              | E : negb (in_integer _) = false |- _ =>
                  apply negb_false_iff in E; exact E
              end
            | rewrite <- Hus; assumption ] ].
Qed.

Lemma ends_createUser i e w (Q : Outcome User -> World -> Prop) :
  (forall w0, but_outages w w0 ->
     (forall err, Q (Throws err) w0) /\
     (existsb (by_id i) (users w) || existsb (by_email e) (users w) = false ->
      Q (Returns (new_account i e INITIAL_CREDITS (now w)))
        (with_users (users w ++ [new_account i e INITIAL_CREDITS (now w)]) w0) /\
      forall err,
        Q (Throws err)
          (with_users (users w ++ [new_account i e INITIAL_CREDITS (now w)]) w0))) ->
  ends_in (CreditUtils.createUser i e w) Q /\
  ends_in (CreditUtils2.createUser i e w) Q.
Proof.
  intros H.
  unfold CreditUtils.createUser, CreditUtils2.createUser.
  split; walk; queries;
    first [ exact (proj1 (H _ (but_outages_refl w)) _)
          | exact (proj1 (H _ Hw) _)
          | pose proof Hw as (Hus & _ & _ & _ & _ & Hnow & _);
            rewrite Hus, Hnow in *;
            apply (proj2 (H _ Hw)); apply orb_false_iff; split; assumption ].
Qed.

Lemma ends_in_exists {A} (run : Outcome A * World) (Q : Outcome A -> World -> Prop) :
  ends_in run Q -> exists o w', run = (o, w') /\ Q o w'.
Proof. destruct run as [o w']. intros H. exists o, w'. split; [reflexivity | exact H]. Qed.

(** ** Updates on any world *)

Lemma filter_single p (us : list User) u :
  filter p us = [u] -> In u us /\ p u = true.
Proof. intros H. apply filter_In. rewrite H. left. reflexivity. Qed.

Lemma filter_first p (us : list User) u rest :
  filter p us = u :: rest -> In u us /\ p u = true.
Proof. intros H. apply filter_In. rewrite H. left. reflexivity. Qed.

(** An update of the balance of the one row [u] that [p] selects: the
    call throws, or resolves to an error with nothing written, or the row
    is written, for a balance the column holds, and the reply arrives or
    is lost. *)
Lemma ends_update_select c p patch cr w u
    (Q : Outcome (Reply (list User)) -> World -> Prop) :
  keys_unique w -> filter p (users w) = [u] ->
  set_credits patch = Some (Some cr) ->
  (forall w0, but_outages w w0 ->
     (forall e, Q (Throws e) w0) /\
     (forall err, Q (Returns (Error err)) w0) /\
     (fits cr ->
      let w1 := with_users (replace_row (id u) (apply_patch patch u) (users w)) w0 in
      Q (Returns (Data [apply_patch patch u])) w1 /\
      forall err, Q (Returns (Error err)) w1)) ->
  ends_in (call c (update_users_select p patch) w) Q.
Proof.
  intros Hk Hf Hc H. apply ends_call. intros w0 Hw0.
  destruct (H w0 Hw0) as (Hthrow & Herr & Hrun).
  split; [exact Hthrow|]. split; [intros err _; apply Herr|].
  intros r w1 Hq.
  assert (Hus : users w0 = users w) by (destruct Hw0 as (Hus & _); exact Hus).
  assert (Hk0 : keys_unique w0) by (unfold keys_unique; rewrite Hus; exact Hk).
  assert (Hf0 : filter p (users w0) = [u]) by (rewrite Hus; exact Hf).
  destruct (fits_dec cr) as [Hfit | Hno].
  - rewrite (update_users_select_one p patch w0 u cr Hc Hfit Hf0) in Hq.
    injection Hq as <- <-.
    rewrite (update_rows_single p patch w0 u Hk0 Hf0), Hus.
    destruct (Hrun Hfit) as [Hdata Hlost].
    split; [exact Hdata | intros err _; apply Hlost].
  - rewrite (update_users_select_refused p patch w0 cr Hc Hno) in Hq.
    injection Hq as <- <-.
    split; [apply Herr | intros err _; apply Herr].
Qed.

Lemma ends_update_single c p patch cr w u
    (Q : Outcome (Reply User) -> World -> Prop) :
  keys_unique w -> filter p (users w) = [u] ->
  set_credits patch = Some (Some cr) ->
  (forall w0, but_outages w w0 ->
     (forall e, Q (Throws e) w0) /\
     (forall err, Q (Returns (Error err)) w0) /\
     (fits cr ->
      let w1 := with_users (replace_row (id u) (apply_patch patch u) (users w)) w0 in
      Q (Returns (Data (apply_patch patch u))) w1 /\
      forall err, Q (Returns (Error err)) w1)) ->
  ends_in (call c (update_users_single p patch) w) Q.
Proof.
  intros Hk Hf Hc H. apply ends_call. intros w0 Hw0.
  destruct (H w0 Hw0) as (Hthrow & Herr & Hrun).
  split; [exact Hthrow|]. split; [intros err _; apply Herr|].
  intros r w1 Hq.
  assert (Hus : users w0 = users w) by (destruct Hw0 as (Hus & _); exact Hus).
  assert (Hk0 : keys_unique w0) by (unfold keys_unique; rewrite Hus; exact Hk).
  assert (Hf0 : filter p (users w0) = [u]) by (rewrite Hus; exact Hf).
  destruct (fits_dec cr) as [Hfit | Hno].
  - rewrite (update_users_single_one p patch w0 u cr Hc Hfit Hf0) in Hq.
    injection Hq as <- <-.
    rewrite (update_rows_single p patch w0 u Hk0 Hf0), Hus.
    destruct (Hrun Hfit) as [Hdata Hlost].
    split; [exact Hdata | intros err _; apply Hlost].
  - rewrite (update_users_single_refused p patch w0 cr Hc Hno) in Hq.
    injection Hq as <- <-.
    split; [apply Herr | intros err _; apply Herr].
Qed.

(** ** Debits on any world *)

(** Closes a goal that says the ledger is as it was. *)
Ltac ledger := worlds; unfold same_ledger; simpl; split; congruence.

Lemma debit_patch c t u :
  apply_patch
    {| set_credits := Some (Some c); set_subscription_type := None;
       set_subscription_tier := None; set_subscription_expires_at := None;
       set_updated_at := Some t |} u = with_balance c t u.
Proof. reflexivity. Qed.

Lemma debit_on_any_world w e A :
  keys_unique w -> debit_or_nothing CreditUtils.useCredits w e A.
Proof.
  intros Hk. apply ends_in_exists.
  unfold CreditUtils.useCredits.
  apply ends_try, ends_bind, ends_getUserByEmail.
  intros w0 Hw0. cbv beta iota. split; [|split].
  - intros err. walk. split; [|left]; worlds; congruence.
  - walk. split; [|left]; worlds; congruence.
  - intros u Hf.
    destruct (filter_single _ _ _ Hf) as [Hu He].
    unfold by_email in He. apply String.eqb_eq in He.
    destruct (credits u <? A) eqn:Hcov; walk.
    { split; [|left]; worlds; congruence. }
    apply Z.ltb_ge in Hcov.
    assert (Hus0 : users w0 = users w) by (worlds; congruence).
    assert (Hnow0 : now w0 = now w) by (worlds; congruence).
    assert (Hk0 : keys_unique w0) by (unfold keys_unique; rewrite Hus0; exact Hk).
    assert (Hf0 : filter (by_email e) (users w0) = [u]) by (rewrite Hus0; exact Hf).
    eapply ends_update_single; [exact Hk0 | exact Hf0 | reflexivity |].
    intros w1 Hw1. rewrite debit_patch, Hus0, Hnow0.
    pose proof (but_outages_trans _ _ _ Hw0 Hw1) as Hw.
    assert (Htaken : forall w2,
              users w2 =
                replace_row (id u) (with_balance (credits u - A) (now w) u)
                  (users w) ->
              fits (credits u - A) ->
              exists u0,
                In u0 (users w) /\ email u0 = e /\ A <= credits u0 /\
                fits (credits u0 - A) /\
                users w2 =
                  replace_row (id u0)
                    (with_balance (credits u0 - A) (now w) u0) (users w)).
    { intros w2 Hus2 Hfit. exists u. auto. }
    split; [|split].
    + intros err. walk. split; [|left]; worlds; congruence.
    + intros err. walk. split; [|left]; worlds; congruence.
    + intros Hfit. cbv zeta. split.
      * cbv beta iota. apply ends_bind.
        apply (fun H => proj1 (ends_logCreditTransaction _ _ _ _ _ _ H)).
        intros w2 Hw2. cbv beta iota.
        destruct Hw2 as (Hus2 & Htx2 & _).
        cbn [users credit_transactions with_users now] in Hus2, Htx2.
        split; [|intros _ _]; walk; exists u;
          (split; [exact Hu|]); (split; [exact He|]);
          (split; [exact Hcov|]); (split; [exact Hfit|]);
          (split; [reflexivity|]).
        -- split; [exact Hus2|]. left. worlds; congruence.
        -- cbn [users credit_transactions with_transactions with_users now].
           split; [exact Hus2|]. right. worlds. congruence.
      * intros err. walk.
        split; [worlds; cbn [credit_transactions with_users]; congruence|].
        right. apply Htaken; [reflexivity | exact Hfit].
Qed.

Lemma debit2_on_any_world w e A :
  keys_unique w -> debit_or_nothing CreditUtils2.useCredits w e A.
Proof.
  intros Hk. apply ends_in_exists.
  unfold CreditUtils2.useCredits.
  apply ends_try. cbv beta. destruct (negb (anon_client w)) eqn:Hanon.
  { walk. split; [|left]; reflexivity. }
  apply ends_bind, ends_getUserByEmail2.
  intros w0 Hw0. cbv beta iota. split; [|split].
  - intros err. walk. split; [|left]; worlds; congruence.
  - intros _. walk. split; [|left]; worlds; congruence.
  - intros u rest Hf.
    destruct (filter_first _ _ _ _ Hf) as [Hu He].
    unfold by_email in He. apply String.eqb_eq in He.
    destruct (credits u <? A) eqn:Hcov; walk.
    { split; [|left]; worlds; congruence. }
    { split; [|left]; worlds; congruence. }
    apply Z.ltb_ge in Hcov.
    assert (Hus0 : users w0 = users w) by (worlds; congruence).
    assert (Hnow0 : now w0 = now w) by (worlds; congruence).
    assert (Hk0 : keys_unique w0) by (unfold keys_unique; rewrite Hus0; exact Hk).
    assert (Hf0 : filter (by_id (id u)) (users w0) = [u])
      by (rewrite Hus0; apply filter_by_id; assumption).
    eapply ends_update_single; [exact Hk0 | exact Hf0 | reflexivity |].
    intros w1 Hw1. rewrite debit_patch, Hus0, Hnow0.
    pose proof (but_outages_trans _ _ _ Hw0 Hw1) as Hw.
    split; [|split].
    + intros err. walk. split; [|left]; worlds; congruence.
    + intros err. walk. split; [|left]; worlds; congruence.
    + intros Hfit. cbv zeta. split.
      * cbv beta iota. apply ends_bind.
        apply (fun H => proj2 (ends_logCreditTransaction _ _ _ _ _ _ H)).
        intros w2 Hw2. cbv beta iota.
        destruct Hw2 as (Hus2 & Htx2 & _).
        cbn [users credit_transactions with_users now] in Hus2, Htx2.
        split; [|intros _ _]; walk; exists u;
          (split; [exact Hu|]); (split; [exact He|]);
          (split; [exact Hcov|]); (split; [exact Hfit|]);
          (split; [reflexivity|]).
        -- split; [exact Hus2|]. left. worlds; congruence.
        -- cbn [users credit_transactions with_transactions with_users now].
           split; [exact Hus2|]. right. worlds. congruence.
      * intros err. walk.
        split; [worlds; cbn [credit_transactions with_users]; congruence|].
        right. exists u. auto.
Qed.

(** X13. On every world that keeps the key constraints, whatever the store
    does during the call (outages, refusals, lost replies, unset
    handles), [useCredits] takes the amount once or not at all.  When it
    returns, the account that carries the email covered the amount and
    now holds exactly that much less, a number the INTEGER column holds,
    no other row has changed, and the log has the usage entry or, when
    writing the log failed, is as it was.  When it throws, nothing has
    been logged, and no balance has changed, unless the reply to the
    update was lost: then the amount is taken from the account all the
    same.  Both revisions of the ledger. *)
Theorem useCredits_once_or_not_at_all :
  forall (w : World) (e : string) (A : Z),
    keys_unique w ->
    debit_or_nothing CreditUtils.useCredits w e A /\
    debit_or_nothing CreditUtils2.useCredits w e A.
Proof.
  intros w e A Hk. split.
  - apply debit_on_any_world. exact Hk.
  - apply debit2_on_any_world. exact Hk.
Qed.

Lemma useCredits_once_or_not_at_all_witness :
  keys_unique (with_outages [None; Some ReplyLost] shop) /\
  debit_or_nothing CreditUtils.useCredits
    (with_outages [None; Some ReplyLost] shop) "a@x.com" 2 /\
  debit_or_nothing CreditUtils2.useCredits
    (with_outages [None; Some ReplyLost] shop) "a@x.com" 2.
Proof.
  assert (Hk : keys_unique (with_outages [None; Some ReplyLost] shop))
    by (split; simpl; repeat constructor; simpl; intuition discriminate).
  split; [exact Hk|].
  exact (useCredits_once_or_not_at_all
           (with_outages [None; Some ReplyLost] shop) "a@x.com" 2 Hk).
Defined.

Example debit_with_the_log_down :
  let w := with_outages [None; None; Some Unreachable] shop in
  fst (CreditUtils2.useCredits "a@x.com" 2 w) =
    Returns (with_balance 1 (now shop) alice) /\
  credit_transactions (snd (CreditUtils2.useCredits "a@x.com" 2 w)) = [] /\
  fst (CreditUtils2.getCreditBalance "a@x.com"
         (snd (CreditUtils2.useCredits "a@x.com" 2 w))) = Returns 1.
Proof. vm_compute. repeat split; reflexivity. Qed.

Example debit_with_the_update_down :
  let w := with_outages [None; Some Unreachable] shop in
  fst (CreditUtils.useCredits "a@x.com" 2 w) =
    Throws (CreditError "Failed to use credits: TypeError: fetch failed"
              "USE_CREDITS_ERROR") /\
  users (snd (CreditUtils.useCredits "a@x.com" 2 w)) = users shop.
Proof. vm_compute. split; reflexivity. Qed.

(** The reply to the update is lost: the call throws, and the two credits
    are gone. *)
Example debit_with_the_reply_lost :
  let w := with_outages [None; Some ReplyLost] shop in
  fst (CreditUtils.useCredits "a@x.com" 2 w) =
    Throws (CreditError "Failed to use credits: TypeError: fetch failed"
              "USE_CREDITS_ERROR") /\
  map credits (users (snd (CreditUtils.useCredits "a@x.com" 2 w))) = [1; 0] /\
  credit_transactions (snd (CreditUtils.useCredits "a@x.com" 2 w)) = [].
Proof. vm_compute. repeat split; reflexivity. Qed.

(** ** Grants on any world *)

Lemma filter_single_unique p (us : list User) u x :
  filter p us = [x] -> In u us -> p u = true -> x = u.
Proof.
  intros Hf Hu Hp.
  assert (H : In u (filter p us)) by (apply filter_In; auto).
  rewrite Hf in H. destruct H as [H | []]. exact H.
Qed.

Lemma tops_up_of w wu u n p x :
  now wu = now w -> LocalTZA wu = LocalTZA w ->
  fits (credits u + n) -> expiry_written wu p x ->
  tops_up w u (topped_up n p x (now w) u) n p.
Proof.
  intros Hnow Htza Hfit Hx. split; [exact Hfit|].
  exists x. split; [reflexivity|].
  destruct p as [q|]; [|exact Hx].
  destruct Hx as (expiry & -> & Hex). exists expiry. split; [reflexivity|].
  intros [Hclock Hzone].
  rewrite Hnow, Htza in Hex.
  destruct (expiration_period_on q (LocalTZA w) (now w) Hclock Hzone)
    as (e' & He' & Hp).
  congruence.
Qed.

Lemma grant_on_any_world w e (n : Z) p auth :
  keys_unique w ->
  grant_or_nothing CreditUtils.addCredits w e n p auth.
Proof.
  intros Hk. apply ends_in_exists.
  unfold CreditUtils.addCredits.
  apply ends_try, ends_bind, ends_getUserByEmail.
  intros w0 Hw0. cbv beta iota.
  assert (Hfail : forall wu err,
            users wu = users w ->
            credit_transactions wu = credit_transactions w ->
            grant_outcome w e n p auth (Throws err) wu).
  { intros wu err Hus Htx. exists (users w). split; [left; reflexivity|].
    split; [exact Htx | left; exact Hus]. }
  match goal with
  | |- _ /\ ends_in (bind _ ?R w0) ?Q2 /\ _ =>
      assert (Htail : forall a wu,
                keys_unique wu -> In a (users wu) -> email a = e ->
                now wu = now w -> LocalTZA wu = LocalTZA w ->
                credit_transactions wu = credit_transactions w ->
                (users wu = users w \/
                 exists i, auth = Some i /\ no_account e w /\
                   users wu = (users w ++ [new_account i e 0 (now w)])%list) ->
                ends_in (R a wu) Q2)
  end.
  { intros a wu Hku Ha Hea Hnow Htza Htx Hcase.
    assert (Hus : users wu = users w \/
                  exists i, auth = Some i /\ no_account e w /\
                    users wu = (users w ++ [new_account i e 0 (now w)])%list)
      by exact Hcase.
    assert (Hthrow : forall wx err,
              users wx = users wu ->
              credit_transactions wx = credit_transactions w ->
              grant_outcome w e n p auth (Throws err) wx).
    { intros wx err Hux Htx'. exists (users wu). split; [exact Hcase|].
      split; [exact Htx' | left; exact Hux]. }
    walk; try (apply Hthrow; worlds; congruence).
    rename H into Hx.
    eapply ends_update_single;
      [exact Hku | apply filter_by_id; assumption | reflexivity |].
    intros w1 Hw1. cbn [plus]. rewrite topped_up_patch, Hnow.
    assert (Hdone : forall wx,
              fits (credits a + n) ->
              users wx =
                replace_row (id a) (topped_up n p x (now w) a) (users wu) ->
              exists u u',
                In u (users wu) /\ email u = e /\ tops_up w u u' n p /\
                users wx = replace_row (id u) u' (users wu)).
    { intros wx Hfit Hux. exists a, (topped_up n p x (now w) a).
      split; [exact Ha|]. split; [exact Hea|].
      split; [exact (tops_up_of w wu a n p x Hnow Htza Hfit Hx)|].
      exact Hux. }
    split; [|split].
    + intros err. walk. apply Hthrow; worlds; congruence.
    + intros err. walk. apply Hthrow; worlds; congruence.
    + intros Hfit. cbv zeta. split.
      * cbv beta iota. apply ends_bind.
        apply (fun H => proj1 (ends_logCreditTransaction _ _ _ _ _ _ H)).
        intros w2 Hw2. cbv beta iota.
        destruct Hw2 as (Hus2 & Htx2 & _).
        cbn [users credit_transactions with_users now] in Hus2, Htx2.
        split; [|intros _ _]; walk;
          exists (users wu); (split; [exact Hcase|]);
          exists a; (split; [exact Ha|]); (split; [exact Hea|]);
          (split; [exact (tops_up_of w wu a n p x Hnow Htza Hfit Hx)|]).
        -- split; [exact Hus2|]. left. worlds; congruence.
        -- cbn [users credit_transactions with_transactions with_users now].
           split; [exact Hus2|]. right. worlds. congruence.
      * intros err. walk.
        exists (users wu). split; [exact Hcase|].
        split; [worlds; cbn [credit_transactions with_users]; congruence|].
        right. apply Hdone; [exact Hfit | reflexivity]. }
  split; [|split].
  - intros err. walk. apply Hfail; worlds; congruence.
  - apply ends_bind.
    destruct auth as [i|]; [destruct (i =? "")%string eqn:Ei|];
      try (walk; apply Hfail; worlds; congruence).
    apply (fun H => proj1 (ends_createUser _ _ _ _ H)).
    intros w1 Hw1. split.
    + intros err. walk. apply Hfail; worlds; congruence.
    + intros Hfresh. cbv beta iota.
      pose proof Hw0 as (Hus0 & Htx0 & _ & _ & _ & Hnow0 & _ & _ & Htza0).
      pose proof Hw1 as (Hus1 & Htx1 & _ & _ & _ & Hnow1 & _ & _ & Htza1).
      rewrite Hus0, Hnow0 in *.
      apply orb_false_iff in Hfresh. destruct Hfresh as [Hid Hem].
      assert (Hn : no_account e w).
      { intros u Hu He. apply (existsb_by_email e (users w) Hem).
        rewrite <- He. apply in_map. exact Hu. }
      assert (Hf : ~ In i (map id (users w))).
      { intros Hin. apply existsb_by_id in Hin. congruence. }
      destruct (created_keys w i e Hk Hn Hf) as [Hkc Huc].
      split.
      * apply Htail.
        -- exact Hkc.
        -- exact Huc.
        -- reflexivity.
        -- cbn [now with_users]. congruence.
        -- cbn [LocalTZA with_users]. congruence.
        -- cbn [credit_transactions with_users]. congruence.
        -- right. exists i. split; [reflexivity|]. split; [exact Hn|]. reflexivity.
      * intros err. walk.
        exists (users w ++ [new_account i e 0 (now w)])%list.
        split; [right; exists i; auto|].
        split; [cbn [credit_transactions with_users]; congruence|].
        left. reflexivity.
  - intros u Hf. apply ends_bind, ends_ret. cbv beta iota.
    destruct (filter_single _ _ _ Hf) as [Hu He].
    unfold by_email in He. apply String.eqb_eq in He.
    pose proof Hw0 as (Hus0 & Htx0 & _ & _ & _ & Hnow0 & _ & _ & Htza0).
    apply Htail; try assumption.
    + unfold keys_unique. rewrite Hus0. exact Hk.
    + rewrite Hus0. exact Hu.
    + left. exact Hus0.
Qed.

Lemma grant2_on_any_world w e (n : Z) p auth :
  keys_unique w ->
  grant_or_nothing CreditUtils2.addCredits w e n p auth.
Proof.
  intros Hk. apply ends_in_exists.
  unfold CreditUtils2.addCredits.
  apply ends_try, ends_bind, ends_getUserByEmail2.
  intros w0 Hw0. cbv beta iota.
  assert (Hfail : forall wu err,
            users wu = users w ->
            credit_transactions wu = credit_transactions w ->
            grant_outcome w e n p auth (Throws err) wu).
  { intros wu err Hus Htx. exists (users w). split; [left; reflexivity|].
    split; [exact Htx | left; exact Hus]. }
  match goal with
  | |- _ /\ (_ -> ends_in (bind _ ?R w0) ?Q2) /\ _ =>
      assert (Htail : forall a wu,
                keys_unique wu -> In a (users wu) -> email a = e ->
                now wu = now w -> LocalTZA wu = LocalTZA w ->
                credit_transactions wu = credit_transactions w ->
                (users wu = users w \/
                 exists i, auth = Some i /\ no_account e w /\
                   users wu = (users w ++ [new_account i e 0 (now w)])%list) ->
                ends_in (R a wu) Q2)
  end.
  { intros a wu Hku Ha Hea Hnow Htza Htx Hcase.
    assert (Hthrow : forall wx err,
              users wx = users wu ->
              credit_transactions wx = credit_transactions w ->
              grant_outcome w e n p auth (Throws err) wx).
    { intros wx err Hux Htx'. exists (users wu). split; [exact Hcase|].
      split; [exact Htx' | left; exact Hux]. }
    walk; queries; try (apply Hthrow; worlds; congruence).
    rename H into Hx.
    assert (Hus2 : users w2 = users wu) by (worlds; congruence).
    assert (Hk2 : keys_unique w2) by (unfold keys_unique; rewrite Hus2; exact Hku).
    assert (Ha2 : In a (users w2)) by (rewrite Hus2; exact Ha).
    eapply ends_update_select;
      [exact Hk2 | apply filter_by_id; assumption | reflexivity |].
    intros w1 Hw1. cbn [plus]. rewrite topped_up_patch, Hnow, Hus2.
    pose proof (tops_up_of w wu a n p x Hnow Htza) as Htop.
    split; [|split].
    + intros err. walk. apply Hthrow; worlds; congruence.
    + intros err. walk. apply Hthrow; worlds; congruence.
    + intros Hfit. cbv zeta. split.
      * cbv beta iota. apply ends_bind.
        apply (fun H => proj2 (ends_logCreditTransaction _ _ _ _ _ _ H)).
        intros w3 Hw3. cbv beta iota.
        destruct Hw3 as (Hus3 & Htx3 & _).
        cbn [users credit_transactions with_users now] in Hus3, Htx3.
        split; [|intros _ _]; walk;
          exists (users wu); (split; [exact Hcase|]);
          exists a; (split; [exact Ha|]); (split; [reflexivity|]);
          (split; [exact (Htop Hfit Hx)|]).
        -- split; [exact Hus3|]. left. worlds; congruence.
        -- cbn [users credit_transactions with_transactions with_users now].
           split; [exact Hus3|]. right. worlds. congruence.
      * intros err. walk.
        exists (users wu). split; [exact Hcase|].
        split; [worlds; cbn [credit_transactions with_users]; congruence|].
        right. exists a, (topped_up n p x (now w) a).
        split; [exact Ha|]. split; [reflexivity|].
        split; [exact (Htop Hfit Hx) | reflexivity]. }
  split; [|split].
  - intros err. walk. apply Hfail; worlds; congruence.
  - intros Hnone. apply ends_bind.
    destruct auth as [i|]; [destruct (i =? "")%string eqn:Ei|];
      try (walk; apply Hfail; worlds; congruence).
    apply (fun H => proj2 (ends_createUser _ _ _ _ H)).
    intros w1 Hw1. split.
    + intros err. walk. apply Hfail; worlds; congruence.
    + intros Hfresh. cbv beta iota.
      pose proof Hw0 as (Hus0 & Htx0 & _ & _ & _ & Hnow0 & _ & _ & Htza0).
      pose proof Hw1 as (Hus1 & Htx1 & _ & _ & _ & Hnow1 & _ & _ & Htza1).
      rewrite Hus0, Hnow0 in *.
      apply orb_false_iff in Hfresh. destruct Hfresh as [Hid Hem].
      assert (Hn : no_account e w).
      { intros u Hu He. apply (existsb_by_email e (users w) Hem).
        rewrite <- He. apply in_map. exact Hu. }
      assert (Hf : ~ In i (map id (users w))).
      { intros Hin. apply existsb_by_id in Hin. congruence. }
      destruct (created_keys w i e Hk Hn Hf) as [Hkc Huc].
      split.
      * apply Htail.
        -- exact Hkc.
        -- exact Huc.
        -- reflexivity.
        -- cbn [now with_users]. congruence.
        -- cbn [LocalTZA with_users]. congruence.
        -- cbn [credit_transactions with_users]. congruence.
        -- right. exists i. split; [reflexivity|]. split; [exact Hn|]. reflexivity.
      * intros err. walk.
        exists (users w ++ [new_account i e 0 (now w)])%list.
        split; [right; exists i; auto|].
        split; [cbn [credit_transactions with_users]; congruence|].
        left. reflexivity.
  - intros u rest Hf. apply ends_bind, ends_ret. cbv beta iota.
    destruct (filter_first _ _ _ _ Hf) as [Hu He].
    unfold by_email in He. apply String.eqb_eq in He.
    pose proof Hw0 as (Hus0 & Htx0 & _ & _ & _ & Hnow0 & _ & _ & Htza0).
    apply Htail; try assumption.
    + unfold keys_unique. rewrite Hus0. exact Hk.
    + rewrite Hus0. exact Hu.
    + left. exact Hus0.
Qed.

(** X14. On every world that keeps the key constraints, whatever the
    store does during the call (outages, refusals, lost replies, unset
    handles), [addCredits] with a number of credits grants it once or not
    at all.  When it returns, the account that carries the email holds
    exactly the granted amount more, a number the INTEGER column holds,
    with the period given and an expiry, which on a host of our days lies
    one period on; no other row has changed, and the log has the purchase
    or, when writing the log failed, is as it was.  When it throws,
    nothing has been logged, and no balance has changed, unless the reply
    to the update was lost: then the account is topped up all the same.
    Besides that, a call that throws may leave behind the account it
    created for an email no account carried, which holds no credits.  Both
    revisions of the ledger. *)
Theorem addCredits_once_or_not_at_all :
  forall (w : World) (e : string) (n : Z) (p : option SubscriptionType)
         (auth : option string),
    keys_unique w ->
    grant_or_nothing CreditUtils.addCredits w e n p auth /\
    grant_or_nothing CreditUtils2.addCredits w e n p auth.
Proof.
  intros w e n p auth Hk. split.
  - apply grant_on_any_world; assumption.
  - apply grant2_on_any_world; assumption.
Qed.

Lemma addCredits_once_or_not_at_all_witness :
  keys_unique (with_outages [None; None; Some ReplyLost] shop) /\
  grant_or_nothing CreditUtils.addCredits
    (with_outages [None; None; Some ReplyLost] shop)
    "new@x.com" 5 (Some monthly) (Some "7d9f0c1e-0003") /\
  grant_or_nothing CreditUtils2.addCredits
    (with_outages [None; None; Some ReplyLost] shop)
    "new@x.com" 5 (Some monthly) (Some "7d9f0c1e-0003").
Proof.
  assert (Hk : keys_unique (with_outages [None; None; Some ReplyLost] shop))
    by (split; simpl; repeat constructor; simpl; intuition discriminate).
  split; [exact Hk|].
  exact (addCredits_once_or_not_at_all
           (with_outages [None; None; Some ReplyLost] shop)
           "new@x.com" 5 (Some monthly) (Some "7d9f0c1e-0003") Hk).
Defined.

Example grant_refused_after_the_account_was_created :
  let w := with_outages [None; None; Some (Refuses "down")] shop in
  fst (CreditUtils.addCredits "new@x.com" 3 None (Some "7d9f0c1e-0003") w) =
    Throws (CreditError "Failed to add credits: down" "ADD_CREDITS_ERROR") /\
  map credits
    (users (snd (CreditUtils.addCredits "new@x.com" 3 None
                   (Some "7d9f0c1e-0003") w))) = [3; 0; 0] /\
  credit_transactions
    (snd (CreditUtils.addCredits "new@x.com" 3 None (Some "7d9f0c1e-0003") w)) = [].
Proof. vm_compute. repeat split; reflexivity. Qed.

(** The reply to the update is lost: the call throws, and the credits are
    granted with nothing logged. *)
Example grant_with_the_reply_lost :
  let w := with_outages [None; Some ReplyLost] shop in
  fst (CreditUtils.addCredits "a@x.com" 5 None None w) =
    Throws (CreditError "Failed to add credits: TypeError: fetch failed"
              "ADD_CREDITS_ERROR") /\
  map credits (users (snd (CreditUtils.addCredits "a@x.com" 5 None None w))) =
    [8; 0] /\
  credit_transactions (snd (CreditUtils.addCredits "a@x.com" 5 None None w)) = [].
Proof. vm_compute. repeat split; reflexivity. Qed.

(** ** No balance turns negative *)

Lemma sound_outages os w : sound w -> sound (with_outages os w).
Proof. intros H. exact H. Qed.

Lemma sound_same_users w w' : users w' = users w -> sound w -> sound w'.
Proof.
  intros Hus [Hk Hs]. unfold sound, keys_unique, solvent.
  rewrite Hus. split; assumption.
Qed.

Lemma sound_new_Date w : sound w -> sound (after (new_Date w)).
Proof. intros H. exact H. Qed.

Lemma sound_expiry_for p w : sound w -> sound (after (expiry_for p w)).
Proof. intros H. unfold after. rewrite expiry_for_world. exact H. Qed.

Lemma sound_select p w : sound w -> sound (after (select_users p w)).
Proof. intros H. exact H. Qed.

Lemma sound_select_single p w : sound w -> sound (after (select_user_single p w)).
Proof.
  intros H. unfold select_user_single.
  destruct (filter p (users w)) as [|u [|v l]]; exact H.
Qed.

Lemma sound_insert_transaction uid a k d w :
  sound w -> sound (after (insert_transaction uid a k d w)).
Proof.
  intros H. unfold insert_transaction. destruct a as [a|]; [|exact H].
  destruct (in_integer a); cbn [negb]; [|exact H].
  destruct (existsb (by_id uid) (users w)); exact H.
Qed.

Lemma sound_auth e w : sound w -> sound (after (auth_create_user e w)).
Proof.
  intros H. unfold auth_create_user.
  destruct (existsb (by_auth_email e) (auth_users w)); exact H.
Qed.

Lemma sound_insert i e w :
  sound w -> sound (after (insert_user i e INITIAL_CREDITS w)).
Proof.
  intros [Hk Hs]. split; [apply keys_unique_insert; exact Hk|].
  unfold insert_user.
  destruct (negb (in_integer INITIAL_CREDITS)); [exact Hs|].
  destruct (existsb (by_id i) (users w)); [exact Hs|].
  destruct (existsb (by_email e) (users w)); [exact Hs|].
  intros u Hu. cbn [after snd users with_users] in Hu.
  apply in_app_or in Hu. destruct Hu as [Hu | [<- | []]].
  - apply Hs. exact Hu.
  - simpl. unfold INITIAL_CREDITS. lia.
Qed.

(** An update that leaves the credits alone, or would set them to null. *)
Lemma solvent_updated p patch w :
  (set_credits patch = None \/ set_credits patch = Some None) ->
  solvent w -> solvent (with_users (update_rows p patch w) w).
Proof.
  intros Hc Hs u Hu. cbn [users with_users] in Hu.
  unfold update_rows in Hu. apply in_map_iff in Hu.
  destruct Hu as (x & <- & Hx).
  destruct (p x); [|apply Hs; exact Hx].
  unfold apply_patch. cbn [credits].
  destruct Hc as [-> | ->]; apply Hs; exact Hx.
Qed.

Lemma sound_update_select p patch w :
  (set_credits patch = None \/ set_credits patch = Some None) ->
  sound w -> sound (after (update_users_select p patch w)).
Proof.
  intros Hc [Hk Hs]. split; [apply keys_unique_update_select; exact Hk|].
  unfold update_users_select.
  destruct (patch_error patch); [exact Hs|].
  destruct (filter p (users w)) as [|u l], (row_error patch);
    try exact Hs; apply solvent_updated; assumption.
Qed.

Lemma sound_update p patch w :
  set_credits patch = None -> sound w -> sound (after (update_users p patch w)).
Proof.
  intros Hc H.
  pose proof (sound_update_select p patch w (or_introl Hc) H) as H'.
  unfold update_users.
  destruct (update_users_select p patch w) as [[l | e] w']; exact H'.
Qed.

Lemma sound_update_null p patch w :
  set_credits patch = Some None ->
  sound w -> sound (after (update_users_select p patch w)).
Proof. intros Hc. apply sound_update_select. right. exact Hc. Qed.

Lemma solvent_replaced i u' us :
  (forall u, In u us -> 0 <= credits u) -> 0 <= credits u' ->
  forall u, In u (replace_row i u' us) -> 0 <= credits u.
Proof.
  intros Hs Hc u Hu. unfold replace_row in Hu. apply in_map_iff in Hu.
  destruct Hu as (x & <- & Hx).
  destruct (by_id i x); [exact Hc | apply Hs; exact Hx].
Qed.

Lemma useCredits_sound e a w :
  sound w ->
  sound (after (CreditUtils.useCredits e a w)) /\
  sound (after (CreditUtils2.useCredits e a w)).
Proof.
  intros [Hk Hs].
  assert (H : forall run, debit_or_nothing run w e a -> solvent (after (run e a w))).
  { intros run (o & w' & Hrun & Hres). rewrite Hrun. cbn [after snd].
    destruct o as [u' | err].
    - destruct Hres as (u & Hu & _ & Hle & _ & -> & Hus & _).
      unfold solvent. rewrite Hus. apply solvent_replaced; [exact Hs|].
      cbn [credits with_balance]. lia.
    - destruct Hres as [_ [Hus | (u & Hu & _ & Hle & _ & Hus)]];
        unfold solvent; rewrite Hus; [exact Hs|].
      apply solvent_replaced; [exact Hs|].
      cbn [credits with_balance]. lia. }
  split; (split; [|apply H]).
  - apply useCredits_keeps_keys. exact Hk.
  - apply debit_on_any_world. exact Hk.
  - apply useCredits2_keeps_keys. exact Hk.
  - apply debit2_on_any_world. exact Hk.
Qed.

Lemma addCredits_sound e (n : Z) p auth w :
  0 <= n -> sound w ->
  sound (after (CreditUtils.addCredits e n p auth w)) /\
  sound (after (CreditUtils2.addCredits e n p auth w)).
Proof.
  intros Hn [Hk Hs].
  assert (H : forall run, grant_or_nothing run w e n p auth ->
                          solvent (after (run e n p auth w))).
  { intros run (o & w' & Hrun & us & Hus & Hres). rewrite Hrun. cbn [after snd].
    assert (Hsus : forall u, In u us -> 0 <= credits u).
    { destruct Hus as [-> | (i & _ & _ & ->)]; [exact Hs|].
      intros u Hu. apply in_app_or in Hu. destruct Hu as [Hu | [<- | []]].
      - apply Hs. exact Hu.
      - simpl. lia. }
    assert (Htop : forall u u', In u us -> tops_up w u u' n p -> 0 <= credits u').
    { intros u u' Hu (_ & x & -> & _). cbn [credits topped_up].
      specialize (Hsus u Hu). lia. }
    destruct o as [u' | err].
    - destruct Hres as (u & Hu & _ & Hup & Hus' & _).
      unfold solvent. rewrite Hus'. apply solvent_replaced; [exact Hsus|].
      exact (Htop u u' Hu Hup).
    - destruct Hres as [_ [Hus' | (u & u' & Hu & _ & Hup & Hus')]];
        unfold solvent; rewrite Hus'; [exact Hsus|].
      apply solvent_replaced; [exact Hsus|].
      exact (Htop u u' Hu Hup). }
  split; (split; [|apply H]).
  - apply addCredits_keeps_keys. exact Hk.
  - apply grant_on_any_world. exact Hk.
  - apply addCredits2_keeps_keys. exact Hk.
  - apply grant2_on_any_world. exact Hk.
Qed.

Create HintDb sound.

#[local] Hint Resolve sound_new_Date sound_expiry_for sound_select
  sound_select_single sound_insert_transaction sound_auth sound_insert : sound.
#[local] Hint Resolve sound_update sound_update_null : sound.

(** Walks through a computation of the request monad to show that it
    keeps the ledger sound. *)
Ltac keeps_sound_step :=
  lazymatch goal with
  | |- forall _, _ => intros
  | H : sound ?w |- sound ?w => exact H
  | |- sound (after (try_catch _ _ _)) => apply (preserves_try sound)
  | |- sound (after (bind _ _ _)) => apply (preserves_bind sound)
  | |- sound (after (call _ _ _)) => apply (preserves_call sound sound_outages)
  | |- sound (after (call_auth _ _ _)) =>
      apply (preserves_call_auth sound sound_outages)
  | |- sound (after (ret _ _)) => apply (preserves_ret sound)
  | |- sound (after (throw _ _)) => apply (preserves_throw sound)
  | |- sound (after (rethrow _ _ _)) => apply (preserves_rethrow sound)
  | |- sound (after ((match (if ?b then _ else _) with _ => _ end) _)) =>
      destruct b eqn:?
  | |- sound (after ((if ?b then _ else _) _)) => destruct b eqn:?
  | |- sound (after ((match ?x with _ => _ end) _)) => destruct x eqn:?
  | |- sound (after (if ?b then _ else _)) => destruct b eqn:?
  | |- sound (after (match ?x with _ => _ end)) => destruct x eqn:?
  | |- sound (after ((fun _ => _) _)) => cbv beta
  | |- sound (after ((fun _ => _) _ _)) => cbv beta
  | |- _ => solve [auto with sound]
  end; cbv beta iota.

Ltac keeps_sound := repeat keeps_sound_step.

Lemma ledger_reads_sound e n w :
  sound w ->
  sound (after (CreditUtils.getUserByEmail e w)) /\
  sound (after (CreditUtils2.getUserByEmail e w)) /\
  sound (after (CreditUtils.getCreditBalance e w)) /\
  sound (after (CreditUtils2.hasEnoughCredits e n w)) /\
  sound (after (CreditUtils2.canAccessMultiplePhotos e w)).
Proof.
  intros H.
  assert (H1 : forall e w, sound w -> sound (after (CreditUtils.getUserByEmail e w)))
    by (clear; intros; unfold CreditUtils.getUserByEmail; keeps_sound).
  assert (H2 : forall e w, sound w -> sound (after (CreditUtils2.getUserByEmail e w)))
    by (clear; intros; unfold CreditUtils2.getUserByEmail; keeps_sound).
  split; [apply H1; exact H|]. split; [apply H2; exact H|].
  split; [|split].
  - unfold CreditUtils.getCreditBalance. keeps_sound.
  - unfold CreditUtils2.hasEnoughCredits. keeps_sound.
  - unfold CreditUtils2.canAccessMultiplePhotos. keeps_sound.
Qed.

Lemma getUserByEmail_sound e w :
  sound w -> sound (after (CreditUtils.getUserByEmail e w)).
Proof. intros H. apply (ledger_reads_sound e 0 w H). Qed.

Lemma getUserByEmail2_sound e w :
  sound w -> sound (after (CreditUtils2.getUserByEmail e w)).
Proof. intros H. apply (ledger_reads_sound e 0 w H). Qed.

Lemma getCreditBalance_sound e w :
  sound w -> sound (after (CreditUtils.getCreditBalance e w)).
Proof. intros H. apply (ledger_reads_sound e 0 w H). Qed.

Lemma hasEnoughCredits2_sound e n w :
  sound w -> sound (after (CreditUtils2.hasEnoughCredits e n w)).
Proof. intros H. apply (ledger_reads_sound e n w H). Qed.

Lemma canAccessMultiplePhotos_sound e w :
  sound w -> sound (after (CreditUtils2.canAccessMultiplePhotos e w)).
Proof. intros H. apply (ledger_reads_sound e 0 w H). Qed.

Lemma useCredits1_sound e a w :
  sound w -> sound (after (CreditUtils.useCredits e a w)).
Proof. intros H. apply (useCredits_sound e a w H). Qed.

Lemma useCredits2_sound e a w :
  sound w -> sound (after (CreditUtils2.useCredits e a w)).
Proof. intros H. apply (useCredits_sound e a w H). Qed.

Lemma addCredits1_sound e (n : Z) p auth w :
  0 <= n -> sound w -> sound (after (CreditUtils.addCredits e n p auth w)).
Proof. intros Hn H. apply (addCredits_sound e n p auth w Hn H). Qed.

#[local] Hint Resolve getUserByEmail_sound getUserByEmail2_sound
  getCreditBalance_sound hasEnoughCredits2_sound canAccessMultiplePhotos_sound
  useCredits1_sound useCredits2_sound addCredits1_sound : sound.

Lemma accounts_created_sound i e w :
  sound w ->
  sound (after (CreditUtils.createUser i e w)) /\
  sound (after (CreditUtils2.createUser i e w)) /\
  sound (after (CreditUtils.getOrCreateUser i e w)) /\
  sound (after (CreditUtils2.getOrCreateUser i e w)).
Proof.
  intros H.
  assert (H1 : forall w, sound w -> sound (after (CreditUtils.createUser i e w)))
    by (clear; intros; unfold CreditUtils.createUser; keeps_sound).
  assert (H2 : forall w, sound w -> sound (after (CreditUtils2.createUser i e w)))
    by (clear; intros; unfold CreditUtils2.createUser; keeps_sound).
  split; [apply H1; exact H|]. split; [apply H2; exact H|]. split.
  - unfold CreditUtils.getOrCreateUser. keeps_sound.
  - unfold CreditUtils2.getOrCreateUser. keeps_sound.
Qed.

Lemma createUser2_sound i e w :
  sound w -> sound (after (CreditUtils2.createUser i e w)).
Proof. intros H. apply (accounts_created_sound i e w H). Qed.

#[local] Hint Resolve createUser2_sound : sound.

Lemma logCreditTransaction_sound uid a k d w :
  sound w ->
  sound (after (CreditUtils.logCreditTransaction uid a k d w)) /\
  sound (after (CreditUtils2.logCreditTransaction uid a k d w)).
Proof.
  intros H. split.
  - unfold CreditUtils.logCreditTransaction. keeps_sound.
  - unfold CreditUtils2.logCreditTransaction. keeps_sound.
Qed.

Lemma logCreditTransaction2_sound uid a k d w :
  sound w -> sound (after (CreditUtils2.logCreditTransaction uid a k d w)).
Proof. intros H. apply (logCreditTransaction_sound uid a k d w H). Qed.

#[local] Hint Resolve logCreditTransaction2_sound : sound.

(** A grant of a number of credits that is not negative, or of no number
    at all, which the store refuses. *)
Lemma addCredits2_sound e (a : Num) p auth w :
  (forall z, a = Int z -> 0 <= z) ->
  sound w -> sound (after (CreditUtils2.addCredits e a p auth w)).
Proof.
  intros Ha H. destruct a as [n|].
  - apply (addCredits_sound e n p auth w (Ha n eq_refl) H).
  - unfold CreditUtils2.addCredits. cbn [plus]. keeps_sound.
Qed.

#[local] Hint Resolve addCredits2_sound : sound.

Lemma signUpUser_sound e password w :
  sound w ->
  sound (after (CreditUtils.signUpUser e password w)) /\
  sound (after (CreditUtils2.signUpUser e password w)).
Proof.
  intros H. split.
  - unfold CreditUtils.signUpUser. keeps_sound.
  - unfold CreditUtils2.signUpUser. keeps_sound.
Qed.

Lemma signUpUser1_sound e password w :
  sound w -> sound (after (CreditUtils.signUpUser e password w)).
Proof. intros H. apply (signUpUser_sound e password w H). Qed.

Lemma signUpUser2_sound e password w :
  sound w -> sound (after (CreditUtils2.signUpUser e password w)).
Proof. intros H. apply (signUpUser_sound e password w H). Qed.

Lemma update_tier_sound i t w :
  sound w -> sound (after (GrooveSell.update_tier i t w)).
Proof. intros H. unfold GrooveSell.update_tier. keeps_sound. Qed.

#[local] Hint Resolve signUpUser1_sound signUpUser2_sound update_tier_sound : sound.

Lemma product_credits productId cfg b :
  GrooveSell.PRODUCT_TIER_MAPPING productId = Some cfg ->
  forall z,
    (if b : bool then GrooveSell.yearlyCredits cfg
     else GrooveSell.monthlyCredits cfg) = Int z -> 0 <= z.
Proof.
  unfold GrooveSell.PRODUCT_TIER_MAPPING. intros H z.
  repeat match type of H with
         | (if ?c then _ else _) = _ => destruct c
         end;
    try discriminate H; injection H as <-; destruct b; cbn;
    intros E; try discriminate E; injection E as <-; lia.
Qed.

#[local] Hint Extern 1 (0 <= _) =>
  solve [unfold TRIAL_CREDITS, MONTHLY_CREDITS, YEARLY_CREDITS,
           Replicate.REQUIRED_CREDITS; lia] : sound.
#[local] Hint Extern 1 (forall z, Int _ = Int z -> 0 <= z) =>
  (let z := fresh "z" in
   let E := fresh "E" in
   intros z E; injection E as <-;
   unfold TRIAL_CREDITS, MONTHLY_CREDITS, YEARLY_CREDITS; lia) : sound.
#[local] Hint Extern 2 (forall z, (if _ then _ else _) = Int z -> 0 <= z) =>
  (match goal with
   | H : GrooveSell.PRODUCT_TIER_MAPPING _ = Some _ |- _ =>
       exact (product_credits _ _ _ H)
   end) : sound.

Lemma routes_sound request w :
  sound w ->
  sound (after (GrooveSell.POST request w)) /\
  sound (after (CreditsRoute.POST request w)).
Proof.
  intros H. split.
  - unfold GrooveSell.POST, request_json. cbv zeta. keeps_sound.
  - unfold CreditsRoute.POST, request_json. cbv zeta. keeps_sound.
Qed.

Lemma Replicate_sound sha256 env outside request w :
  sound w -> sound (after (Replicate.POST sha256 env outside request w)).
Proof.
  intros H.
  unfold Replicate.POST, Replicate.ensureOutputDirExists,
    Replicate.request_formData, Replicate.completedPrediction,
    Replicate.writeFile.
  cbv zeta. keeps_sound.
Qed.

(** X15. No operation of the ledger but a grant of a negative amount can
    make a balance negative.  On every world that keeps the key
    constraints and holds no negative balance, whatever the store does,
    no balance is negative after a debit of any amount (a negative one
    included), after a grant of an amount that is not negative, after an
    account is created, and after any request to the GrooveSell handler, to
    the credits route or to the multi-person image route; the key
    constraints hold as well.  Both revisions of the ledger. *)
Theorem ledger_stays_solvent :
  forall (w : World),
    keys_unique w -> solvent w ->
    (forall e a,
       solvent (after (CreditUtils.useCredits e a w)) /\
       solvent (after (CreditUtils2.useCredits e a w))) /\
    (forall e (n : Z) p auth,
       0 <= n ->
       solvent (after (CreditUtils.addCredits e n p auth w)) /\
       solvent (after (CreditUtils2.addCredits e n p auth w))) /\
    (forall i e,
       solvent (after (CreditUtils.getOrCreateUser i e w)) /\
       solvent (after (CreditUtils2.getOrCreateUser i e w))) /\
    (forall request,
       solvent (after (GrooveSell.POST request w)) /\
       solvent (after (CreditsRoute.POST request w))) /\
    (forall sha256 env outside request,
       solvent (after (Replicate.POST sha256 env outside request w))).
Proof.
  intros w Hk Hs. assert (H : sound w) by (split; assumption).
  split; [intros e a|].
  { destruct (useCredits_sound e a w H) as [[_ H1] [_ H2]]. split; assumption. }
  split; [intros e n p auth Hn|].
  { destruct (addCredits_sound e n p auth w Hn H) as [[_ H1] [_ H2]].
    split; assumption. }
  split; [intros i e|].
  { destruct (accounts_created_sound i e w H) as (_ & _ & [_ H1] & [_ H2]).
    split; assumption. }
  split; [intros request|].
  { destruct (routes_sound request w H) as [[_ H1] [_ H2]]. split; assumption. }
  intros sha256 env outside request.
  apply (Replicate_sound sha256 env outside request w H).
Qed.

Lemma shop_solvent : solvent shop.
Proof. intros u [<- | [<- | []]]; simpl; lia. Qed.

Lemma ledger_stays_solvent_witness :
  keys_unique shop /\ solvent shop /\
  solvent (after (CreditUtils.useCredits "a@x.com" (-7) shop)) /\
  solvent (after (CreditUtils2.useCredits "a@x.com" (-7) shop)).
Proof.
  assert (Hk : keys_unique shop)
    by (split; simpl; repeat constructor; simpl; intuition discriminate).
  split; [exact Hk|]. split; [exact shop_solvent|].
  destruct (ledger_stays_solvent shop Hk shop_solvent) as (Hdebit & _).
  exact (Hdebit "a@x.com" (-7)).
Defined.

Example only_a_negative_grant_overdraws :
  map credits (users overdrawn) = [-2; 0] /\
  map credits (users (after (CreditUtils.useCredits "a@x.com" (-7) shop))) = [10; 0].
Proof. vm_compute. split; reflexivity. Qed.

(** ** The multi-person image route *)

Lemma hasEnoughCredits2_found w u n :
  outages w = [] -> anon_client w = true -> keys_unique w -> In u (users w) ->
  CreditUtils2.hasEnoughCredits (email u) n w = (Returns (credits u >=? n), w).
Proof.
  intros Ho Ha Hk Hu. unfold CreditUtils2.hasEnoughCredits.
  apply try_returns.
  erewrite bind_returns by (apply getUserByEmail2_found; assumption).
  reflexivity.
Qed.

Lemma hasEnoughCredits2_absent w e n :
  outages w = [] -> anon_client w = true -> no_account e w ->
  CreditUtils2.hasEnoughCredits e n w = (Returns false, w).
Proof.
  intros Ho Ha Hn. unfold CreditUtils2.hasEnoughCredits.
  apply try_returns.
  erewrite bind_returns by (apply getUserByEmail2_absent; assumption).
  reflexivity.
Qed.

Lemma canAccessMultiplePhotos_found w u :
  outages w = [] -> anon_client w = true -> keys_unique w -> In u (users w) ->
  CreditUtils2.canAccessMultiplePhotos (email u) w =
  (Returns (match subscription_tier u with Some basic => false | _ => true end), w).
Proof.
  intros Ho Ha Hk Hu. unfold CreditUtils2.canAccessMultiplePhotos.
  apply try_returns.
  erewrite bind_returns by (apply getUserByEmail2_found; assumption).
  cbv beta iota. destruct (subscription_tier u) as [[| |]|]; reflexivity.
Qed.

(** Runs the route up to its credit checks, for a request that gets
    there. *)
Ltac to_the_gate Hgate :=
  let Htoken := fresh "Htoken" in
  let Hdir := fresh "Hdir" in
  let Hpw := fresh "Hpw" in
  let Hmail := fresh "Hmail" in
  let Hne := fresh "Hne" in
  destruct Hgate as (Htoken & Hdir & Hpw & Hmail & Hne);
  unfold Replicate.POST; rewrite Htoken; cbv beta iota delta [negb];
  unfold Replicate.ensureOutputDirExists, Replicate.request_formData;
  unfold try_catch at 1;
  match goal with
  | |- context [Replicate.effectiveStorageMode ?env] =>
      destruct (Replicate.effectiveStorageMode env) eqn:?;
      [rewrite (Hdir eq_refl)|]
  end;
  (erewrite bind_returns by reflexivity);
  (erewrite bind_returns by reflexivity);
  cbv zeta; rewrite Hmail;
  match goal with
  | |- context [truthy_text (Replicate.APP_PASSWORD ?env)] =>
      destruct (truthy_text (Replicate.APP_PASSWORD env));
      [destruct (Hpw eq_refl) as [-> ->];
       cbv beta iota delta [negb text_is]; rewrite String.eqb_refl|]
  end;
  cbv beta iota delta [negb];
  match goal with
  | Hne : ?e <> "" |- _ =>
      let E := fresh "E" in
      destruct e as [|? ?] eqn:E; [congruence|];
      cbv beta iota; rewrite <- E in *
  end.

Lemma Replicate_refuses_without_credits sha256 env outside form e w :
  healthy w -> keys_unique w -> reaches_the_gate sha256 env outside form e ->
  (no_account e w \/ exists u, In u (users w) /\ email u = e /\ credits u < 2) ->
  Replicate.POST sha256 env outside (Some form) w =
  (Returns
     (Replicate.Refusal 402
        "Insufficient credits. Multi-person coloring pages require 2 credits."),
   w).
Proof.
  intros (Ho & Ha & Hd) Hk Hgate Hlow.
  assert (Hcheck : CreditUtils2.hasEnoughCredits e Replicate.REQUIRED_CREDITS w =
                   (Returns false, w)).
  { destruct Hlow as [Hn | (u & Hu & <- & Hlt)].
    - apply hasEnoughCredits2_absent; assumption.
    - rewrite hasEnoughCredits2_found by assumption.
      unfold Replicate.REQUIRED_CREDITS.
      destruct (Z.geb_spec (credits u) 2); [lia | reflexivity]. }
  to_the_gate Hgate; (erewrite bind_returns by exact Hcheck); reflexivity.
Qed.

Lemma Replicate_refuses_basic_tier sha256 env outside form u w :
  healthy w -> keys_unique w -> In u (users w) ->
  reaches_the_gate sha256 env outside form (email u) ->
  2 <= credits u -> subscription_tier u = Some basic ->
  Replicate.POST sha256 env outside (Some form) w =
  (Returns
     (Replicate.Refusal 403
        "Multi-person coloring pages require Standard or Premium subscription. Please upgrade your plan to access this feature."),
   w).
Proof.
  intros (Ho & Ha & Hd) Hk Hu Hgate Hle Htier.
  assert (Hcheck : CreditUtils2.hasEnoughCredits (email u)
                     Replicate.REQUIRED_CREDITS w = (Returns true, w)).
  { rewrite hasEnoughCredits2_found by assumption.
    unfold Replicate.REQUIRED_CREDITS.
    destruct (Z.geb_spec (credits u) 2); [reflexivity | lia]. }
  assert (Htiers : CreditUtils2.canAccessMultiplePhotos (email u) w =
                   (Returns false, w)).
  { rewrite canAccessMultiplePhotos_found by assumption.
    rewrite Htier. reflexivity. }
  to_the_gate Hgate; (erewrite bind_returns by exact Hcheck);
    cbv beta iota; (erewrite bind_returns by exact Htiers); reflexivity.
Qed.

Lemma Replicate_draws sha256 env outside form u w b64 metrics :
  healthy w -> keys_unique w -> In u (users w) ->
  reaches_the_gate sha256 env outside form (email u) ->
  2 <= credits u -> credits u <= 2147483647 ->
  subscription_tier u <> Some basic ->
  draws env outside form b64 metrics ->
  Replicate.POST sha256 env outside (Some form) w =
  (Returns (Replicate.Images [picture env b64 (now w)] metrics None),
   debited u 2 w).
Proof.
  intros Hh Hk Hu Hgate Hle Hmax Htier (Hphotos & Hdrawn & Hwrite).
  pose proof Hh as (Ho & Ha & Hd).
  assert (Hcheck : CreditUtils2.hasEnoughCredits (email u)
                     Replicate.REQUIRED_CREDITS w = (Returns true, w)).
  { rewrite hasEnoughCredits2_found by assumption.
    unfold Replicate.REQUIRED_CREDITS.
    destruct (Z.geb_spec (credits u) 2); [reflexivity | lia]. }
  assert (Htiers : CreditUtils2.canAccessMultiplePhotos (email u) w =
                   (Returns true, w)).
  { rewrite canAccessMultiplePhotos_found by assumption.
    destruct (subscription_tier u) as [[| |]|]; congruence. }
  assert (Hdebit : CreditUtils2.useCredits (email u) Replicate.REQUIRED_CREDITS w =
                   (Returns (with_balance (credits u - 2) (now w) u),
                    debited u 2 w)).
  { apply useCredits2_success; try assumption; unfold fits; lia. }
  unfold picture.
  to_the_gate Hgate; (erewrite bind_returns by exact Hcheck);
    cbv beta iota; (erewrite bind_returns by exact Htiers);
    cbv beta iota;
    (destruct (Replicate.imageFiles form) as [|photo photos]; [congruence|]);
    unfold Replicate.completedPrediction, Replicate.writeFile;
    rewrite Hdrawn; try rewrite (Hwrite eq_refl);
    (erewrite bind_returns by reflexivity);
    (erewrite bind_returns by reflexivity);
    (erewrite bind_returns by reflexivity);
    (erewrite bind_returns
       by (apply try_returns; erewrite bind_returns by exact Hdebit;
           reflexivity));
    reflexivity.
Qed.

Lemma Replicate_prediction_fails sha256 env outside form u w message :
  healthy w -> keys_unique w -> In u (users w) ->
  reaches_the_gate sha256 env outside form (email u) ->
  2 <= credits u -> subscription_tier u <> Some basic ->
  Replicate.imageFiles form <> [] ->
  Replicate.prediction outside = Replicate.Failed message ->
  Replicate.POST sha256 env outside (Some form) w =
  (Returns (Replicate.Refusal 500 message), w).
Proof.
  intros Hh Hk Hu Hgate Hle Htier Hphotos Hfailed.
  pose proof Hh as (Ho & Ha & Hd).
  assert (Hcheck : CreditUtils2.hasEnoughCredits (email u)
                     Replicate.REQUIRED_CREDITS w = (Returns true, w)).
  { rewrite hasEnoughCredits2_found by assumption.
    unfold Replicate.REQUIRED_CREDITS.
    destruct (Z.geb_spec (credits u) 2); [reflexivity | lia]. }
  assert (Htiers : CreditUtils2.canAccessMultiplePhotos (email u) w =
                   (Returns true, w)).
  { rewrite canAccessMultiplePhotos_found by assumption.
    destruct (subscription_tier u) as [[| |]|]; congruence. }
  to_the_gate Hgate; (erewrite bind_returns by exact Hcheck);
    cbv beta iota; (erewrite bind_returns by exact Htiers);
    cbv beta iota;
    (destruct (Replicate.imageFiles form) as [|photo photos]; [congruence|]);
    unfold Replicate.completedPrediction;
    rewrite Hfailed;
    (erewrite bind_throws by reflexivity);
    reflexivity.
Qed.

Lemma ends_of_exists {A} (run : Outcome A * World)
    (R Q : Outcome A -> World -> Prop) :
  (exists o w', run = (o, w') /\ R o w') ->
  (forall o w', R o w' -> Q o w') ->
  ends_in run Q.
Proof.
  intros (o & w' & -> & HR) HQ. apply HQ. exact HR.
Qed.

(** The advisory reads of the later revision return, on a world that
    differs from the present one in its outages at most. *)
Lemma ends_advisory_reads e n w (Q : Outcome bool -> World -> Prop) :
  (forall w0 b, but_outages w w0 -> Q (Returns b) w0) ->
  ends_in (CreditUtils2.hasEnoughCredits e n w) Q /\
  ends_in (CreditUtils2.canAccessMultiplePhotos e w) Q.
Proof.
  intros H.
  unfold CreditUtils2.hasEnoughCredits, CreditUtils2.canAccessMultiplePhotos.
  split; apply ends_try, ends_bind, ends_getUserByEmail2;
    intros w0 Hw0; cbv beta iota; (split; [|split]); intros; walk;
    apply H; exact Hw0.
Qed.

Lemma Replicate_charges_for_a_picture sha256 env outside request w :
  keys_unique w ->
  ends_in (Replicate.POST sha256 env outside request w)
    (fun o w' => exists a, o = Returns a /\ charged_for a request w w').
Proof.
  intros Hk.
  unfold Replicate.POST, Replicate.ensureOutputDirExists,
    Replicate.request_formData, Replicate.completedPrediction,
    Replicate.writeFile.
  cbv zeta. walk.
  all: try (eexists; split; [reflexivity|]; split; reflexivity).
  all: apply (fun H => proj1 (ends_advisory_reads _ _ _ _ H));
    intros w1 enough Hw1; cbv beta iota; walk.
  all: try (eexists; split; [reflexivity|]; cbn [charged_for]; ledger).
  all: apply (fun H => proj2 (ends_advisory_reads _ 0 _ _ H));
    intros w2 canAccess Hw2; cbv beta iota; walk.
  all: try (eexists; split; [reflexivity|]; cbn [charged_for]; ledger).
  all: assert (Hus2 : users w2 = users w) by (worlds; congruence).
  all: assert (Hnow2 : now w2 = now w) by (worlds; congruence).
  all: assert (Htx2 : credit_transactions w2 = credit_transactions w)
    by (worlds; congruence).
  all: assert (Hk2 : keys_unique w2)
    by (unfold keys_unique; rewrite Hus2; exact Hk).
  all: eapply ends_of_exists;
    [apply (debit2_on_any_world _ _ _ Hk2) | intros o w3 HR].
  all: destruct o as [u' | err]; cbv beta iota; walk.
  all: eexists; (split; [reflexivity|]); cbn [charged_for].
  all: assert (Htaken : forall u,
                In u (users w2) -> email u = String a s0 ->
                Replicate.REQUIRED_CREDITS <= credits u ->
                users w3 =
                  replace_row (id u)
                    (with_balance (credits u - Replicate.REQUIRED_CREDITS)
                       (now w2) u) (users w2) ->
                two_credits_taken (Some f) w w3)
    by (intros u Hu He Hle Hus3; exists f, (String a s0), u;
        rewrite <- Hus2, <- Hnow2; auto 7).
  - destruct HR as (u & Hu & He & Hle & _ & -> & Hus3 & _).
    exact (Htaken u Hu He Hle Hus3).
  - destruct HR as [Htx3 [Hus3 | (u & Hu & He & Hle & _ & Hus3)]].
    + left. split; congruence.
    + right. split; [exact (Htaken u Hu He Hle Hus3) | congruence].
  - destruct HR as (u & Hu & He & Hle & _ & -> & Hus3 & _).
    exact (Htaken u Hu He Hle Hus3).
  - destruct HR as [Htx3 [Hus3 | (u & Hu & He & Hle & _ & Hus3)]].
    + left. split; congruence.
    + right. split; [exact (Htaken u Hu He Hle Hus3) | congruence].
Qed.

(** X18. The multi-person image route charges for a delivered picture
    only.  On every world that keeps the key constraints, whatever the
    request, the environment, Replicate, the file system and the store
    do, the route answers and does not throw.  With a refusal, of
    whatever status, no balance has changed and nothing has been logged.
    When the answer is the picture without a warning, exactly two credits
    have been taken from the account of the caller, which covered them,
    and no other balance has changed.  When the answer is the picture
    with the warning that the credits could not be updated, no balance
    has changed and nothing has been logged, unless the reply to the debit
    was lost: then the two credits are taken all the same, and nothing is
    logged. *)
Theorem replicate_charges_only_for_a_picture :
  forall (sha256 : string -> string) (env : Replicate.Env)
         (outside : Replicate.Outside) (request : option Replicate.Form)
         (w : World),
    keys_unique w ->
    exists a w',
      Replicate.POST sha256 env outside request w = (Returns a, w') /\
      charged_for a request w w'.
Proof.
  intros sha256 env outside request w Hk.
  destruct (ends_in_exists _ _
              (Replicate_charges_for_a_picture sha256 env outside request w Hk))
    as (o & w' & Hrun & a & -> & Hcharged).
  exists a, w'. split; assumption.
Qed.

Lemma replicate_charges_only_for_a_picture_witness :
  keys_unique (with_outages [None; None; None; Some ReplyLost] shop) /\
  exists a w',
    Replicate.POST (fun s => s) studio drawing (Some (two_photos "a@x.com"))
      (with_outages [None; None; None; Some ReplyLost] shop) = (Returns a, w') /\
    charged_for a (Some (two_photos "a@x.com"))
      (with_outages [None; None; None; Some ReplyLost] shop) w'.
Proof.
  assert (Hk : keys_unique (with_outages [None; None; None; Some ReplyLost] shop))
    by (split; simpl; repeat constructor; simpl; intuition discriminate).
  split; [exact Hk|].
  exact (replicate_charges_only_for_a_picture (fun s => s) studio drawing
           (Some (two_photos "a@x.com"))
           (with_outages [None; None; None; Some ReplyLost] shop) Hk).
Defined.

(** The reply to the debit is lost: alice gets the picture with the
    warning, and her two credits are gone. *)
Example picture_with_the_reply_lost :
  let w := with_outages [None; None; None; Some ReplyLost] shop in
  let r := Replicate.POST (fun s => s) studio drawing
             (Some (two_photos "a@x.com")) w in
  fst r =
    Returns (Replicate.Images [picture studio "iVBORw0KGgo" (now shop)] "{}"
               (Some Replicate.credit_warning)) /\
  map credits (users (snd r)) = [1; 0] /\
  credit_transactions (snd r) = [].
Proof. vm_compute. repeat split; reflexivity. Qed.

(** X16. Against a healthy store that keeps its key constraints, a
    request that reaches the credit checks of the multi-person image route
    is refused before Replicate is asked for anything, and the world is
    left as it was: with status 402 when no account carries the email of
    the caller or its balance is below two credits, and with status 403
    when the balance covers two credits but the account is of the basic
    tier. *)
Theorem replicate_gate_refuses :
  forall (sha256 : string -> string) (env : Replicate.Env)
         (outside : Replicate.Outside) (form : Replicate.Form)
         (e : string) (w : World),
    healthy w -> keys_unique w ->
    reaches_the_gate sha256 env outside form e ->
    (no_account e w \/
     (exists u, In u (users w) /\ email u = e /\ credits u < 2) ->
     Replicate.POST sha256 env outside (Some form) w =
     (Returns
        (Replicate.Refusal 402
           "Insufficient credits. Multi-person coloring pages require 2 credits."),
      w)) /\
    (forall u,
       In u (users w) -> email u = e ->
       2 <= credits u -> subscription_tier u = Some basic ->
       Replicate.POST sha256 env outside (Some form) w =
       (Returns
          (Replicate.Refusal 403
             "Multi-person coloring pages require Standard or Premium subscription. Please upgrade your plan to access this feature."),
        w)).
Proof.
  intros sha256 env outside form e w Hh Hk Hgate. split.
  - intros Hlow.
    apply (Replicate_refuses_without_credits sha256 env outside form e w);
      assumption.
  - intros u Hu He Hle Htier. subst e.
    apply (Replicate_refuses_basic_tier sha256 env outside form u w);
      assumption.
Qed.

Lemma studio_gate e :
  e <> "" -> reaches_the_gate (fun s => s) studio drawing (two_photos e) e.
Proof.
  intros Hne. split; [reflexivity|].
  split; [discriminate|]. split; [discriminate|].
  split; [reflexivity | exact Hne].
Qed.

Lemma replicate_gate_refuses_witness :
  healthy shop /\ keys_unique shop /\
  reaches_the_gate (fun s => s) studio drawing (two_photos "b@x.com") "b@x.com" /\
  Replicate.POST (fun s => s) studio drawing (Some (two_photos "b@x.com")) shop =
  (Returns
     (Replicate.Refusal 402
        "Insufficient credits. Multi-person coloring pages require 2 credits."),
   shop).
Proof.
  assert (Hh : healthy shop) by (repeat split).
  assert (Hk : keys_unique shop)
    by (split; simpl; repeat constructor; simpl; intuition discriminate).
  assert (Hg : reaches_the_gate (fun s => s) studio drawing
                 (two_photos "b@x.com") "b@x.com")
    by (apply studio_gate; discriminate).
  split; [exact Hh|]. split; [exact Hk|]. split; [exact Hg|].
  apply (proj1 (replicate_gate_refuses (fun s => s) studio drawing
                  (two_photos "b@x.com") "b@x.com" shop Hh Hk Hg)).
  right. exists bob. split; [simpl; auto|]. split; [reflexivity|]. simpl. lia.
Defined.

(** X17. Against a healthy store that keeps its key constraints, for a
    caller whose account holds at least two credits, a number the INTEGER
    column holds, and is not of the basic tier, and a request with photos
    that reaches the credit checks: when
    Replicate draws the picture and it can be stored, the route answers
    with the picture and no warning, having taken exactly two credits from
    the account and logged the usage; when Replicate fails, the route
    answers with status 500 and the message of the failure, and the world
    is left as it was, so that nothing is charged. *)
Theorem replicate_draws_then_debits :
  forall (sha256 : string -> string) (env : Replicate.Env)
         (outside : Replicate.Outside) (form : Replicate.Form)
         (u : User) (w : World),
    healthy w -> keys_unique w -> In u (users w) ->
    reaches_the_gate sha256 env outside form (email u) ->
    2 <= credits u -> credits u <= 2147483647 ->
    subscription_tier u <> Some basic ->
    Replicate.imageFiles form <> [] ->
    (forall b64 metrics,
       Replicate.prediction outside = Replicate.Drawn b64 metrics ->
       (Replicate.effectiveStorageMode env = Replicate.fs ->
        Replicate.write_file_error outside = None) ->
       Replicate.POST sha256 env outside (Some form) w =
       (Returns (Replicate.Images [picture env b64 (now w)] metrics None),
        debited u 2 w)) /\
    (forall message,
       Replicate.prediction outside = Replicate.Failed message ->
       Replicate.POST sha256 env outside (Some form) w =
       (Returns (Replicate.Refusal 500 message), w)).
Proof.
  intros sha256 env outside form u w Hh Hk Hu Hgate Hle Hmax Htier Hphotos. split.
  - intros b64 metrics Hdrawn Hwrite.
    apply (Replicate_draws sha256 env outside form u w b64 metrics);
      try assumption.
    split; [exact Hphotos|]. split; assumption.
  - intros message Hfailed.
    apply (Replicate_prediction_fails sha256 env outside form u w message);
      assumption.
Qed.

Lemma replicate_draws_then_debits_witness :
  healthy shop /\ keys_unique shop /\ In alice (users shop) /\
  reaches_the_gate (fun s => s) studio drawing (two_photos "a@x.com")
    (email alice) /\
  2 <= credits alice /\ credits alice <= 2147483647 /\
  subscription_tier alice <> Some basic /\
  Replicate.imageFiles (two_photos "a@x.com") <> [] /\
  Replicate.POST (fun s => s) studio drawing (Some (two_photos "a@x.com")) shop =
  (Returns (Replicate.Images [picture studio "iVBORw0KGgo" (now shop)] "{}" None),
   debited alice 2 shop).
Proof.
  assert (Hh : healthy shop) by (repeat split).
  assert (Hk : keys_unique shop)
    by (split; simpl; repeat constructor; simpl; intuition discriminate).
  assert (Hu : In alice (users shop)) by (simpl; auto).
  assert (Hg : reaches_the_gate (fun s => s) studio drawing
                 (two_photos "a@x.com") (email alice))
    by (apply studio_gate; discriminate).
  assert (Hle : 2 <= credits alice) by (simpl; lia).
  assert (Hmax : credits alice <= 2147483647) by (simpl; lia).
  assert (Ht : subscription_tier alice <> Some basic) by discriminate.
  assert (Hp : Replicate.imageFiles (two_photos "a@x.com") <> []) by discriminate.
  split; [exact Hh|]. split; [exact Hk|]. split; [exact Hu|].
  split; [exact Hg|]. split; [exact Hle|]. split; [exact Hmax|].
  split; [exact Ht|]. split; [exact Hp|].
  apply (proj1 (replicate_draws_then_debits (fun s => s) studio drawing
                  (two_photos "a@x.com") alice shop Hh Hk Hu Hg Hle Hmax Ht Hp)).
  - reflexivity.
  - discriminate.
Defined.

Example picture_for_alice :
  fst (Replicate.POST (fun s => s) studio drawing (Some (two_photos "a@x.com")) shop) =
    Returns
      (Replicate.Images
         [{| Replicate.filename := "1793707200000-multi-person.png";
             Replicate.image_b64_json := "iVBORw0KGgo";
             Replicate.path := None;
             Replicate.output_format := "png" |}] "{}" None) /\
  fst (CreditUtils2.getCreditBalance "a@x.com"
         (snd (Replicate.POST (fun s => s) studio drawing
                 (Some (two_photos "a@x.com")) shop))) = Returns 1.
Proof. vm_compute. split; reflexivity. Qed.

Lemma Replicate_warns sha256 env outside form e w w1 w2 b64 metrics err :
  reaches_the_gate sha256 env outside form e ->
  draws env outside form b64 metrics ->
  CreditUtils2.hasEnoughCredits e Replicate.REQUIRED_CREDITS w = (Returns true, w1) ->
  CreditUtils2.canAccessMultiplePhotos e w1 = (Returns true, w2) ->
  CreditUtils2.useCredits e Replicate.REQUIRED_CREDITS w2 = (Throws err, w2) ->
  Replicate.POST sha256 env outside (Some form) w =
  (Returns
     (Replicate.Images [picture env b64 (now w2)] metrics
        (Some Replicate.credit_warning)), w2).
Proof.
  intros Hgate (Hphotos & Hdrawn & Hwrite) Hcheck Htiers Hdebit.
  unfold picture.
  to_the_gate Hgate; (erewrite bind_returns by exact Hcheck);
    cbv beta iota; (erewrite bind_returns by exact Htiers);
    cbv beta iota;
    (destruct (Replicate.imageFiles form) as [|photo photos]; [congruence|]);
    unfold Replicate.completedPrediction, Replicate.writeFile;
    rewrite Hdrawn; try rewrite (Hwrite eq_refl);
    (erewrite bind_returns by reflexivity);
    (erewrite bind_returns by reflexivity);
    (erewrite bind_returns by reflexivity);
    (erewrite bind_returns
       by (erewrite try_throws
             by (erewrite bind_throws by exact Hdebit; reflexivity);
           reflexivity));
    reflexivity.
Qed.

(** X19. The credit checks of the multi-person image route fail open, and
    the debit after them fails closed, so that a picture can be had for
    nothing.  For a request with photos that reaches the checks, when
    Replicate draws: if the [supabase] handle is not set, any caller, with
    or without an account, gets the picture with the warning that the
    credits could not be updated, and the world is left as it was; and if a
    single outage meets the first lookup of an otherwise healthy store, a
    caller whose account holds fewer than two credits and is not of the
    basic tier gets the picture with that warning too, and no balance
    changes. *)
Theorem replicate_fails_open :
  forall (sha256 : string -> string) (env : Replicate.Env)
         (outside : Replicate.Outside) (form : Replicate.Form)
         (e : string) (w : World) (b64 metrics : string),
    reaches_the_gate sha256 env outside form e ->
    draws env outside form b64 metrics ->
    (anon_client w = false ->
     Replicate.POST sha256 env outside (Some form) w =
     (Returns
        (Replicate.Images [picture env b64 (now w)] metrics
           (Some Replicate.credit_warning)), w)) /\
    (forall o u,
       outages w = [Some o] -> anon_client w = true -> admin_client w = true ->
       keys_unique w -> In u (users w) -> email u = e ->
       credits u < 2 -> subscription_tier u <> Some basic ->
       Replicate.POST sha256 env outside (Some form) w =
       (Returns
          (Replicate.Images [picture env b64 (now w)] metrics
             (Some Replicate.credit_warning)), with_outages [] w)).
Proof.
  intros sha256 env outside form e w b64 metrics Hgate Hdraws. split.
  - intros Ha.
    apply (Replicate_warns sha256 env outside form e w w w b64 metrics
             (CreditError "Supabase client not available" "NO_SUPABASE_CLIENT"));
      try assumption.
    + unfold CreditUtils2.hasEnoughCredits, CreditUtils2.getUserByEmail,
        try_catch, bind. rewrite Ha. reflexivity.
    + unfold CreditUtils2.canAccessMultiplePhotos, CreditUtils2.getUserByEmail,
        try_catch, bind. rewrite Ha. reflexivity.
    + unfold CreditUtils2.useCredits, try_catch. rewrite Ha. reflexivity.
  - intros o u Ho Ha Hd Hk Hu He Hlt Htier. subst e.
    assert (Hh1 : healthy (with_outages [] w)) by (repeat split; assumption).
    assert (Hk1 : keys_unique (with_outages [] w)) by exact Hk.
    assert (Hu1 : In u (users (with_outages [] w))) by exact Hu.
    destruct Hh1 as (Ho1 & Ha1 & Hd1).
    apply (Replicate_warns sha256 env outside form (email u) w
             (with_outages [] w) (with_outages [] w) b64 metrics
             (CreditError "Insufficient credits" "INSUFFICIENT_CREDITS"));
      try assumption.
    + unfold CreditUtils2.hasEnoughCredits, CreditUtils2.getUserByEmail,
        try_catch, bind, call, remote. rewrite Ha. simpl. rewrite Ha, Ho.
      destruct o; reflexivity.
    + rewrite canAccessMultiplePhotos_found by assumption.
      destruct (subscription_tier u) as [[| |]|]; congruence.
    + apply useCredits2_insufficient; try assumption.
      repeat split; assumption.
Qed.

Lemma replicate_fails_open_witness :
  reaches_the_gate (fun s => s) studio drawing (two_photos "b@x.com") "b@x.com" /\
  draws studio drawing (two_photos "b@x.com") "iVBORw0KGgo" "{}" /\
  Replicate.POST (fun s => s) studio drawing (Some (two_photos "b@x.com"))
    shop_down =
  (Returns
     (Replicate.Images [picture studio "iVBORw0KGgo" (now shop_down)] "{}"
        (Some Replicate.credit_warning)), with_outages [] shop_down).
Proof.
  assert (Hg : reaches_the_gate (fun s => s) studio drawing
                 (two_photos "b@x.com") "b@x.com")
    by (apply studio_gate; discriminate).
  assert (Hd : draws studio drawing (two_photos "b@x.com") "iVBORw0KGgo" "{}").
  { split; [discriminate|]. split; [reflexivity | discriminate]. }
  assert (Hk : keys_unique shop_down)
    by (split; simpl; repeat constructor; simpl; intuition discriminate).
  split; [exact Hg|]. split; [exact Hd|].
  apply (proj2 (replicate_fails_open (fun s => s) studio drawing
                  (two_photos "b@x.com") "b@x.com" shop_down
                  "iVBORw0KGgo" "{}" Hg Hd) Unreachable bob);
    try reflexivity; try exact Hk.
  - simpl. auto.
  - discriminate.
Defined.

Example bob_pays_nothing_during_an_outage :
  fst (Replicate.POST (fun s => s) studio drawing (Some (two_photos "b@x.com")) shop) =
    Returns
      (Replicate.Refusal 402
         "Insufficient credits. Multi-person coloring pages require 2 credits.") /\
  Replicate.answer_status
    (match fst (Replicate.POST (fun s => s) studio drawing
                  (Some (two_photos "b@x.com")) shop_down) with
     | Returns a => a
     | Throws _ => Replicate.Refusal 0 ""
     end) = 200 /\
  map credits
    (users (snd (Replicate.POST (fun s => s) studio drawing
                   (Some (two_photos "b@x.com")) shop_down))) = [3; 0].
Proof. vm_compute. repeat split; reflexivity. Qed.


(** ** The output format of a picture *)

Lemma toLowerCase_idempotent s :
  Replicate.toLowerCase (Replicate.toLowerCase s) = Replicate.toLowerCase s.
Proof.
  induction s as [|c s IH]; [reflexivity|].
  cbn [Replicate.toLowerCase]. rewrite IH. f_equal.
  unfold Replicate.lower.
  destruct ((65 <=? nat_of_ascii c)%nat && (nat_of_ascii c <=? 90)%nat) eqn:E.
  - apply andb_true_iff in E. destruct E as [E1 E2].
    apply Nat.leb_le in E1. apply Nat.leb_le in E2.
    rewrite nat_ascii_embedding by lia.
    replace ((nat_of_ascii c + 32 <=? 90)%nat) with false
      by (symmetry; apply Nat.leb_gt; lia).
    rewrite andb_false_r. reflexivity.
  - rewrite E. reflexivity.
Qed.

(** X20. [validateOutputFormat] always returns one of 'png', 'jpeg' and
    'webp': it returns each of these unchanged, reads them whatever the
    case of their letters, maps 'jpg' to 'jpeg', and answers 'png' for
    every other text, for the empty text and for no text; applying it to
    its own result changes nothing. *)
Theorem validateOutputFormat_valid :
  forall (format : option string),
    In (Replicate.validateOutputFormat format) Replicate.VALID_OUTPUT_FORMATS /\
    Replicate.validateOutputFormat (Some (Replicate.validateOutputFormat format)) =
      Replicate.validateOutputFormat format /\
    (forall s, format = Some s ->
       Replicate.validateOutputFormat (Some (Replicate.toLowerCase s)) =
       Replicate.validateOutputFormat format) /\
    (forall s, In s Replicate.VALID_OUTPUT_FORMATS ->
       Replicate.validateOutputFormat (Some s) = s) /\
    Replicate.validateOutputFormat (Some "jpg") = "jpeg" /\
    Replicate.validateOutputFormat (Some "") = "png" /\
    Replicate.validateOutputFormat None = "png" /\
    (forall s, format = Some s ->
       ~ In (Replicate.toLowerCase s) ("jpg" :: Replicate.VALID_OUTPUT_FORMATS) ->
       Replicate.validateOutputFormat format = "png").
Proof.
  intros format.
  assert (Hvalid : forall f,
            In (Replicate.validateOutputFormat f) Replicate.VALID_OUTPUT_FORMATS).
  { intros f. unfold Replicate.validateOutputFormat. cbv zeta.
    destruct (existsb _ Replicate.VALID_OUTPUT_FORMATS) eqn:E.
    - apply existsb_exists in E. destruct E as (x & Hx & E).
      apply String.eqb_eq in E. rewrite E. exact Hx.
    - simpl. auto. }
  assert (Hfix : forall s, In s Replicate.VALID_OUTPUT_FORMATS ->
            Replicate.validateOutputFormat (Some s) = s).
  { intros s [<- | [<- | [<- | []]]]; reflexivity. }
  split; [apply Hvalid|].
  split; [apply Hfix, Hvalid|].
  split.
  { intros s ->. unfold Replicate.validateOutputFormat. cbv zeta.
    destruct s as [|c s]; [reflexivity|].
    assert (Hl : exists c' s',
              Replicate.toLowerCase (String c s) = String c' s').
    { eexists _, _. reflexivity. }
    destruct Hl as (c' & s' & Hl).
    assert (Ht : text_or (Some (String c' s')) (Some "png") = Some (String c' s'))
      by reflexivity.
    assert (Ht0 : text_or (Some (String c s)) (Some "png") = Some (String c s))
      by reflexivity.
    rewrite Hl, Ht, Ht0. cbn [show_text].
    rewrite <- Hl, toLowerCase_idempotent. reflexivity. }
  split; [exact Hfix|].
  split; [reflexivity|]. split; [reflexivity|]. split; [reflexivity|].
  intros s -> Hother. unfold Replicate.validateOutputFormat. cbv zeta.
  destruct s as [|c s]; [reflexivity|].
  assert (Ht0 : text_or (Some (String c s)) (Some "png") = Some (String c s))
    by reflexivity.
  rewrite Ht0. cbn [show_text].
  destruct (String.eqb_spec (Replicate.toLowerCase (String c s)) "jpg") as [E | _].
  { exfalso. apply Hother. left. symmetry. exact E. }
  destruct (existsb (String.eqb (Replicate.toLowerCase (String c s)))
              Replicate.VALID_OUTPUT_FORMATS) eqn:E; [|reflexivity].
  exfalso. apply Hother. right.
  apply existsb_exists in E. destruct E as (x & Hx & E).
  apply String.eqb_eq in E. rewrite E. exact Hx.
Qed.

Example validateOutputFormat_samples :
  Replicate.validateOutputFormat (Some "JPG") = "jpeg" /\
  Replicate.validateOutputFormat (Some "WebP") = "webp" /\
  Replicate.validateOutputFormat (Some "gif") = "png" /\
  Replicate.validateOutputFormat (Some "png ") = "png".
Proof. repeat split; reflexivity. Qed.


(** ** Sign-up *)

Lemma signUpUser_registered w e password :
  healthy w -> truthy_text password = true ->
  existsb (by_auth_email e) (auth_users w) = true ->
  CreditUtils.signUpUser e password w =
    (existingUser <- CreditUtils.getUserByEmail e ;;
     ret (CreditUtils.id_or_null existingUser)) w /\
  CreditUtils2.signUpUser e password w =
    (existingUser <- CreditUtils2.getUserByEmail e ;;
     ret (CreditUtils2.id_or_null existingUser)) w.
Proof.
  intros (Ho & Ha & Hd) Hpw Hauth.
  destruct password as [[|c s]|]; try discriminate.
  unfold CreditUtils.signUpUser, CreditUtils2.signUpUser.
  rewrite Hd. cbv beta iota delta [negb].
  assert (Hcall :
    call_auth Admin (auth_create_user e) w =
    (Returns (Error (mkPgError "email_exists"
                       "A user with this email address has already been registered")),
     w)).
  { apply call_auth_healthy; [assumption | assumption |].
    unfold auth_create_user. rewrite Hauth. reflexivity. }
  split.
  - erewrite bind_returns by exact Hcall. cbv beta iota. cbn [pg_message].
    rewrite already_registered_reply. reflexivity.
  - erewrite bind_returns by exact Hcall. cbv beta iota. cbn [pg_message].
    unfold CreditUtils2.already_registered.
    rewrite already_registered_reply. reflexivity.
Qed.

(** X21. Against a healthy store that keeps its key constraints,
    [signUpUser] with a password registers an email at most once: for an
    email the auth directory does not hold it creates the auth user and
    returns the identifier handed out, without touching the ledger; for an
    email already registered it creates nothing and returns the identifier
    of the ledger account that carries the email, or null when the ledger
    holds no such account.  Both revisions of the ledger. *)
Theorem signUpUser_registers_once :
  forall (w : World) (e : string) (password : option string),
    healthy w -> keys_unique w -> truthy_text password = true ->
    registers_once CreditUtils.signUpUser w e password /\
    registers_once CreditUtils2.signUpUser w e password.
Proof.
  intros w e password Hh Hk Hpw. pose proof Hh as (Ho & Ha & Hd).
  split; split.
  - intros Hauth Hid. apply (signUpUser_new w e password Hh Hpw Hauth Hid).
  - intros Hauth.
    rewrite (proj1 (signUpUser_registered w e password Hh Hpw Hauth)).
    split.
    + intros u Hu <- Hid.
      erewrite bind_returns by (apply getUserByEmail_found; assumption).
      unfold ret, CreditUtils.id_or_null.
      rewrite (proj2 (String.eqb_neq _ _) Hid). reflexivity.
    + intros Hn.
      erewrite bind_returns by (apply getUserByEmail_absent; assumption).
      reflexivity.
  - intros Hauth Hid. apply (signUpUser_new w e password Hh Hpw Hauth Hid).
  - intros Hauth.
    rewrite (proj2 (signUpUser_registered w e password Hh Hpw Hauth)).
    split.
    + intros u Hu <- Hid.
      erewrite bind_returns by (apply getUserByEmail2_found; assumption).
      unfold ret, CreditUtils2.id_or_null, CreditUtils.id_or_null.
      rewrite (proj2 (String.eqb_neq _ _) Hid). reflexivity.
    + intros Hn.
      erewrite bind_returns by (apply getUserByEmail2_absent; assumption).
      reflexivity.
Qed.

Lemma signUpUser_registers_once_witness :
  healthy shop /\ keys_unique shop /\ truthy_text (Some "s3cret") = true /\
  registers_once CreditUtils.signUpUser shop "a@x.com" (Some "s3cret") /\
  registers_once CreditUtils2.signUpUser shop "a@x.com" (Some "s3cret").
Proof.
  assert (Hh : healthy shop) by (repeat split).
  assert (Hk : keys_unique shop)
    by (split; simpl; repeat constructor; simpl; intuition discriminate).
  assert (Hpw : truthy_text (Some "s3cret") = true) by reflexivity.
  split; [exact Hh|]. split; [exact Hk|]. split; [exact Hpw|].
  exact (signUpUser_registers_once shop "a@x.com" (Some "s3cret") Hh Hk Hpw).
Defined.



(** ** The transaction log *)

Lemma logs_or_skips_of
    (run : string -> Num -> TransactionType -> string -> M unit) w uid (a : Z) k d :
  ends_in (run uid a k d w)
    (fun o w' =>
       o = Returns tt /\ users w' = users w /\
       (credit_transactions w' = credit_transactions w \/
        (In uid (map id (users w)) /\
         credit_transactions w' =
           logged uid a k d (now w) (credit_transactions w)))) ->
  logs_or_skips run w uid a k d.
Proof.
  intros H. destruct (ends_in_exists _ _ H) as (o & w' & Hrun & -> & Hus & Htx).
  exists w'. auto.
Qed.

(** X23. On every world, whatever the store does, writing an entry of the
    transaction log returns and does not throw, so that a failure of the
    log never fails the debit or the grant that called it; it leaves the
    users as they were, and the log is either as it was or has the one
    entry more, with the amount, the type, the description and the time of
    the call, which it only has for the identifier of an existing
    account.  Both revisions of the ledger. *)
Theorem logCreditTransaction_never_throws :
  forall (w : World) (uid : string) (a : Z) (k : TransactionType) (d : string),
    logs_or_skips CreditUtils.logCreditTransaction w uid a k d /\
    logs_or_skips CreditUtils2.logCreditTransaction w uid a k d.
Proof.
  intros w uid a k d.
  split; apply logs_or_skips_of;
    unfold CreditUtils.logCreditTransaction, CreditUtils2.logCreditTransaction;
    walk; queries; worlds;
    (split; [reflexivity|]);
    cbn [users credit_transactions with_transactions];
    (split; [congruence|]);
    try (left; congruence);
    right; (split; [apply existsb_by_id; congruence|]);
    unfold logged; congruence.
Qed.


(** ** The check before a debit *)

Lemma hasEnoughCredits_healthy w e n :
  healthy w -> keys_unique w ->
  (no_account e w ->
   CreditUtils.hasEnoughCredits e n w = (Returns false, w) /\
   CreditUtils2.hasEnoughCredits e n w = (Returns false, w)) /\
  (forall u, In u (users w) -> email u = e ->
   CreditUtils.hasEnoughCredits e n w = (Returns (credits u >=? n), w) /\
   CreditUtils2.hasEnoughCredits e n w = (Returns (credits u >=? n), w)).
Proof.
  intros (Ho & Ha & Hd) Hk.
  unfold CreditUtils.hasEnoughCredits, CreditUtils2.hasEnoughCredits.
  split.
  - intros Hn. split; apply try_returns.
    + erewrite bind_returns by (apply getUserByEmail_absent; assumption).
      reflexivity.
    + erewrite bind_returns by (apply getUserByEmail2_absent; assumption).
      reflexivity.
  - intros u Hu <-. split; apply try_returns.
    + erewrite bind_returns by (apply getUserByEmail_found; assumption).
      reflexivity.
    + erewrite bind_returns by (apply getUserByEmail2_found; assumption).
      reflexivity.
Qed.

Lemma check_agrees_of (check : string -> Z -> M bool)
    (run : string -> Z -> M User) w e n :
  keys_unique w ->
  (forall u, In u (users w) -> email u = e -> fits (credits u - n)) ->
  (no_account e w -> check e n w = (Returns false, w)) ->
  (forall u, In u (users w) -> email u = e ->
   check e n w = (Returns (credits u >=? n), w)) ->
  (no_account e w ->
   run e n w = (Throws (CreditError "User not found" "USER_NOT_FOUND"), w)) ->
  (forall u, In u (users w) -> credits u < n ->
   run (email u) n w =
   (Throws (CreditError "Insufficient credits" "INSUFFICIENT_CREDITS"), w)) ->
  (forall u, In u (users w) -> n <= credits u -> fits (credits u - n) ->
   exists u' w', run (email u) n w = (Returns u', w')) ->
  check_agrees_with_debit check run w e n.
Proof.
  intros Hk Hfit Habsent Hfound Hnone Hlow Hok.
  destruct (filter_by_email_cases w e Hk) as [[_ Hn] | (u & Hu & He & _)].
  - exists false. split; [apply Habsent; exact Hn|].
    rewrite (Hnone Hn).
    split; (split; [intros H | intros H]).
    + discriminate H.
    + destruct H as (u' & w1 & H). discriminate H.
    + eexists _, _. reflexivity.
    + reflexivity.
  - subst e. exists (credits u >=? n). split; [apply Hfound; auto|].
    destruct (Z.geb_spec (credits u) n) as [Hge | Hlt].
    + destruct (Hok u Hu) as (u' & w' & Hrun); [lia | auto |]. rewrite Hrun.
      split; (split; [intros H | intros H]).
      * eexists _, _. reflexivity.
      * reflexivity.
      * discriminate H.
      * destruct H as (err & w1 & H). discriminate H.
    + rewrite (Hlow u Hu Hlt).
      split; (split; [intros H | intros H]).
      * discriminate H.
      * destruct H as (u' & w1 & H). discriminate H.
      * eexists _, _. reflexivity.
      * reflexivity.
Qed.

(** X24. Against a healthy store that keeps its key constraints, and
    for an amount that leaves in the account that carries the email, if
    there is one, a balance the INTEGER column holds, the advisory check
    agrees with the debit: [hasEnoughCredits(email, n)] answers [true]
    exactly when [useCredits(email, n)] on the same world goes through,
    and [false] exactly when it throws; the check writes nothing.  Both
    revisions of the ledger. *)
Theorem hasEnoughCredits_agrees_with_useCredits :
  forall (w : World) (e : string) (n : Z),
    healthy w -> keys_unique w ->
    (forall u, In u (users w) -> email u = e -> fits (credits u - n)) ->
    check_agrees_with_debit CreditUtils.hasEnoughCredits
      CreditUtils.useCredits w e n /\
    check_agrees_with_debit CreditUtils2.hasEnoughCredits
      CreditUtils2.useCredits w e n.
Proof.
  intros w e n Hh Hk Hfit.
  destruct (hasEnoughCredits_healthy w e n Hh Hk) as [Habsent Hfound].
  split; apply check_agrees_of; try assumption.
  - intros Hn. apply (Habsent Hn).
  - intros u Hu He. apply (Hfound u Hu He).
  - intros Hn. apply useCredits_not_found; assumption.
  - intros u Hu Hlt. apply useCredits_insufficient; assumption.
  - intros u Hu Hle Hf. apply (useCredits_returns w u n Hh Hk Hu Hle Hf).
  - intros Hn. apply (Habsent Hn).
  - intros u Hu He. apply (Hfound u Hu He).
  - intros Hn. apply useCredits2_not_found; assumption.
  - intros u Hu Hlt. apply useCredits2_insufficient; assumption.
  - intros u Hu Hle Hf. apply (useCredits_returns w u n Hh Hk Hu Hle Hf).
Qed.

Lemma hasEnoughCredits_agrees_with_useCredits_witness :
  healthy shop /\ keys_unique shop /\
  (forall u, In u (users shop) -> email u = "a@x.com" -> fits (credits u - 4)) /\
  check_agrees_with_debit CreditUtils.hasEnoughCredits
    CreditUtils.useCredits shop "a@x.com" 4 /\
  check_agrees_with_debit CreditUtils2.hasEnoughCredits
    CreditUtils2.useCredits shop "a@x.com" 4.
Proof.
  assert (Hh : healthy shop) by (repeat split).
  assert (Hk : keys_unique shop)
    by (split; simpl; repeat constructor; simpl; intuition discriminate).
  assert (Hfit : forall u, In u (users shop) -> email u = "a@x.com" ->
                           fits (credits u - 4))
    by (intros u [<- | [<- | []]] _; unfold fits; simpl; lia).
  split; [exact Hh|]. split; [exact Hk|]. split; [exact Hfit|].
  exact (hasEnoughCredits_agrees_with_useCredits shop "a@x.com" 4 Hh Hk Hfit).
Defined.

(** Where the balance left would not fit the column the two disagree: the
    check answers [true] and the debit throws. *)
Example check_passes_and_debit_is_refused :
  fst (CreditUtils2.hasEnoughCredits "a@x.com" (-2147483647) shop) = Returns true /\
  (exists message,
     fst (CreditUtils2.useCredits "a@x.com" (-2147483647) shop) =
     Throws (CreditError message "USE_CREDITS_ERROR")).
Proof. split; [reflexivity | eexists; reflexivity]. Qed.


(** ** Requests the image route refuses before it asks the store *)

(** X25. On every world, the multi-person image route refuses a request
    without asking the store or Replicate for anything, and leaves the
    world as it was, in these cases: with status 500 when the Replicate
    token is not set; and, with the token set, the output directory in
    place and the form read, with status 401 when a password is set and
    the form carries no hash or another hash than that of the password,
    and with status 400 when the password check passes and the form names
    no caller. *)
Theorem replicate_refuses_before_the_store :
  forall (sha256 : string -> string) (env : Replicate.Env)
         (outside : Replicate.Outside) (form : Replicate.Form) (w : World),
    (truthy_text (Replicate.REPLICATE_API_TOKEN env) = false ->
     forall request,
       Replicate.POST sha256 env outside request w =
       (Returns (Replicate.Refusal 500 "Replicate API token not configured"), w)) /\
    (truthy_text (Replicate.REPLICATE_API_TOKEN env) = true ->
     (Replicate.effectiveStorageMode env = Replicate.fs ->
      Replicate.output_dir_error outside = None) ->
     (truthy_text (Replicate.APP_PASSWORD env) = true ->
      Replicate.passwordHash form <>
        Some (sha256 (show_text (Replicate.APP_PASSWORD env))) ->
      exists message,
        Replicate.POST sha256 env outside (Some form) w =
        (Returns (Replicate.Refusal 401 message), w)) /\
     ((truthy_text (Replicate.APP_PASSWORD env) = false \/
       (truthy_text (Replicate.passwordHash form) = true /\
        Replicate.passwordHash form =
          Some (sha256 (show_text (Replicate.APP_PASSWORD env))))) ->
      truthy_text (Replicate.userEmail form) = false ->
      Replicate.POST sha256 env outside (Some form) w =
      (Returns
         (Replicate.Refusal 400
            "User email is required for multi-person coloring pages."), w))).
Proof.
  intros sha256 env outside form w. split.
  - intros Htoken request. unfold Replicate.POST. rewrite Htoken. reflexivity.
  - intros Htoken Hdir.
    assert (Hstart : forall k : Replicate.Form -> M Replicate.Answer,
              ((match Replicate.effectiveStorageMode env with
                | Replicate.fs => Replicate.ensureOutputDirExists outside
                | Replicate.indexeddb => ret tt
                end ;;
                formData <- Replicate.request_formData (Some form) ;;
                k formData) w) = k form w).
    { intros k. unfold Replicate.ensureOutputDirExists.
      destruct (Replicate.effectiveStorageMode env);
        [rewrite (Hdir eq_refl)|]; reflexivity. }
    split.
    + intros Hpw Hhash. unfold Replicate.POST. rewrite Htoken.
      cbv beta iota delta [negb]. unfold try_catch. rewrite Hstart.
      cbv zeta. rewrite Hpw.
      destruct (truthy_text (Replicate.passwordHash form)) eqn:Hthere;
        cbv beta iota delta [negb]; [|eexists; reflexivity].
      destruct (text_is (Replicate.passwordHash form)
                  (sha256 (show_text (Replicate.APP_PASSWORD env)))) eqn:Hsame;
        cbv beta iota delta [negb]; [|eexists; reflexivity].
      exfalso. apply Hhash.
      destruct (Replicate.passwordHash form) as [h|]; [|discriminate].
      simpl in Hsame. apply String.eqb_eq in Hsame. congruence.
    + intros Hpass Hnone. unfold Replicate.POST. rewrite Htoken.
      cbv beta iota delta [negb]. unfold try_catch. rewrite Hstart.
      cbv zeta.
      destruct Hpass as [Hpw | [Hthere Hhash]].
      * rewrite Hpw. cbv beta iota.
        destruct (Replicate.userEmail form) as [[|c s]|]; try discriminate;
          reflexivity.
      * rewrite Hthere, Hhash. cbn [text_is negb]. rewrite String.eqb_refl.
        destruct (truthy_text (Replicate.APP_PASSWORD env)); cbv beta iota;
          (destruct (Replicate.userEmail form) as [[|c s]|]; try discriminate;
           reflexivity).
Qed.

(** ** Sign-up without a password *)

(** X26. On every world, whatever the store does, [signUpUser] without a
    password, or with an empty one, registers nothing and writes nothing:
    the auth directory and both tables are as they were, and an identifier
    it returns is that of a ledger account that carries the email.  Both
    revisions of the ledger. *)
Theorem signUpUser_without_password :
  forall (w : World) (e : string) (password : option string),
    truthy_text password = false ->
    looks_up_only CreditUtils.signUpUser w e password /\
    looks_up_only CreditUtils2.signUpUser w e password.
Proof.
  intros w e password Hpw.
  assert (H1 : ends_in
                 ((existingUser <- CreditUtils.getUserByEmail e ;;
                   ret (CreditUtils.id_or_null existingUser)) w)
                 (fun o w' =>
                    but_outages w w' /\
                    forall i, o = Returns (Some i) ->
                      exists u, In u (users w) /\ email u = e /\ id u = i)).
  { apply ends_bind, ends_getUserByEmail. intros w0 Hw0. cbv beta iota.
    split; [|split].
    - intros err. split; [exact Hw0 | discriminate].
    - apply ends_ret. split; [exact Hw0 | discriminate].
    - intros u Hf. apply ends_ret. split; [exact Hw0|].
      intros i Hi. injection Hi as Hi.
      destruct (id u =? "")%string; [discriminate|]. injection Hi as Hid.
      destruct (filter_single _ _ _ Hf) as [Hu He].
      unfold by_email in He. apply String.eqb_eq in He.
      exists u. auto. }
  assert (H2 : ends_in
                 ((existingUser <- CreditUtils2.getUserByEmail e ;;
                   ret (CreditUtils2.id_or_null existingUser)) w)
                 (fun o w' =>
                    but_outages w w' /\
                    forall i, o = Returns (Some i) ->
                      exists u, In u (users w) /\ email u = e /\ id u = i)).
  { apply ends_bind, ends_getUserByEmail2. intros w0 Hw0. cbv beta iota.
    split; [|split].
    - intros err. split; [exact Hw0 | discriminate].
    - intros _. apply ends_ret. split; [exact Hw0 | discriminate].
    - intros u rest Hf. apply ends_ret. split; [exact Hw0|].
      intros i Hi. injection Hi as Hi.
      destruct (id u =? "")%string; [discriminate|]. injection Hi as Hid.
      destruct (filter_first _ _ _ _ Hf) as [Hu He].
      unfold by_email in He. apply String.eqb_eq in He.
      exists u. auto. }
  apply ends_in_exists in H1. apply ends_in_exists in H2.
  unfold looks_up_only, CreditUtils.signUpUser, CreditUtils2.signUpUser.
  destruct password as [[|c s]|]; try discriminate; split; assumption.
Qed.

Lemma signUpUser_without_password_witness :
  truthy_text None = false /\
  looks_up_only CreditUtils.signUpUser shop_down "a@x.com" None /\
  looks_up_only CreditUtils2.signUpUser shop "a@x.com" None.
Proof.
  assert (Hpw : truthy_text None = false) by reflexivity.
  split; [exact Hpw|].
  split.
  - exact (proj1 (signUpUser_without_password shop_down "a@x.com" None Hpw)).
  - exact (proj2 (signUpUser_without_password shop "a@x.com" None Hpw)).
Defined.

(** ** From a payment to the multi-person feature *)

(** X27. Against a healthy store that keeps its key constraints, on a host
    of our days, once the GrooveSell handler has processed a payment above
    zero for a product of its table and for an account whose balance is
    not negative and leaves room for the credits of the product in the
    INTEGER column, the checks of the multi-person image route give what
    the product bought: the check for two credits passes, and the tier
    check passes for the standard and the premium product and fails for
    the basic one. *)
Theorem payment_opens_multi_person :
  forall (w : World) (u : User) (body : Body)
         (t : SubscriptionTier) (n : Z) (p : SubscriptionType),
    healthy w -> keys_unique w -> ordinary_host w -> In u (users w) ->
    0 <= credits u -> fits (credits u + n) ->
    groovesell_paid body (email u) t n p ->
    payment_opens w u body t.
Proof.
  intros w u body t n p Hh Hk Hhost Hu Hpos Hfit Hpay.
  destruct (expiry_on_ordinary_host w (Some p) Hhost) as (x & Hx & _).
  assert (Hn : 5 <= n <= 360).
  { destruct Hpay as (_ & _ & (productId & m & y & _ & Htable & Hnp) & _).
    destruct Htable as [(_ & _ & -> & ->) | [(_ & _ & -> & ->) | (_ & _ & -> & ->)]];
      destruct Hnp as [(_ & -> & _) | (_ & -> & _)]; lia. }
  assert (Hfitn : fits n) by (unfold fits; lia).
  pose proof (GrooveSell_payment_run w u body t n p x Hh Hk Hu Hfit Hfitn Hx Hpay)
    as Hrun.
  pose proof (GrooveSell_payment_row w u n p x t Hk Hu) as Hrow.
  set (u' := with_tier (Some t) (now w)
               (topped_up n (Some p) x (now w) u)) in *.
  match type of Hrun with _ = (_, ?W) => set (w' := W) in * end.
  assert (Hus : users w' = replace_row (id u) u' (users w)) by exact Hrow.
  destruct (keys_unique_replaced w w' u u' Hk Hu eq_refl eq_refl Hus)
    as [Hk' Hu'].
  destruct Hh as (Ho & Ha & Hd).
  assert (Ho' : outages w' = []) by exact Ho.
  assert (Ha' : anon_client w' = true) by exact Ha.
  eexists _, w'. split; [exact Hrun|]. split; [reflexivity|].
  change (email u) with (email u').
  split.
  - rewrite (canAccessMultiplePhotos_found w' u' Ho' Ha' Hk' Hu').
    cbn [subscription_tier u' with_tier].
    destruct t; reflexivity.
  - rewrite (hasEnoughCredits2_found w' u' 2 Ho' Ha' Hk' Hu').
    cbn [credits u' with_tier topped_up].
    destruct (Z.geb_spec (credits u + n) 2); [reflexivity | lia].
Qed.

Lemma payment_opens_multi_person_witness :
  healthy shop /\ keys_unique shop /\ ordinary_host shop /\
  In alice (users shop) /\
  0 <= credits alice /\ fits (credits alice + 360) /\
  groovesell_paid yearly_payment (email alice) premium 360 yearly /\
  payment_opens shop alice yearly_payment premium.
Proof.
  assert (Hh : healthy shop) by (repeat split).
  assert (Hk : keys_unique shop)
    by (split; simpl; repeat constructor; simpl; intuition discriminate).
  assert (Hu : In alice (users shop)) by (simpl; auto).
  assert (Hpos : 0 <= credits alice) by (simpl; lia).
  assert (Hfit : fits (credits alice + 360)) by (unfold fits; simpl; lia).
  split; [exact Hh|]. split; [exact Hk|]. split; [exact shop_ordinary_host|].
  split; [exact Hu|]. split; [exact Hpos|]. split; [exact Hfit|].
  split; [exact yearly_payment_groovesell|].
  exact (payment_opens_multi_person shop alice yearly_payment premium 360 yearly
           Hh Hk shop_ordinary_host Hu Hpos Hfit yearly_payment_groovesell).
Defined.
